(* ===== verification/_CoqProject ===== *)
-Q . S2P
Prelude.v
Text.v
Channel.v
Messages.v
WireCodecs.v
OutboundQueue.v
Config.v
DeliveryLog.v
ChannelClaims.v
Subscribers.v
SubscriberWs.v
Connections.v
SubKit.v
Float64.v
Backoff.v
Client.v
EndToEnd.v
Recovery.v
TokenStore.v
Credentials.v
DispatchWindow.v
ExtensionProcess.v
AppState.v
ExtensionStart.v
Supervision.v
Dispatch.v
Ingest.v
ExtKit.v
Session.v
FakeExt.v
Lifecycle.v
Startup.v
ExtHmac.v
ExtTeams.v
ShippedExts.v
Metrics.v
Scrape.v
Cli.v
ControlPlane.v
TestSupport.v
Revocation.v
Pipeline.v
Delivery.v
