(* ===== verification/Prelude.v ===== *)
(** * whdr: a verification development

    whdr is a webhook router.  Providers post webhooks to the ingest plane of
    the daemon; the first path segment selects an extension process, which
    answers the request and may emit events on channels it owns; the daemon
    stamps the events, optionally persists them, and fans them out to
    subscribers over WebSockets; a client library resumes from a cursor.

    ** Files

    Each file models one or a few source files and follows their function and
    type names.
    - Prelude.v: results, machine integers, ordered and unordered map
      iteration, automation.  Text.v: the [str] operations the sources use.
    - Channel.v ([whdr-proto/channel.rs]): the NATS-style channel grammar and
      matcher.  Messages.v ([messages.rs], [ndjson.rs]): the wire messages and
      the line framing.  WireCodecs.v: a concrete codec for every message, for
      the witnesses.
    - OutboundQueue.v, Subscribers.v, SubscriberWs.v, DeliveryLog.v (the files
      of the same names in [whdr-server]): the queue of a connection, the
      registry with its fan-out, the connection task, the durable log.
      Connections.v: all of them in any interleaving, on one registry.
    - SubKit.v ([whdr-sub-kit]): the client's connections and sessions.
      Float64.v and Backoff.v: its reconnect delays, in double precision.
      Client.v: the builder, the upgrade request, [Client::run] with its delays.
      EndToEnd.v composes log, replay window, live queue and client; Recovery.v
      runs that composition through broken sessions, restarts and prunes.
    - Config.v, TokenStore.v ([config.rs], [token_store.rs],
      [token_control.rs], the requests of [control_plane.rs]): configuration and
      credentials.  Credentials.v: handshakes, token commands and reloads, one
      critical section a step.
    - ChannelClaims.v, ExtensionProcess.v, DispatchWindow.v
      ([channel_claims.rs], [extension_process.rs],
      [extension_registration.rs], [dispatch_window.rs]).  ExtensionStart.v: a
      start with its child process.
    - AppState.v, Supervision.v, Dispatch.v, Session.v, Lifecycle.v, Startup.v
      (all of [daemon.rs]): the shared state with each critical section as a function;
      the tasks that run the sections, interleaved; the calls and the reader of
      an extension; the writer task and whole sessions over the two pipes; the
      drain, the supervisor's select, the signals and the shutdown; the daemon
      from its [main] and configuration file to the terminating signal.
    - Ingest.v ([ingest.rs]), Metrics.v ([metrics.rs] and [status_json]),
      Scrape.v (a reader of what it serves), Cli.v
      ([whdr-cli/main.rs]), ControlPlane.v (the socket of [control_plane.rs], and
      a run of the command line on it).
    - ExtKit.v ([whdr-ext-kit], [whdr-ext-dev], [whdr-ext-github]), ExtHmac.v,
      ExtTeams.v: the extension processes; ShippedExts.v: their [main]s, and the
      daemon that starts them; FakeExt.v: the scriptable extension of the system
      tests ([whdr-ext-fake.rs]); TestSupport.v: their harness
      ([whdr-test-support]).
    - Compositions: Pipeline.v, a request from the call to the fan-out;
      Delivery.v, on to the handler of a client; Revocation.v, from the command
      line to the clients of a revoked name.

    ** State and concurrency

    A lock-protected section is a function on the state behind the lock.  Where
    threads interleave, a step is one atomic access (DispatchWindow.v) or one
    critical section (Supervision.v, Connections.v, the two phases of a fan-out
    in Subscribers.v, the three reads of a replay in SubscriberWs.v), and the
    theorems quantify over all sequences of steps.  Objects shared by
    reference (queues, close signals) live in the [Heap] of Subscribers.v, the
    atomics of an extension in [Counters].  [HashMap] iteration goes through the
    class [HashOrder], an order nothing is known of.

    ** What is outside

    Code that is not in the repository is a parameter or a class with its
    documented laws: [serde_json] ([Wire], [WireLaws]), the embedded database
    ([Redb], [RedbLaws]), the TOML codec, SHA-256 and the HMACs, hex and base64
    ([Codec], [CodecLaws]), the checks of the [http] crate, the file system, the
    clock, random generators and the network.  Concrete instances ([BitCodec],
    [MemDb], [HexCodec], [DemoToml]) show that the laws can hold.

    ** What the theorems show

    - Delivery: a resuming client handles every event past its cursor exactly
      once and in order (EndToEnd.v), through broken sessions, restarts of either
      side and pruning (Recovery.v), from gapless numbering, atomic appends,
      exact replay and prune of the log (DeliveryLog.v), exact fan-out
      (Subscribers.v), the contents of the replay window and the silence before
      a lag notice (SubscriberWs.v), and the client's loop (SubKit.v); the queue
      accounts for every event and stays in its budgets (OutboundQueue.v).
      Under any interleaving no connection gets another's frames or another's
      closing, and none outlives its task in the registry (Connections.v).
      [Client::run] is the client's loop with the documented delays, and the
      two ends of the handshake agree on who gets in (Client.v).
    - Namespaces: registration accepts exactly disjoint claims and emission is
      exclusive (ChannelClaims.v).
    - Extensions: the registry survives every interleaving of starts, exits,
      drains and reloads and leaks nothing; the section-by-section tasks refine
      the sequential operations (Supervision.v); respawns are rate limited, a
      start pass accounts for every candidate, clean-up redirects requests
      (AppState.v); the dispatch window is bounded and correlates results
      (DispatchWindow.v); readers and hang kills stop at their thresholds
      (Dispatch.v); a session over the pipes answers every waiting call with its
      own handler's result (Session.v); every HTTP answer is accounted for
      (Ingest.v).
    - Stopping: a drain stop ends in bounded time, a shutdown reaches every
      supervisor and connection unless a command channel is full (Lifecycle.v),
      and what registers after it was already being started (Supervision.v).
      Through all reloads the daemon runs under a safe configuration read in full
      from its file (Startup.v).
    - Credentials: the store file is replaced atomically (TokenStore.v), what a
      token command prints is what took effect (ControlPlane.v), a revocation
      stops every client of its name (Revocation.v), a reload closes exactly the
      changed ones (AppState.v), and in any interleaving without a race between
      a check and a change, every open connection holds a current credential or
      is being closed (Credentials.v).
    - Extension processes: signed bodies and only those are published
      (ExtKit.v, ExtHmac.v), from the HTTP request to the queues of exactly
      the matching connections (Pipeline.v) and to the handlers of their clients
      (Delivery.v); channels are owned (ExtHmac.v), batches are all or nothing
      (ExtTeams.v).  A start leaves no orphan process (ExtensionStart.v); the
      shipped extensions all start, in any order (ShippedExts.v); answers out of
      order reach the calls they belong to (FakeExt.v).
    - Round trips: framing, log reopen, percent decoding, the responses the test
      harness reads (TestSupport.v), and the metrics: a scraper reads the state of
      the daemon, whatever its extensions and subscribers are called (Scrape.v).

    The lemmas that end a file after its witnesses exhibit inputs on which the
    code does not do what its documents say; they are part of the model's
    record of the program.

    ** Bounds and fuel

    Loops over received data recurse on the data, or have as fuel its length
    ([await_welcome], [session_loop], [decode_chunks]: [decode_chunks_fuel]).
    [octal_digits] has fuel 64, more digits than a file mode has; the prune loop
    recurses on the rows left; [solo] runs of a task need at most 16 sections,
    which [tasks_refine_operations] proves.  [u64] and [usize] are integers with
    [wrap64] at every plain addition, and theorems about counters assume fewer
    than 2^64 operations where they need it.

    ** Not modelled

    The sockets of the HTTP planes, timers and argument parsing in [daemon.rs]
    and the [main.rs] files, and what is logged; what the operating system
    answers (a bind, an accept, a spawn, a signal) is an input.  The sign of zero
    of a double.  The clients in other languages.  In Supervision.v the
    reads of [should_respawn] are one step, and the wait for a drain is not a
    step: a clean-up may start at any time (Lifecycle.v has the wait).  In
    Recovery.v every append is acknowledged, fan-outs do not overlap, no prune
    runs inside a replay and no daemon restarts on a fully pruned log: what
    happens otherwise is at the end of EndToEnd.v, SubscriberWs.v and
    DeliveryLog.v. *)

From stdpp Require Export prelude gmap strings list sorting pretty.
From Stdlib Require Export ZArith Lia.

(** ** Results

    Rust's [Result<A, E>], with the monad notations of stdpp ([x ← m; k]). *)

Inductive result (E A : Type) : Type :=
  | Ok (a : A)
  | Err (e : E).
Arguments Ok {E A} a.
Arguments Err {E A} e.

#[global] Instance result_ret {E} : MRet (result E) := λ A a, Ok a.
#[global] Instance result_bind {E} : MBind (result E) := λ A B f r,
  match r with Ok a => f a | Err e => Err e end.
#[global] Instance result_fmap {E} : FMap (result E) := λ A B f r,
  match r with Ok a => Ok (f a) | Err e => Err e end.

#[global] Instance result_eq_dec {E A} `{EqDecision E, EqDecision A} :
  EqDecision (result E A).
Proof. solve_decision. Defined.

(** [Result::is_ok], [Result::ok], [Result::map_err], [Result::unwrap_or],
    [Option::ok_or]. *)
Definition is_ok {E A} (r : result E A) : bool :=
  match r with Ok _ => true | Err _ => false end.
Definition to_option {E A} (r : result E A) : option A :=
  match r with Ok a => Some a | Err _ => None end.
Definition map_err {E F A} (f : E → F) (r : result E A) : result F A :=
  match r with Ok a => Ok a | Err e => Err (f e) end.
Definition unwrap_or {E A} (d : A) (r : result E A) : A :=
  match r with Ok a => a | Err _ => d end.
Definition ok_or {E A} (e : E) (o : option A) : result E A :=
  match o with Some a => Ok a | None => Err e end.

Lemma result_bind_Ok {E A B} (m : result E A) (f : A → result E B) b :
  (m ≫= f) = Ok b ↔ ∃ a, m = Ok a ∧ f a = Ok b.
Proof. destruct m; naive_solver. Qed.

Lemma result_bind_Err {E A B} (m : result E A) (f : A → result E B) e :
  (m ≫= f) = Err e ↔ m = Err e ∨ ∃ a, m = Ok a ∧ f a = Err e.
Proof. destruct m; naive_solver. Qed.

Lemma map_err_Ok {E F A} (f : E → F) (r : result E A) a : map_err f r = Ok a ↔ r = Ok a.
Proof. destruct r; naive_solver. Qed.

Lemma is_ok_Ok {E} (r : result E ()) : is_ok r = true ↔ r = Ok ().
Proof. destruct r as [[]|]; naive_solver. Qed.

(** [for x in l { body(x)? }]: a loop whose body may return early with an error. *)
Fixpoint for_each {E A} (body : A → result E ()) (l : list A) : result E () :=
  match l with
  | [] => Ok ()
  | x :: rest => _ ← body x; for_each body rest
  end.

Lemma for_each_Ok {E A} (body : A → result E ()) l :
  for_each body l = Ok () ↔ ∀ x, x ∈ l → body x = Ok ().
Proof.
  induction l as [|x l IH]; [set_solver|]. cbn [for_each]. rewrite result_bind_Ok. split.
  - intros ([] & Hx & Hl) y [->|Hy]%elem_of_cons; [done|]. by apply IH.
  - intros Hall. exists (). split; [apply Hall; set_solver|]. apply IH. set_solver.
Qed.

(** ** Machine integers

    [u64] and (on the 64-bit targets of the project) [usize] values are
    integers in [[0, 2^64)].  Plain [+] and the atomics' [fetch_add] wrap (the
    workspace's release profile has no overflow checks). *)

Definition u64_max : Z := 2 ^ 64 - 1.
Definition wrap64 (z : Z) : Z := z mod 2 ^ 64.
Definition is_u64 (z : Z) : Prop := (0 ≤ z < 2 ^ 64)%Z.
Definition saturating_add (a b : Z) : Z := Z.min (a + b) u64_max.
Definition saturating_sub (a b : Z) : Z := Z.max (a - b) 0.
Definition saturating_mul (a b : Z) : Z := Z.min (a * b) u64_max.

Lemma wrap64_small z : is_u64 z → wrap64 z = z.
Proof. intros; apply Z.mod_small; done. Qed.
Lemma wrap64_range z : is_u64 (wrap64 z).
Proof. apply Z.mod_pos_bound; lia. Qed.
Lemma wrap64_add_l a b : wrap64 (wrap64 a + b) = wrap64 (a + b).
Proof. unfold wrap64. by rewrite Zplus_mod_idemp_l. Qed.
Lemma wrap64_add_r a b : wrap64 (a + wrap64 b) = wrap64 (a + b).
Proof. unfold wrap64. by rewrite Zplus_mod_idemp_r. Qed.

(** Lengths are [usize]s. *)
Definition len {A} (l : list A) : Z := Z.of_nat (length l).
Definition slen (s : string) : Z := Z.of_nat (String.length s).

Lemma len_nonneg {A} (l : list A) : (0 ≤ len l)%Z.
Proof. unfold len; lia. Qed.
Lemma slen_nonneg s : (0 ≤ slen s)%Z.
Proof. unfold slen; lia. Qed.
Lemma len_app {A} (l k : list A) : len (l ++ k) = (len l + len k)%Z.
Proof. unfold len; rewrite length_app; lia. Qed.
Lemma len_cons {A} (a : A) l : len (a :: l) = (1 + len l)%Z.
Proof. unfold len; simpl; lia. Qed.

(** Filtering by a predicate all, or none, of the elements have. *)
Lemma filter_all {A} (P : A → Prop) `{∀ x, Decision (P x)} l : Forall P l → filter P l = l.
Proof. induction 1 as [|x l Hx _ IH]; [done|]. by rewrite filter_cons_True, IH. Qed.
Lemma Forall_filtered {A} (Q P : A → Prop) `{∀ x, Decision (P x)} l :
  Forall Q l → Forall Q (filter P l).
Proof.
  intros Hl. apply Forall_forall. intros x [_ Hx]%list_elem_of_filter.
  rewrite Forall_forall in Hl. auto.
Qed.
Lemma filter_none {A} (P : A → Prop) `{∀ x, Decision (P x)} l :
  Forall (λ x, ¬ P x) l → filter P l = [].
Proof. induction 1 as [|x l Hx _ IH]; [done|]. by rewrite filter_cons_False. Qed.

Lemma StronglySorted_filter {A} (R : A → A → Prop) (P : A → Prop) `{∀ x, Decision (P x)} l :
  StronglySorted R l → StronglySorted R (filter P l).
Proof.
  induction 1 as [|x l _ IH Hx]; [constructor|]. rewrite filter_cons. case_decide; [|done].
  constructor; [done|]. by apply Forall_filtered.
Qed.

Lemma StronglySorted_snoc_le (l : list Z) x :
  StronglySorted Z.le l → Forall (λ y, y ≤ x)%Z l → StronglySorted Z.le (l ++ [x]).
Proof.
  intros Hs Hall. induction Hs as [|y l _ IH Hy]; [by repeat constructor|].
  apply Forall_cons in Hall as [Hyx Hall]. cbn [app]. constructor; [by apply IH|].
  apply Forall_app. split; [done|]. by constructor.
Qed.

Create HintDb whdr.
#[export] Hint Resolve len_nonneg slen_nonneg wrap64_range : whdr.
#[export] Hint Rewrite @len_app @len_cons wrap64_add_l wrap64_add_r : whdr.

(** Case analysis on the tests of a translated guard. *)
Ltac case_bool :=
  match goal with
  | |- context [match ?b with _ => _ end] =>
      match type of b with bool => destruct b eqn:? end
  | H : context [match ?b with _ => _ end] |- _ =>
      match type of b with bool => destruct b eqn:? end
  end.

(** Turn boolean hypotheses about integers and connectives into propositions. *)
Ltac bool_to_prop :=
  repeat match goal with
  | H : (_ && _)%bool = true |- _ => apply andb_true_iff in H as [? ?]
  | H : (_ || _)%bool = false |- _ => apply orb_false_iff in H as [? ?]
  | H : negb _ = true |- _ => apply negb_true_iff in H
  | H : negb _ = false |- _ => apply negb_false_iff in H
  | H : (_ <? _)%Z = true |- _ => apply Z.ltb_lt in H
  | H : (_ <? _)%Z = false |- _ => apply Z.ltb_ge in H
  | H : (_ <=? _)%Z = true |- _ => apply Z.leb_le in H
  | H : (_ <=? _)%Z = false |- _ => apply Z.leb_gt in H
  | H : (_ =? _)%Z = true |- _ => apply Z.eqb_eq in H
  | H : (_ =? _)%Z = false |- _ => apply Z.eqb_neq in H
  | H : bool_decide _ = true |- _ => apply bool_decide_eq_true in H
  | H : bool_decide _ = false |- _ => apply bool_decide_eq_false in H
  end.

(** ** Ordered iteration

    A Rust [BTreeMap<String, V>] is a finite map whose iterators are in
    ascending (bytewise) key order; [btree_iter] is [BTreeMap::iter]. *)

Definition key_le {V} (p q : string * V) : Prop := String.le p.1 q.1.
#[global] Instance key_le_dec {V} : RelDecision (@key_le V).
Proof. intros p q. unfold key_le. apply _. Defined.
#[global] Instance key_le_total {V} : Total (@key_le V).
Proof. intros p q. unfold key_le. apply (total String.le). Qed.
#[global] Instance key_le_trans {V} : Transitive (@key_le V).
Proof. intros p q r. unfold key_le. apply transitivity. Qed.

Definition btree_iter {V} (m : gmap string V) : list (string * V) :=
  merge_sort key_le (map_to_list m).

Lemma btree_iter_perm {V} (m : gmap string V) : btree_iter m ≡ₚ map_to_list m.
Proof. apply merge_sort_Permutation. Qed.

Lemma elem_of_btree_iter {V} (m : gmap string V) k v :
  (k, v) ∈ btree_iter m ↔ m !! k = Some v.
Proof. by rewrite btree_iter_perm, elem_of_map_to_list. Qed.

Lemma btree_iter_sorted {V} (m : gmap string V) : StronglySorted key_le (btree_iter m).
Proof. apply (StronglySorted_merge_sort _). Qed.

Lemma NoDup_btree_iter {V} (m : gmap string V) : NoDup (btree_iter m).*1.
Proof. rewrite btree_iter_perm. apply NoDup_fst_map_to_list. Qed.

(** ** Hash maps

    A Rust [HashMap<K, V>] is a finite map whose iteration order is not
    specified: the components that iterate over one do so in an order
    [hash_iter] they know nothing of but that it visits each entry once. *)

Class HashOrder : Type := {
  hash_iter {K V : Type} `{Countable K} : gmap K V → list (K * V);
  hash_iter_perm {K V : Type} `{Countable K} (m : gmap K V) : hash_iter m ≡ₚ map_to_list m
}.

Section hash_iter.
Context `{HashOrder} {K V : Type} `{Countable K}.
Implicit Types m : gmap K V.

Lemma elem_of_hash_iter m k v : (k, v) ∈ hash_iter m ↔ m !! k = Some v.
Proof. by rewrite hash_iter_perm, elem_of_map_to_list. Qed.

Lemma NoDup_hash_iter m : NoDup (hash_iter m).*1.
Proof. rewrite hash_iter_perm. apply NoDup_fst_map_to_list. Qed.

Lemma length_filter_hash_iter (P : V → Prop) `{∀ v, Decision (P v)} m :
  length (filter (λ kv : K * V, P kv.2) (hash_iter m)) =
  size (filter (λ kv : K * V, P kv.2) m).
Proof.
  rewrite hash_iter_perm, <- length_map_to_list. apply Permutation_length, NoDup_Permutation.
  - apply NoDup_filter, NoDup_map_to_list.
  - apply NoDup_map_to_list.
  - intros [k v]. rewrite list_elem_of_filter, !elem_of_map_to_list, map_lookup_filter_Some.
    simpl. tauto.
Qed.

Lemma length_hash_iter m : length (hash_iter m) = size m.
Proof. by rewrite hash_iter_perm, length_map_to_list. Qed.
End hash_iter.

(** One such order, for concrete examples. *)
Definition some_order : HashOrder := {|
  hash_iter K V _ _ m := map_to_list m;
  hash_iter_perm K V _ _ m := reflexivity (map_to_list m)
|}.
