(* ===== verification/Text.v ===== *)
(** * Text: the string operations of the Rust standard library

    A Rust [String]/[&str] is its UTF-8 byte sequence, here a Rocq [string]
    (a sequence of bytes).  This file translates the [str] and [u8] methods the
    sources call: [bytes().all], [split(char)], [join], [strip_prefix],
    [starts_with], [trim_matches], [trim], [replace], [chars], the ASCII
    classes and case folding, with the lemmas the components share. *)

From S2P Require Import Prelude.
From Stdlib Require Import Ascii.

(** ** Bytes *)

Definition byte_val (b : ascii) : nat := nat_of_ascii b.
Definition byte_between (lo hi : nat) (b : ascii) : bool :=
  Nat.leb lo (byte_val b) && Nat.leb (byte_val b) hi.
Definition is_ascii_lowercase : ascii → bool := byte_between 97 122.
Definition is_ascii_uppercase : ascii → bool := byte_between 65 90.
Definition is_ascii_digit : ascii → bool := byte_between 48 57.
Definition is_ascii_alphanumeric (b : ascii) : bool :=
  is_ascii_lowercase b || is_ascii_uppercase b || is_ascii_digit b.
Definition byte_to_ascii_lowercase (b : ascii) : ascii :=
  if is_ascii_uppercase b then ascii_of_nat (byte_val b + 32) else b.

(** ** Whole-string tests *)

Definition is_empty (s : string) : bool :=
  match s with EmptyString => true | _ => false end.

Fixpoint bytes_all (p : ascii → bool) (s : string) : bool :=
  match s with
  | EmptyString => true
  | String a s' => p a && bytes_all p s'
  end.

Definition contains_byte (c : ascii) (s : string) : bool :=
  negb (bytes_all (λ b, negb (Ascii.eqb b c)) s).

Fixpoint map_bytes (f : ascii → ascii) (s : string) : string :=
  match s with
  | EmptyString => EmptyString
  | String a s' => String (f a) (map_bytes f s')
  end.

Definition to_ascii_lowercase : string → string := map_bytes byte_to_ascii_lowercase.
Definition eq_ignore_ascii_case (s t : string) : bool :=
  String.eqb (to_ascii_lowercase s) (to_ascii_lowercase t).

(** ** Splitting and joining *)

Fixpoint split_on (c : ascii) (s : string) : list string :=
  match s with
  | EmptyString => [EmptyString]
  | String a s' =>
      if Ascii.eqb a c then EmptyString :: split_on c s'
      else match split_on c s' with
           | t :: ts => String a t :: ts
           | [] => [String a EmptyString]
           end
  end.

Fixpoint join (c : ascii) (ts : list string) : string :=
  match ts with
  | [] => EmptyString
  | [t] => t
  | t :: ts' => t +:+ String c (join c ts')
  end.

(** [str::split_once(char)]. *)
Fixpoint split_once (c : ascii) (s : string) : option (string * string) :=
  match s with
  | EmptyString => None
  | String a s' =>
      if Ascii.eqb a c then Some (EmptyString, s')
      else match split_once c s' with
           | Some (l, r) => Some (String a l, r)
           | None => None
           end
  end.

Fixpoint strip_prefix (p s : string) : option string :=
  match p, s with
  | EmptyString, _ => Some s
  | String a p', String b s' => if Ascii.eqb a b then strip_prefix p' s' else None
  | String _ _, EmptyString => None
  end.

Definition starts_with (p s : string) : bool :=
  match strip_prefix p s with Some _ => true | None => false end.

(** [str::replace] for a non-empty pattern: left to right, not overlapping. *)
Fixpoint replace_go (pat rep : string) (skip : nat) (s : string) : string :=
  match s with
  | EmptyString => EmptyString
  | String a s' =>
      match skip with
      | S k => replace_go pat rep k s'
      | O => if starts_with pat s
             then rep +:+ replace_go pat rep (String.length pat - 1) s'
             else String a (replace_go pat rep 0 s')
      end
  end.
Definition replace (pat rep s : string) : string := replace_go pat rep 0 s.

(** ** Trimming *)

(** [trim_start_matches] / [trim_end_matches] / [trim_matches] for an ASCII
    character: byte level and character level agree. *)
Fixpoint trim_start_matches (c : ascii) (s : string) : string :=
  match s with
  | EmptyString => EmptyString
  | String a s' => if Ascii.eqb a c then trim_start_matches c s' else s
  end.

Fixpoint trim_end_matches (c : ascii) (s : string) : string :=
  match s with
  | EmptyString => EmptyString
  | String a s' =>
      match trim_end_matches c s' with
      | EmptyString => if Ascii.eqb a c then EmptyString else String a EmptyString
      | t => String a t
      end
  end.

Definition trim_matches (c : ascii) (s : string) : string :=
  trim_end_matches c (trim_start_matches c s).

(** ** Characters

    A [char] of a UTF-8 string is represented by its encoding: a lead byte
    followed by its continuation bytes ([10xxxxxx]). *)

Definition is_continuation : ascii → bool := byte_between 128 191.

Definition push_byte (a : ascii) (cs : list string) : list string :=
  match cs with
  | String b c :: cs' =>
      if is_continuation b then String a (String b c) :: cs'
      else String a EmptyString :: cs
  | _ => String a EmptyString :: cs
  end.

Fixpoint chars (s : string) : list string :=
  match s with
  | EmptyString => []
  | String a s' => push_byte a (chars s')
  end.

Definition concat_chars : list string → string := foldr String.append EmptyString.

(** [char::is_whitespace]: the Unicode [White_Space] characters. *)
Definition of_bytes (bs : list nat) : string :=
  foldr (λ n s, String (ascii_of_nat n) s) EmptyString bs.

Definition white_space : list string :=
  of_bytes <$> ([[9]; [10]; [11]; [12]; [13]; [32]; [194; 133]; [194; 160];
    [225; 154; 128]; [226; 128; 168]; [226; 128; 169]; [226; 128; 175];
    [226; 129; 159]; [227; 128; 128]]
    ++ ((λ n, [226; 128; n]) <$> seq 128 11)).

Definition is_whitespace (c : string) : bool := bool_decide (c ∈ white_space).

Fixpoint drop_while {A} (p : A → bool) (l : list A) : list A :=
  match l with
  | [] => []
  | a :: l' => if p a then drop_while p l' else l
  end.

Definition trim_list {A} (p : A → bool) (l : list A) : list A :=
  reverse (drop_while p (reverse (drop_while p l))).

(** [str::trim]. *)
Definition trim (s : string) : string :=
  concat_chars (trim_list is_whitespace (chars s)).

(** ** Lemmas *)

Lemma string_app_nil_l s : EmptyString +:+ s = s.
Proof. done. Qed.
Lemma string_app_cons a s t : String a s +:+ t = String a (s +:+ t).
Proof. done. Qed.
Lemma string_app_nil_r s : s +:+ EmptyString = s.
Proof. induction s as [|a s IH]; [done|]. by rewrite string_app_cons, IH. Qed.
Lemma string_app_assoc s t u : s +:+ (t +:+ u) = (s +:+ t) +:+ u.
Proof. induction s as [|a s IH]; [done|]. by rewrite !string_app_cons, IH. Qed.
#[export] Hint Rewrite string_app_nil_l string_app_nil_r string_app_cons : whdr.

Lemma slen_app s t : slen (s +:+ t) = (slen s + slen t)%Z.
Proof.
  unfold slen. induction s as [|a s IH]; [done|].
  rewrite string_app_cons. simpl. lia.
Qed.

Lemma slength_app s t : String.length (s +:+ t) = (String.length s + String.length t)%nat.
Proof. pose proof (slen_app s t) as Happ. unfold slen in Happ. lia. Qed.

Lemma is_empty_true s : is_empty s = true ↔ s = EmptyString.
Proof. by destruct s. Qed.

Lemma is_empty_false s : is_empty s = false ↔ s ≠ EmptyString.
Proof. by destruct s. Qed.

Lemma bytes_all_app p s t : bytes_all p (s +:+ t) = bytes_all p s && bytes_all p t.
Proof.
  induction s as [|a s IH]; [done|].
  rewrite string_app_cons. simpl. rewrite IH. by rewrite andb_assoc.
Qed.

Lemma bytes_all_impl (p q : ascii → bool) s :
  (∀ b, p b = true → q b = true) → bytes_all p s = true → bytes_all q s = true.
Proof.
  intros Hpq. induction s as [|a s IH]; [done|]; simpl.
  intros [Ha Hs]%andb_true_iff. by rewrite (Hpq _ Ha), (IH Hs).
Qed.

Lemma contains_byte_app c s t :
  contains_byte c (s +:+ t) = contains_byte c s || contains_byte c t.
Proof. unfold contains_byte. rewrite bytes_all_app. by destruct (bytes_all _ s). Qed.

Lemma contains_byte_cons c a s :
  contains_byte c (String a s) = Ascii.eqb a c || contains_byte c s.
Proof. unfold contains_byte. simpl. by destruct (Ascii.eqb a c). Qed.

(** [bytes_all p] excludes a separator that fails [p]. *)
Lemma bytes_all_not_contains p c s :
  p c = false → bytes_all p s = true → contains_byte c s = false.
Proof.
  intros Hc. induction s as [|a s IH]; [done|]; simpl.
  intros [Ha Hs]%andb_true_iff. rewrite contains_byte_cons, (IH Hs), orb_false_r.
  destruct (Ascii.eqb_spec a c); [congruence|done].
Qed.

Lemma split_on_not_nil c s : split_on c s ≠ [].
Proof. destruct s as [|a s]; [done|]; simpl. repeat case_match; done. Qed.

Lemma split_on_single c s : contains_byte c s = false → split_on c s = [s].
Proof.
  induction s as [|a s IH]; [done|]. rewrite contains_byte_cons.
  intros [Ha Hs]%orb_false_iff. simpl. by rewrite Ha, (IH Hs).
Qed.

Lemma split_on_app c s t :
  contains_byte c s = false → split_on c (s +:+ String c t) = s :: split_on c t.
Proof.
  induction s as [|a s IH].
  - intros _. rewrite string_app_nil_l. simpl. by rewrite Ascii.eqb_refl.
  - rewrite contains_byte_cons. intros [Ha Hs]%orb_false_iff.
    rewrite string_app_cons. simpl. by rewrite Ha, (IH Hs).
Qed.

Lemma split_on_app_gen c s t : split_on c (s +:+ String c t) = split_on c s ++ split_on c t.
Proof.
  induction s as [|a s IH].
  - rewrite string_app_nil_l. simpl. by rewrite Ascii.eqb_refl.
  - rewrite string_app_cons. simpl. rewrite IH. destruct (Ascii.eqb a c); [done|].
    pose proof (split_on_not_nil c s). by destruct (split_on c s).
Qed.

Lemma split_on_parts c s : Forall (λ t, contains_byte c t = false) (split_on c s).
Proof.
  induction s as [|a s IH]; simpl; [by repeat constructor|].
  destruct (Ascii.eqb a c) eqn:Ha; [by constructor|].
  destruct (split_on c s) as [|t ts]; inversion_clear IH; constructor; try done.
  - by rewrite contains_byte_cons, Ha.
  - by rewrite contains_byte_cons, Ha.
Qed.

Lemma join_cons c t ts : ts ≠ [] → join c (t :: ts) = t +:+ String c (join c ts).
Proof. by destruct ts. Qed.

Lemma join_split c s : join c (split_on c s) = s.
Proof.
  induction s as [|a s IH]; [done|]; simpl.
  pose proof (split_on_not_nil c s) as Hnil.
  destruct (Ascii.eqb_spec a c) as [->|].
  - rewrite join_cons by done. by rewrite IH.
  - destruct (split_on c s) as [|t [|u ts]]; [done|..].
    + simpl in *. by subst.
    + rewrite join_cons in IH |- * by done. by rewrite string_app_cons, IH.
Qed.

Lemma split_join c ts :
  ts ≠ [] → Forall (λ t, contains_byte c t = false) ts → split_on c (join c ts) = ts.
Proof.
  induction ts as [|t ts IH]; [done|]. intros _ [Ht Hts]%Forall_cons.
  destruct ts as [|u ts].
  - simpl. by apply split_on_single.
  - rewrite join_cons by done. rewrite split_on_app by done. by rewrite IH.
Qed.

Lemma strip_prefix_Some p s t : strip_prefix p s = Some t ↔ s = p +:+ t.
Proof.
  revert s. induction p as [|a p IH]; intros s.
  - rewrite string_app_nil_l. simpl. naive_solver.
  - rewrite string_app_cons. destruct s as [|b s]; simpl; [naive_solver|].
    destruct (Ascii.eqb_spec a b); [|naive_solver]. rewrite IH. naive_solver.
Qed.

Lemma concat_chars_chars s : concat_chars (chars s) = s.
Proof.
  induction s as [|a s IH]; [done|]; simpl.
  destruct (chars s) as [|[|b c] cs]; simpl in *; [by rewrite <- IH..|].
  destruct (is_continuation b); simpl; by rewrite <- IH.
Qed.

Lemma chars_cons a s : chars (String a s) = push_byte a (chars s).
Proof. done. Qed.

Lemma chars_cons_head a s : ∃ c cs, chars (String a s) = String a c :: cs.
Proof.
  rewrite chars_cons. destruct (chars s) as [|[|b c] cs]; simpl; [by eauto..|].
  destruct (is_continuation b); eauto.
Qed.

Lemma push_byte_app a cs ds :
  match cs ++ ds with String b _ :: _ => is_continuation b = false | _ => True end ∨ cs ≠ [] →
  push_byte a (cs ++ ds) = push_byte a cs ++ ds.
Proof.
  intros H. destruct cs as [|[|b c] cs]; [|done|by simpl; destruct (is_continuation b)].
  destruct H as [H|H]; [|done]. destruct ds as [|[|b c] ds]; [done..|]. simpl in *. by rewrite H.
Qed.

Lemma chars_app s b t :
  is_continuation b = false → chars (s +:+ String b t) = chars s ++ chars (String b t).
Proof.
  intros Hb. destruct (chars_cons_head b t) as (c & cs & Heq).
  induction s as [|a s IH]; [done|].
  rewrite string_app_cons, !(chars_cons a), IH. apply push_byte_app.
  destruct s as [|a' s]; [left; by rewrite Heq|right].
  destruct (chars_cons_head a' s) as (? & ? & ->). done.
Qed.

Lemma is_whitespace_head a c :
  forallb (λ w, negb (starts_with (String a EmptyString) w)) white_space = true →
  is_whitespace (String a c) = false.
Proof.
  intros Hws. apply bool_decide_eq_false. intros Hin%list_elem_of_In.
  rewrite forallb_forall in Hws. specialize (Hws _ Hin).
  unfold starts_with in Hws. simpl in Hws. by rewrite Ascii.eqb_refl in Hws.
Qed.

Lemma drop_while_false {A} (p : A → bool) a l :
  p a = false → drop_while p (a :: l) = a :: l.
Proof. intros Ha. simpl. by rewrite Ha. Qed.

(** [trim] leaves a braced text alone. *)
Lemma trim_braces t : trim (String "{" (t +:+ "}")) = String "{" (t +:+ "}").
Proof.
  unfold trim, trim_list.
  destruct (chars_cons_head "{" (t +:+ "}")) as (c & cs & Hhead).
  assert (chars (String "{" (t +:+ "}")) = chars (String "{" t) ++ ["}"%string]) as Hlast.
  { change (String "{" (t +:+ "}")) with (String "{" t +:+ "}"). by apply chars_app. }
  rewrite Hhead at 1. rewrite drop_while_false by (by apply is_whitespace_head).
  rewrite <- Hhead, Hlast, reverse_app, reverse_singleton. cbn [app].
  rewrite drop_while_false by (by apply is_whitespace_head).
  rewrite reverse_cons, reverse_involutive. rewrite <- Hlast.
  apply concat_chars_chars.
Qed.

Lemma string_rev_app_acc s a t u :
  String.rev_app (s +:+ String a t) u = String.rev_app t (String a (String.rev_app s u)).
Proof. revert u. induction s as [|b s IH]; intros u; [done|]. apply IH. Qed.

(** [String.rev] of a string that ends in the byte [a] starts with it. *)
Lemma string_rev_app s a :
  String.rev (s +:+ String a EmptyString) = String a (String.rev s).
Proof. apply string_rev_app_acc. Qed.

(** Nor does it touch a text of graphic ASCII bytes. *)
Definition is_graphic : ascii → bool := byte_between 33 126.

Lemma graphic_not_whitespace a c : is_graphic a = true → is_whitespace (String a c) = false.
Proof.
  intros Ha. apply is_whitespace_head.
  destruct a as [[] [] [] [] [] [] [] []]; vm_compute in Ha |- *; congruence.
Qed.

Lemma chars_graphic s :
  bytes_all is_graphic s = true → Forall (λ c, is_whitespace c = false) (chars s).
Proof.
  intros Hs. assert (Forall (λ c, ∃ a r, c = String a r ∧ is_graphic a = true) (chars s)) as Hall.
  { induction s as [|a s IH]; [constructor|]. cbn [bytes_all] in Hs.
    apply andb_true_iff in Hs as [Ha Hs]. specialize (IH Hs). cbn [chars]. unfold push_byte.
    destruct (chars s) as [|[|b c] cs]; [| |destruct (is_continuation b)].
    - constructor; [by eexists _, _|constructor].
    - constructor; [by eexists _, _|done].
    - apply Forall_cons in IH as [_ IH]. constructor; [by eexists _, _|done].
    - constructor; [by eexists _, _|done]. }
  eapply Forall_impl; [exact Hall|]. intros c (a & r & -> & Ha). by apply graphic_not_whitespace.
Qed.

Lemma drop_while_none {A} (p : A → bool) l : Forall (λ a, p a = false) l → drop_while p l = l.
Proof. destruct 1; [done|]. by apply drop_while_false. Qed.

Lemma trim_graphic s : bytes_all is_graphic s = true → trim s = s.
Proof.
  intros Hs%chars_graphic. unfold trim, trim_list.
  rewrite !drop_while_none, reverse_involutive; [apply concat_chars_chars|done|].
  rewrite drop_while_none by done. by apply Forall_reverse.
Qed.

(** Trimming keeps what holds of every byte. *)
Lemma bytes_all_trim_start p c s : bytes_all p s = true → bytes_all p (trim_start_matches c s) = true.
Proof.
  induction s as [|a s IH]; [done|]. cbn [bytes_all trim_start_matches].
  intros [Ha Hs]%andb_true_iff. destruct (Ascii.eqb a c); [by apply IH|]. cbn. by rewrite Ha.
Qed.

Lemma bytes_all_trim_end p c s : bytes_all p s = true → bytes_all p (trim_end_matches c s) = true.
Proof.
  induction s as [|a s IH]; [done|]. cbn [bytes_all trim_end_matches].
  intros [Ha Hs]%andb_true_iff. specialize (IH Hs).
  destruct (trim_end_matches c s); [destruct (Ascii.eqb a c)|]; cbn in *; by rewrite ?Ha.
Qed.

Lemma bytes_all_trim_matches p c s : bytes_all p s = true → bytes_all p (trim_matches c s) = true.
Proof. intros. by apply bytes_all_trim_end, bytes_all_trim_start. Qed.
