(* ===== verification/Channel.v ===== *)
(** * Channel: channel and pattern grammar, pattern matching

    [crates/whdr-proto/src/channel.rs].  Channels are dotted names whose tokens
    are [[a-z0-9_-]+]; patterns may use the token [*] (exactly one token) and a
    final [>] (one or more trailing tokens).  The validators and the matcher are
    translated loop for loop; the grammar and the NATS matching relation are
    given independently as inductive definitions and proved equivalent. *)

From S2P Require Import Prelude.
From S2P Require Import Text.
From Stdlib Require Import Ascii.

(** ** Definitions *)

Inductive ChannelError : Type :=
  | Empty
  | EmptyToken
  | InvalidToken (token : string)
  | WildcardInChannel
  | TailWildcardNotFinal.

#[global] Instance ChannelError_eq_dec : EqDecision ChannelError.
Proof. solve_decision. Defined.

(** [impl Display for ChannelError] (the [#[error(...)]] attributes). *)
Definition ChannelError_to_string (e : ChannelError) : string :=
  match e with
  | Empty => "empty channel"
  | EmptyToken => "empty token"
  | InvalidToken t => "invalid token: " +:+ t
  | WildcardInChannel => "wildcard is not valid in channels"
  | TailWildcardNotFinal => "'>' wildcard must be the final pattern token"
  end.

Definition token_byte (b : ascii) : bool :=
  is_ascii_lowercase b || is_ascii_digit b || Ascii.eqb b "_" || Ascii.eqb b "-".

Definition valid_plain_token (token : string) : bool :=
  negb (is_empty token) && bytes_all token_byte token.

(** The [for] loop of [validate_channel]. *)
Fixpoint validate_channel_tokens (tokens : list string) : result ChannelError () :=
  match tokens with
  | [] => Ok ()
  | token :: rest =>
      if is_empty token then Err EmptyToken
      else if String.eqb token "*" || String.eqb token ">" then Err WildcardInChannel
      else if negb (valid_plain_token token) then Err (InvalidToken token)
      else validate_channel_tokens rest
  end.

Definition validate_channel (channel : string) : result ChannelError () :=
  if is_empty channel then Err Empty
  else validate_channel_tokens (split_on "." channel).

(** The [for (idx, token)] loop of [validate_pattern]; [count] is
    [tokens.len()]. *)
Fixpoint validate_pattern_tokens (count idx : nat) (tokens : list string)
    : result ChannelError () :=
  match tokens with
  | [] => Ok ()
  | token :: rest =>
      if is_empty token then Err EmptyToken
      else if String.eqb token ">" then
        if negb (Nat.eqb (idx + 1) count) then Err TailWildcardNotFinal
        else validate_pattern_tokens count (idx + 1) rest
      else if String.eqb token "*" then validate_pattern_tokens count (idx + 1) rest
      else if negb (valid_plain_token token) then Err (InvalidToken token)
      else validate_pattern_tokens count (idx + 1) rest
  end.

Definition validate_pattern (pattern : string) : result ChannelError () :=
  if is_empty pattern then Err Empty
  else let tokens := split_on "." pattern in
       validate_pattern_tokens (length tokens) 0 tokens.

(** The [for (pi, pattern_token)] loop of [channel_matches], with its index
    [ci] into the channel tokens; falling out of the loop compares [ci] with
    their number. *)
Fixpoint match_tokens (channel_tokens : list string) (ci pi : nat)
    (pattern_tokens : list string) : bool :=
  match pattern_tokens with
  | [] => Nat.eqb ci (length channel_tokens)
  | pattern_token :: rest =>
      if String.eqb pattern_token ">" then
        Nat.ltb ci (length channel_tokens) || Nat.eqb pi 0
      else if String.eqb pattern_token "*" then
        if Nat.leb (length channel_tokens) ci then false
        else match_tokens channel_tokens (ci + 1) (pi + 1) rest
      else if negb (bool_decide (channel_tokens !! ci = Some pattern_token)) then false
      else match_tokens channel_tokens (ci + 1) (pi + 1) rest
  end.

Definition channel_matches (channel pattern : string) : result ChannelError bool :=
  _ ← validate_channel channel;
  _ ← validate_pattern pattern;
  Ok (match_tokens (split_on "." channel) 0 0 (split_on "." pattern)).

(** [struct Pattern(String)] with its checked constructor. *)
Record Pattern : Type := MkPattern { as_str : string }.

#[global] Instance Pattern_eq_dec : EqDecision Pattern.
Proof. solve_decision. Defined.

Definition Pattern_new (value : string) : result ChannelError Pattern :=
  _ ← validate_pattern value; Ok (MkPattern value).

Definition Pattern_matches (p : Pattern) (channel : string) : result ChannelError bool :=
  channel_matches channel (as_str p).

(** [patterns.iter().any(|pattern| pattern.matches(channel).unwrap_or(false))],
    the test both the live fan-out and the replay scan use. *)
Definition any_matches (patterns : list Pattern) (channel : string) : bool :=
  existsb (λ p, unwrap_or false (Pattern_matches p channel)) patterns.

(** ** Specification: the grammar and the matching relation *)

Definition plain_token (t : string) : Prop := valid_plain_token t = true.

(** [channel ::= token | token "." channel]. *)
Inductive channel_grammar : string → Prop :=
  | cg_last t : plain_token t → channel_grammar t
  | cg_cons t s : plain_token t → channel_grammar s →
      channel_grammar (t +:+ String "." s).

(** [pattern ::= token | "*" | ">" | (token | "*") "." pattern]. *)
Inductive pattern_grammar : string → Prop :=
  | pg_last t : plain_token t ∨ t = "*" ∨ t = ">" → pattern_grammar t
  | pg_cons t s : plain_token t ∨ t = "*" → pattern_grammar s →
      pattern_grammar (t +:+ String "." s).

(** [token_match pattern channel]: [*] takes one token, a final [>] one or
    more, anything else itself. *)
Inductive token_match : list string → list string → Prop :=
  | tm_nil : token_match [] []
  | tm_tail c cs : token_match [">"] (c :: cs)
  | tm_star c ps cs : token_match ps cs → token_match ("*" :: ps) (c :: cs)
  | tm_exact t ps cs : t ≠ "*" → t ≠ ">" → token_match ps cs →
      token_match (t :: ps) (t :: cs).

(** ** Lemmas *)

Lemma plain_token_inv t :
  plain_token t → t ≠ EmptyString ∧ t ≠ "*" ∧ t ≠ ">" ∧ contains_byte "." t = false.
Proof.
  unfold plain_token, valid_plain_token. intros [He Hb]%andb_true_iff.
  split_and!; try (intros ->; discriminate). by apply (bytes_all_not_contains token_byte).
Qed.

Lemma not_plain_star : ¬ plain_token "*".
Proof. done. Qed.
Lemma not_plain_gt : ¬ plain_token ">".
Proof. done. Qed.
Lemma not_plain_empty : ¬ plain_token EmptyString.
Proof. done. Qed.
#[export] Hint Resolve not_plain_star not_plain_gt not_plain_empty : whdr.

Lemma validate_channel_tokens_Ok ts :
  validate_channel_tokens ts = Ok () ↔ Forall plain_token ts.
Proof.
  induction ts as [|t ts IH]; simpl; [by split|]. rewrite Forall_cons, <- IH.
  unfold plain_token.
  destruct (is_empty t) eqn:He; [apply is_empty_true in He as ->; naive_solver|].
  destruct (String.eqb_spec t "*") as [->|]; simpl; [naive_solver|].
  destruct (String.eqb_spec t ">") as [->|]; simpl; [naive_solver|].
  destruct (valid_plain_token t); naive_solver.
Qed.

Lemma validate_channel_Ok s :
  validate_channel s = Ok () ↔ Forall plain_token (split_on "." s).
Proof.
  unfold validate_channel. destruct (is_empty s) eqn:He.
  - apply is_empty_true in He as ->. simpl. rewrite Forall_singleton. split; [done|by intros ?%not_plain_empty].
  - apply validate_channel_tokens_Ok.
Qed.

Lemma channel_grammar_tokens s :
  channel_grammar s ↔ Forall plain_token (split_on "." s).
Proof.
  split.
  - induction 1 as [t Ht|t s Ht _ IH].
    + rewrite split_on_single by (by apply plain_token_inv). by constructor.
    + rewrite split_on_app by (by apply plain_token_inv). by constructor.
  - rewrite <- (join_split "." s) at 2. generalize (split_on_not_nil "." s).
    induction (split_on "." s) as [|t ts IH]; [done|]. intros _ [Ht Hts]%Forall_cons.
    destruct ts as [|u ts]; [by constructor|].
    rewrite join_cons by done. constructor; [done|]. by apply IH.
Qed.

(** Well-formed token lists of a pattern. *)
Fixpoint pattern_tokens_ok (ts : list string) : Prop :=
  match ts with
  | [] => False
  | [t] => plain_token t ∨ t = "*" ∨ t = ">"
  | t :: ts' => (plain_token t ∨ t = "*") ∧ pattern_tokens_ok ts'
  end.

Lemma pattern_tokens_ok_cons t u ts :
  pattern_tokens_ok (t :: u :: ts) ↔
  (plain_token t ∨ t = "*") ∧ pattern_tokens_ok (u :: ts).
Proof. done. Qed.

Lemma validate_pattern_tokens_Ok count idx ts :
  ts ≠ [] → count = (idx + length ts)%nat →
  validate_pattern_tokens count idx ts = Ok () ↔ pattern_tokens_ok ts.
Proof.
  revert idx. induction ts as [|t [|u ts] IH]; intros idx Hnil Hcount; [done|..].
  - subst. simpl. rewrite Nat.eqb_refl. simpl. unfold plain_token.
    destruct (is_empty t) eqn:He; [apply is_empty_true in He as ->; intuition discriminate|].
    destruct (String.eqb_spec t ">"); [intuition auto|].
    destruct (String.eqb_spec t "*"); [intuition auto|].
    destruct (valid_plain_token t); simpl; intuition congruence.
  - rewrite pattern_tokens_ok_cons. rewrite <- (IH (idx + 1)%nat); [|done|simpl in *; lia].
    assert (Nat.eqb (idx + 1) count = false) as Hidx
      by (apply Nat.eqb_neq; simpl in Hcount; lia).
    cbn [validate_pattern_tokens]. rewrite Hidx. simpl negb. cbv iota.
    generalize (validate_pattern_tokens count (idx + 1) (u :: ts)). intros v.
    unfold plain_token.
    destruct (is_empty t) eqn:He; [apply is_empty_true in He as ->; intuition discriminate|].
    destruct (String.eqb_spec t ">") as [->|]; [intuition discriminate|].
    destruct (String.eqb_spec t "*"); [intuition auto|].
    destruct (valid_plain_token t); simpl; intuition congruence.
Qed.

Lemma validate_pattern_Ok s :
  validate_pattern s = Ok () ↔ pattern_tokens_ok (split_on "." s).
Proof.
  unfold validate_pattern. destruct (is_empty s) eqn:He.
  - apply is_empty_true in He as ->. simpl. unfold plain_token. intuition discriminate.
  - apply validate_pattern_tokens_Ok; [apply split_on_not_nil|lia].
Qed.

Lemma pattern_token_no_dot t :
  plain_token t ∨ t = "*" ∨ t = ">" → contains_byte "." t = false.
Proof. intros [Ht|[->| ->]]; [by apply plain_token_inv|done|done]. Qed.

Lemma pattern_grammar_tokens s :
  pattern_grammar s ↔ pattern_tokens_ok (split_on "." s).
Proof.
  split.
  - induction 1 as [t Ht|t s Ht _ IH].
    + rewrite split_on_single by (by apply pattern_token_no_dot). done.
    + rewrite split_on_app by (apply pattern_token_no_dot; tauto).
      pose proof (split_on_not_nil "." s) as Hnil.
      by destruct (split_on "." s).
  - rewrite <- (join_split "." s) at 2. generalize (split_on_not_nil "." s).
    induction (split_on "." s) as [|t [|u ts] IH]; [done|by constructor|].
    intros _. rewrite pattern_tokens_ok_cons. intros [Ht Hts].
    rewrite join_cons by done. constructor; [done|]. by apply IH.
Qed.

(** The loop of [channel_matches] decides the matching relation on the channel
    tokens from [ci] on. *)
Lemma match_tokens_spec cs ci pi ps :
  (ci ≤ length cs)%nat → ps = [] ∨ pattern_tokens_ok ps →
  (pi = 0%nat → ci < length cs)%nat →
  match_tokens cs ci pi ps = true ↔ token_match ps (drop ci cs).
Proof.
  revert ci pi. induction ps as [|p ps IH]; intros ci pi Hci Hok Hpi.
  { simpl. rewrite Nat.eqb_eq. split.
    - intros ->. rewrite drop_all. constructor.
    - intros Hm. assert (drop ci cs = []) as Heq by (by inversion Hm).
      apply (f_equal length) in Heq. rewrite length_drop in Heq. simpl in Heq. lia. }
  destruct Hok as [|Hok]; [done|]. simpl.
  assert (ps = [] ∨ pattern_tokens_ok ps) as Hok'.
  { destruct ps as [|q ps]; [by left|]. apply pattern_tokens_ok_cons in Hok. naive_solver. }
  destruct (drop ci cs) as [|c cs'] eqn:Hdrop.
  - assert (length cs = ci) as Hlen.
    { apply (f_equal length) in Hdrop. rewrite length_drop in Hdrop. simpl in Hdrop. lia. }
    rewrite (proj2 (Nat.ltb_ge _ _)), (proj2 (Nat.leb_le _ _)) by lia.
    rewrite lookup_ge_None_2 by lia.
    destruct pi; [lia|].
    destruct (String.eqb p ">"), (String.eqb p "*"); simpl;
      (split; [done|inversion 1]).
  - assert (cs !! ci = Some c ∧ drop (ci + 1) cs = cs' ∧ (ci < length cs)%nat)
      as (Hlook & Hdrop' & Hlt).
    { split_and!.
      - rewrite <- (Nat.add_0_r ci), <- lookup_drop, Hdrop. done.
      - rewrite <- drop_drop, Hdrop. done.
      - apply (f_equal length) in Hdrop. rewrite length_drop in Hdrop. simpl in Hdrop. lia. }
    rewrite (proj2 (Nat.ltb_lt _ _) Hlt), (proj2 (Nat.leb_gt _ _) Hlt).
    specialize (IH (ci + 1)%nat (pi + 1)%nat ltac:(lia) Hok' ltac:(lia)).
    rewrite Hdrop' in IH. rewrite Hlook.
    destruct (String.eqb_spec p ">") as [->|Hgt].
    { split; [intros _|done]. destruct ps as [|q ps]; [constructor|].
      exfalso. apply pattern_tokens_ok_cons in Hok as [[Hp|Hp] _]; done. }
    destruct (String.eqb_spec p "*") as [->|Hstar].
    { rewrite IH. split; [by constructor|by inversion 1]. }
    destruct (decide (Some c = Some p)) as [Heq|Hne].
    + rewrite (bool_decide_eq_true_2 _ Heq). injection Heq as ->. simpl. rewrite IH.
      split; [by constructor|by inversion 1].
    + rewrite (bool_decide_eq_false_2 _ Hne). simpl. split; [done|inversion 1; congruence].
Qed.

Lemma channel_matches_Ok channel pattern b :
  channel_matches channel pattern = Ok b ↔
  validate_channel channel = Ok () ∧ validate_pattern pattern = Ok () ∧
  b = match_tokens (split_on "." channel) 0 0 (split_on "." pattern).
Proof.
  unfold channel_matches. destruct (validate_channel channel) as [[]|]; simpl; [|naive_solver].
  destruct (validate_pattern pattern) as [[]|]; simpl; naive_solver.
Qed.

Lemma channel_matches_true channel pattern :
  channel_matches channel pattern = Ok true ↔
  channel_grammar channel ∧ pattern_grammar pattern ∧
  token_match (split_on "." pattern) (split_on "." channel).
Proof.
  rewrite channel_matches_Ok, validate_channel_Ok, validate_pattern_Ok,
    channel_grammar_tokens, pattern_grammar_tokens.
  pose proof (split_on_not_nil "." channel) as Hnil.
  assert (pattern_tokens_ok (split_on "." pattern) →
    match_tokens (split_on "." channel) 0 0 (split_on "." pattern) = true ↔
    token_match (split_on "." pattern) (split_on "." channel)) as Hspec.
  { intros Hok. rewrite match_tokens_spec; [done|lia|by right|].
    destruct (split_on "." channel); [done|simpl; lia]. }
  split; intros (? & ? & Hm); (split_and!; [done..|]).
  - by apply Hspec.
  - symmetry. by apply Hspec.
Qed.

(** The subscription test in terms of the specification. *)
Lemma any_matches_true ps channel :
  any_matches ps channel = true ↔
  ∃ p, p ∈ ps ∧ channel_grammar channel ∧ pattern_grammar (as_str p) ∧
       token_match (split_on "." (as_str p)) (split_on "." channel).
Proof.
  unfold any_matches. rewrite existsb_exists. apply exist_proper. intros p.
  rewrite list_elem_of_In, <- channel_matches_true. unfold Pattern_matches.
  destruct (channel_matches channel (as_str p)) as [[]|]; simpl; intuition congruence.
Qed.

Lemma Pattern_new_Ok s p : Pattern_new s = Ok p ↔ pattern_grammar s ∧ p = MkPattern s.
Proof.
  unfold Pattern_new. rewrite result_bind_Ok, pattern_grammar_tokens, <- validate_pattern_Ok.
  split; [by intros ([] & ? & [= ->])|intros [? ->]; by exists ()].
Qed.

(** ** Theorems *)

(** C23: the matcher is total on valid input and computes exactly the
    declarative matching relation: for a valid channel and a valid pattern
    [channel_matches] returns [Ok b], and [b] is [true] precisely when the
    pattern's tokens match the channel's ([*] one token, a final [>] one or
    more, any other token itself). *)
Theorem channel_matches_correct channel pattern :
  validate_channel channel = Ok () → validate_pattern pattern = Ok () →
  ∃ b, channel_matches channel pattern = Ok b ∧
       (b = true ↔ token_match (split_on "." pattern) (split_on "." channel)).
Proof.
  intros Hc Hp. eexists. split; [by apply channel_matches_Ok|].
  apply validate_pattern_Ok in Hp. apply match_tokens_spec; [lia|by right|].
  pose proof (split_on_not_nil "." channel). destruct (split_on "." channel); [done|simpl; lia].
Qed.

Lemma channel_matches_correct_witness :
  validate_channel "github.pr.opened" = Ok () ∧ validate_pattern "github.>" = Ok () ∧
  ∃ b, channel_matches "github.pr.opened" "github.>" = Ok b ∧
       (b = true ↔ token_match (split_on "." "github.>") (split_on "." "github.pr.opened")).
Proof.
  split; [reflexivity|]. split; [reflexivity|].
  apply (channel_matches_correct "github.pr.opened" "github.>"); reflexivity.
Defined.

(** The validators accept exactly the documented grammars: a channel is one
    or more [[a-z0-9_-]+] tokens joined by dots; a pattern may also use [*] for
    a token and [>] for the last one. *)
Theorem validators_accept_the_grammar s :
  (validate_channel s = Ok () ↔ channel_grammar s) ∧
  (validate_pattern s = Ok () ↔ pattern_grammar s).
Proof.
  by rewrite validate_channel_Ok, validate_pattern_Ok,
    channel_grammar_tokens, pattern_grammar_tokens.
Qed.

(** A rejected channel is blamed on its first bad token, with the error
    that token deserves ([Empty] for the empty string). *)
Theorem validate_channel_blames_first_bad_token s e :
  validate_channel s = Err e →
  (s = EmptyString ∧ e = Empty) ∨
  ∃ before t after,
    split_on "." s = before ++ t :: after ∧ Forall plain_token before ∧ ¬ plain_token t ∧
    e = (if is_empty t then EmptyToken
         else if String.eqb t "*" || String.eqb t ">" then WildcardInChannel
         else InvalidToken t).
Proof.
  unfold validate_channel. destruct (is_empty s) eqn:He.
  { intros [= <-]. left. by apply is_empty_true in He. }
  intros Herr. right. revert Herr. generalize (split_on "." s) as ts.
  induction ts as [|t ts IH]; simpl; [done|]. intros Herr.
  destruct (valid_plain_token t) eqn:Ht.
  - destruct (plain_token_inv t Ht) as (Hne & Hstar & Hgt & _).
    rewrite (proj2 (is_empty_false t) Hne), (proj2 (String.eqb_neq t "*") Hstar),
      (proj2 (String.eqb_neq t ">") Hgt) in Herr. simpl in Herr.
    destruct (IH Herr) as (before & u & after & -> & Hb & Hu & ->).
    exists (t :: before), u, after. by repeat constructor.
  - exists [], t, ts. split_and!; [done|constructor|by unfold plain_token; rewrite Ht|].
    revert Herr. simpl. repeat case_bool; congruence.
Qed.

Lemma validate_channel_blames_first_bad_token_witness :
  validate_channel "a.B.*" = Err (InvalidToken "B") ∧
  (("a.B.*" = EmptyString ∧ InvalidToken "B" = Empty) ∨
   ∃ before t after,
     split_on "." "a.B.*" = before ++ t :: after ∧ Forall plain_token before ∧
     ¬ plain_token t ∧
     InvalidToken "B" = (if is_empty t then EmptyToken
         else if String.eqb t "*" || String.eqb t ">" then WildcardInChannel
         else InvalidToken t)).
Proof.
  split; [reflexivity|].
  apply (validate_channel_blames_first_bad_token "a.B.*" (InvalidToken "B")). reflexivity.
Defined.
