(* ===== verification/Messages.v ===== *)
(** * Messages: the wire types and the newline-delimited JSON framing

    [crates/whdr-proto/src/messages.rs] and [ndjson.rs].  The message enums are
    inductive types with the source's variants.  Their JSON codec is generated
    by [serde]'s derive macros and [serde_json], which are not part of the
    repository: it is the class [Wire], with the documented behaviour the code
    relies on as the laws [WireLaws]. *)

From S2P Require Import Prelude.
From S2P Require Import Text.
From Stdlib Require Import Ascii.

(** ** Data *)

(** A [uuid::Uuid] is a 128-bit number. *)
Abbreviation Uuid := Z (only parsing).

(** [serde_json::Value]; a number that is not an integer is kept as its text. *)
Inductive Value : Type :=
  | Null
  | Bool (b : bool)
  | Number (n : Z)
  | Float (text : string)
  | Str (s : string)
  | Array (l : list Value)
  | Object (fields : list (string * Value)).

Definition PROTOCOL_VERSION : Z := 1.

Inductive LogLevel : Type := Trace | Debug | Info | Warn | Error.

Record Event : Type := MkEvent { channel : string; payload_b64 : string }.

Record HttpReply : Type := MkHttpReply {
  status : Z;
  headers : gmap string string;
  body : string
}.

Inductive ExtMsg : Type :=
  | Register (protocol : Z) (id : option string) (paths : list string)
      (channels : list string) (meta : Value)
  | Result (req_id : Uuid) (http : HttpReply) (events : list Event)
  | ExtEvent (ev : Event)
  | Log (level : LogLevel) (msg : string).

Inductive SrvMsg : Type :=
  | Dispatch (req_id : Uuid) (method path : string) (query : option string)
      (headers : gmap string string) (body_b64 : string) (secret : option string)
  | Shutdown.

Record ReplayRequest : Type := MkReplayRequest { after_seq : Z }.

Inductive SubClientMsg : Type :=
  | Subscribe (patterns : list string) (replay : option ReplayRequest)
  | Unsubscribe (patterns : list string)
  | Ping.

Inductive ClosingReason : Type := ReasonShutdown | ReasonRevoked.

Inductive SubServerMsg : Type :=
  | Sub_Welcome (name : string)
  | Sub_Ok (op : string)
  | Sub_Error (op msg : string)
  | Sub_Event (id : Uuid) (seq ts_ms : Z) (channel payload_b64 : string)
  | Sub_Replayed (through_seq : Z)
  | Sub_ReplayGap (from_seq earliest_seq : Z)
  | Sub_Lagged (dropped : Z)
  | Sub_Pong
  | Sub_Closing (reason : ClosingReason).

Inductive ControlRequest : Type :=
  | Req_Status
  | Req_TokenAdd (name : string)
  | Req_TokenRotate (name : string)
  | Req_TokenRevoke (name : string)
  | Req_TokenList.

Record TokenSummary : Type := MkTokenSummary {
  ts_name : string;
  ts_fingerprint : string;
  ts_created : string;
  ts_active_conns : Z
}.

Inductive ControlResponse : Type :=
  | Res_Status (status : Value)
  | Res_Token (name token : string)
  | Res_Tokens (tokens : list TokenSummary)
  | Res_Ok
  | Res_Error (msg : string).

#[global] Instance Event_eq_dec : EqDecision Event.
Proof. solve_decision. Defined.
#[global] Instance ClosingReason_eq_dec : EqDecision ClosingReason.
Proof. solve_decision. Defined.
#[global] Instance SubServerMsg_eq_dec : EqDecision SubServerMsg.
Proof. solve_decision. Defined.
#[global] Instance TokenSummary_eq_dec : EqDecision TokenSummary.
Proof. solve_decision. Defined.
#[global] Instance HttpReply_eq_dec : EqDecision HttpReply.
Proof. solve_decision. Defined.

#[global] Instance ReplayRequest_eq_dec : EqDecision ReplayRequest.
Proof. solve_decision. Defined.
#[global] Instance SubClientMsg_eq_dec : EqDecision SubClientMsg.
Proof. solve_decision. Defined.

(** [matches!(msg, SubServerMsg::Closing { .. })]. *)
Definition is_closing (m : SubServerMsg) : bool :=
  match m with Sub_Closing _ => true | _ => false end.

(** What the [Debug] rendering of a [SrvMsg] exposes: the hand-written
    implementation replaces the secret by ["<redacted>"]. *)
Definition SrvMsg_debug (m : SrvMsg) : SrvMsg :=
  match m with
  | Dispatch req_id method path query headers body_b64 secret =>
      Dispatch req_id method path query headers body_b64
        ((λ _, "<redacted>") <$> secret)
  | Shutdown => Shutdown
  end.

(** ** The codec interface *)

(** [serde_json::to_string] and [serde_json::from_str] at a message type; an
    error is its [Display] text. *)
Class Wire (A : Type) : Type := {
  to_string : A → result string string;
  from_str : string → result string A
}.

(** Documented behaviour of [serde_json] on the message types (all of them
    serialise to JSON objects): compact output is one line, delimited by
    braces, and parses back. *)
Class WireLaws (A : Type) `{Wire A} : Prop := {
  wire_round_trip a s : to_string a = Ok s → from_str s = Ok a;
  wire_braces (a : A) s : to_string a = Ok s → ∃ t, s = String "{" (t +:+ "}");
  wire_one_line (a : A) s : to_string a = Ok s → contains_byte "010" s = false
}.

(** ** Framing *)

Section ndjson.
Context {A : Type} {W : Wire A}.

Inductive NdjsonError : Type := MalformedJson (err : string).

Definition NdjsonError_to_string (e : NdjsonError) : string :=
  match e with MalformedJson err => "malformed json: " +:+ err end.

Definition encode_line (value : A) : result NdjsonError string :=
  line ← map_err MalformedJson (to_string value);
  Ok (line +:+ String "010" EmptyString).

Definition decode_line (line : string) : result NdjsonError (option A) :=
  let trimmed := trim line in
  if is_empty trimmed then Ok None
  else a ← map_err MalformedJson (from_str trimmed); Ok (Some a).

(** The receiving loops of both ends ([lines.next_line()], then
    [decode_line], blank lines skipped), up to the first malformed line. *)
Fixpoint decode_lines (lines : list string) : result NdjsonError (list A) :=
  match lines with
  | [] => Ok []
  | l :: ls =>
      o ← decode_line l;
      rest ← decode_lines ls;
      Ok (option_list o ++ rest)
  end.

Fixpoint encode_lines (msgs : list A) : result NdjsonError string :=
  match msgs with
  | [] => Ok EmptyString
  | m :: ms =>
      l ← encode_line m;
      rest ← encode_lines ms;
      Ok (l +:+ rest)
  end.
End ndjson.

(** [tokio::io::Lines]: the stream cut at line feeds; a line that ended with a
    line feed also loses a carriage return before it, and nothing follows the
    last line feed of a well-terminated stream. *)
Definition strip_cr (l : string) : string :=
  match String.rev l with
  | String "013" r => String.rev r
  | _ => l
  end.

Fixpoint lines_of_pieces (pieces : list string) : list string :=
  match pieces with
  | [] => []
  | [last] => if is_empty last then [] else [last]
  | l :: rest => strip_cr l :: lines_of_pieces rest
  end.

Definition stream_lines (s : string) : list string :=
  lines_of_pieces (split_on "010" s).

(** ** Lemmas *)

Section ndjson_lemmas.
Context {A : Type} {W : Wire A} {L : WireLaws A}.

Lemma encode_line_Ok (a : A) line :
  encode_line a = Ok line ↔
  ∃ s, to_string a = Ok s ∧ line = s +:+ String "010" EmptyString.
Proof.
  unfold encode_line. rewrite result_bind_Ok.
  destruct (to_string a); simpl; naive_solver.
Qed.

Lemma decode_line_json (a : A) s line :
  to_string a = Ok s → trim line = s → decode_line line = Ok (Some a).
Proof.
  intros Hs Htrim. unfold decode_line. rewrite Htrim.
  destruct (wire_braces a s Hs) as [t ->]. simpl is_empty. cbv iota.
  by rewrite (wire_round_trip _ _ Hs).
Qed.

Lemma decode_lines_cons l ls :
  decode_lines (A := A) (l :: ls) =
  o ← decode_line l; rest ← decode_lines ls; Ok (option_list o ++ rest).
Proof. done. Qed.

Lemma lines_of_pieces_cons l ls :
  ls ≠ [] → lines_of_pieces (l :: ls) = strip_cr l :: lines_of_pieces ls.
Proof. by destruct ls. Qed.

Lemma strip_cr_braces t : strip_cr (String "{" (t +:+ "}")) = String "{" (t +:+ "}").
Proof.
  unfold strip_cr. change (String "{" (t +:+ "}")) with (String "{" t +:+ "}").
  by rewrite string_rev_app.
Qed.

(** A stream that starts with an encoded message starts with its line. *)
Lemma stream_lines_message (m : A) text rest :
  encode_line m = Ok text →
  ∃ line, text = line +:+ String "010" EmptyString ∧ decode_line line = Ok (Some m) ∧
    stream_lines (text +:+ rest) = line :: stream_lines rest.
Proof.
  intros (s & Hs & ->)%encode_line_Ok. destruct (wire_braces m s Hs) as [t ->].
  exists (String "{" (t +:+ "}")). split; [done|]. split; [by eapply decode_line_json, trim_braces|].
  rewrite <- string_app_assoc.
  change (String "010" EmptyString +:+ rest) with (String "010" rest).
  unfold stream_lines. rewrite split_on_app by (by eapply wire_one_line).
  by rewrite lines_of_pieces_cons, strip_cr_braces by apply split_on_not_nil.
Qed.

(** The lines of a stream that is one message a line. *)
Lemma stream_lines_encoded (msgs : list A) stream :
  encode_lines msgs = Ok stream →
  ∃ lines, stream_lines stream = lines ∧
    Forall2 (λ m line, encode_line m = Ok (line +:+ String "010" EmptyString) ∧
                       decode_line line = Ok (Some m)) msgs lines.
Proof.
  revert stream. induction msgs as [|m ms IH]; intros stream; simpl.
  { intros [= <-]. exists []. by repeat constructor. }
  intros (text & Hline & (rest & Hrest & [= <-])%result_bind_Ok)%result_bind_Ok.
  destruct (IH _ Hrest) as (lines & Heq & Hall).
  destruct (stream_lines_message m text rest Hline) as (line & -> & Hd & ->).
  exists (line :: lines). rewrite Heq. split; [done|]. by constructor.
Qed.

Lemma encode_lines_app (ms1 ms2 : list A) :
  encode_lines (ms1 ++ ms2) =
  s1 ← encode_lines ms1; s2 ← encode_lines ms2; Ok (s1 +:+ s2).
Proof.
  induction ms1 as [|m ms IH]; simpl.
  - by destruct (encode_lines ms2).
  - rewrite IH. destruct (encode_line m); [|done]. cbn [mbind result_bind].
    destruct (encode_lines ms); [|done]. cbn [mbind result_bind].
    destruct (encode_lines ms2); [|done]. cbn [mbind result_bind]. by rewrite string_app_assoc.
Qed.
End ndjson_lemmas.

(** ** A concrete codec

    An inhabitant of the codec interface for every countable message type (the
    bits of [encode], between braces); the witnesses run on it. *)
Module BitCodec.
Fixpoint print_bits (p : positive) : string :=
  match p with
  | xH => EmptyString
  | xO p' => String "0" (print_bits p')
  | xI p' => String "1" (print_bits p')
  end.

Fixpoint parse_bits (s : string) : option positive :=
  match s with
  | String "}" EmptyString => Some xH
  | String "0" s' => xO <$> parse_bits s'
  | String "1" s' => xI <$> parse_bits s'
  | _ => None
  end.

Lemma parse_print p : parse_bits (print_bits p +:+ "}") = Some p.
Proof.
  induction p as [p IH|p IH|]; [..|done]; cbn [print_bits];
    rewrite string_app_cons; cbn [parse_bits]; by rewrite IH.
Qed.

Lemma print_bits_one_line p : contains_byte "010" (print_bits p) = false.
Proof. by induction p. Qed.

Section instances.
Context {A : Type} `{Countable A}.

#[local] Instance wire : Wire A := {|
  to_string a := Ok (String "{" (print_bits (encode a) +:+ "}"));
  from_str s :=
    match s with
    | String "{" s' =>
        match parse_bits s' ≫= decode with
        | Some a => Ok a
        | None => Err "invalid value"
        end
    | _ => Err "expected an object"
    end
|}.

#[local] Instance wire_laws : WireLaws A.
Proof.
  split; simpl.
  - intros a s [= <-]. rewrite parse_print. simpl. by rewrite decode_encode.
  - intros a s [= <-]. eauto.
  - intros a s [= <-]. rewrite contains_byte_cons, contains_byte_app.
    by rewrite print_bits_one_line.
Qed.
End instances.
End BitCodec.

#[global] Instance ClosingReason_countable : Countable ClosingReason :=
  inj_countable' (λ r, match r with ReasonShutdown => false | ReasonRevoked => true end)
    (λ b, if b then ReasonRevoked else ReasonShutdown)
    (λ r, match r with ReasonShutdown => eq_refl | ReasonRevoked => eq_refl end).

#[global] Instance SubServerMsg_countable : Countable SubServerMsg.
Proof.
  refine (inj_countable'
    (λ m, match m with
      | Sub_Welcome n => inl (n, EmptyString, 0%nat)
      | Sub_Ok op => inl (op, EmptyString, 1%nat)
      | Sub_Error op msg => inl (op, msg, 2%nat)
      | Sub_Pong => inl (EmptyString, EmptyString, 3%nat)
      | Sub_Closing ReasonShutdown => inl (EmptyString, EmptyString, 4%nat)
      | Sub_Closing ReasonRevoked => inl (EmptyString, EmptyString, 5%nat)
      | Sub_Event id seq ts c p => inr (inl (id, seq, ts, c, p))
      | Sub_Replayed a => inr (inr (a, 0%Z, 0%nat))
      | Sub_ReplayGap a b => inr (inr (a, b, 1%nat))
      | Sub_Lagged a => inr (inr (a, 0%Z, 2%nat))
      end)
    (λ x, match x with
      | inl (n, _, 0%nat) => Sub_Welcome n
      | inl (op, _, 1%nat) => Sub_Ok op
      | inl (op, msg, 2%nat) => Sub_Error op msg
      | inl (_, _, 3%nat) => Sub_Pong
      | inl (_, _, 4%nat) => Sub_Closing ReasonShutdown
      | inl (_, _, _) => Sub_Closing ReasonRevoked
      | inr (inl (id, seq, ts, c, p)) => Sub_Event id seq ts c p
      | inr (inr (a, _, 0%nat)) => Sub_Replayed a
      | inr (inr (a, b, 1%nat)) => Sub_ReplayGap a b
      | inr (inr (a, _, _)) => Sub_Lagged a
      end) _).
  by intros [| | | | | | | |[]].
Defined.

#[global] Instance SubClientMsg_countable : Countable SubClientMsg.
Proof.
  refine (inj_countable'
    (λ m, match m with
      | Subscribe ps r => Some (ps, true, after_seq <$> r)
      | Unsubscribe ps => Some (ps, false, None)
      | Ping => None
      end)
    (λ x, match x with
      | Some (ps, true, r) => Subscribe ps (MkReplayRequest <$> r)
      | Some (ps, false, _) => Unsubscribe ps
      | None => Ping
      end) _).
  by intros [? [[]|]| |].
Defined.

(** ** Theorems *)

(** Framing round trip: the lines of the stream one side writes with
    [encode_line] decode, on the other side, to exactly the messages sent, in
    order. *)
Theorem ndjson_stream_round_trip {A} {W : Wire A} {L : WireLaws A} (msgs : list A) stream :
  encode_lines msgs = Ok stream → decode_lines (stream_lines stream) = Ok msgs.
Proof.
  intros Henc. apply stream_lines_encoded in Henc as (lines & -> & Hall).
  induction Hall as [|m line ms lines [_ Hdec] _ IH]; [done|].
  rewrite decode_lines_cons, Hdec. cbn [mbind result_bind]. by rewrite IH.
Qed.

Lemma ndjson_stream_round_trip_witness :
  let msgs := [Sub_Welcome "p"; Sub_Event 7 1 0 "dev.echo" "aGk="; Sub_Pong] in
  ∃ stream, encode_lines (W := BitCodec.wire) msgs = Ok stream ∧
    decode_lines (W := BitCodec.wire) (stream_lines stream) = Ok msgs.
Proof.
  eexists. split; [vm_compute; reflexivity|].
  apply (ndjson_stream_round_trip (W := BitCodec.wire) (L := BitCodec.wire_laws)).
  vm_compute. reflexivity.
Defined.
