(* ===== verification/WireCodecs.v ===== *)
(** * WireCodecs: every message type on the codec of Messages.v

    [BitCodec] of Messages.v encodes any countable type; the instances that make
    JSON values and the remaining messages countable, for the witnesses. *)

From S2P Require Import Prelude.
From S2P Require Import Text.
From S2P Require Import Messages.

Local Open Scope Z_scope.

(** ** JSON values *)

Fixpoint value_tree (v : Value) : gen_tree (bool + Z + string) :=
  match v with
  | Null => GenNode 0 []
  | Bool b => GenNode 1 [GenLeaf (inl (inl b))]
  | Number n => GenNode 2 [GenLeaf (inl (inr n))]
  | Float t => GenNode 3 [GenLeaf (inr t)]
  | Str t => GenNode 4 [GenLeaf (inr t)]
  | Array l => GenNode 5 (value_tree <$> l)
  | Object fields => GenNode 6 ((λ kv, GenNode 7 [GenLeaf (inr kv.1); value_tree kv.2]) <$> fields)
  end.

Fixpoint tree_value (t : gen_tree (bool + Z + string)) : Value :=
  match t with
  | GenNode 1 [GenLeaf (inl (inl b))] => Bool b
  | GenNode 2 [GenLeaf (inl (inr n))] => Number n
  | GenNode 3 [GenLeaf (inr t)] => Float t
  | GenNode 4 [GenLeaf (inr t)] => Str t
  | GenNode 5 l => Array (tree_value <$> l)
  | GenNode 6 l =>
      Object ((λ t, match t with
                    | GenNode 7 [GenLeaf (inr k); v] => (k, tree_value v)
                    | _ => (EmptyString, Null)
                    end) <$> l)
  | _ => Null
  end.

Lemma tree_value_tree : ∀ v, tree_value (value_tree v) = v.
Proof.
  fix IH 1. intros [|b|n|t|t|l|fields]; cbn [value_tree tree_value]; [done..| |].
  - f_equal. induction l as [|v l IHl]; [done|]. cbn. by rewrite IH, IHl.
  - f_equal. induction fields as [|[k v] fields IHl]; [done|]. cbn. by rewrite IH, IHl.
Qed.

#[global] Instance Value_eq_dec : EqDecision Value.
Proof.
  intros v1 v2. destruct (decide (value_tree v1 = value_tree v2)) as [Heq|Hne]; [left|right; congruence].
  by rewrite <- (tree_value_tree v1), Heq, tree_value_tree.
Defined.
#[global] Instance Value_countable : Countable Value := inj_countable' value_tree tree_value tree_value_tree.

(** ** Extensions *)

#[global] Instance SrvMsg_eq_dec : EqDecision SrvMsg.
Proof. solve_decision. Defined.

#[global] Instance SrvMsg_countable : Countable SrvMsg.
Proof.
  refine (inj_countable'
    (λ m, match m with
      | Dispatch id me p q h b s => Some (id, me, p, q, h, b, s)
      | Shutdown => None
      end)
    (λ x, match x with
      | Some (id, me, p, q, h, b, s) => Dispatch id me p q h b s
      | None => Shutdown
      end) _).
  by intros [|].
Defined.

#[global] Instance LogLevel_eq_dec : EqDecision LogLevel.
Proof. solve_decision. Defined.
#[global] Instance LogLevel_countable : Countable LogLevel.
Proof.
  refine (inj_countable'
    (λ l, match l with Trace => 0 | Debug => 1 | Info => 2 | Warn => 3 | Error => 4 end)%nat
    (λ n, match n with 0 => Trace | 1 => Debug | 2 => Info | 3 => Warn | _ => Error end%nat) _).
  by intros [].
Defined.

#[global] Instance Event_countable : Countable Event.
Proof.
  refine (inj_countable' (λ e, (channel e, payload_b64 e)) (λ x, MkEvent x.1 x.2) _).
  by intros [].
Defined.

#[global] Instance HttpReply_countable : Countable HttpReply.
Proof.
  refine (inj_countable' (λ r, (status r, headers r, body r)) (λ '(s, h, b), MkHttpReply s h b) _).
  by intros [].
Defined.

#[global] Instance ExtMsg_eq_dec : EqDecision ExtMsg.
Proof. solve_decision. Defined.
#[global] Instance ExtMsg_countable : Countable ExtMsg.
Proof.
  refine (inj_countable'
    (λ m, match m with
      | Register p id paths channels meta => inl (inl (p, id, paths, channels, meta))
      | Messages.Result id http events => inl (inr (id, http, events))
      | ExtEvent ev => inr (inl ev)
      | Log level msg => inr (inr (level, msg))
      end)
    (λ x, match x with
      | inl (inl (p, id, paths, channels, meta)) => Register p id paths channels meta
      | inl (inr (id, http, events)) => Messages.Result id http events
      | inr (inl ev) => ExtEvent ev
      | inr (inr (level, msg)) => Log level msg
      end) _).
  by intros [].
Defined.

(** ** Administration *)

#[global] Instance ControlRequest_eq_dec : EqDecision ControlRequest.
Proof. solve_decision. Defined.
#[global] Instance ControlRequest_countable : Countable ControlRequest.
Proof.
  refine (inj_countable'
    (λ r, match r with
      | Req_Status => inl true
      | Req_TokenList => inl false
      | Req_TokenAdd n => inr (n, 0%nat)
      | Req_TokenRotate n => inr (n, 1%nat)
      | Req_TokenRevoke n => inr (n, 2%nat)
      end)
    (λ x, match x with
      | inl true => Req_Status
      | inl false => Req_TokenList
      | inr (n, 0%nat) => Req_TokenAdd n
      | inr (n, 1%nat) => Req_TokenRotate n
      | inr (n, _) => Req_TokenRevoke n
      end) _).
  by intros [].
Defined.

#[global] Instance TokenSummary_countable : Countable TokenSummary.
Proof.
  refine (inj_countable' (λ t, (ts_name t, ts_fingerprint t, ts_created t, ts_active_conns t))
    (λ '(n, f, c, a), MkTokenSummary n f c a) _).
  by intros [].
Defined.

#[global] Instance ControlResponse_eq_dec : EqDecision ControlResponse.
Proof. solve_decision. Defined.
#[global] Instance ControlResponse_countable : Countable ControlResponse.
Proof.
  refine (inj_countable'
    (λ r, match r with
      | Res_Ok => inl (inl None)
      | Res_Error msg => inl (inl (Some msg))
      | Res_Token n t => inl (inr (n, t))
      | Res_Tokens l => inr (inl l)
      | Res_Status v => inr (inr v)
      end)
    (λ x, match x with
      | inl (inl None) => Res_Ok
      | inl (inl (Some msg)) => Res_Error msg
      | inl (inr (n, t)) => Res_Token n t
      | inr (inl l) => Res_Tokens l
      | inr (inr v) => Res_Status v
      end) _).
  by intros [].
Defined.
