(* ===== verification/OutboundQueue.v ===== *)
(** * OutboundQueue: the bounded per-subscriber frame queue

    [crates/whdr-server/src/outbound_queue.rs].  A queue of serialised frames
    with a frame-count and a byte budget for event frames; on overflow the
    oldest queued events are evicted and counted, control frames are exempt.
    The mutex-protected deque and the atomic counters are one record; every
    operation is one critical section of the code. *)

From S2P Require Import Prelude.
From S2P Require Import Text.
From S2P Require Import Messages.

Local Open Scope Z_scope.

(** ** Definitions *)

Record Frame : Type := MkFrame { text : string; closing : bool; is_event : bool }.

#[global] Instance Frame_eq_dec : EqDecision Frame.
Proof. solve_decision. Defined.

Record OutboundQueue : Type := MkQueue {
  inner : list Frame;
  max_events : Z;
  max_event_bytes : Z;
  delivered : Z;
  dropped : Z;
  lag_pending : Z
}.

Definition OutboundQueue_new (max_events max_event_bytes : Z) : OutboundQueue :=
  MkQueue [] (Z.max max_events 1) (Z.max max_event_bytes 1) 0 0 0.

Definition set_inner (frames : list Frame) (q : OutboundQueue) : OutboundQueue :=
  MkQueue frames (max_events q) (max_event_bytes q) (delivered q) (dropped q) (lag_pending q).

Definition record_drop (q : OutboundQueue) : OutboundQueue :=
  MkQueue (inner q) (max_events q) (max_event_bytes q) (delivered q)
    (wrap64 (dropped q + 1)) (wrap64 (lag_pending q + 1)).

(** [take_pending_lag]: [swap(0)], [None] for no pending drop. *)
Definition take_pending_lag (q : OutboundQueue) : option Z * OutboundQueue :=
  let q' := MkQueue (inner q) (max_events q) (max_event_bytes q) (delivered q) (dropped q) 0 in
  (if lag_pending q =? 0 then None else Some (lag_pending q), q').

(** [frames.iter().filter(|frame| frame.is_event)]. *)
Definition event_frames (frames : list Frame) : list Frame :=
  filter (λ f, is_event f = true) frames.

Definition total_bytes (frames : list Frame) : Z :=
  foldr (λ f n, slen (text f) + n) 0 frames.

Definition over_budget (frames : list Frame) (incoming_bytes max_events max_event_bytes : Z)
    : bool :=
  let event_count := len (event_frames frames) in
  if event_count =? 0 then false
  else
    let event_bytes := wrap64 (total_bytes (event_frames frames)) in
    (max_events <? wrap64 (event_count + 1))
    || (max_event_bytes <? wrap64 (event_bytes + incoming_bytes)).

(** The eviction loop of [push_event]: [fuel] bounds the iterations, each of
    which removes a frame. *)
Fixpoint evict (fuel : nat) (incoming_bytes : Z) (q : OutboundQueue) : OutboundQueue :=
  match fuel with
  | O => q
  | S fuel' =>
      if over_budget (inner q) incoming_bytes (max_events q) (max_event_bytes q) then
        match list_find (λ f, is_event f = true) (inner q) with
        | None => q
        | Some (evict_at, _) =>
            evict fuel' incoming_bytes
              (record_drop (set_inner (delete evict_at (inner q)) q))
        end
      else q
  end.

Definition push_event (t : string) (q : OutboundQueue) : OutboundQueue :=
  if max_event_bytes q <? slen t then record_drop q
  else
    let q' := evict (length (inner q)) (slen t) q in
    set_inner (inner q' ++ [MkFrame t false true]) q'.

Definition push_control `{Wire SubServerMsg} (msg : SubServerMsg) (q : OutboundQueue)
    : OutboundQueue :=
  match to_string msg with
  | Err _ => q
  | Ok t => set_inner (inner q ++ [MkFrame t (is_closing msg) false]) q
  end.

(** One attempt of the [pop] loop: [None] is "wait for a notification". *)
Definition pop (q : OutboundQueue) : option Frame * OutboundQueue :=
  match inner q with
  | [] => (None, q)
  | frame :: rest =>
      let q' := set_inner rest q in
      (Some frame,
       if is_event frame
       then MkQueue rest (max_events q) (max_event_bytes q) (wrap64 (delivered q + 1))
              (dropped q) (lag_pending q)
       else q')
  end.

(** ** Specification *)

(** Remove the [k] oldest event frames, keeping every control frame. *)
Fixpoint remove_events (k : nat) (frames : list Frame) : list Frame :=
  match frames with
  | [] => []
  | f :: rest =>
      if is_event f
      then match k with O => frames | S k' => remove_events k' rest end
      else f :: remove_events k rest
  end.

(** An incoming event of [bytes] bytes fits next to the queued events. *)
Definition fits (q : OutboundQueue) (bytes : Z) (events : list Frame) : Prop :=
  events = [] ∨
  (len events + 1 ≤ max_events q ∧ total_bytes events + bytes ≤ max_event_bytes q).

(** The budgets hold (and are below [2^63], so that sums of two in-budget
    quantities do not wrap). *)
Definition within_budget (q : OutboundQueue) : Prop :=
  1 ≤ max_events q < 2 ^ 63 ∧ 1 ≤ max_event_bytes q < 2 ^ 63 ∧
  len (event_frames (inner q)) ≤ max_events q ∧
  total_bytes (event_frames (inner q)) ≤ max_event_bytes q.

(** ** Operations as steps of the queue *)

Inductive QueueOp : Type :=
  | OpPushEvent (t : string)
  | OpPushControl (msg : SubServerMsg)
  | OpPop
  | OpTakeLag.

Definition queue_step `{Wire SubServerMsg} (q : OutboundQueue) (op : QueueOp) : OutboundQueue :=
  match op with
  | OpPushEvent t => push_event t q
  | OpPushControl msg => push_control msg q
  | OpPop => (pop q).2
  | OpTakeLag => (take_pending_lag q).2
  end.

Definition queue_run `{Wire SubServerMsg} (q : OutboundQueue) (ops : list QueueOp)
    : OutboundQueue := foldl queue_step q ops.

(** A run together with the sum of the [lagged] counts the connection takes. *)
Definition reporting_step `{Wire SubServerMsg} (st : OutboundQueue * Z) (op : QueueOp)
    : OutboundQueue * Z :=
  (queue_step st.1 op,
   match op with
   | OpTakeLag => st.2 + default 0 (take_pending_lag st.1).1
   | _ => st.2
   end).

Definition reporting_run `{Wire SubServerMsg} (q : OutboundQueue) (ops : list QueueOp)
    : OutboundQueue * Z := foldl reporting_step (q, 0) ops.

Definition is_push_event (op : QueueOp) : bool :=
  match op with OpPushEvent _ => true | _ => false end.

(** Number of events offered to the queue. *)
Definition pushes (ops : list QueueOp) : Z := len (filter (λ op, is_push_event op = true) ops).

(** ** Lemmas *)

Lemma total_bytes_nonneg fs : 0 ≤ total_bytes fs.
Proof. induction fs as [|f fs IH]; simpl; [lia|]. pose proof (slen_nonneg (text f)). lia. Qed.
#[export] Hint Resolve total_bytes_nonneg : whdr.

Lemma total_bytes_app fs gs : total_bytes (fs ++ gs) = total_bytes fs + total_bytes gs.
Proof. induction fs as [|f fs IH]; simpl; lia. Qed.

Lemma total_bytes_drop k fs : total_bytes (drop k fs) ≤ total_bytes fs.
Proof.
  rewrite <- (take_drop k fs) at 2. rewrite total_bytes_app.
  pose proof (total_bytes_nonneg (take k fs)). lia.
Qed.

Lemma event_frames_app fs gs : event_frames (fs ++ gs) = event_frames fs ++ event_frames gs.
Proof. apply filter_app. Qed.

Lemma event_frames_cons_event f fs :
  is_event f = true → event_frames (f :: fs) = f :: event_frames fs.
Proof. intros. by apply filter_cons_True. Qed.

Lemma event_frames_cons_control f fs :
  is_event f = false → event_frames (f :: fs) = event_frames fs.
Proof. intros Hf. apply filter_cons_False. by rewrite Hf. Qed.

Lemma remove_events_0 fs : remove_events 0 fs = fs.
Proof. induction fs as [|f fs IH]; simpl; [done|]. rewrite IH. by destruct (is_event f). Qed.

Lemma event_frames_remove_events k fs :
  event_frames (remove_events k fs) = drop k (event_frames fs).
Proof.
  revert k. induction fs as [|f fs IH]; intros k; simpl; [by destruct k|].
  destruct (is_event f) eqn:Hf.
  - rewrite (event_frames_cons_event _ _ Hf). destruct k; simpl; [|apply IH].
    by rewrite (event_frames_cons_event _ _ Hf).
  - by rewrite !(event_frames_cons_control _ _ Hf).
Qed.

(** Removing the frame the code's [position] finds is [remove_events 1]. *)
Lemma delete_first_event fs i f :
  list_find (λ f, is_event f = true) fs = Some (i, f) → delete i fs = remove_events 1 fs.
Proof.
  revert i. induction fs as [|g fs IH]; intros i; simpl; [done|].
  case_decide as Hg; [rewrite Hg|].
  - intros [= <- <-]. simpl. by rewrite remove_events_0.
  - apply not_true_is_false in Hg. rewrite Hg.
    destruct (list_find _ fs) as [[j h]|]; simpl; [|done].
    intros [= <- <-]. simpl. f_equal. by apply IH.
Qed.

Lemma remove_events_remove_events j k fs :
  remove_events j (remove_events k fs) = remove_events (k + j) fs.
Proof.
  revert k. induction fs as [|f fs IH]; intros k; simpl; [done|].
  destruct (is_event f) eqn:Hf.
  - destruct k; simpl; [by rewrite Hf|apply IH].
  - simpl. by rewrite Hf, IH.
Qed.

(** [over_budget] is the negation of [fits] as long as the numbers involved do
    not wrap. *)
Lemma over_budget_fits q frames bytes :
  max_events q < 2 ^ 63 → max_event_bytes q < 2 ^ 63 → 0 ≤ bytes ≤ max_event_bytes q →
  len (event_frames frames) ≤ max_events q →
  total_bytes (event_frames frames) ≤ max_event_bytes q →
  over_budget frames bytes (max_events q) (max_event_bytes q) = false ↔
  fits q bytes (event_frames frames).
Proof.
  intros Hme Hmb Hb Hlen Hbytes. unfold over_budget, fits.
  pose proof (total_bytes_nonneg (event_frames frames)).
  pose proof (len_nonneg (event_frames frames)).
  destruct (len (event_frames frames) =? 0) eqn:Hz; bool_to_prop.
  - split; [|done]. left. destruct (event_frames frames); [done|].
    rewrite len_cons in *. pose proof (len_nonneg l). lia.
  - rewrite wrap64_add_l, !wrap64_small by (unfold is_u64; lia).
    rewrite orb_false_iff, !Z.ltb_ge. split; [by right|].
    intros [Hnil|]; [|done]. by rewrite Hnil in Hz.
Qed.

Lemma record_drops_inner k q : inner (Nat.iter k record_drop q) = inner q.
Proof. by induction k. Qed.
Lemma record_drops_max_events k q : max_events (Nat.iter k record_drop q) = max_events q.
Proof. by induction k. Qed.
Lemma record_drops_max_bytes k q :
  max_event_bytes (Nat.iter k record_drop q) = max_event_bytes q.
Proof. by induction k. Qed.
Lemma record_drops_delivered k q : delivered (Nat.iter k record_drop q) = delivered q.
Proof. by induction k. Qed.
Lemma record_drops_dropped k q :
  is_u64 (dropped q) → dropped (Nat.iter k record_drop q) = wrap64 (dropped q + Z.of_nat k).
Proof.
  intros Hd. induction k as [|k IH]; simpl.
  - rewrite Z.add_0_r. by rewrite wrap64_small.
  - rewrite IH, wrap64_add_l. f_equal. lia.
Qed.
Lemma record_drops_lag k q :
  is_u64 (lag_pending q) →
  lag_pending (Nat.iter k record_drop q) = wrap64 (lag_pending q + Z.of_nat k).
Proof.
  intros Hd. induction k as [|k IH]; simpl.
  - rewrite Z.add_0_r. by rewrite wrap64_small.
  - rewrite IH, wrap64_add_l. f_equal. lia.
Qed.
#[export] Hint Rewrite record_drops_inner record_drops_max_events record_drops_max_bytes
  record_drops_delivered : whdr.

Lemma record_drop_set_inner fs q :
  record_drop (set_inner fs q) = set_inner fs (record_drop q).
Proof. done. Qed.
Lemma record_drops_set_inner k fs q :
  Nat.iter k record_drop (set_inner fs q) = set_inner fs (Nat.iter k record_drop q).
Proof. induction k as [|k IH]; [done|]. simpl. by rewrite IH. Qed.

(** An event-free queue always has room; an over-full one has an event. *)
Lemma fits_nil q bytes : fits q bytes [].
Proof. by left. Qed.

Lemma list_find_event fs :
  event_frames fs ≠ [] → ∃ i f, list_find (λ f, is_event f = true) fs = Some (i, f).
Proof.
  intros Hne. destruct (list_find _ fs) as [[i f]|] eqn:Hfind; [eauto|].
  apply list_find_None in Hfind. exfalso. apply Hne.
  induction Hfind as [|f fs Hf _ IH]; [done|].
  rewrite event_frames_cons_control by (by destruct (is_event f)). apply IH.
  intros Hnil. apply Hne. by rewrite event_frames_cons_control by (by destruct (is_event f)).
Qed.

(** The eviction loop drops the least number [k] of oldest events after which
    the incoming event fits, and counts each of them. *)
Lemma evict_spec n bytes q :
  within_budget q → 0 ≤ bytes ≤ max_event_bytes q →
  (length (event_frames (inner q)) ≤ n)%nat →
  ∃ k, (k ≤ length (event_frames (inner q)))%nat ∧
    evict n bytes q =
      set_inner (remove_events k (inner q)) (Nat.iter k record_drop q) ∧
    fits q bytes (drop k (event_frames (inner q))) ∧
    ∀ j, (j < k)%nat → ¬ fits q bytes (drop j (event_frames (inner q))).
Proof.
  revert q. induction n as [|n IH]; intros q Hq Hb Hn.
  { exists 0%nat. rewrite remove_events_0. split_and!; [lia|by destruct q| |intros; lia].
    destruct (event_frames (inner q)); [|simpl in *; lia]. apply fits_nil. }
  pose proof Hq as (Hme & Hmb & Hlen & Hbytes).
  pose proof (over_budget_fits q (inner q) bytes
    (proj2 Hme) (proj2 Hmb) Hb Hlen Hbytes) as Hfits.
  simpl. destruct (over_budget _ _ _ _) eqn:Hover.
  2: { exists 0%nat. rewrite remove_events_0.
       split_and!; [lia|by destruct q|by apply Hfits|intros; lia]. }
  assert (¬ fits q bytes (event_frames (inner q))) as Hnofit.
  { rewrite <- Hfits. done. }
  assert (event_frames (inner q) ≠ []) as Hne.
  { intros Hnil. apply Hnofit. rewrite Hnil. apply fits_nil. }
  destruct (list_find_event _ Hne) as (i & f & Hfind). rewrite Hfind.
  rewrite (delete_first_event _ _ _ Hfind).
  set (q1 := record_drop (set_inner (remove_events 1 (inner q)) q)).
  assert (event_frames (inner q1) = drop 1 (event_frames (inner q))) as Hev1
    by apply event_frames_remove_events.
  destruct (IH q1) as (k & Hk & Heq & Hfit & Hleast).
  - unfold within_budget. rewrite Hev1. unfold len in *. rewrite length_drop.
    pose proof (total_bytes_drop 1 (event_frames (inner q))). simpl max_events.
    simpl max_event_bytes. lia.
  - done.
  - rewrite Hev1, length_drop. lia.
  - rewrite Hev1, length_drop in Hk. rewrite Hev1, drop_drop in Hfit.
    setoid_rewrite Hev1 in Hleast. setoid_rewrite drop_drop in Hleast.
    exists (S k). split_and!.
    + destruct (event_frames (inner q)); [done|simpl in *; lia].
    + rewrite Heq. unfold q1 at 1. simpl inner. rewrite remove_events_remove_events.
      rewrite Nat.iter_succ_r. unfold q1. by rewrite record_drop_set_inner, record_drops_set_inner.
    + exact Hfit.
    + intros [|j] Hj; [by rewrite drop_0|]. apply Hleast. lia.
Qed.

Definition control_frames (frames : list Frame) : list Frame :=
  filter (λ f, is_event f = false) frames.

Lemma control_frames_remove_events k fs :
  control_frames (remove_events k fs) = control_frames fs.
Proof.
  unfold control_frames. revert k. induction fs as [|f fs IH]; intros k; simpl; [done|].
  destruct (is_event f) eqn:Hf.
  - rewrite (filter_cons_False _ f fs) by congruence. destruct k; [|apply IH].
    by rewrite filter_cons_False by congruence.
  - rewrite !(filter_cons_True _ f) by done. by rewrite IH.
Qed.

(** The two cases of [push_event] in closed form. *)
Lemma push_event_oversized q t :
  max_event_bytes q < slen t → push_event t q = record_drop q.
Proof. intros Ht. unfold push_event. by rewrite (proj2 (Z.ltb_lt _ _) Ht). Qed.

Lemma push_event_fitting q t :
  within_budget q → slen t ≤ max_event_bytes q →
  ∃ k, (k ≤ length (event_frames (inner q)))%nat ∧
    push_event t q =
      set_inner (remove_events k (inner q) ++ [MkFrame t false true])
        (Nat.iter k record_drop q) ∧
    fits q (slen t) (drop k (event_frames (inner q))) ∧
    ∀ j, (j < k)%nat → ¬ fits q (slen t) (drop j (event_frames (inner q))).
Proof.
  intros Hq Ht. unfold push_event. rewrite (proj2 (Z.ltb_ge _ _) Ht).
  destruct (evict_spec (length (inner q)) (slen t) q) as (k & Hk & Heq & Hfit & Hleast);
    [done|split; [apply slen_nonneg|done]|apply length_filter|].
  exists k. rewrite Heq. split_and!; done.
Qed.

Lemma push_event_within_budget q t : within_budget q → within_budget (push_event t q).
Proof.
  intros Hq. destruct (Z.lt_ge_cases (max_event_bytes q) (slen t)) as [Ht|Ht].
  { by rewrite push_event_oversized. }
  destruct (push_event_fitting q t Hq Ht) as (k & Hk & -> & Hfit & _).
  destruct Hq as (Hme & Hmb & _).
  unfold within_budget. simpl. autorewrite with whdr.
  rewrite event_frames_app, event_frames_remove_events, len_app, total_bytes_app.
  change (event_frames [MkFrame t false true]) with [MkFrame t false true].
  split; [done|]. split; [done|]. simpl. unfold fits in Hfit.
  pose proof (slen_nonneg t). change (len [MkFrame t false true]) with 1.
  destruct Hfit as [->|]; simpl; [change (len (@nil Frame)) with 0|]; lia.
Qed.

Lemma queue_step_within_budget `{Wire SubServerMsg} q op :
  within_budget q → within_budget (queue_step q op).
Proof.
  intros Hq. destruct op as [t|msg| |]; simpl; [by apply push_event_within_budget|..].
  - unfold push_control. destruct (to_string msg); [|done]. unfold within_budget. simpl.
    rewrite event_frames_app. rewrite event_frames_cons_control by done. by rewrite app_nil_r.
  - unfold pop. destruct (inner q) as [|f fs] eqn:Hin; [done|]. simpl.
    destruct Hq as (Hme & Hmb & Hlen & Hbytes). rewrite Hin in *. destruct (is_event f) eqn:Hf.
    + rewrite event_frames_cons_event in Hlen, Hbytes by done. rewrite len_cons in Hlen.
      simpl in Hbytes. pose proof (slen_nonneg (text f)). unfold within_budget. simpl. lia.
    + by rewrite event_frames_cons_control in Hlen, Hbytes.
  - done.
Qed.

Lemma queue_run_within_budget `{Wire SubServerMsg} q ops :
  within_budget q → within_budget (queue_run q ops).
Proof.
  revert q. induction ops as [|op ops IH]; intros q Hq; [done|]. simpl.
  by apply IH, queue_step_within_budget.
Qed.

Lemma evict_budgets n bytes q :
  max_events (evict n bytes q) = max_events q ∧
  max_event_bytes (evict n bytes q) = max_event_bytes q.
Proof.
  revert q. induction n as [|n IH]; intros q; simpl; [done|].
  destruct (over_budget _ _ _ _); [|done]. destruct (list_find _ _) as [[i f]|]; [|done].
  exact (IH (record_drop (set_inner (delete i (inner q)) q))).
Qed.

Lemma queue_step_budgets `{Wire SubServerMsg} q op :
  max_events (queue_step q op) = max_events q ∧
  max_event_bytes (queue_step q op) = max_event_bytes q.
Proof.
  destruct op as [t|msg| |]; simpl; [| | |done].
  - unfold push_event. destruct (_ <? _); [done|]. apply evict_budgets.
  - unfold push_control. by destruct (to_string msg).
  - unfold pop. destruct (inner q) as [|f fs]; [done|]. by destruct (is_event f).
Qed.

Lemma new_within_budget a b :
  a < 2 ^ 63 → b < 2 ^ 63 → within_budget (OutboundQueue_new a b).
Proof.
  intros. unfold within_budget, OutboundQueue_new. simpl.
  change (len (event_frames [])) with 0. simpl. lia.
Qed.

Lemma queue_run_snoc `{Wire SubServerMsg} q ops op :
  queue_run q (ops ++ [op]) = queue_step (queue_run q ops) op.
Proof. unfold queue_run. by rewrite foldl_app. Qed.

Lemma pushes_snoc ops op :
  pushes (ops ++ [op]) = pushes ops + (if is_push_event op then 1 else 0).
Proof.
  unfold pushes. rewrite filter_app, len_app. f_equal.
  destruct op; simpl; reflexivity.
Qed.

Lemma pushes_nonneg ops : 0 ≤ pushes ops.
Proof. apply len_nonneg. Qed.

Lemma reporting_run_snoc `{Wire SubServerMsg} q ops op :
  reporting_run q (ops ++ [op]) = reporting_step (reporting_run q ops) op.
Proof. unfold reporting_run. by rewrite foldl_app. Qed.

Lemma reporting_run_fst `{Wire SubServerMsg} q ops :
  (reporting_run q ops).1 = queue_run q ops.
Proof.
  induction ops as [|op ops IH] using rev_ind; [done|].
  rewrite reporting_run_snoc, queue_run_snoc. simpl. by rewrite IH.
Qed.

(** The counters along a run: of the [n] events offered so far each is
    delivered, dropped or still queued; each drop is reported ([r]) or pending;
    no counter has wrapped. *)
Definition accounted (n : Z) (st : OutboundQueue * Z) : Prop :=
  let q := st.1 in
  0 ≤ delivered q ∧ 0 ≤ lag_pending q ∧ 0 ≤ st.2 ∧
  st.2 + lag_pending q = dropped q ∧
  delivered q + dropped q + len (event_frames (inner q)) = n.

Lemma accounted_push `{Wire SubServerMsg} n q r t :
  within_budget q → accounted n (q, r) → n + 1 < 2 ^ 64 →
  accounted (n + 1) (push_event t q, r).
Proof.
  intros Hq (Hdel & Hlag & Hr & Hrep & Hsum) Hn. simpl in *.
  pose proof (len_nonneg (event_frames (inner q))) as Hlen. unfold accounted. simpl.
  destruct (Z.lt_ge_cases (max_event_bytes q) (slen t)) as [Ht|Ht].
  - rewrite push_event_oversized by done. simpl.
    rewrite !wrap64_small by (unfold is_u64; lia). lia.
  - destruct (push_event_fitting q t Hq Ht) as (k & Hk & -> & _). simpl.
    rewrite record_drops_delivered, record_drops_dropped, record_drops_lag
      by (unfold is_u64; lia).
    rewrite event_frames_app, event_frames_remove_events, len_app.
    change (len (event_frames [MkFrame t false true])) with 1.
    unfold len in *. rewrite length_drop.
    rewrite !wrap64_small by (unfold is_u64; lia). lia.
Qed.

Lemma accounted_step `{Wire SubServerMsg} n st op :
  within_budget st.1 → accounted n st → n + 1 < 2 ^ 64 →
  accounted (n + (if is_push_event op then 1 else 0)) (reporting_step st op).
Proof.
  destruct st as [q r]. intros Hq Hacc Hn.
  destruct op as [t|msg| |]; [by apply accounted_push|..];
    destruct Hacc as (Hdel & Hlag & Hr & Hrep & Hsum); simpl in *;
    pose proof (len_nonneg (event_frames (inner q))) as Hlen;
    unfold accounted; simpl; rewrite Z.add_0_r.
  - unfold push_control. destruct (to_string msg); simpl; [|done].
    by rewrite event_frames_app, (event_frames_cons_control _ []), app_nil_r by done.
  - unfold pop. destruct (inner q) as [|f fs] eqn:Hin; simpl; [by rewrite Hin|].
    destruct (is_event f) eqn:Hf; simpl.
    + rewrite event_frames_cons_event, len_cons in Hsum by done.
      pose proof (len_nonneg (event_frames fs)).
      rewrite wrap64_small by (unfold is_u64; lia). lia.
    + by rewrite event_frames_cons_control in Hsum by done.
  - destruct (lag_pending q =? 0) eqn:Hz; bool_to_prop; simpl; lia.
Qed.

Lemma accounted_run `{Wire SubServerMsg} a b ops :
  a < 2 ^ 63 → b < 2 ^ 63 → pushes ops < 2 ^ 64 - 1 →
  accounted (pushes ops) (reporting_run (OutboundQueue_new a b) ops).
Proof.
  intros Ha Hb. induction ops as [|op ops IH] using rev_ind.
  { intros _. unfold accounted. simpl. change (len (event_frames [])) with 0.
    change (pushes []) with 0. lia. }
  rewrite pushes_snoc, reporting_run_snoc. intros Hn.
  assert (pushes ops < 2 ^ 64 - 1) by (destruct (is_push_event op); lia).
  apply accounted_step; [|by apply IH|lia].
  rewrite reporting_run_fst. by apply queue_run_within_budget, new_within_budget.
Qed.

(** ** Theorems *)

(** C24: overflow evicts the oldest events and nothing else.  A frame larger
    than the byte budget is counted as dropped and changes nothing; any other
    event is appended at the back after removing the [k] oldest events, where
    [k] is the least number that makes room for it, each counted as dropped and
    as pending lag; control frames keep their place and order. *)
Theorem push_event_evicts_oldest_minimally q t :
  within_budget q →
  control_frames (inner (push_event t q)) = control_frames (inner q) ∧
  if max_event_bytes q <? slen t then push_event t q = record_drop q
  else ∃ k, (k ≤ length (event_frames (inner q)))%nat ∧
    push_event t q =
      set_inner (remove_events k (inner q) ++ [MkFrame t false true])
        (Nat.iter k record_drop q) ∧
    fits q (slen t) (drop k (event_frames (inner q))) ∧
    ∀ j, (j < k)%nat → ¬ fits q (slen t) (drop j (event_frames (inner q))).
Proof.
  intros Hq. destruct (max_event_bytes q <? slen t) eqn:Ht; bool_to_prop.
  { by rewrite push_event_oversized. }
  destruct (push_event_fitting q t Hq Ht) as (k & Hk & Heq & Hfit). split; [|by exists k].
  rewrite Heq. unfold control_frames at 1. simpl. rewrite filter_app.
  change (filter _ [MkFrame t false true]) with (@nil Frame). rewrite app_nil_r.
  apply control_frames_remove_events.
Qed.

Definition example_queue : OutboundQueue :=
  set_inner [MkFrame "aaaa" false true; MkFrame "pong" false false; MkFrame "bbbb" false true]
    (OutboundQueue_new 64 10).

Lemma example_queue_within_budget : within_budget example_queue.
Proof. vm_compute. repeat split; discriminate. Qed.

Lemma push_event_evicts_oldest_minimally_witness :
  within_budget example_queue ∧
  inner (push_event "cccccc" example_queue) =
    [MkFrame "pong" false false; MkFrame "bbbb" false true; MkFrame "cccccc" false true] ∧
  control_frames (inner (push_event "cccccc" example_queue)) =
    control_frames (inner example_queue).
Proof.
  split; [apply example_queue_within_budget|]. split; [reflexivity|].
  exact (proj1 (push_event_evicts_oldest_minimally example_queue "cccccc"
    example_queue_within_budget)).
Defined.

(** From a new queue (with budgets below [2^63]) the count and byte budgets
    hold after every sequence of pushes, control frames, pops and lag takes. *)
Theorem budgets_always_hold `{Wire SubServerMsg} a b ops :
  a < 2 ^ 63 → b < 2 ^ 63 →
  let q := queue_run (OutboundQueue_new a b) ops in
  len (event_frames (inner q)) ≤ Z.max a 1 ∧
  total_bytes (event_frames (inner q)) ≤ Z.max b 1.
Proof.
  intros Ha Hb q.
  destruct (queue_run_within_budget _ ops (new_within_budget a b Ha Hb)) as (_ & _ & H1 & H2).
  assert (max_events q = Z.max a 1 ∧ max_event_bytes q = Z.max b 1) as [<- <-]; [|done].
  clear H1 H2. subst q. induction ops as [|op ops IH] using rev_ind; [done|].
  rewrite queue_run_snoc. revert IH. generalize (queue_run (OutboundQueue_new a b) ops).
  intros q [<- <-]. apply queue_step_budgets.
Qed.

(** C25: nothing is lost silently.  After any run with fewer than [2^64 - 1]
    events offered, every event offered is delivered, dropped or still queued,
    and every drop was reported in a [lagged] count or is pending. *)
Theorem every_event_is_accounted_for `{Wire SubServerMsg} a b ops :
  a < 2 ^ 63 → b < 2 ^ 63 → pushes ops < 2 ^ 64 - 1 →
  let st := reporting_run (OutboundQueue_new a b) ops in
  delivered st.1 + dropped st.1 + len (event_frames (inner st.1)) = pushes ops ∧
  st.2 + lag_pending st.1 = dropped st.1.
Proof.
  intros Ha Hb Hn st. destruct (accounted_run a b ops Ha Hb Hn) as (_ & _ & _ & ? & ?). done.
Qed.

Definition example_ops : list QueueOp :=
  [OpPushEvent "a"; OpPushEvent "b"; OpPushControl Sub_Pong; OpPushEvent "c"; OpTakeLag;
   OpPop; OpPop; OpPushEvent "toolong"].

Lemma budgets_always_hold_witness :
  let q := queue_run (H := BitCodec.wire) (OutboundQueue_new 2 4) example_ops in
  len (event_frames (inner q)) ≤ 2 ∧ total_bytes (event_frames (inner q)) ≤ 4.
Proof. apply (budgets_always_hold (H := BitCodec.wire) 2 4 example_ops); reflexivity. Defined.

Lemma every_event_is_accounted_for_witness :
  let st := reporting_run (H := BitCodec.wire) (OutboundQueue_new 2 4) example_ops in
  dropped st.1 = 2 ∧ st.2 = 1 ∧
  delivered st.1 + dropped st.1 + len (event_frames (inner st.1)) = 4 ∧
  st.2 + lag_pending st.1 = dropped st.1.
Proof.
  split; [vm_compute; reflexivity|]. split; [vm_compute; reflexivity|].
  apply (every_event_is_accounted_for (H := BitCodec.wire) 2 4 example_ops); reflexivity.
Defined.
