(* ===== verification/Config.v ===== *)
(** * Config: the daemon configuration and its validation

    [crates/whdr-server/src/config.rs].  The configuration records with their
    defaults, the permission check of secret-bearing files, [Config::load] and
    [Config::validate].  The TOML parser (the [toml] crate) is a parameter of
    [load]; the file system is what the program observes of it, an [FsView].
    Errors are the outermost [anyhow] message. *)

From S2P Require Import Prelude.
From S2P Require Import Text.

Local Open Scope Z_scope.

(** ** Observed file system *)

(** What [Path::exists], [fs::metadata(..).permissions().mode()] and
    [fs::read_to_string] answer ([None] is an I/O error). *)
Record FsView : Type := MkFsView {
  fs_exists : string → bool;
  fs_mode : string → option Z;
  fs_read : string → option string
}.

(** [format!("{mode:o}")] of a mode below [2^12]. *)
Fixpoint octal_digits (fuel : nat) (n : Z) (acc : string) : string :=
  match fuel with
  | O => acc
  | S fuel' =>
      let acc' := pretty (n mod 8) +:+ acc in
      if n / 8 =? 0 then acc' else octal_digits fuel' (n / 8) acc'
  end.
Definition octal (n : Z) : string := octal_digits 64 n EmptyString.

Definition enforce_0600 (fs : FsView) (path label : string) : result string () :=
  match fs_mode fs path with
  | None => Err ("stat " +:+ label +:+ " " +:+ path)
  | Some m =>
      let mode := Z.land m 511 in
      if negb (mode =? 384) then
        Err (label +:+ " " +:+ path +:+ " must have mode 0600, got " +:+ octal mode)
      else Ok ()
  end.

(** ** Addresses *)

Inductive IpAddr : Type := V4 (bits : Z) | V6 (bits : Z).
Record SocketAddr : Type := MkSocketAddr { ip : IpAddr; port : Z }.

(** [IpAddr::is_loopback]: 127.0.0.0/8 and ::1. *)
Definition is_loopback (a : IpAddr) : bool :=
  match a with
  | V4 bits => Z.shiftr bits 24 =? 127
  | V6 bits => bits =? 1
  end.

Definition LOCALHOST : IpAddr := V4 2130706433.

(** ** Configuration records *)

Record ServerConfig : Type := MkServerConfig {
  listen_addr : SocketAddr;
  sub_addr : SocketAddr;
  control_socket : string;
  metrics_addr : option SocketAddr
}.
Definition ServerConfig_default : ServerConfig :=
  MkServerConfig (MkSocketAddr LOCALHOST 8787) (MkSocketAddr LOCALHOST 8788)
    "/run/whdr/ctl.sock" None.

Record TlsConfig : Type := MkTlsConfig { cert : string; key : string }.
Definition TlsConfig_default : TlsConfig := MkTlsConfig EmptyString EmptyString.

Record SubscribersConfig : Type := MkSubscribersConfig {
  token_store : option string;
  allow_plaintext_lan : bool;
  ws_idle_timeout_ms : Z;
  tls : option TlsConfig
}.
Definition SubscribersConfig_default : SubscribersConfig :=
  MkSubscribersConfig None false 30000 None.

Record ExtensionsConfig : Type := MkExtensionsConfig {
  enabled : list string;
  autostart_all : bool
}.
Definition ExtensionsConfig_default : ExtensionsConfig := MkExtensionsConfig [] false.

Record LimitsConfig : Type := MkLimitsConfig {
  max_body_bytes : Z;
  max_in_flight : Z;
  sub_queue_len : Z;
  sub_queue_bytes : Z;
  dispatch_timeout_ms : Z;
  max_protocol_errors : Z;
  hang_kill_threshold : Z;
  crashloop_threshold : Z;
  crashloop_window_ms : Z
}.
Definition LimitsConfig_default : LimitsConfig :=
  MkLimitsConfig 1048576 64 1024 8388608 10000 3 3 5 60000.

Record TimeoutsConfig : Type := MkTimeoutsConfig {
  register_ms : Z;
  drain_ms : Z;
  term_grace_ms : Z
}.
Definition TimeoutsConfig_default : TimeoutsConfig := MkTimeoutsConfig 5000 5000 3000.

Record DeliveryConfig : Type := MkDeliveryConfig {
  delivery_enabled : bool;
  store_path : string;
  retention_secs : Z;
  max_bytes : Z;
  dc_max_events : Z;
  prune_interval_secs : Z
}.
Definition DeliveryConfig_default : DeliveryConfig :=
  MkDeliveryConfig false "/var/lib/whdr/delivery.redb" 86400 536870912 1000000 300.

Record Config : Type := MkConfig {
  server : ServerConfig;
  subscribers : SubscribersConfig;
  extensions : ExtensionsConfig;
  limits : LimitsConfig;
  timeouts : TimeoutsConfig;
  delivery : DeliveryConfig;
  secrets_file : option string;
  secrets : gmap string string
}.

(** The shape [toml::from_str] produces; [raw_secrets] is the [file] of the
    optional [[secrets]] section. *)
Record RawConfig : Type := MkRawConfig {
  raw_server : ServerConfig;
  raw_subscribers : SubscribersConfig;
  raw_extensions : ExtensionsConfig;
  raw_limits : LimitsConfig;
  raw_timeouts : TimeoutsConfig;
  raw_delivery : DeliveryConfig;
  raw_secrets : option string
}.
Definition RawConfig_default : RawConfig :=
  MkRawConfig ServerConfig_default SubscribersConfig_default ExtensionsConfig_default
    LimitsConfig_default TimeoutsConfig_default DeliveryConfig_default None.

(** ** Operations *)

Definition token_store_path (c : Config) : string :=
  default "/var/lib/whdr/tokens.toml" (token_store (subscribers c)).

Definition validate (c : Config) : result string () :=
  if bool_decide (is_Some (tls (subscribers c))) then
    Err "subscriber TLS is configured but native TLS is not implemented"
  else if match metrics_addr (server c) with
          | Some a => negb (is_loopback (ip a))
          | None => false
          end then
    Err "metrics_addr must bind a loopback address; scrape locally or front with a proxy"
  else if negb (is_loopback (ip (sub_addr (server c))))
          && bool_decide (tls (subscribers c) = None)
          && negb (allow_plaintext_lan (subscribers c)) then
    Err "refusing non-loopback subscriber bind without TLS or allow_plaintext_lan = true"
  else if delivery_enabled (delivery c)
          && ((retention_secs (delivery c) =? 0) || (max_bytes (delivery c) =? 0)
              || (dc_max_events (delivery c) =? 0)) then
    Err "[delivery] retention_secs/max_bytes/max_events must be > 0 when enabled"
  else Ok ().

Section load.
(** [toml::from_str] at the two types the daemon reads. *)
Context (parse_config : string → option RawConfig).
Context (parse_secrets : string → option (gmap string string)).

Definition load_secrets (fs : FsView) (section : option string)
    : result string (option string * gmap string string) :=
  match section with
  | Some file =>
      _ ← enforce_0600 fs file "secrets file";
      secrets_text ← ok_or ("read secrets file " +:+ file) (fs_read fs file);
      secs ← ok_or "parse secrets toml" (parse_secrets secrets_text);
      Ok (Some file, secs)
  | None => Ok (None, ∅)
  end.

Definition Config_load (fs : FsView) (path : string) : result string Config :=
  text ← ok_or ("read config " +:+ path) (fs_read fs path);
  raw ← ok_or "parse config toml" (parse_config text);
  sec ← load_secrets fs (raw_secrets raw);
  let config :=
    MkConfig (raw_server raw) (raw_subscribers raw) (raw_extensions raw) (raw_limits raw)
      (raw_timeouts raw) (raw_delivery raw) sec.1 sec.2 in
  _ ← validate config;
  Ok config.
End load.

(** ** Specification *)

(** The plaintext subscriber plane is reachable from other hosts only by an
    explicit choice; metrics stay local; an enabled delivery log has bounds. *)
Definition safe_config (c : Config) : Prop :=
  tls (subscribers c) = None ∧
  (∀ a, metrics_addr (server c) = Some a → is_loopback (ip a) = true) ∧
  (is_loopback (ip (sub_addr (server c))) = true ∨ allow_plaintext_lan (subscribers c) = true) ∧
  (delivery_enabled (delivery c) = true →
   retention_secs (delivery c) ≠ 0 ∧ max_bytes (delivery c) ≠ 0 ∧ dc_max_events (delivery c) ≠ 0).

(** ** Lemmas *)

Lemma enforce_0600_Ok fs path label :
  enforce_0600 fs path label = Ok () ↔ ∃ m, fs_mode fs path = Some m ∧ Z.land m 511 = 384.
Proof.
  unfold enforce_0600. destruct (fs_mode fs path) as [m|].
  - destruct (Z.eqb_spec (Z.land m 511) 384); simpl.
    + split; [eauto|done].
    + split; [done|]. intros (m' & [= <-] & ?). done.
  - split; [done|]. by intros (m & ? & _).
Qed.

Lemma validate_Ok c : validate c = Ok () ↔ safe_config c.
Proof.
  unfold validate, safe_config.
  destruct (tls (subscribers c)) as [t|]; [split; [done|by intros [? _]]|]. simpl.
  rewrite andb_true_r.
  destruct (metrics_addr (server c)) as [a|] eqn:Hm.
  - destruct (is_loopback (ip a)) eqn:Ha; simpl.
    2: { split; [done|]. intros (_ & Hmet & _). by specialize (Hmet a eq_refl); congruence. }
    all: destruct (is_loopback (ip (sub_addr (server c)))),
      (allow_plaintext_lan (subscribers c)), (delivery_enabled (delivery c)); simpl;
      repeat case_bool; bool_to_prop; intuition (congruence || lia).
  - destruct (is_loopback (ip (sub_addr (server c)))),
      (allow_plaintext_lan (subscribers c)), (delivery_enabled (delivery c)); simpl;
      repeat case_bool; bool_to_prop; intuition (congruence || lia).
Qed.

(** ** Theorems *)

(** [Config::load] never yields an unsafe configuration: what it returns
    binds the subscriber plane to loopback unless plaintext LAN was explicitly
    allowed, keeps metrics on loopback, has no TLS section and bounds an enabled
    delivery log; and secrets only ever come from a file whose permission bits
    are exactly 0600 (with no secrets section there are no secrets). *)
Theorem load_is_safe parse_config parse_secrets fs path c :
  Config_load parse_config parse_secrets fs path = Ok c →
  safe_config c ∧
  match secrets_file c with
  | Some file => ∃ m, fs_mode fs file = Some m ∧ Z.land m 511 = 384
  | None => secrets c = ∅
  end.
Proof.
  unfold Config_load.
  intros (text & _ & H)%result_bind_Ok.
  apply result_bind_Ok in H as (raw & _ & H).
  apply result_bind_Ok in H as ([sf secs] & Hsec & H).
  apply result_bind_Ok in H as ([] & Hval & [= <-]). cbn [secrets_file secrets].
  split; [by apply validate_Ok|]. cbn [fst snd]. unfold load_secrets in Hsec.
  destruct (raw_secrets raw) as [file|]; [|by injection Hsec as <- <-].
  apply result_bind_Ok in Hsec as ([] & Hperm & Hsec).
  apply result_bind_Ok in Hsec as (t & _ & Hsec).
  apply result_bind_Ok in Hsec as (s & _ & [= <- <-]). by apply enforce_0600_Ok in Hperm.
Qed.

Definition example_fs : FsView :=
  MkFsView (λ _, true) (λ _, Some 33152) (λ _, Some "text").
Definition example_raw : RawConfig :=
  MkRawConfig ServerConfig_default SubscribersConfig_default ExtensionsConfig_default
    LimitsConfig_default TimeoutsConfig_default DeliveryConfig_default
    (Some "/etc/whdr/secrets.toml").

Lemma load_is_safe_witness :
  ∃ c, Config_load (λ _, Some example_raw) (λ _, Some {[ "github" := "whsec" ]})
         example_fs "/etc/whdr/config.toml" = Ok c ∧
    safe_config c ∧
    match secrets_file c with
    | Some file => ∃ m, fs_mode example_fs file = Some m ∧ Z.land m 511 = 384
    | None => secrets c = ∅
    end.
Proof.
  eexists. split; [reflexivity|].
  apply (load_is_safe (λ _, Some example_raw) (λ _, Some {[ "github" := "whsec" ]})
    example_fs "/etc/whdr/config.toml").
  reflexivity.
Defined.

(** [validate] accepts exactly the safe configurations. *)
Theorem validate_accepts_exactly_safe_configs c : validate c = Ok () ↔ safe_config c.
Proof. apply validate_Ok. Qed.
