(* ===== verification/DeliveryLog.v ===== *)
(** * DeliveryLog: the durable event log

    [crates/whdr-server/src/delivery_log.rs].  An append-only log of stamped
    events over an embedded ordered key/value table, with a retention prune from
    the front, a replay range scan and recovery on open.

    The [redb] database is not part of the repository: it is the class [Redb] of
    its operations, each of which may fail, with the laws of a transactional
    ordered map ([RedbLaws]).  The JSON codec of the stored rows is the class
    [Wire]. *)

From S2P Require Import Prelude.
From S2P Require Import Text.
From S2P Require Import Channel.
From S2P Require Import Messages.
From S2P Require Import Config.

Local Open Scope Z_scope.

(** ** The database interface *)

(** A row is a key and its value bytes. *)
Abbreviation row := (Z * string)%type (only parsing).

(** Ordered-map insertion, the reference behaviour of [Table::insert]. *)
Fixpoint row_insert (k : Z) (v : string) (rows : list row) : list row :=
  match rows with
  | [] => [(k, v)]
  | (k', v') :: rest =>
      if k <? k' then (k, v) :: rows
      else if k =? k' then (k, v) :: rest
      else (k', v') :: row_insert k v rest
  end.

Class Redb (Db Table : Type) : Type := {
  begin_write : Db → option Table;
  begin_read : Db → option Table;
  table_insert : Z → string → Table → option Table;
  table_remove : Z → Table → option Table;
  table_iter : Table → option (list row);
  table_range_from : Z → Table → option (list row);
  commit : Table → option Db;
  (** the committed content of a database and the content a transaction sees *)
  db_rows : Db → list row;
  table_rows : Table → list row
}.

Class RedbLaws (Db Table : Type) `{Redb Db Table} : Prop := {
  db_sorted db : StronglySorted Z.lt (db_rows db).*1;
  begin_write_rows db t : begin_write db = Some t → table_rows t = db_rows db;
  begin_read_rows db t : begin_read db = Some t → table_rows t = db_rows db;
  table_insert_rows k v t t' :
    table_insert k v t = Some t' → table_rows t' = row_insert k v (table_rows t);
  table_remove_rows k t t' :
    table_remove k t = Some t' → table_rows t' = filter (λ r, r.1 ≠ k) (table_rows t);
  table_iter_rows t rows : table_iter t = Some rows → rows = table_rows t;
  table_range_rows k t rows :
    table_range_from k t = Some rows → rows = filter (λ r, k ≤ r.1) (table_rows t);
  commit_rows t db : commit t = Some db → db_rows db = table_rows t
}.

(** ** Definitions *)

Record StoredEvent : Type := MkStoredEvent {
  se_id : Uuid;
  se_ts_ms : Z;
  se_channel : string;
  se_payload_b64 : string
}.

Record StampedEvent : Type := MkStampedEvent {
  seq : Z;
  id : Uuid;
  ts_ms : Z;
  st_channel : string;
  st_payload_b64 : string
}.

#[global] Instance StoredEvent_eq_dec : EqDecision StoredEvent.
Proof. solve_decision. Defined.
#[global] Instance StampedEvent_eq_dec : EqDecision StampedEvent.
Proof. solve_decision. Defined.

Section delivery_log.
Context {Db Table : Type} {R : Redb Db Table} {W : Wire StoredEvent}.

(** [struct Shared]: the database, the atomics and the retention knobs (the
    writer mutex makes [append_blocking] and [prune_blocking] atomic). *)
Record Shared : Type := MkShared {
  db : Db;
  head : Z;
  floor : Z;
  retained_count : Z;
  retained_bytes : Z;
  sh_retention_secs : Z;
  sh_max_bytes : Z;
  sh_max_events : Z
}.

Definition stored_of (s : StampedEvent) : StoredEvent :=
  MkStoredEvent (id s) (ts_ms s) (st_channel s) (st_payload_b64 s).

Definition stamped_of (seq : Z) (s : StoredEvent) : StampedEvent :=
  MkStampedEvent seq (se_id s) (se_ts_ms s) (se_channel s) (se_payload_b64 s).

(** The stamping loop of [append_blocking]: [offset] is the [enumerate]
    index; [new_v4 offset] the identifier drawn for it. *)
Fixpoint stamp_events (base ts : Z) (new_v4 : nat → Uuid) (offset : nat)
    (events : list Event) : result string (list (StampedEvent * string)) :=
  match events with
  | [] => Ok []
  | event :: rest =>
      let seq := wrap64 (base + 1 + Z.of_nat offset) in
      let stored := MkStoredEvent (new_v4 offset) ts (channel event) (payload_b64 event) in
      value ← to_string stored;
      tail ← stamp_events base ts new_v4 (S offset) rest;
      Ok ((stamped_of seq stored, value) :: tail)
  end.

Fixpoint insert_rows (rows : list row) (t : Table) : option Table :=
  match rows with
  | [] => Some t
  | (k, v) :: rest => t' ← table_insert k v t; insert_rows rest t'
  end.

Definition values_bytes (values : list string) : Z :=
  foldr (λ v n, slen v + n) 0 values.

(** [append_blocking] on a non-empty batch. *)
Definition append_blocking (events : list Event) (ts : Z) (new_v4 : nat → Uuid)
    (s : Shared) : result string (list StampedEvent) * Shared :=
  match stamp_events (head s) ts new_v4 0 events with
  | Err e => (Err e, s)
  | Ok stamped_rows =>
      let rows := (λ p, (seq p.1, p.2)) <$> stamped_rows in
      match t ← begin_write (db s); t' ← insert_rows rows t; commit t' with
      | None => (Err "storage error", s)
      | Some db' =>
          let first := match rows with (k, _) :: _ => k | [] => 0 end in
          (Ok stamped_rows.*1,
           MkShared db' (wrap64 (head s + len rows))
             (if floor s =? 0 then first else floor s)
             (wrap64 (retained_count s + len rows))
             (wrap64 (retained_bytes s + wrap64 (values_bytes stamped_rows.*2)))
             (sh_retention_secs s) (sh_max_bytes s) (sh_max_events s))
      end
  end.

(** [append]: an empty batch touches nothing. *)
Definition append (events : list Event) (ts : Z) (new_v4 : nat → Uuid) (s : Shared)
    : result string (list StampedEvent) * Shared :=
  match events with
  | [] => (Ok [], s)
  | _ => append_blocking events ts new_v4 s
  end.

(** [read_after]: scan [(after_seq, ∞)] in key order, keeping the rows one of
    the patterns matches. *)
Fixpoint select_rows (patterns : option (list Pattern)) (rows : list row)
    : result string (list StampedEvent) :=
  match rows with
  | [] => Ok []
  | (k, value) :: rest =>
      stored ← from_str value;
      tail ← select_rows patterns rest;
      if match patterns with
         | Some ps => negb (any_matches ps (se_channel stored))
         | None => false
         end
      then Ok tail
      else Ok (stamped_of k stored :: tail)
  end.

Definition read_after (after : Z) (patterns : option (list Pattern)) (s : Shared)
    : result string (list StampedEvent) :=
  match t ← begin_read (db s); table_range_from (saturating_add after 1) t with
  | None => Err "storage error"
  | Some rows => select_rows patterns rows
  end.

(** The retention test of the prune loop on a front row. *)
Definition expired (s : Shared) (now_ms count bytes ts : Z) : bool :=
  let too_old := sh_retention_secs s <? saturating_sub now_ms ts / 1000 in
  let too_many := sh_max_events s <? count in
  let too_big := sh_max_bytes s <? bytes in
  too_old || too_many || too_big.

(** The loop of [prune_blocking]; [fuel] bounds the iterations, each of which
    removes a row.  The result is the transaction's table with the updated
    counters and the number of rows removed. *)
Fixpoint prune_loop (fuel : nat) (s : Shared) (now_ms : Z) (t : Table)
    (count bytes pruned : Z) : option (result string (Table * Z * Z * Z)) :=
  match table_iter t with
  | None => Some (Err "storage error")
  | Some [] => Some (Ok (t, count, bytes, pruned))
  | Some ((k, value) :: _) =>
      match from_str value with
      | Err e => Some (Err e)
      | Ok stored =>
          if expired s now_ms count bytes (se_ts_ms stored) then
            match fuel with
            | O => None
            | S fuel' =>
                match table_remove k t with
                | None => Some (Err "storage error")
                | Some t' =>
                    prune_loop fuel' s now_ms t' (wrap64 (count - 1))
                      (saturating_sub bytes (slen value)) (wrap64 (pruned + 1))
                end
            end
          else Some (Ok (t, count, bytes, pruned))
      end
  end.

(** The loop runs at most once per row; [prune_loop] needs no more fuel than
    there are rows (see [prune_loop_spec]). *)
Definition prune_blocking (now_ms : Z) (s : Shared) : result string Z * Shared :=
  match begin_write (db s) with
  | None => (Err "storage error", s)
  | Some t =>
      match prune_loop (length (db_rows (db s))) s now_ms t
              (retained_count s) (retained_bytes s) 0 with
      | Some (Ok (t', count, bytes, pruned)) =>
          match table_iter t' with
          | None => (Err "storage error", s)
          | Some rows =>
              let new_floor := match rows with (k, _) :: _ => k | [] => 0 end in
              match commit t' with
              | None => (Err "storage error", s)
              | Some db' =>
                  (Ok pruned,
                   MkShared db' (head s) new_floor count bytes
                     (sh_retention_secs s) (sh_max_bytes s) (sh_max_events s))
              end
          end
      | Some (Err e) => (Err e, s)
      | None => (Err "storage error", s)
      end
  end.

(** The recovery scan of [open]: head, floor, count and bytes. *)
Definition scan_row (acc : Z * Z * Z * Z) (r : row) : Z * Z * Z * Z :=
  let '(head, floor, count, bytes) := acc in
  (r.1, if floor =? 0 then r.1 else floor, wrap64 (count + 1), wrap64 (bytes + slen r.2)).

Definition scan_rows (rows : list row) : Z * Z * Z * Z := foldl scan_row (0, 0, 0, 0) rows.

(** [DeliveryLog::open]: the permission check of an existing file, the
    database, the recovery scan and one prune pass.  [create_parent] and
    [chmod_0600] are the file-system effects, [database_create] is
    [Database::create]. *)
Definition DeliveryLog_open (fs : FsView) (create_parent chmod_0600 : string → result string ())
    (database_create : string → result string Db) (cfg : DeliveryConfig) (now_ms : Z)
    : result string Shared :=
  let path := store_path cfg in
  _ ← create_parent path;
  _ ← (if fs_exists fs path then enforce_0600 fs path "delivery log" else Ok ());
  db0 ← database_create path;
  _ ← (if fs_exists fs path then Ok () else chmod_0600 path);
  db1 ← ok_or "storage error" (t ← begin_write db0; commit t);
  rows ← ok_or "storage error" (t ← begin_read db1; table_iter t);
  let '(head, floor, count, bytes) := scan_rows rows in
  let s := MkShared db1 head floor count bytes
    (retention_secs cfg) (max_bytes cfg) (dc_max_events cfg) in
  match prune_blocking now_ms s with
  | (Ok _, s') => Ok s'
  | (Err e, _) => Err e
  end.
End delivery_log.
Arguments Shared : clear implicits.

(** ** Specification: the log as a list of stamped events *)

Section delivery_log_spec.
Context {Db Table : Type} {R : Redb Db Table} {L : RedbLaws Db Table}.
Context {W : Wire StoredEvent} {WL : WireLaws StoredEvent}.

(** A row stores an event: the key is its [seq], the value its encoding. *)
Definition row_repr (e : StampedEvent) (r : row) : Prop :=
  r.1 = seq e ∧ to_string (stored_of e) = Ok r.2.

(** The log state represents the list [evs] of retained events: their [seq]s
    are consecutive and end at the head, and floor and counters are theirs. *)
Definition log_repr (s : Shared Db) (evs : list StampedEvent) : Prop :=
  Forall2 row_repr evs (db_rows (db s)) ∧
  is_u64 (head s) ∧
  (evs = [] ∧ floor s = 0 ∨
   evs ≠ [] ∧ 1 ≤ floor s ∧ seq <$> evs = seqZ (floor s) (len evs) ∧
   floor s + len evs = head s + 1) ∧
  retained_count s = len evs ∧
  retained_bytes s = values_bytes (db_rows (db s)).*2 ∧ is_u64 (retained_bytes s).

(** The events a batch becomes when stamped after [base]. *)
Definition stamp_batch (base ts : Z) (new_v4 : nat → Uuid) (offset : nat)
    (events : list Event) : list StampedEvent :=
  imap (λ i e, MkStampedEvent (base + 1 + Z.of_nat (offset + i)) (new_v4 (offset + i)%nat) ts
                 (channel e) (payload_b64 e)) events.

(** A replay's filter, and the events it must contain *)
Definition selected (patterns : option (list Pattern)) (e : StampedEvent) : bool :=
  match patterns with Some ps => any_matches ps (st_channel e) | None => true end.

(** An event a replay of [(after, ∞)] under [patterns] must contain. *)
Definition wanted (after : Z) (patterns : option (list Pattern)) (e : StampedEvent) : bool :=
  (after <? seq e) && selected patterns e.

(** *** Lemmas on rows *)

Lemma row_insert_last k v rows :
  Forall (λ r : row, r.1 < k) rows → row_insert k v rows = rows ++ [(k, v)].
Proof.
  induction 1 as [|[k' v'] rows Hlt _ IH]; simpl in *; [done|].
  rewrite (proj2 (Z.ltb_ge _ _)) by lia. rewrite (proj2 (Z.eqb_neq _ _)) by lia.
  by rewrite IH.
Qed.

Lemma insert_rows_append h new t t' :
  Forall (λ r : row, r.1 ≤ h) (table_rows t) → new.*1 = seqZ (h + 1) (len new) →
  insert_rows new t = Some t' → table_rows t' = table_rows t ++ new.
Proof.
  revert h t. induction new as [|[k v] new IH]; intros h t Hle Hkeys Hins; simpl in Hins.
  { injection Hins as <-. by rewrite app_nil_r. }
  rewrite len_cons in Hkeys. pose proof (len_nonneg new).
  rewrite seqZ_cons in Hkeys by lia. injection Hkeys as -> Hkeys.
  apply bind_Some in Hins as (t1 & Ht1 & Hins). apply table_insert_rows in Ht1.
  rewrite row_insert_last in Ht1 by (eapply Forall_impl; [exact Hle|simpl; lia]).
  rewrite (IH (h + 1) t1).
  - by rewrite Ht1, <- app_assoc.
  - rewrite Ht1. apply Forall_app. split; [eapply Forall_impl; [exact Hle|simpl; lia]|].
    constructor; simpl; [lia|done].
  - etrans; [exact Hkeys|]. f_equal; lia.
  - done.
Qed.

Lemma values_bytes_nonneg vs : 0 ≤ values_bytes vs.
Proof. induction vs as [|v vs IH]; simpl; [lia|]. pose proof (slen_nonneg v). lia. Qed.

Lemma values_bytes_app vs us : values_bytes (vs ++ us) = values_bytes vs + values_bytes us.
Proof. induction vs as [|v vs IH]; simpl; lia. Qed.

Lemma row_repr_decode e r : row_repr e r → from_str r.2 = Ok (stored_of e).
Proof. intros [_ H]. by apply wire_round_trip. Qed.

Lemma stamped_of_stored e : stamped_of (seq e) (stored_of e) = e.
Proof. by destruct e. Qed.

Lemma Forall2_len {A B} (P : A → B → Prop) l k : Forall2 P l k → len l = len k.
Proof. intros H. unfold len. by rewrite (Forall2_length _ _ _ H). Qed.

Lemma rows_repr_keys evs rows : Forall2 row_repr evs rows → rows.*1 = seq <$> evs.
Proof. induction 1 as [|e r evs rows [Hk _] _ IH]; csimpl; [done|]. by rewrite Hk, IH. Qed.

(** All retained keys lie between floor and head. *)
Lemma log_repr_bounds s evs :
  log_repr s evs → Forall (λ e, floor s ≤ seq e ≤ head s) evs.
Proof.
  intros (_ & _ & [[-> _]|(Hne & Hf & Hseq & Hhead)] & _); [constructor|].
  assert (Forall (λ k, floor s ≤ k ≤ head s) (seq <$> evs)) as Hall.
  { rewrite Hseq. apply Forall_seqZ. lia. }
  by apply Forall_fmap in Hall.
Qed.

Lemma log_repr_rows_le_head s evs :
  log_repr s evs → Forall (λ r : row, r.1 ≤ head s) (db_rows (db s)).
Proof.
  intros Hs. pose proof (log_repr_bounds _ _ Hs) as Hb. destruct Hs as (Hrows & _).
  clear -Hrows Hb. induction Hrows as [|e r evs rows [Hk _] _ IH]; [constructor|].
  inversion_clear Hb. constructor; [lia|auto].
Qed.

(** *** Append *)

Lemma stamp_events_spec base ts new_v4 offset events l :
  0 ≤ base → base + Z.of_nat offset + len events < 2 ^ 64 →
  stamp_events base ts new_v4 offset events = Ok l →
  l.*1 = stamp_batch base ts new_v4 offset events ∧
  Forall2 row_repr l.*1 ((λ p, (seq p.1, p.2)) <$> l).
Proof.
  revert offset l. induction events as [|e events IH]; intros offset l Hb Hlt; simpl.
  { intros [= <-]. split; [done|constructor]. }
  rewrite len_cons in Hlt. pose proof (len_nonneg events).
  intros (v & Hv & (tail & Htail & [= <-])%result_bind_Ok)%result_bind_Ok.
  destruct (IH (S offset) tail) as [Hst Hrows]; [done|lia|done|].
  unfold stamped_of in *. csimpl in *. rewrite wrap64_small in * by (unfold is_u64; lia).
  split.
  - unfold stamp_batch in *. csimpl. rewrite Hst, Nat.add_0_r. f_equal.
    apply imap_ext. intros i x _. simpl. by rewrite Nat.add_succ_r.
  - constructor; [|done]. split; [done|]. exact Hv.
Qed.

(** The stamped events are the batch, whatever the counters. *)
Lemma stamp_events_channels base ts new_v4 offset events l :
  stamp_events base ts new_v4 offset events = Ok l →
  Forall2 (λ e s, st_channel s = channel e ∧ st_payload_b64 s = payload_b64 e ∧ ts_ms s = ts)
    events l.*1.
Proof.
  revert offset l. induction events as [|e events IH]; intros offset l; cbn [stamp_events].
  { intros [= <-]. constructor. }
  intros (value & _ & (tail & Htail & [= <-])%result_bind_Ok)%result_bind_Ok.
  constructor; [done|by eapply IH].
Qed.

Lemma stamp_batch_length base ts new_v4 offset events :
  length (stamp_batch base ts new_v4 offset events) = length events.
Proof. apply length_imap. Qed.

Lemma stamp_batch_seqs base ts new_v4 events :
  seq <$> stamp_batch base ts new_v4 0 events = seqZ (base + 1) (len events).
Proof.
  unfold stamp_batch. apply list_eq. intros i. rewrite list_lookup_fmap, list_lookup_imap.
  destruct (events !! i) as [e|] eqn:He; simpl.
  - apply lookup_lt_Some in He. rewrite lookup_seqZ_lt; [done|unfold len; lia].
  - apply lookup_ge_None in He. rewrite lookup_seqZ_ge; [done|unfold len; lia].
Qed.

(** Appending rows with the next consecutive keys keeps the representation. *)
Lemma log_repr_extend s evs added new db' :
  log_repr s evs → added ≠ [] → Forall2 row_repr added new →
  seq <$> added = seqZ (head s + 1) (len added) → head s + len added < 2 ^ 64 →
  db_rows db' = db_rows (db s) ++ new → is_u64 (values_bytes (db_rows db').*2) →
  log_repr (MkShared db' (wrap64 (head s + len new))
    (if floor s =? 0 then match new with (k, _) :: _ => k | [] => 0 end else floor s)
    (wrap64 (retained_count s + len new))
    (wrap64 (retained_bytes s + wrap64 (values_bytes new.*2)))
    (sh_retention_secs s) (sh_max_bytes s) (sh_max_events s)) (evs ++ added).
Proof.
  intros (Hrows & Hhead & Hfloor & Hcount & Hbytes & Hb64) Hne Hnew Hseq Hlt Hdb Hfit.
  pose proof (rows_repr_keys _ _ Hnew) as Hkeys. pose proof (Forall2_len _ _ _ Hnew) as Hlen.
  assert (0 < len added)
    by (destruct added; [done|rewrite len_cons; pose proof (len_nonneg added); lia]).
  pose proof (len_nonneg evs). unfold is_u64 in Hhead.
  unfold log_repr. cbn [db head floor retained_count retained_bytes].
  rewrite Hdb, (fmap_app snd), values_bytes_app in *.
  pose proof (values_bytes_nonneg (db_rows (db s)).*2).
  pose proof (values_bytes_nonneg new.*2).
  rewrite Hbytes, Hcount, <- Hlen in *.
  rewrite (wrap64_small (values_bytes new.*2)) by (unfold is_u64 in *; lia).
  rewrite (wrap64_small (values_bytes _ + values_bytes _)) by done.
  assert (len evs + len added < 2 ^ 64) as Hcount64.
  { destruct Hfloor as [[-> _]|(_ & ? & _ & ?)];
      [change (len (@nil StampedEvent)) with 0|]; lia. }
  rewrite !wrap64_small by (unfold is_u64; lia). rewrite len_app.
  split_and!; try done; [by apply Forall2_app|unfold is_u64; lia|].
  right. split; [by destruct evs, added|]. rewrite fmap_app, Hseq.
  destruct Hfloor as [[-> ->]|(Hn & Hf1 & Hsq & Hfh)].
  - rewrite Z.eqb_refl. destruct new as [|[k v] new']; [unfold len in *; simpl in *; lia|].
    rewrite Hseq, seqZ_cons in Hkeys by lia. csimpl in Hkeys. injection Hkeys as -> _.
    change (len (@nil StampedEvent)) with 0. split_and!; [lia|simpl; f_equal; lia|lia].
  - rewrite (proj2 (Z.eqb_neq _ _)) by lia. split_and!; [done| |lia].
    rewrite seqZ_app by lia. rewrite Hsq. do 2 f_equal. lia.
Qed.

Lemma append_blocking_head s events ts new_v4 r s' :
  is_u64 (head s) → head s + len events < 2 ^ 64 →
  append_blocking events ts new_v4 s = (r, s') →
  match r with
  | Ok stamped =>
      stamped = stamp_batch (head s) ts new_v4 0 events ∧ head s' = head s + len events
  | Err _ => s' = s
  end.
Proof.
  intros Hhead Hlt. unfold append_blocking.
  destruct (stamp_events _ _ _ _ _) as [l|e] eqn:Hstamp; [|by intros [= <- <-]].
  destruct (stamp_events_spec (head s) ts new_v4 0 events l) as [Hst _];
    [apply Hhead|lia|done|].
  destruct (t ← _; _) as [db'|]; [|by intros [= <- <-]].
  intros [= <- <-]. cbn [head]. split; [done|].
  assert (len ((λ p, (seq p.1, p.2)) <$> l) = len events) as ->.
  { unfold len. rewrite length_fmap, <- (length_fmap fst l), Hst. by rewrite stamp_batch_length. }
  apply wrap64_small. pose proof (len_nonneg events). unfold is_u64 in *. lia.
Qed.

Lemma append_blocking_repr s evs events ts new_v4 stamped s' :
  log_repr s evs → events ≠ [] → head s + len events < 2 ^ 64 →
  append_blocking events ts new_v4 s = (Ok stamped, s') →
  is_u64 (values_bytes (db_rows (db s')).*2) → log_repr s' (evs ++ stamped).
Proof.
  intros Hs Hne Hlt. unfold append_blocking.
  destruct (stamp_events _ _ _ _ _) as [l|e] eqn:Hstamp; [|done].
  pose proof (log_repr_rows_le_head _ _ Hs) as Hle. pose proof Hs as (_ & Hhead & _).
  destruct (stamp_events_spec (head s) ts new_v4 0 events l) as [Hst Hnew];
    [apply Hhead|lia|done|].
  set (new := (λ p, (seq p.1, p.2)) <$> l) in *.
  assert (len l.*1 = len events) as Hlen
    by (unfold len; by rewrite Hst, stamp_batch_length).
  assert (seq <$> l.*1 = seqZ (head s + 1) (len l.*1)) as Hseq
    by (by rewrite Hlen, Hst, stamp_batch_seqs).
  assert (new.*1 = seqZ (head s + 1) (len new)) as Hkeys
    by (by rewrite (rows_repr_keys _ _ Hnew), <- (Forall2_len _ _ _ Hnew)).
  assert (l.*2 = new.*2) as -> by (unfold new; by rewrite <- list_fmap_compose).
  destruct (t ← begin_write (db s); t' ← insert_rows new t; commit t') as [db'|] eqn:Htx; [|done].
  apply bind_Some in Htx as (t & Ht & (t' & Ht' & Hcommit)%bind_Some).
  apply begin_write_rows in Ht. apply commit_rows in Hcommit.
  rewrite <- Ht in Hle. rewrite (insert_rows_append _ _ _ _ Hle Hkeys Ht'), Ht in Hcommit.
  intros [= <- <-] Hfit. apply log_repr_extend; try done; [|by rewrite Hlen].
  intros Hnil. rewrite Hnil in Hlen. by destruct events.
Qed.

Lemma append_spec s evs events ts new_v4 r s' :
  log_repr s evs → head s + len events < 2 ^ 64 →
  append events ts new_v4 s = (r, s') → is_u64 (values_bytes (db_rows (db s')).*2) →
  match r with
  | Ok stamped =>
      log_repr s' (evs ++ stamped) ∧ stamped = stamp_batch (head s) ts new_v4 0 events
  | Err _ => s' = s
  end.
Proof.
  intros Hs Hlt Happ Hfit. destruct events as [|e events].
  { injection Happ as <- <-. by rewrite app_nil_r. }
  pose proof (append_blocking_head _ _ _ _ _ _ ltac:(apply Hs) Hlt Happ) as Hhead.
  destruct r as [stamped|err]; [|done]. destruct Hhead as [Hst _]. split; [|done].
  by eapply append_blocking_repr; [exact Hs| |exact Hlt|exact Happ|exact Hfit].
Qed.

(** *** Replay *)

Lemma select_rows_spec ps evs rows :
  Forall2 row_repr evs rows →
  select_rows ps rows = Ok (filter (λ e, selected ps e) evs).
Proof.
  induction 1 as [|e r evs rows Hr _ IH]; [done|]. destruct r as [k v].
  pose proof (row_repr_decode _ _ Hr) as Hdec. cbn [snd] in Hdec.
  cbn [select_rows]. rewrite Hdec. cbn [mbind result_bind].
  rewrite IH. cbn [mbind result_bind].
  destruct Hr as [Hk _]. cbn in Hk. subst k. rewrite filter_cons, stamped_of_stored. unfold selected.
  destruct ps as [ps|]; [|done]. change (se_channel (stored_of e)) with (st_channel e).
  by destruct (any_matches ps (st_channel e)).
Qed.

Lemma rows_after_repr k evs rows :
  Forall2 row_repr evs rows →
  Forall2 row_repr (filter (λ e, k ≤ seq e) evs) (filter (λ r : row, k ≤ r.1) rows).
Proof.
  induction 1 as [|e r evs rows Hr _ IH]; [constructor|]. rewrite !filter_cons.
  pose proof Hr as [-> _]. case_decide; [by constructor|done].
Qed.

Lemma read_after_spec s evs after patterns :
  log_repr s evs → 0 ≤ after < u64_max →
  read_after after patterns s =
    match t ← begin_read (db s); table_range_from (after + 1) t with
    | None => Err "storage error"
    | Some _ => Ok (filter (λ e, wanted after patterns e) evs)
    end.
Proof.
  intros (Hrows & _) Hafter. unfold read_after.
  replace (saturating_add after 1) with (after + 1)
    by (unfold saturating_add, u64_max in *; lia).
  destruct (begin_read (db s)) as [t|] eqn:Ht; [|done]. cbn [mbind option_bind].
  destruct (table_range_from (after + 1) t) as [rows|] eqn:Hr; [|done].
  apply begin_read_rows in Ht. apply table_range_rows in Hr as ->. rewrite Ht.
  rewrite (select_rows_spec _ _ _ (rows_after_repr (after + 1) _ _ Hrows)). f_equal.
  rewrite list_filter_filter. apply list_filter_iff. intros e. unfold wanted.
  rewrite andb_True, (Is_true_true (_ <? _)), Z.ltb_lt. intuition lia.
Qed.

(** *** Prune *)

Definition event_bytes (e : StampedEvent) : Z :=
  match to_string (stored_of e) with Ok v => slen v | Err _ => 0 end.

Definition events_bytes (evs : list StampedEvent) : Z := foldr (λ e n, event_bytes e + n) 0 evs.

(** A retained list is within its retention when its oldest event is not too
    old and the caps hold. *)
Definition within_retention (s : Shared Db) (now_ms : Z) (evs : list StampedEvent) : Prop :=
  len evs ≤ sh_max_events s ∧ events_bytes evs ≤ sh_max_bytes s ∧
  match evs with
  | [] => True
  | e :: _ => saturating_sub now_ms (ts_ms e) / 1000 ≤ sh_retention_secs s
  end.

Lemma rows_repr_bytes evs rows :
  Forall2 row_repr evs rows → values_bytes rows.*2 = events_bytes evs.
Proof.
  induction 1 as [|e r evs rows [_ Hv] _ IH]; csimpl; [done|].
  unfold event_bytes. by rewrite Hv, IH.
Qed.

Lemma expired_spec s now e evs :
  expired s now (len (e :: evs)) (events_bytes (e :: evs)) (ts_ms e) = false ↔
  within_retention s now (e :: evs).
Proof. unfold expired, within_retention. rewrite !orb_false_iff, !Z.ltb_ge. tauto. Qed.

Lemma filter_front_key (k : Z) (v : string) (rows : list row) :
  StronglySorted Z.lt ((k, v) :: rows).*1 → filter (λ r : row, r.1 ≠ k) ((k, v) :: rows) = rows.
Proof.
  intros Hs. apply StronglySorted_inv in Hs as [_ Hlt]. rewrite filter_cons_False by (simpl; tauto).
  change (Forall (Z.lt k) rows.*1) in Hlt. clear -Hlt.
  induction rows as [|[k' v'] rows IH]; [done|]. csimpl in *. inversion_clear Hlt.
  rewrite filter_cons_True by (simpl; lia). by rewrite IH.
Qed.

(** The loop removes the shortest front whose removal puts the rest within
    retention, and [length] iterations suffice. *)
Lemma prune_loop_spec fuel s now t evs pruned :
  0 ≤ sh_max_events s → 0 ≤ sh_max_bytes s → 0 ≤ pruned → pruned + len evs < 2 ^ 64 →
  StronglySorted Z.lt (table_rows t).*1 → Forall2 row_repr evs (table_rows t) →
  (length evs ≤ fuel)%nat →
  ∃ r, prune_loop fuel s now t (len evs) (events_bytes evs) pruned = Some r ∧
  ∀ t' c b p, r = Ok (t', c, b, p) →
  ∃ k, (k ≤ length evs)%nat ∧ table_rows t' = drop k (table_rows t) ∧
    c = len (drop k evs) ∧ b = events_bytes (drop k evs) ∧ p = pruned + Z.of_nat k ∧
    within_retention s now (drop k evs) ∧
    ∀ j, (j < k)%nat → ¬ within_retention s now (drop j evs).
Proof.
  intros Hme Hmb. revert fuel t pruned. induction evs as [|e evs IH];
    intros fuel t pruned Hp Hlt Hsort Hrows Hfuel; destruct fuel as [|fuel];
    cbn [prune_loop length] in *; try lia;
    (destruct (table_iter t) as [rows|] eqn:Hit; [|eexists; split; [done|by intros]]);
    apply table_iter_rows in Hit as ->;
    inversion Hrows as [Hn|? [k v] ? rows Hr Hrest Hev Hrow]; subst;
    try (eexists; split; [done|]; intros ???? [= <- <- <- <-]; exists 0%nat;
      rewrite <- ?Hn; split_and!; simpl; try done; try lia; unfold within_retention;
      split_and!; simpl; auto using len_nonneg; lia).
  pose proof (row_repr_decode _ _ Hr) as Hdec. simpl in Hdec. rewrite Hdec.
  change (se_ts_ms (stored_of e)) with (ts_ms e).
  destruct (expired _ _ _ _ _) eqn:Hexp.
  - destruct (table_remove k t) as [t1|] eqn:Hrm; [|eexists; split; [done|by intros]].
    apply table_remove_rows in Hrm. rewrite <- Hrow in Hrm, Hsort.
    rewrite filter_front_key in Hrm by done.
    rewrite len_cons in *. pose proof (len_nonneg evs).
    assert (events_bytes (e :: evs) - slen v = events_bytes evs) as Hbytes.
    { destruct Hr as [_ Hv]. simpl in *. unfold event_bytes. rewrite Hv. lia. }
    pose proof (values_bytes_nonneg rows.*2) as Hnn. rewrite (rows_repr_bytes evs) in Hnn by done.
    rewrite !wrap64_small by (unfold is_u64; lia).
    unfold saturating_sub. rewrite Hbytes, Z.max_l by lia.
    replace (1 + len evs - 1) with (len evs) by lia.
    destruct (IH fuel t1 (pruned + 1)) as (r & Hr1 & Hspec); [lia|lia| | |lia|].
    { rewrite Hrm. by apply StronglySorted_inv in Hsort as [? _]. }
    { by rewrite Hrm. }
    exists r. split; [done|]. intros t' c b p Hok.
    destruct (Hspec _ _ _ _ Hok) as (j & Hj & Ht' & -> & -> & -> & Hw & Hmin).
    exists (S j). split_and!; simpl; try done; try lia.
    + rewrite Ht', Hrm. by destruct (table_rows t); simplify_eq.
    + intros [|i] Hi; simpl; [|apply Hmin; lia]. rewrite <- expired_spec, len_cons. congruence.
  - eexists. split; [done|]. intros ???? [= <- <- <- <-]. exists 0%nat.
    split_and!; simpl; try done; try lia. by apply expired_spec.
Qed.

Lemma table_front evs rows :
  Forall2 row_repr evs rows →
  match rows with (k, _) :: _ => k | [] => 0 end = match evs with e :: _ => seq e | [] => 0 end.
Proof. by intros [|e [k v] ? ? [Hk _]]. Qed.

Lemma events_bytes_drop k evs : 0 ≤ events_bytes (drop k evs) ≤ events_bytes evs.
Proof.
  assert (∀ l, 0 ≤ events_bytes l) as Hnn.
  { induction l as [|e l IH]; simpl; [lia|]. unfold event_bytes.
    destruct (to_string _) as [v|]; [pose proof (slen_nonneg v)|]; lia. }
  split; [done|]. revert k. induction evs as [|e evs IH]; intros [|k]; simpl; try lia.
  specialize (IH k). unfold event_bytes.
  destruct (to_string _) as [v|]; [pose proof (slen_nonneg v)|]; lia.
Qed.

(** Dropping a front of the rows keeps the representation, once the floor is
    reset to the new front. *)
Lemma log_repr_drop s evs k db' :
  log_repr s evs → (k ≤ length evs)%nat → db_rows db' = drop k (db_rows (db s)) →
  log_repr (MkShared db' (head s) (match drop k evs with e :: _ => seq e | [] => 0 end)
    (len (drop k evs)) (events_bytes (drop k evs))
    (sh_retention_secs s) (sh_max_bytes s) (sh_max_events s)) (drop k evs).
Proof.
  intros (Hrows & Hhead & Hfloor & Hcount & Hbytes & Hb64) Hk Hdb.
  unfold log_repr. cbn [db head floor retained_count retained_bytes].
  assert (Forall2 row_repr (drop k evs) (db_rows db')) as Hrows'
    by (rewrite Hdb; by apply Forall2_drop).
  rewrite (rows_repr_bytes _ _ Hrows) in Hbytes.
  pose proof (events_bytes_drop k evs).
  split_and!; [done|done| |done|by rewrite (rows_repr_bytes _ _ Hrows')|unfold is_u64 in *; lia].
  destruct (drop k evs) as [|e rest] eqn:Hd; [by left|right].
  destruct Hfloor as [[-> _]|(_ & Hf & Hseq & Hfh)]; [by destruct k|].
  assert (Z.of_nat k + len (e :: rest) = len evs) as Hlen.
  { rewrite <- Hd. unfold len. rewrite length_drop. lia. }
  rewrite len_cons in *. pose proof (len_nonneg rest).
  assert (seq <$> e :: rest = seqZ (floor s + Z.of_nat k) (1 + len rest)) as Hs'.
  { rewrite <- Hd, fmap_drop, Hseq. rewrite <- Hlen, seqZ_app by lia.
    apply drop_app_length'. rewrite length_seqZ. lia. }
  rewrite Hs'. rewrite seqZ_cons in Hs' by lia. csimpl in Hs'. injection Hs' as -> _.
  split_and!; [done|lia|done|lia].
Qed.

(** Neither pruning nor reopening touches the retention settings. *)
Lemma prune_keeps_settings now (l : Shared Db) :
  let l' := (prune_blocking now l).2 in
  (sh_retention_secs l', sh_max_bytes l', sh_max_events l') =
    (sh_retention_secs l, sh_max_bytes l, sh_max_events l).
Proof. cbv zeta. unfold prune_blocking. repeat (case_match; cbn [snd]); done. Qed.

Lemma open_settings fs create chmod database cfg now l :
  DeliveryLog_open fs create chmod database cfg now = Ok l →
  (sh_retention_secs l, sh_max_bytes l, sh_max_events l) =
    (retention_secs cfg, max_bytes cfg, dc_max_events cfg).
Proof.
  unfold DeliveryLog_open. do 4 (intros (? & _ & H)%result_bind_Ok; revert H).
  intros (db1 & _ & H)%result_bind_Ok. apply result_bind_Ok in H as (rows & _ & H).
  destruct (scan_rows rows) as [[[hd fl] count] bytes].
  pose proof (prune_keeps_settings now (MkShared db1 hd fl count bytes
    (retention_secs cfg) (max_bytes cfg) (dc_max_events cfg))) as Hp.
  destruct (prune_blocking _ _) as [[n|e] l']; [|done]. by injection H as <-.
Qed.

Lemma prune_blocking_spec s evs now r s' :
  log_repr s evs → 0 ≤ sh_max_events s → 0 ≤ sh_max_bytes s →
  prune_blocking now s = (r, s') →
  match r with
  | Err _ => s' = s
  | Ok n => ∃ k, (k ≤ length evs)%nat ∧ n = Z.of_nat k ∧ log_repr s' (drop k evs) ∧
      head s' = head s ∧ sh_max_events s' = sh_max_events s ∧ sh_max_bytes s' = sh_max_bytes s ∧
      within_retention s now (drop k evs) ∧
      ∀ j, (j < k)%nat → ¬ within_retention s now (drop j evs)
  end.
Proof.
  intros Hs Hme Hmb. unfold prune_blocking.
  destruct (begin_write (db s)) as [t|] eqn:Ht; [|by intros [= <- <-]].
  apply begin_write_rows in Ht. pose proof Hs as (Hrows & Hhead & Hfloor & Hcount & Hbytes & _).
  rewrite (rows_repr_bytes _ _ Hrows) in Hbytes.
  destruct (prune_loop_spec (length (db_rows (db s))) s now t evs 0) as (o & Ho & Hok); [done..| | | | |].
  { pose proof (len_nonneg evs). destruct Hfloor as [[-> _]|(_ & ? & _ & ?)];
      [change (len (@nil StampedEvent)) with 0|unfold is_u64 in *]; lia. }
  { rewrite Ht. apply db_sorted. }
  { by rewrite Ht. }
  { by rewrite (Forall2_length _ _ _ Hrows). }
  rewrite Hcount, Hbytes, Ho.
  destruct o as [[[[t' c] b] p]|e]; [|by intros [= <- <-]].
  destruct (Hok _ _ _ _ eq_refl) as (k & Hk & Ht' & -> & -> & -> & Hw & Hmin).
  destruct (table_iter t') as [rows|] eqn:Hit; [|by intros [= <- <-]].
  destruct (commit t') as [db'|] eqn:Hc; [|by intros [= <- <-]].
  apply table_iter_rows in Hit as ->. apply commit_rows in Hc.
  rewrite Ht in Ht'. intros [= <- <-]. exists k. cbn [head sh_max_events sh_max_bytes].
  rewrite (table_front (drop k evs)) by (rewrite Ht'; by apply Forall2_drop).
  split_and!; try done. apply log_repr_drop; [done..|by rewrite Hc].
Qed.

(** *** Recovery *)

Lemma scan_rows_from h f c b rows :
  f ≠ 0 → is_u64 c → is_u64 b →
  foldl scan_row (h, f, c, b) rows =
    (default h (last rows.*1), f, wrap64 (c + len rows), wrap64 (b + values_bytes rows.*2)).
Proof.
  intros Hf. revert h c b. induction rows as [|[k v] rows IH]; intros h c b Hc Hb.
  { simpl. change (len (@nil row)) with 0. by rewrite !Z.add_0_r, !wrap64_small. }
  cbn [foldl]. unfold scan_row at 2. rewrite (proj2 (Z.eqb_neq _ _)) by done.
  rewrite IH by auto using wrap64_range. csimpl. rewrite last_cons, len_cons, !wrap64_add_l.
  rewrite !Z.add_assoc. by destruct (last _).
Qed.

(** The scan of [open] recovers exactly the counters of the log that wrote
    the rows, except that an empty log has no head. *)
Lemma scan_rows_spec s evs :
  log_repr s evs →
  scan_rows (db_rows (db s)) =
    (if decide (evs = []) then 0 else head s, floor s, retained_count s, retained_bytes s).
Proof.
  intros (Hrows & Hhead & Hfloor & Hcount & Hbytes & Hb64).
  pose proof (rows_repr_keys _ _ Hrows) as Hkeys. pose proof (Forall2_len _ _ _ Hrows) as Hlen.
  rewrite Hcount, Hbytes, Hlen. clear Hcount. rewrite Hbytes in Hb64. clear Hbytes.
  destruct Hfloor as [[-> Hf]|(Hne & Hf & Hseq & Hfh)].
  { inversion Hrows. by rewrite Hf. }
  rewrite decide_False by done. rewrite Hseq in Hkeys. rewrite Hlen in *.
  assert (last (db_rows (db s)).*1 = Some (head s)) as Hlast.
  { assert (0 < len (db_rows (db s)))
      by (rewrite <- Hlen; destruct evs; [done|rewrite len_cons; pose proof (len_nonneg evs); lia]).
    rewrite Hkeys, last_lookup, length_seqZ, lookup_seqZ_lt by lia. f_equal. lia. }
  destruct (db_rows (db s)) as [|[k v] rows]; [done|]. clear Hrows Hseq Hlen.
  rewrite len_cons in *. pose proof (len_nonneg rows).
  rewrite seqZ_cons in Hkeys by lia. csimpl in *. injection Hkeys as -> _.
  pose proof (slen_nonneg v). pose proof (values_bytes_nonneg rows.*2).
  unfold scan_rows. cbn [foldl scan_row]. change (0 =? 0) with true. cbv iota.
  cbn [fst snd]. rewrite scan_rows_from by (auto using wrap64_range; lia).
  rewrite !wrap64_add_l. rewrite last_cons in Hlast.
  rewrite !wrap64_small by (unfold is_u64 in *; lia).
  repeat f_equal; try lia. by destruct (last _); simplify_eq/=.
Qed.

(** Reopening the file another process closed. *)
Lemma DeliveryLog_open_spec fs mk ch create cfg now s evs db0 s' :
  log_repr s evs → db_rows db0 = db_rows (db s) → create (store_path cfg) = Ok db0 →
  0 ≤ dc_max_events cfg → 0 ≤ max_bytes cfg →
  DeliveryLog_open fs mk ch create cfg now = Ok s' →
  ∃ k, (k ≤ length evs)%nat ∧ log_repr s' (drop k evs) ∧
    head s' = if decide (evs = []) then 0 else head s.
Proof.
  intros Hs Hdb Hcreate Hme Hmb. unfold DeliveryLog_open. rewrite Hcreate.
  intros ([] & _ & ([] & _ & (? & [= <-] & ([] & _ & Hopen)%result_bind_Ok)%result_bind_Ok)
    %result_bind_Ok)%result_bind_Ok.
  apply result_bind_Ok in Hopen as (db1 & Hdb1 & (rows & Hrows & Hopen)%result_bind_Ok).
  destruct (begin_write db0) as [t|] eqn:Ht; [|done]. apply begin_write_rows in Ht.
  cbn in Hdb1. destruct (commit t) as [?|] eqn:Hc; [|done]. injection Hdb1 as ->.
  apply commit_rows in Hc.
  destruct (begin_read db1) as [t1|] eqn:Ht1; [|done]. apply begin_read_rows in Ht1.
  cbn in Hrows. destruct (table_iter t1) as [?|] eqn:Hit; [|done]. injection Hrows as ->.
  apply table_iter_rows in Hit as ->. assert (db_rows db1 = db_rows (db s)) as Hdb1 by congruence.
  rewrite Ht1, Hdb1, (scan_rows_spec _ _ Hs) in Hopen.
  set (s1 := MkShared db1 _ _ _ _ _ _ _) in Hopen.
  assert (log_repr s1 evs) as Hs1.
  { destruct Hs as (Hr & Hh & Hf & Hc' & Hb & Hb64). unfold log_repr, s1.
    cbn [db head floor retained_count retained_bytes]. rewrite Hdb1.
    split_and!; try done; [case_decide; done|].
    destruct Hf as [?|?]; [by left|right]. by rewrite decide_False by tauto. }
  destruct (prune_blocking now s1) as [[n|e] s2] eqn:Hp; simplify_eq.
  apply (prune_blocking_spec _ _ _ _ _ Hs1) in Hp; [|done..].
  destruct Hp as (k & Hk & _ & Hrep & Hh & _). by exists k.
Qed.

(** *** Runs of the single writer *)

Inductive LogOp : Type :=
  | OpAppend (events : list Event) (ts : Z) (new_v4 : nat → Uuid)
  | OpPrune (now_ms : Z).

(** The events an operation stamps, and the state after it. *)
Definition log_step (op : LogOp) (s : Shared Db) : list StampedEvent * Shared Db :=
  match op with
  | OpAppend events ts new_v4 =>
      let '(r, s') := append events ts new_v4 s in (unwrap_or [] r, s')
  | OpPrune now_ms => ([], (prune_blocking now_ms s).2)
  end.

Fixpoint log_run (ops : list LogOp) (s : Shared Db) : list StampedEvent * Shared Db :=
  match ops with
  | [] => ([], s)
  | op :: rest =>
      let '(out, s') := log_step op s in
      let '(outs, s'') := log_run rest s' in
      (out ++ outs, s'')
  end.

Definition op_events (op : LogOp) : Z :=
  match op with OpAppend events _ _ => len events | OpPrune _ => 0 end.

Definition ops_events (ops : list LogOp) : Z := foldr (λ op n, op_events op + n) 0 ops.

Lemma ops_events_nonneg ops : 0 ≤ ops_events ops.
Proof.
  induction ops as [|[events ? ?|] ops IH]; simpl; [lia| |lia].
  pose proof (len_nonneg events). lia.
Qed.

Lemma prune_blocking_head now s : head (prune_blocking now s).2 = head s.
Proof. unfold prune_blocking. by repeat case_match. Qed.

Lemma log_step_gapless op s out s' :
  is_u64 (head s) → head s + op_events op < 2 ^ 64 → log_step op s = (out, s') →
  seq <$> out = seqZ (head s + 1) (len out) ∧ head s' = head s + len out ∧
  len out ≤ op_events op.
Proof.
  intros Hh Hlt. destruct op as [events ts ids|now]; simpl in *.
  - unfold append. destruct events as [|e events]; [intros [= <- <-]; unfold len; simpl; split_and!; [done|lia|lia]|].
    destruct (append_blocking _ _ _ _) as [r s1] eqn:Happ. intros [= <- <-].
    apply append_blocking_head in Happ; [|done..]. destruct r as [stamped|err]; simpl.
    + destruct Happ as [-> ->]. rewrite stamp_batch_seqs. unfold len.
      rewrite stamp_batch_length. split_and!; [done|lia|lia].
    + subst s1. unfold len. simpl. split_and!; [done|lia|lia].
  - intros [= <- <-]. rewrite prune_blocking_head. unfold len. simpl. split_and!; [done|lia|lia].
Qed.

Lemma log_run_gapless ops s out s' :
  is_u64 (head s) → head s + ops_events ops < 2 ^ 64 → log_run ops s = (out, s') →
  seq <$> out = seqZ (head s + 1) (len out) ∧ head s' = head s + len out.
Proof.
  revert s out s'. induction ops as [|op ops IH]; intros s out s' Hh Hlt; simpl in *.
  { intros [= <- <-]. unfold len. simpl. split; [done|lia]. }
  pose proof (ops_events_nonneg ops).
  destruct (log_step op s) as [o1 s1] eqn:H1. destruct (log_run ops s1) as [o2 s2] eqn:H2.
  intros [= <- <-].
  apply log_step_gapless in H1 as (Hs1 & Hh1 & Hl1); [|done|lia].
  pose proof (len_nonneg o1). pose proof (len_nonneg o2). unfold is_u64 in *.
  apply IH in H2 as (Hs2 & Hh2); [|lia..]. rewrite fmap_app, len_app. split; [|lia].
  rewrite seqZ_app, Hs1, Hs2 by lia. do 2 f_equal. lia.
Qed.
End delivery_log_spec.

(** ** A concrete in-memory database

    The reference implementation of [Redb]: a journal of insertions whose
    content is the sorted map it folds to. *)

Module MemDb.
Definition norm (rows : list row) : list row := foldr (λ r, row_insert r.1 r.2) [] rows.

#[local] Instance mem_redb : Redb (list row) (list row) := {|
  begin_write db := Some db;
  begin_read db := Some db;
  table_insert k v t := Some ((k, v) :: t);
  table_remove k t := Some (filter (λ r, r.1 ≠ k) (norm t));
  table_iter t := Some (norm t);
  table_range_from k t := Some (filter (λ r, k ≤ r.1) (norm t));
  commit t := Some t;
  db_rows := norm;
  table_rows := norm
|}.

Lemma row_insert_keys (P : Z → Prop) k v rows :
  P k → Forall P rows.*1 → Forall P (row_insert k v rows).*1.
Proof.
  intros Hk. induction rows as [|[k' v'] rows IH]; csimpl; [by constructor|].
  intros Hall. inversion_clear Hall. case_bool; csimpl; [by repeat constructor|].
  case_bool; csimpl; constructor; auto.
Qed.

Lemma row_insert_sorted k v rows :
  StronglySorted Z.lt rows.*1 → StronglySorted Z.lt (row_insert k v rows).*1.
Proof.
  induction rows as [|[k' v'] rows IH]; csimpl; [by repeat constructor|].
  intros [Hs Hall]%StronglySorted_inv. case_bool; bool_to_prop; csimpl.
  - constructor; [by constructor|]. constructor; [done|]. eapply Forall_impl; [exact Hall|].
    simpl; lia.
  - case_bool; bool_to_prop; csimpl; [subst; by constructor|].
    constructor; [auto|]. apply row_insert_keys; [lia|done].
Qed.

Lemma norm_sorted rows : StronglySorted Z.lt (norm rows).*1.
Proof. induction rows as [|[k v] rows IH]; [constructor|]. by apply row_insert_sorted. Qed.

Lemma norm_id rows : StronglySorted Z.lt rows.*1 → norm rows = rows.
Proof.
  induction rows as [|[k v] rows IH]; [done|]. csimpl. intros [Hs Hall]%StronglySorted_inv.
  rewrite IH by done. destruct rows as [|[k' v'] rows]; [done|]. inversion_clear Hall.
  simpl. by rewrite (proj2 (Z.ltb_lt _ _)).
Qed.

Lemma filter_sorted (P : row → Prop) `{∀ r, Decision (P r)} rows :
  StronglySorted Z.lt rows.*1 → StronglySorted Z.lt (filter P rows).*1.
Proof.
  induction rows as [|r rows IH]; [done|]. csimpl. intros [Hs Hall]%StronglySorted_inv.
  rewrite filter_cons. case_decide; csimpl; [|auto]. constructor; [auto|].
  apply (Forall_fmap fst) in Hall. apply (Forall_fmap fst).
  rewrite Forall_forall in *. intros x [_ Hx]%list_elem_of_filter. by apply Hall.
Qed.

#[local] Instance mem_redb_laws : RedbLaws (list row) (list row).
Proof.
  split; simpl.
  - apply norm_sorted.
  - by intros ?? [= <-].
  - by intros ?? [= <-].
  - by intros ???? [= <-].
  - intros ??? [= <-]. apply norm_id. apply filter_sorted, norm_sorted.
  - by intros ?? [= <-].
  - by intros ??? [= <-].
  - by intros ?? [= <-].
Qed.
End MemDb.

#[global] Instance StoredEvent_countable : Countable StoredEvent :=
  inj_countable' (λ e, (se_id e, se_ts_ms e, se_channel e, se_payload_b64 e))
    (λ x, let '(i, t, c, p) := x in MkStoredEvent i t c p)
    (λ e, match e with MkStoredEvent _ _ _ _ => eq_refl end).

(** A small log for the witnesses: at most two events, a day of retention. *)
Section samples.
#[local] Existing Instance MemDb.mem_redb.
#[local] Existing Instance BitCodec.wire.

Definition sample_uuid (n : nat) : Uuid := Z.of_nat (7 + n).
Definition sample_event : Event := MkEvent "fake.a" "eA==".
Definition sample_other : Event := MkEvent "fake.b" "eQ==".
Definition empty_log : Shared (list row) := MkShared [] 0 0 0 0 86400 1000000 2.
Definition log_of_three : Shared (list row) :=
  (append [sample_event; sample_other; sample_event] 1000 sample_uuid empty_log).2.
Definition three_events : list StampedEvent :=
  unwrap_or [] (append [sample_event; sample_other; sample_event] 1000 sample_uuid empty_log).1.
End samples.

Lemma empty_log_repr :
  log_repr (R := MemDb.mem_redb) (W := BitCodec.wire) empty_log [].
Proof.
  unfold log_repr, is_u64. simpl. repeat split; try lia; [constructor|by left].
Qed.

Lemma log_of_three_repr :
  log_repr (R := MemDb.mem_redb) (W := BitCodec.wire) log_of_three three_events.
Proof.
  apply (append_blocking_repr (R := MemDb.mem_redb) (L := MemDb.mem_redb_laws)
    (W := BitCodec.wire) empty_log [] [sample_event; sample_other; sample_event] 1000 sample_uuid).
  - apply empty_log_repr.
  - done.
  - vm_compute. reflexivity.
  - vm_compute. reflexivity.
  - unfold is_u64. vm_compute. split; [discriminate|reflexivity].
Qed.

(** ** Theorems *)

Section theorems.
Context {Db Table : Type} {R : Redb Db Table} {L : RedbLaws Db Table}.
Context {W : Wire StoredEvent} {WL : WireLaws StoredEvent}.

(** C16: across any run of appends and prunes of one process, some of which
    fail, the stamped sequence numbers are exactly [head+1, head+2, …] without
    a gap or a repetition, and the head ends at the last one. *)
Theorem stamped_seqs_are_gapless ops (s : Shared Db) out s' :
  is_u64 (head s) → head s + ops_events ops < 2 ^ 64 → log_run ops s = (out, s') →
  seq <$> out = seqZ (head s + 1) (len out) ∧ head s' = head s + len out.
Proof. apply log_run_gapless. Qed.

(** An append is atomic: it either stores the whole batch after the
    retained events, stamped in order with the batch's channels and payloads,
    or fails and leaves the log as it was. *)
Theorem append_is_atomic s evs events ts new_v4 r s' :
  log_repr s evs → head s + len events < 2 ^ 64 →
  append events ts new_v4 s = (r, s') → is_u64 (values_bytes (db_rows (db s')).*2) →
  match r with
  | Ok stamped =>
      log_repr s' (evs ++ stamped) ∧ stamped = stamp_batch (head s) ts new_v4 0 events
  | Err _ => s' = s
  end.
Proof. apply append_spec. Qed.

(** A replay scan fails only when the database does; otherwise it returns
    exactly the retained events past the cursor that a pattern selects, in
    order. *)
Theorem read_after_is_exact s evs after patterns :
  log_repr s evs → 0 ≤ after < u64_max →
  read_after after patterns s =
    match t ← begin_read (db s); table_range_from (after + 1) t with
    | None => Err "storage error"
    | Some _ => Ok (filter (λ e, wanted after patterns e) evs)
    end.
Proof. apply read_after_spec. Qed.


End theorems.

(** ** Witnesses *)

Section witnesses.
#[local] Existing Instance MemDb.mem_redb.
#[local] Existing Instance MemDb.mem_redb_laws.
#[local] Existing Instance BitCodec.wire.
#[local] Existing Instance BitCodec.wire_laws.

Definition sample_ops : list LogOp :=
  [OpAppend [sample_event; sample_other] 1000 sample_uuid; OpPrune 90000000;
   OpAppend [sample_event] 90000000 sample_uuid].

Lemma stamped_seqs_are_gapless_witness :
  seq <$> (log_run sample_ops empty_log).1 = [1; 2; 3] ∧
  head (log_run sample_ops empty_log).2 =
    head empty_log + len (log_run sample_ops empty_log).1.
Proof.
  split; [vm_compute; reflexivity|].
  apply (stamped_seqs_are_gapless sample_ops empty_log _ _ (conj (Z.le_refl 0) eq_refl) eq_refl).
  apply surjective_pairing.
Defined.

Lemma append_is_atomic_witness :
  log_repr (append [sample_event] 1000 sample_uuid empty_log).2
    ([] ++ stamp_batch 0 1000 sample_uuid 0 [sample_event]).
Proof.
  destruct (append_is_atomic empty_log [] [sample_event] 1000 sample_uuid
    (Ok (stamp_batch 0 1000 sample_uuid 0 [sample_event])) _ empty_log_repr
    ltac:(reflexivity) ltac:(vm_compute; reflexivity)
    ltac:(vm_compute; split; [discriminate|reflexivity])) as [Hrepr _].
  exact Hrepr.
Defined.

Lemma read_after_is_exact_witness :
  read_after 1 (Some [MkPattern "fake.a"]) log_of_three =
    Ok (filter (λ e, wanted 1 (Some [MkPattern "fake.a"]) e) three_events) ∧
  seq <$> unwrap_or [] (read_after 1 (Some [MkPattern "fake.a"]) log_of_three) = [3].
Proof.
  split; [|vm_compute; reflexivity].
  rewrite (read_after_is_exact log_of_three three_events 1 (Some [MkPattern "fake.a"])
    log_of_three_repr) by (split; [discriminate|reflexivity]).
  vm_compute. reflexivity.
Defined.


(** The configuration of the sample log, and a file system where it exists. *)
Definition sample_cfg : DeliveryConfig := MkDeliveryConfig true "log.redb" 86400 1000000 2 300.
Definition sample_fs : FsView := MkFsView (λ _, true) (λ _, Some 384) (λ _, None).
Definition reopen (rows : list row) (now : Z) : result string (Shared (list row)) :=
  DeliveryLog_open sample_fs (λ _, Ok ()) (λ _, Ok ()) (λ _, Ok rows) sample_cfg now.


(** A log whose last event was pruned forgets its head when reopened: the next
    event is stamped 1 again, below the cursors clients already hold. *)
Lemma reopen_after_full_prune_restarts_seqs :
  let pruned := (prune_blocking 90000000 log_of_three).2 in
  head pruned = 3 ∧
  (s' ← to_option (reopen (db pruned) 90000000);
   to_option (append [sample_event] 90000000 sample_uuid s').1) =
    Some [MkStampedEvent 1 7 90000000 "fake.a" "eA=="].
Proof. vm_compute. split; reflexivity. Qed.
End witnesses.
