(* ===== verification/ChannelClaims.v ===== *)
(** * ChannelClaims: namespace enforcement

    [crates/whdr-server/src/channel_claims.rs].  An extension may only emit under
    its claimed path ids and registered channel prefixes, and registration
    claims must not collide with any other extension's routes or prefixes.
    [routes] and [prefixes] are the maps of [AppState] from a path claim (a
    channel prefix) to the id of the extension that owns it. *)

From S2P Require Import Prelude.
From S2P Require Import Text.
From S2P Require Import Channel.
From S2P Require Import Messages.
From Stdlib Require Import Ascii.

Local Open Scope Z_scope.

(** ** Definitions *)

Definition first_channel_segment (channel : string) : string :=
  match split_on "." channel with s :: _ => s | [] => EmptyString end.

Definition channel_is_in_prefix (channel prefix : string) : bool :=
  String.eqb channel prefix ||
  match strip_prefix prefix channel with
  | Some suffix => starts_with "." suffix
  | None => false
  end.

Definition channel_prefixes_overlap (left right : string) : bool :=
  channel_is_in_prefix left right || channel_is_in_prefix right left.

Definition path_claim_byte (b : ascii) : bool :=
  is_ascii_lowercase b || is_ascii_digit b || Ascii.eqb b "-" || Ascii.eqb b "_".

Definition validate_path_claim (claim : string) : result string () :=
  if is_empty claim || contains_byte "/" claim || negb (bytes_all path_claim_byte claim)
  then Err ("invalid path claim: " +:+ claim)
  else Ok ().

Definition validate_emitted_channel (channel ext_id : string)
    (claims registered_prefixes : list string) : result string () :=
  _ ← map_err (λ _, "invalid event channel: " +:+ channel) (validate_channel channel);
  let first := first_channel_segment channel in
  if existsb (λ claim, String.eqb claim first) claims
     || existsb (channel_is_in_prefix channel) registered_prefixes
  then Ok ()
  else Err ("channel " +:+ channel +:+ " is not owned by extension " +:+ ext_id).

(** [filter_owned_events]: the events kept, and the [violations] counter after
    one [fetch_add] per event dropped. *)
Fixpoint filter_owned_events (ext_id : string) (paths registered_prefixes : list string)
    (violations : Z) (events : list Event) : list Event * Z :=
  match events with
  | [] => ([], violations)
  | event :: rest =>
      match validate_emitted_channel (channel event) ext_id paths registered_prefixes with
      | Ok _ =>
          let '(kept, violations') :=
            filter_owned_events ext_id paths registered_prefixes violations rest in
          (event :: kept, violations')
      | Err _ =>
          filter_owned_events ext_id paths registered_prefixes (wrap64 (violations + 1)) rest
      end
  end.

(** The bodies of the nested loops of [validate_registration_claims]. *)
Definition claim_against_prefix (id claim : string) (existing : string * string)
    : result string () :=
  let '(prefix, owner) := existing in
  if negb (String.eqb owner id) && String.eqb (first_channel_segment prefix) claim
  then Err ("path claim " +:+ claim +:+ " collides with channel prefix " +:+ prefix
              +:+ " owned by " +:+ owner)
  else Ok ().

Definition prefix_against_seen (prefix seen : string) : result string () :=
  if channel_prefixes_overlap prefix seen
  then Err ("channel prefix " +:+ prefix +:+ " collides with channel prefix " +:+ seen)
  else Ok ().

Definition prefix_against_route (id prefix : string) (owner : option string)
    : result string () :=
  match owner with
  | Some owner =>
      if negb (String.eqb owner id)
      then Err ("channel prefix " +:+ prefix +:+ " collides with route "
                  +:+ first_channel_segment prefix +:+ " owned by " +:+ owner)
      else Ok ()
  | None => Ok ()
  end.

Definition prefix_against_prefix (id prefix : string) (existing : string * string)
    : result string () :=
  let '(existing, owner) := existing in
  if negb (String.eqb owner id) && channel_prefixes_overlap prefix existing
  then Err ("channel prefix " +:+ prefix +:+ " collides with channel prefix " +:+ existing
              +:+ " owned by " +:+ owner)
  else Ok ().

Section registration.
Context `{HashOrder}.

(** The body of the claims loop; [seen] is the set [seen_claims]. *)
Fixpoint validate_claims (id : string) (routes existing_prefixes : gmap string string)
    (seen : list string) (claims : list string) : result string () :=
  match claims with
  | [] => Ok ()
  | claim :: rest =>
      _ ← validate_path_claim claim;
      if bool_decide (claim ∈ seen) then Err ("duplicate path claim: " +:+ claim) else
      match routes !! claim with
      | Some owner => Err ("path collision: " +:+ claim +:+ " already claimed by " +:+ owner)
      | None =>
          _ ← for_each (claim_against_prefix id claim) (hash_iter existing_prefixes);
          validate_claims id routes existing_prefixes (claim :: seen) rest
      end
  end.

(** The body of the prefixes loop; [seen] is the vector [seen_prefixes]. *)
Fixpoint validate_prefixes (id : string) (routes existing_prefixes : gmap string string)
    (seen : list string) (channel_prefixes : list string) : result string () :=
  match channel_prefixes with
  | [] => Ok ()
  | prefix :: rest =>
      _ ← map_err (λ _, "invalid channel prefix: " +:+ prefix) (validate_channel prefix);
      _ ← for_each (prefix_against_seen prefix) seen;
      _ ← prefix_against_route id prefix (routes !! first_channel_segment prefix);
      _ ← for_each (prefix_against_prefix id prefix) (hash_iter existing_prefixes);
      validate_prefixes id routes existing_prefixes (seen ++ [prefix]) rest
  end.

Definition validate_registration_claims (id : string) (claims channel_prefixes : list string)
    (routes existing_prefixes : gmap string string) : result string () :=
  _ ← validate_claims id routes existing_prefixes [] claims;
  validate_prefixes id routes existing_prefixes [] channel_prefixes.
End registration.

(** The insertions of the registration critical section ([start_extension] in
    [daemon.rs]): [for claim in &claims { map.insert(claim, id) }]. *)
Definition insert_all (id : string) (keys : list string) (m : gmap string string)
    : gmap string string :=
  foldl (λ m k, <[k := id]> m) m keys.

(** [map.retain(|_, owner| owner != id)], the unrouting of an extension. *)
Definition retain_others (id : string) (m : gmap string string) : gmap string string :=
  filter (λ kv, kv.2 ≠ id) m.

(** ** Specification *)

(** The tokens of a dotted name; ownership is prefix order on tokens. *)
Definition tokens (s : string) : list string := split_on "." s.
Definition incomparable (p q : string) : Prop :=
  ¬ tokens p `prefix_of` tokens q ∧ ¬ tokens q `prefix_of` tokens p.

(** Two maps keep the namespaces of different owners apart: prefixes of
    different owners are incomparable, and no path claim is the first segment
    of a prefix of another owner. *)
Record namespaces_exclusive (routes prefixes : gmap string string) : Prop := {
  prefixes_disjoint p1 o1 p2 o2 :
    prefixes !! p1 = Some o1 → prefixes !! p2 = Some o2 → o1 ≠ o2 → incomparable p1 p2;
  claims_disjoint claim o1 p o2 :
    routes !! claim = Some o1 → prefixes !! p = Some o2 → o1 ≠ o2 →
    first_channel_segment p ≠ claim
}.

(** What [validate_registration_claims] accepts. *)
Record registration_ok (id : string) (claims channel_prefixes : list string)
    (routes prefixes : gmap string string) : Prop := {
  claims_valid claim : claim ∈ claims → validate_path_claim claim = Ok ();
  claims_distinct : NoDup claims;
  claims_free claim : claim ∈ claims → routes !! claim = None;
  claims_off_prefixes claim p o :
    claim ∈ claims → prefixes !! p = Some o → o ≠ id → first_channel_segment p ≠ claim;
  prefixes_valid p : p ∈ channel_prefixes → channel_grammar p;
  prefixes_apart : ForallOrdPairs incomparable channel_prefixes;
  prefixes_off_routes p o :
    p ∈ channel_prefixes → routes !! first_channel_segment p = Some o → o = id;
  prefixes_off_prefixes p q o :
    p ∈ channel_prefixes → prefixes !! q = Some o → o ≠ id → incomparable p q
}.

(** ** Lemmas *)

Lemma join_app c ts us :
  ts ≠ [] → us ≠ [] → join c (ts ++ us) = join c ts +:+ String c (join c us).
Proof.
  intros Hts Hus. induction ts as [|t ts IH]; [done|]. destruct ts as [|t' ts].
  - rewrite <- join_cons by done. done.
  - change ((t :: t' :: ts) ++ us) with (t :: ((t' :: ts) ++ us)).
    rewrite (join_cons c t (t' :: ts)), join_cons, IH by done.
    by rewrite <- !string_app_assoc, string_app_cons.
Qed.

Lemma channel_is_in_prefix_spec c p :
  channel_is_in_prefix c p = true ↔ tokens p `prefix_of` tokens c.
Proof.
  unfold channel_is_in_prefix. rewrite orb_true_iff, String.eqb_eq. split.
  - intros [->|Hs]; [done|]. destruct (strip_prefix p c) as [suf|] eqn:Hsuf; [|done].
    apply strip_prefix_Some in Hsuf as ->. unfold starts_with in Hs.
    destruct (strip_prefix "." suf) as [x|] eqn:Hx; [|done].
    apply strip_prefix_Some in Hx as ->. unfold tokens.
    change ("." +:+ x) with (String "." x). rewrite split_on_app_gen. by apply prefix_app_r.
  - intros [l Hl]. unfold tokens in Hl. destruct l as [|t l].
    { left. rewrite app_nil_r in Hl. by rewrite <- (join_split "." c), Hl, join_split. }
    right. assert (c = p +:+ String "." (join "." (t :: l))) as ->.
    { rewrite <- (join_split "." c), Hl, join_app, join_split; [done| |done].
      apply split_on_not_nil. }
    rewrite (proj2 (strip_prefix_Some p _ (String "." (join "." (t :: l))))) by done. done.
Qed.

Lemma overlap_spec p q :
  channel_prefixes_overlap p q = true ↔
  tokens p `prefix_of` tokens q ∨ tokens q `prefix_of` tokens p.
Proof. unfold channel_prefixes_overlap. rewrite orb_true_iff, !channel_is_in_prefix_spec. tauto. Qed.

Lemma overlap_false p q :
  channel_prefixes_overlap p q = false ↔ incomparable p q.
Proof. unfold incomparable. rewrite <- not_true_iff_false, overlap_spec. tauto. Qed.

Lemma first_segment_prefix p c :
  tokens p `prefix_of` tokens c → first_channel_segment c = first_channel_segment p.
Proof.
  unfold tokens, first_channel_segment. intros [l ->].
  pose proof (split_on_not_nil "." p). by destruct (split_on "." p).
Qed.

(** Two prefixes of one name are comparable. *)
Lemma prefixes_comparable {A} (l1 l2 l : list A) :
  l1 `prefix_of` l → l2 `prefix_of` l → l1 `prefix_of` l2 ∨ l2 `prefix_of` l1.
Proof. intros. by apply (prefix_weak_total l1 l2 l). Qed.

Lemma validate_emitted_Ok channel ext_id claims prefixes :
  validate_emitted_channel channel ext_id claims prefixes = Ok () ↔
  channel_grammar channel ∧
  (first_channel_segment channel ∈ claims ∨
   ∃ p, p ∈ prefixes ∧ tokens p `prefix_of` tokens channel).
Proof.
  unfold validate_emitted_channel. rewrite result_bind_Ok.
  assert ((existsb (λ claim, String.eqb claim (first_channel_segment channel)) claims
     || existsb (channel_is_in_prefix channel) prefixes) = true ↔
    (first_channel_segment channel ∈ claims ∨
     ∃ p, p ∈ prefixes ∧ tokens p `prefix_of` tokens channel)) as Hown.
  { rewrite orb_true_iff, !existsb_exists.
    setoid_rewrite <- list_elem_of_In. setoid_rewrite String.eqb_eq.
    setoid_rewrite channel_is_in_prefix_spec. set_solver. }
  rewrite <- Hown, channel_grammar_tokens, <- validate_channel_Ok. destruct (validate_channel channel) as [[]|e]; simpl.
  - case_bool; split; intros; destruct_and?; try done; [by exists ()|].
    by destruct H as (? & ? & ?).
  - split; [by intros (? & ? & _)|by intros [? _]].
Qed.

Section registration_lemmas.
Context `{HashOrder}.

Lemma claim_against_prefixes id claim prefixes :
  for_each (claim_against_prefix id claim) (hash_iter prefixes) = Ok () ↔
  ∀ p o, prefixes !! p = Some o → o ≠ id → first_channel_segment p ≠ claim.
Proof.
  rewrite for_each_Ok. split.
  - intros Hall p o Hp Ho <-. specialize (Hall (p, o)). rewrite elem_of_hash_iter in Hall.
    apply Hall in Hp. unfold claim_against_prefix in Hp.
    by rewrite String.eqb_refl, (proj2 (String.eqb_neq _ _)) in Hp.
  - intros Hall [p o] Hp%elem_of_hash_iter. unfold claim_against_prefix.
    destruct (String.eqb_spec o id), (String.eqb_spec (first_channel_segment p) claim); try done.
    by destruct (Hall p o).
Qed.

Lemma prefix_against_all_seen prefix seen :
  for_each (prefix_against_seen prefix) seen = Ok () ↔
  ∀ s, s ∈ seen → incomparable prefix s.
Proof.
  rewrite for_each_Ok. apply forall_proper. intros s. rewrite <- overlap_false.
  unfold prefix_against_seen.
  destruct (channel_prefixes_overlap prefix s); split; intros Hs Hin; by specialize (Hs Hin).
Qed.

Lemma prefix_against_route_Ok id prefix owner :
  prefix_against_route id prefix owner = Ok () ↔ ∀ o, owner = Some o → o = id.
Proof.
  destruct owner as [o|]; simpl; [|by split].
  destruct (String.eqb_spec o id) as [->|Hne]; simpl; split; try done.
  - by intros _ o [= <-].
  - intros Heq. by destruct (Hne (Heq o eq_refl)).
Qed.

Lemma prefix_against_prefixes id prefix prefixes :
  for_each (prefix_against_prefix id prefix) (hash_iter prefixes) = Ok () ↔
  ∀ q o, prefixes !! q = Some o → o ≠ id → incomparable prefix q.
Proof.
  rewrite for_each_Ok. setoid_rewrite <- overlap_false. split.
  - intros Hall q o Hq Ho. specialize (Hall (q, o)). rewrite elem_of_hash_iter in Hall.
    apply Hall in Hq. unfold prefix_against_prefix in Hq.
    rewrite (proj2 (String.eqb_neq _ _)) in Hq by done.
    by destruct (channel_prefixes_overlap prefix q).
  - intros Hall [q o] Hq%elem_of_hash_iter. unfold prefix_against_prefix.
    destruct (String.eqb_spec o id); [done|]. by rewrite (Hall q o).
Qed.

Lemma validate_claims_Ok id routes prefixes seen claims :
  validate_claims id routes prefixes seen claims = Ok () ↔
  NoDup claims ∧
  ∀ claim, claim ∈ claims →
    validate_path_claim claim = Ok () ∧ claim ∉ seen ∧ routes !! claim = None ∧
    ∀ p o, prefixes !! p = Some o → o ≠ id → first_channel_segment p ≠ claim.
Proof.
  revert seen. induction claims as [|claim claims IH]; intros seen; cbn [validate_claims].
  { split; [|done]. intros _. split; [constructor|set_solver]. }
  rewrite result_bind_Ok, NoDup_cons. split.
  - intros ([] & Hv & Hrest). destruct (bool_decide _) eqn:Hseen; [done|].
    apply bool_decide_eq_false in Hseen. destruct (routes !! claim) eqn:Hroute; [done|].
    apply result_bind_Ok in Hrest as ([] & Hf & (Hnd & Hall)%IH).
    rewrite claim_against_prefixes in Hf.
    split; [split; [|done]; intros Hin; apply Hall in Hin; set_solver|].
    intros c [->|Hc]%elem_of_cons; [done|]. destruct (Hall c Hc) as (? & ? & ? & ?). set_solver.
  - intros [[Hni Hnd] Hall].
    destruct (Hall claim) as (Hv & Hseen & Hroute & Hoff); [set_solver|].
    exists (). split; [done|]. rewrite bool_decide_eq_false_2, Hroute by done.
    apply result_bind_Ok. exists (). split; [by apply claim_against_prefixes|].
    apply IH. split; [done|].
    intros c Hc. destruct (Hall c) as (? & ? & ? & ?); [set_solver|]. set_solver.
Qed.

Lemma validate_prefixes_cons_Ok id routes prefixes seen p cps :
  validate_prefixes id routes prefixes seen (p :: cps) = Ok () ↔
  channel_grammar p ∧ (∀ s, s ∈ seen → incomparable p s) ∧
  (∀ o, routes !! first_channel_segment p = Some o → o = id) ∧
  (∀ q o, prefixes !! q = Some o → o ≠ id → incomparable p q) ∧
  validate_prefixes id routes prefixes (seen ++ [p]) cps = Ok ().
Proof.
  cbn [validate_prefixes]. rewrite channel_grammar_tokens, <- validate_channel_Ok.
  rewrite <- prefix_against_all_seen, <- (prefix_against_route_Ok id p), <- prefix_against_prefixes.
  rewrite <- (map_err_Ok (λ _, "invalid channel prefix: " +:+ p) (validate_channel p)).
  rewrite !result_bind_Ok. split.
  - intros ([] & ? & ([] & ? & ([] & ? & ([] & ? & ?)%result_bind_Ok)%result_bind_Ok)
      %result_bind_Ok). done.
  - intros (? & ? & ? & ? & ?). exists (). rewrite !result_bind_Ok. split; [done|].
    exists (). rewrite !result_bind_Ok. split; [done|]. exists (). rewrite !result_bind_Ok.
    split; [done|]. by exists ().
Qed.

Lemma validate_prefixes_Ok id routes prefixes seen cps :
  validate_prefixes id routes prefixes seen cps = Ok () ↔
  ForallOrdPairs incomparable cps ∧
  ∀ p, p ∈ cps →
    channel_grammar p ∧ (∀ s, s ∈ seen → incomparable p s) ∧
    (∀ o, routes !! first_channel_segment p = Some o → o = id) ∧
    ∀ q o, prefixes !! q = Some o → o ≠ id → incomparable p q.
Proof.
  revert seen. induction cps as [|p cps IH]; intros seen.
  { split; [|done]. intros _. split; [constructor|set_solver]. }
  rewrite validate_prefixes_cons_Ok, IH. split.
  - intros (Hg & Hs & Hr & Hq & Hord & Hall). split.
    + constructor; [|done]. apply Forall_forall. intros q Hin.
      destruct (Hall q Hin) as (_ & Hsn & _). destruct (Hsn p); [set_solver|]. by split.
    + intros q [->|Hin]%elem_of_cons; [done|]. destruct (Hall q Hin) as (? & Hsn & ? & ?).
      split_and!; try done. intros s Hs'. apply Hsn. set_solver.
  - intros [Hord Hall]. inversion_clear Hord as [|? ? Hp Hord'].
    destruct (Hall p) as (? & ? & ? & ?); [set_solver|].
    split_and!; try done. intros q Hin.
    destruct (Hall q) as (? & Hs & ? & ?); [set_solver|]. split_and!; try done.
    intros s [Hs'| ->%list_elem_of_singleton]%elem_of_app; [by apply Hs|].
    rewrite Forall_forall in Hp. destruct (Hp q Hin). by split.
Qed.

Lemma validate_registration_Ok id claims cps routes prefixes :
  validate_registration_claims id claims cps routes prefixes = Ok () ↔
  registration_ok id claims cps routes prefixes.
Proof.
  unfold validate_registration_claims. rewrite result_bind_Ok. split.
  - intros ([] & [Hnd Hc]%validate_claims_Ok & [Hord Hp]%validate_prefixes_Ok).
    split; try done; intros; first [by eapply Hc|by eapply Hp].
  - intros Hok. exists (). rewrite validate_claims_Ok, validate_prefixes_Ok.
    split; (split; [apply Hok|]); intros x Hx; split_and!; try set_solver; intros; eapply Hok;
      eauto.
Qed.
End registration_lemmas.

Lemma insert_all_lookup id keys m k :
  insert_all id keys m !! k = if decide (k ∈ keys) then Some id else m !! k.
Proof.
  unfold insert_all. revert m. induction keys as [|k' keys IH]; intros m; cbn [foldl]; [done|].
  rewrite IH, lookup_insert. repeat case_decide; set_solver.
Qed.

Lemma exclusive_insert id claims cps routes prefixes :
  namespaces_exclusive routes prefixes → registration_ok id claims cps routes prefixes →
  namespaces_exclusive (insert_all id claims routes) (insert_all id cps prefixes).
Proof.
  intros Hns Hok. split.
  - intros p1 o1 p2 o2. rewrite !insert_all_lookup.
    case_decide; case_decide; intros H1 H2 Hne; simplify_eq.
    + by eapply prefixes_off_prefixes.
    + assert (incomparable p2 p1) by (by eapply prefixes_off_prefixes; eauto).
      unfold incomparable in *. tauto.
    + by eapply prefixes_disjoint.
  - intros claim o1 p o2. rewrite !insert_all_lookup.
    case_decide; case_decide; intros H1 H2 Hne; simplify_eq.
    + by eapply claims_off_prefixes.
    + intros <-. destruct Hne. by eapply prefixes_off_routes.
    + by eapply claims_disjoint.
Qed.

Lemma exclusive_retain id routes prefixes :
  namespaces_exclusive routes prefixes →
  namespaces_exclusive (retain_others id routes) (retain_others id prefixes).
Proof.
  intros [Hp Hc]. split; intros ????; unfold retain_others;
    rewrite !map_lookup_filter_Some; intros [? _] [? _]; eauto.
Qed.

(** ** Reachable namespaces *)

(** The registration critical section and the unrouting of an extension, on
    the two maps. *)
Inductive ns_step `{HashOrder} : gmap string string * gmap string string →
    gmap string string * gmap string string → Prop :=
  | ns_register id claims cps routes prefixes :
      validate_registration_claims id claims cps routes prefixes = Ok () →
      ns_step (routes, prefixes) (insert_all id claims routes, insert_all id cps prefixes)
  | ns_unroute_routes id routes prefixes :
      ns_step (routes, prefixes) (retain_others id routes, prefixes)
  | ns_unroute_prefixes id routes prefixes :
      ns_step (routes, prefixes) (routes, retain_others id prefixes).

Lemma reachable_exclusive `{HashOrder} routes prefixes :
  rtc ns_step (∅, ∅) (routes, prefixes) → namespaces_exclusive routes prefixes.
Proof.
  intros Hreach. change (namespaces_exclusive (routes, prefixes).1 (routes, prefixes).2).
  revert Hreach. generalize (routes, prefixes). apply rtc_ind_r.
  { split; simpl; intros ????; by rewrite lookup_empty. }
  intros x y _ Hstep IH. destruct Hstep as [id claims cps r p Hok|id r p|id r p]; simpl in *.
  - apply exclusive_insert; [done|]. by apply validate_registration_Ok.
  - destruct IH as [Hp Hc]. split; [done|]. intros ????. unfold retain_others.
    rewrite map_lookup_filter_Some. intros [? _]. eauto.
  - destruct IH as [Hp Hc]. split; intros ????; unfold retain_others;
      rewrite ?map_lookup_filter_Some; intuition eauto.
Qed.

(** The events an extension's filter keeps. *)
Definition owned (paths prefixes : list string) (ev : Event) : bool :=
  is_ok (validate_emitted_channel (channel ev) EmptyString paths prefixes).

Lemma validate_emitted_ok_id c id1 id2 paths prefixes :
  is_ok (validate_emitted_channel c id1 paths prefixes) =
  is_ok (validate_emitted_channel c id2 paths prefixes).
Proof.
  unfold validate_emitted_channel. destruct (validate_channel c); simpl; [|done].
  by destruct (_ || _).
Qed.

Lemma filter_owned_spec id paths prefixes v events :
  is_u64 v →
  filter_owned_events id paths prefixes v events =
    (filter (λ ev, owned paths prefixes ev) events,
     wrap64 (v + len (filter (λ ev, ¬ owned paths prefixes ev) events))).
Proof.
  revert v. induction events as [|ev events IH]; intros v Hv.
  { simpl. change (len (@nil Event)) with 0. by rewrite Z.add_0_r, wrap64_small. }
  cbn [filter_owned_events]. rewrite !filter_cons.
  assert (owned paths prefixes ev =
    is_ok (validate_emitted_channel (channel ev) id paths prefixes)) as Hown
    by apply validate_emitted_ok_id.
  destruct (validate_emitted_channel _ _ _ _) as [[]|e]; simpl in Hown; rewrite Hown.
  - rewrite IH by done. by rewrite decide_True, decide_False by (simpl; tauto).
  - rewrite IH by apply wrap64_range. rewrite decide_False, decide_True by (simpl; tauto).
    rewrite len_cons, wrap64_add_l. do 2 f_equal. lia.
Qed.

(** [holds routes prefixes id paths cps]: what the maps record of a registered
    extension. *)
Definition holds (routes prefixes : gmap string string) (id : string)
    (paths cps : list string) : Prop :=
  (∀ k, k ∈ paths → routes !! k = Some id) ∧ (∀ k, k ∈ cps → prefixes !! k = Some id).

Lemma emission_exclusive routes prefixes c a b pa qa pb qb :
  namespaces_exclusive routes prefixes →
  holds routes prefixes a pa qa → holds routes prefixes b pb qb →
  validate_emitted_channel c a pa qa = Ok () → validate_emitted_channel c b pb qb = Ok () →
  a = b.
Proof.
  intros [Hp Hc] [Ha1 Ha2] [Hb1 Hb2] [_ Ha]%validate_emitted_Ok [_ Hb]%validate_emitted_Ok.
  destruct (decide (a = b)) as [|Hne]; [done|exfalso].
  destruct Ha as [Ha|(p & Hin & Hpre)], Hb as [Hb|(q & Hin' & Hpre')].
  - apply Ha1 in Ha. apply Hb1 in Hb. congruence.
  - apply (Hc (first_channel_segment c) a q b); auto. by rewrite (first_segment_prefix q c).
  - apply (Hc (first_channel_segment c) b p a); auto. by rewrite (first_segment_prefix p c).
  - destruct (Hp p a q b) as [H1 H2]; auto.
    by destruct (prefixes_comparable (tokens p) (tokens q) (tokens c)).
Qed.

(** ** Theorems *)

(** C37: whatever the iteration order of the maps, registration claims are
    accepted exactly when they are valid, distinct, unclaimed and disjoint from
    the prefixes and routes of every other extension. *)
Theorem registration_accepts_disjoint_claims `{HashOrder} id claims cps routes prefixes :
  validate_registration_claims id claims cps routes prefixes = Ok () ↔
  registration_ok id claims cps routes prefixes.
Proof. apply validate_registration_Ok. Qed.

(** In every state that registrations and unroutings reach, two extensions
    that may both emit on a channel are the same extension. *)
Theorem emission_is_exclusive `{HashOrder} routes prefixes c a b pa qa pb qb :
  rtc ns_step (∅, ∅) (routes, prefixes) →
  holds routes prefixes a pa qa → holds routes prefixes b pb qb →
  validate_emitted_channel c a pa qa = Ok () → validate_emitted_channel c b pb qb = Ok () →
  a = b.
Proof. intros Hreach%reachable_exclusive. by apply emission_exclusive. Qed.

(** The filter keeps exactly the events on owned channels, in order, counts
    one violation per event dropped, and filtering its output again (as the
    reader and then the dispatcher do) drops and counts nothing. *)
Theorem filter_owned_events_exact id paths cps v events kept v' :
  is_u64 v → filter_owned_events id paths cps v events = (kept, v') →
  kept = filter (λ ev, owned paths cps ev) events ∧
  v' = wrap64 (v + (len events - len kept)) ∧
  filter_owned_events id paths cps v' kept = (kept, v').
Proof.
  intros Hv. rewrite filter_owned_spec by done. intros [= <- <-]. set (kept := filter _ events).
  assert (len (filter (λ ev, ¬ owned paths cps ev) events) = len events - len kept) as ->.
  { subst kept. unfold len. induction events as [|ev events IH]; [done|].
    rewrite !filter_cons. destruct (decide (owned paths cps ev)).
    - rewrite decide_False by tauto. simpl. lia.
    - rewrite decide_True by done. simpl. lia. }
  split; [done|]. split; [done|]. rewrite filter_owned_spec by apply wrap64_range.
  assert (filter (λ ev, ¬ owned paths cps ev) kept = []) as ->.
  { subst kept. rewrite list_filter_filter. induction events as [|ev events IH]; [done|].
    rewrite filter_cons_False by tauto. done. }
  assert (filter (λ ev, owned paths cps ev) kept = kept) as ->.
  { subst kept. rewrite list_filter_filter. apply list_filter_iff. tauto. }
  change (len (@nil Event)) with 0. by rewrite Z.add_0_r, (wrap64_small (wrap64 _)) by apply wrap64_range.
Qed.

(** ** Witnesses *)

Definition demo_routes : gmap string string := insert_all "fake" ["fake"; "alias"] ∅.
Definition demo_prefixes : gmap string string := insert_all "fake" ["shared.one"] ∅.

Lemma emission_is_exclusive_witness :
  validate_emitted_channel "shared.one.x" "fake" ["fake"; "alias"] ["shared.one"] = Ok () ∧
  "fake" = "fake".
Proof.
  split; [vm_compute; reflexivity|].
  apply (emission_is_exclusive (H := some_order) demo_routes demo_prefixes "shared.one.x"
    "fake" "fake" ["fake"; "alias"] ["shared.one"] ["fake"; "alias"] ["shared.one"]).
  - apply rtc_once. apply (ns_register (H := some_order)). vm_compute. reflexivity.
  - split; intros k Hk; repeat (apply elem_of_cons in Hk as [->|Hk]; [vm_compute; reflexivity|]);
      by apply not_elem_of_nil in Hk.
  - split; intros k Hk; repeat (apply elem_of_cons in Hk as [->|Hk]; [vm_compute; reflexivity|]);
      by apply not_elem_of_nil in Hk.
  - vm_compute. reflexivity.
  - vm_compute. reflexivity.
Defined.

(** Registrations that would break exclusivity are refused. *)
Example colliding_prefix_refused :
  is_ok (validate_registration_claims (H := some_order) "other" ["other"] ["shared.one.sub"]
    demo_routes demo_prefixes) = false.
Proof. vm_compute. reflexivity. Qed.

Lemma filter_owned_events_exact_witness :
  let events := [MkEvent "fake.a" EmptyString; MkEvent "other.a" EmptyString;
    MkEvent "shared" EmptyString] in
  let kept := [MkEvent "fake.a" EmptyString; MkEvent "shared" EmptyString] in
  filter_owned_events "fake" ["fake"] ["shared"] 3 events = (kept, 4) ∧
  filter_owned_events "fake" ["fake"] ["shared"] 4 kept = (kept, 4).
Proof.
  intros events kept.
  assert (filter_owned_events "fake" ["fake"] ["shared"] 3 events = (kept, 4)) as Hrun
    by (vm_compute; reflexivity).
  assert (is_u64 3) as H3 by (split; [discriminate|reflexivity]).
  destruct (filter_owned_events_exact _ _ _ _ _ _ _ H3 Hrun) as (_ & _ & Hagain).
  split; [exact Hrun|exact Hagain].
Defined.
