(* ===== verification/Subscribers.v ===== *)
(** * Subscribers: the subscriber registry and the event fan-out

    [crates/whdr-server/src/subscribers.rs].  The registry maps a connection id
    to its patterns, its outbound queue and its close cell.  Queues and close
    cells are shared ([Arc]) with the connection's WebSocket task: they live in a
    heap the registry's entries refer to by handle, so that a fan-out and the
    task act on the same queue.  With a durable log the fan-out appends before it
    queues any frame. *)

From S2P Require Import Prelude.
From S2P Require Import Text.
From S2P Require Import Channel.
From S2P Require Import Messages.
From S2P Require Import OutboundQueue.
From S2P Require Import Config.
From S2P Require Import DeliveryLog.
From Stdlib Require Import Ascii.

Local Open Scope Z_scope.

(** ** Definitions *)

(** [Arc<OutboundQueue>] and [watch::Sender<Option<ClosingReason>>] handles. *)
Abbreviation QueueRef := Z (only parsing).
Abbreviation WatchRef := Z (only parsing).

Record StampedFrame : Type := MkStampedFrame {
  sf_seq : Z;
  sf_id : Uuid;
  sf_ts_ms : Z;
  sf_channel : string;
  sf_payload_b64 : string
}.

Record SubscriberRegistration : Type := MkSubscriberRegistration {
  reg_name : string;
  reg_remote_addr : option string;
  reg_queue : QueueRef;
  reg_close_tx : WatchRef
}.

Record SubscriberSnapshot : Type := MkSubscriberSnapshot {
  snap_name : string;
  snap_remote_addr : option string;
  snap_patterns : list string;
  snap_delivered : Z;
  snap_dropped : Z
}.

Record Subscriber : Type := MkSubscriber {
  sub_name : string;
  sub_remote_addr : option string;
  sub_patterns : list Pattern;
  sub_queue : QueueRef;
  sub_close_tx : WatchRef
}.

(** The shared objects. *)
Record Heap : Type := MkHeap {
  queues : gmap QueueRef OutboundQueue;
  watches : gmap WatchRef (option ClosingReason)
}.

Definition with_queue (q : QueueRef) (f : OutboundQueue → OutboundQueue) (h : Heap) : Heap :=
  MkHeap (alter f q (queues h)) (watches h).

(** [watch::Sender::send]. *)
Definition watch_send (w : WatchRef) (reason : ClosingReason) (h : Heap) : Heap :=
  MkHeap (queues h) (alter (λ _, Some reason) w (watches h)).

Section subscribers.
Context {Db Table : Type} {R : Redb Db Table} {W : Wire StoredEvent}.
Context {M : Wire SubServerMsg} {O : HashOrder}.

(** [SubscriberRegistry]. *)
Record Registry : Type := MkRegistry {
  subs : gmap Z Subscriber;
  next_id : Z;
  mem_seq : Z;
  log : option (Shared Db);
  persist_errors : Z
}.

Definition SubscriberRegistry_new : Registry := MkRegistry ∅ 1 0 None 0.
Definition with_delivery (l : Shared Db) : Registry := MkRegistry ∅ 1 0 (Some l) 0.

Definition set_subs (m : gmap Z Subscriber) (r : Registry) : Registry :=
  MkRegistry m (next_id r) (mem_seq r) (log r) (persist_errors r).

Definition insert_subscriber (registration : SubscriberRegistration) (r : Registry)
    : Z * Registry :=
  let id := next_id r in
  (id, MkRegistry
    (<[id := MkSubscriber (reg_name registration) (reg_remote_addr registration) []
               (reg_queue registration) (reg_close_tx registration)]> (subs r))
    (wrap64 (id + 1)) (mem_seq r) (log r) (persist_errors r)).

Definition remove_subscriber (id : Z) (r : Registry) : Registry :=
  set_subs (delete id (subs r)) r.

(** The parsing loop of [subscribe]. *)
Fixpoint parse_patterns (patterns : list string) : result string (list Pattern) :=
  match patterns with
  | [] => Ok []
  | pattern :: rest =>
      _ ← map_err (λ err, "invalid pattern: " +:+ ChannelError_to_string err)
            (validate_pattern pattern);
      p ← map_err ChannelError_to_string (Pattern_new pattern);
      ps ← parse_patterns rest;
      Ok (p :: ps)
  end.

(** The push loop: a pattern already present is not pushed again. *)
Fixpoint push_new_patterns (patterns parsed : list Pattern) : list Pattern :=
  match parsed with
  | [] => patterns
  | p :: rest =>
      push_new_patterns
        (if bool_decide (p ∈ patterns) then patterns else patterns ++ [p]) rest
  end.

Definition map_patterns (f : list Pattern → list Pattern) (s : Subscriber) : Subscriber :=
  MkSubscriber (sub_name s) (sub_remote_addr s) (f (sub_patterns s)) (sub_queue s)
    (sub_close_tx s).

Definition subscribe (id : Z) (patterns : list string) (r : Registry)
    : result string () * Registry :=
  match parse_patterns patterns with
  | Err e => (Err e, r)
  | Ok parsed =>
      (Ok (), set_subs (alter (map_patterns (λ ps, push_new_patterns ps parsed)) id (subs r)) r)
  end.

Definition unsubscribe (id : Z) (patterns : list string) (r : Registry) : Registry :=
  set_subs
    (alter (map_patterns (filter (λ p, ¬ existsb (λ q, String.eqb q (as_str p)) patterns)))
       id (subs r)) r.

(** [stamp_in_memory]: [new_v4 i] is the identifier drawn for the [i]-th
    event. *)
Fixpoint stamp_in_memory (ts : Z) (new_v4 : nat → Uuid) (i : nat) (seq : Z)
    (events : list Event) : list StampedFrame * Z :=
  match events with
  | [] => ([], seq)
  | event :: rest =>
      let seq' := wrap64 (seq + 1) in
      let '(frames, seq_end) := stamp_in_memory ts new_v4 (S i) seq' rest in
      (MkStampedFrame seq' (new_v4 i) ts (channel event) (payload_b64 event) :: frames, seq_end)
  end.

Definition frame_of (s : StampedEvent) : StampedFrame :=
  MkStampedFrame (seq s) (id s) (ts_ms s) (st_channel s) (st_payload_b64 s).

(** The first half of [fanout]: persist, or stamp in memory. *)
Definition fanout_stamp (events : list Event) (ts : Z) (new_v4 : nat → Uuid) (r : Registry)
    : list StampedFrame * Registry :=
  match log r with
  | Some l =>
      match append events ts new_v4 l with
      | (Ok stamped, l') =>
          (frame_of <$> stamped,
           MkRegistry (subs r) (next_id r) (mem_seq r) (Some l') (persist_errors r))
      | (Err _, l') =>
          let '(frames, seq') := stamp_in_memory ts new_v4 0 (mem_seq r) events in
          (frames,
           MkRegistry (subs r) (next_id r) seq' (Some l') (wrap64 (persist_errors r + 1)))
      end
  | None =>
      let '(frames, seq') := stamp_in_memory ts new_v4 0 (mem_seq r) events in
      (frames, MkRegistry (subs r) (next_id r) seq' None (persist_errors r))
  end.

Definition event_msg (f : StampedFrame) : SubServerMsg :=
  Sub_Event (sf_id f) (sf_seq f) (sf_ts_ms f) (sf_channel f) (sf_payload_b64 f).

(** The subscriber loop for one frame. *)
Definition deliver_to (text channel : string) (entries : list (Z * Subscriber)) (h : Heap)
    : Heap :=
  foldl (λ h '(_, s),
    if any_matches (sub_patterns s) channel then with_queue (sub_queue s) (push_event text) h
    else h) h entries.

(** The second half of [fanout], under the registry's read lock. *)
Fixpoint fanout_deliver (frames : list StampedFrame) (r : Registry) (h : Heap) : Heap :=
  match frames with
  | [] => h
  | frame :: rest =>
      match to_string (event_msg frame) with
      | Err _ => fanout_deliver rest r h
      | Ok text =>
          fanout_deliver rest r (deliver_to text (sf_channel frame) (hash_iter (subs r)) h)
      end
  end.

Definition fanout (events : list Event) (ts : Z) (new_v4 : nat → Uuid)
    (r : Registry) (h : Heap) : Registry * Heap :=
  match events with
  | [] => (r, h)
  | _ =>
      let '(frames, r') := fanout_stamp events ts new_v4 r in
      (r', fanout_deliver frames r' h)
  end.

Definition close_named (name : string) (reason : ClosingReason) (r : Registry) (h : Heap)
    : Heap :=
  foldl (λ h '(_, s),
    if String.eqb (sub_name s) name then watch_send (sub_close_tx s) reason h else h)
    h (hash_iter (subs r)).

Definition close_all (reason : ClosingReason) (r : Registry) (h : Heap) : Heap :=
  foldl (λ h '(_, s), watch_send (sub_close_tx s) reason h) h (hash_iter (subs r)).

(** [*counts.entry(name).or_insert(0) += 1]. *)
Definition count_one (counts : gmap string Z) (name : string) : gmap string Z :=
  <[name := default 0 (counts !! name) + 1]> counts.

Definition active_connection_counts (r : Registry) : gmap string Z :=
  foldl (λ counts '(_, s), count_one counts (sub_name s)) ∅ (hash_iter (subs r)).

Definition snapshot (h : Heap) (s : Subscriber) : SubscriberSnapshot :=
  let q := queues h !! sub_queue s in
  MkSubscriberSnapshot (sub_name s) (sub_remote_addr s) (as_str <$> sub_patterns s)
    (from_option delivered 0 q) (from_option dropped 0 q).

Definition snapshots (r : Registry) (h : Heap) : list SubscriberSnapshot :=
  (λ kv, snapshot h kv.2) <$> hash_iter (subs r).
End subscribers.
Arguments Registry : clear implicits.

(** ** Specification *)

Section subscribers_spec.
Context {Db Table : Type} {R : Redb Db Table} {W : Wire StoredEvent}.
Context {M : Wire SubServerMsg} {O : HashOrder}.
Implicit Types r : Registry Db.
Implicit Types h : Heap.

(** Every subscriber has a queue of its own. *)
Definition distinct_queues r : Prop := ∀ i j s t,
  subs r !! i = Some s → subs r !! j = Some t → sub_queue s = sub_queue t → i = j.

(** The serialised frames a set of patterns selects from a batch, in order. *)
Definition texts_for (patterns : list Pattern) (frames : list StampedFrame) : list string :=
  omap (λ f, if any_matches patterns (sf_channel f)
             then to_option (to_string (event_msg f)) else None) frames.

(** *** Patterns *)

Lemma parse_patterns_Ok patterns ps :
  parse_patterns patterns = Ok ps ↔ Forall pattern_grammar patterns ∧ ps = MkPattern <$> patterns.
Proof.
  revert ps. induction patterns as [|p patterns IH]; intros ps; cbn [parse_patterns].
  { split; [intros [= <-]; by split|by intros [_ ->]]. }
  rewrite result_bind_Ok, Forall_cons. split.
  - intros ([] & _ & (q & Hq & (qs & Hqs & [= <-])%result_bind_Ok)%result_bind_Ok).
    apply map_err_Ok, Pattern_new_Ok in Hq as [Hp ->]. apply IH in Hqs as [Hall ->]. done.
  - intros [[Hp Hall] ->]. exists (). split.
    + apply map_err_Ok. by apply validate_pattern_Ok, pattern_grammar_tokens.
    + apply result_bind_Ok. exists (MkPattern p). split; [by apply map_err_Ok, Pattern_new_Ok|].
      apply result_bind_Ok. exists (MkPattern <$> patterns). split; [by apply IH|done].
Qed.

Lemma elem_of_push_new p ps parsed :
  p ∈ push_new_patterns ps parsed ↔ p ∈ ps ∨ p ∈ parsed.
Proof.
  revert ps. induction parsed as [|q parsed IH]; intros ps; cbn [push_new_patterns].
  { set_solver. }
  rewrite IH. case_bool; bool_to_prop; set_solver.
Qed.

Lemma push_new_NoDup ps parsed : NoDup ps → NoDup (push_new_patterns ps parsed).
Proof.
  revert ps. induction parsed as [|q parsed IH]; intros ps Hnd; cbn [push_new_patterns]; [done|].
  apply IH. case_bool; bool_to_prop; [done|]. apply NoDup_app. split_and!; [done| |].
  - intros x Hx ->%list_elem_of_singleton. done.
  - apply NoDup_singleton.
Qed.

Lemma push_new_present ps parsed :
  Forall (λ p, p ∈ ps) parsed → push_new_patterns ps parsed = ps.
Proof.
  induction 1 as [|p parsed Hp _ IH]; cbn [push_new_patterns]; [done|].
  by rewrite bool_decide_eq_true_2.
Qed.

Lemma any_matches_elem ps qs c :
  (∀ p, p ∈ ps ↔ p ∈ qs) → any_matches ps c = any_matches qs c.
Proof.
  intros Heq. apply eq_bool_prop_intro. rewrite !Is_true_true. unfold any_matches.
  rewrite !existsb_exists. setoid_rewrite <- list_elem_of_In. by setoid_rewrite Heq.
Qed.

Lemma any_matches_app ps qs c : any_matches (ps ++ qs) c = any_matches ps c || any_matches qs c.
Proof. apply existsb_app. Qed.

(** *** Fan-out *)

Lemma deliver_to_cons text c k s entries h :
  deliver_to text c ((k, s) :: entries) h =
    deliver_to text c entries
      (if any_matches (sub_patterns s) c then with_queue (sub_queue s) (push_event text) h else h).
Proof. done. Qed.

Lemma deliver_to_other text c entries h q :
  (∀ k s, (k, s) ∈ entries → sub_queue s ≠ q) →
  queues (deliver_to text c entries h) !! q = queues h !! q.
Proof.
  revert h. induction entries as [|[k s] entries IH]; intros h Hne; [done|].
  rewrite deliver_to_cons, IH by (intros; eapply Hne; by apply list_elem_of_further). case_bool; [|done].
  cbn [with_queue queues]. apply lookup_alter_ne. eapply Hne, list_elem_of_here.
Qed.

Lemma deliver_to_own text c entries h k s :
  (k, s) ∈ entries → NoDup (sub_queue ∘ snd <$> entries) →
  queues (deliver_to text c entries h) !! sub_queue s =
    (if any_matches (sub_patterns s) c then push_event text else λ q, q) <$>
      queues h !! sub_queue s.
Proof.
  revert h. induction entries as [|[k' s'] entries IH]; intros h Hin Hnd;
    [by apply not_elem_of_nil in Hin|].
  csimpl in Hnd. apply NoDup_cons in Hnd as [Hni Hnd]. rewrite deliver_to_cons.
  apply elem_of_cons in Hin as [[= <- <-]|Hin].
  - rewrite deliver_to_other.
    + case_bool; [|by rewrite option_fmap_id]. cbn [with_queue queues]. by rewrite lookup_alter_eq.
    + intros k1 s1 Hin Heq. apply Hni. rewrite <- Heq. apply list_elem_of_fmap. by exists (k1, s1).
  - rewrite IH by done. f_equal. case_bool; [|done].
    cbn [with_queue queues]. apply lookup_alter_ne. intros Heq. apply Hni. rewrite Heq.
    apply list_elem_of_fmap. by exists (k, s).
Qed.

Lemma distinct_queues_NoDup r :
  distinct_queues r → NoDup (sub_queue ∘ snd <$> hash_iter (subs r)).
Proof.
  intros Hd. apply NoDup_fmap_2_strong; [|eapply NoDup_fmap_1, NoDup_hash_iter].
  intros [i s] [j t] Hi%elem_of_hash_iter Hj%elem_of_hash_iter Heq. cbn in Heq.
  assert (i = j) as -> by eauto. by simplify_eq.
Qed.

Lemma deliver_to_watches text c entries h : watches (deliver_to text c entries h) = watches h.
Proof.
  revert h. induction entries as [|[k s] entries IH]; intros h; [done|].
  rewrite deliver_to_cons, IH. by case_bool.
Qed.

Lemma fanout_deliver_own frames r h id s :
  distinct_queues r → subs r !! id = Some s →
  queues (fanout_deliver frames r h) !! sub_queue s =
    (λ q, foldl (λ q t, push_event t q) q (texts_for (sub_patterns s) frames)) <$>
      queues h !! sub_queue s.
Proof.
  intros Hd Hs. revert h. induction frames as [|f frames IH]; intros h.
  { by rewrite option_fmap_id. }
  cbn [fanout_deliver]. unfold texts_for. cbn [omap list_omap].
  destruct (to_string (event_msg f)) as [t|e]; cbn [to_option].
  - rewrite IH, (deliver_to_own _ _ _ _ id);
      [|by apply elem_of_hash_iter|by apply distinct_queues_NoDup].
    rewrite <- option_fmap_compose. apply option_fmap_ext. intros q. cbn.
    by case_bool.
  - rewrite IH. by case_bool.
Qed.

Lemma fanout_deliver_other frames r h q :
  (∀ i s, subs r !! i = Some s → sub_queue s ≠ q) →
  queues (fanout_deliver frames r h) !! q = queues h !! q.
Proof.
  intros Hne. revert h. induction frames as [|f frames IH]; intros h; cbn [fanout_deliver]; [done|].
  destruct (to_string _) as [t|e]; [|done]. rewrite IH. apply deliver_to_other.
  intros k s Hin%elem_of_hash_iter. eauto.
Qed.

Lemma fanout_deliver_watches frames r h : watches (fanout_deliver frames r h) = watches h.
Proof.
  revert h. induction frames as [|f frames IH]; intros h; cbn [fanout_deliver]; [done|].
  destruct (to_string _); [|done]. by rewrite IH, deliver_to_watches.
Qed.

(** *** Closing *)

(** *** Stamping *)

Definition frame_carries (ts : Z) (e : Event) (f : StampedFrame) : Prop :=
  sf_channel f = channel e ∧ sf_payload_b64 f = payload_b64 e ∧ sf_ts_ms f = ts.

Lemma stamp_in_memory_carries ts new_v4 i seq events :
  Forall2 (frame_carries ts) events (stamp_in_memory ts new_v4 i seq events).1.
Proof.
  revert i seq. induction events as [|e events IH]; intros i seq; cbn [stamp_in_memory]; [constructor|].
  specialize (IH (S i) (wrap64 (seq + 1))).
  destruct (stamp_in_memory _ _ _ _ events). by constructor.
Qed.

(** Persisted or not, a batch becomes one frame an event. *)
Lemma fanout_stamp_carries events ts new_v4 (r : Registry Db) :
  Forall2 (frame_carries ts) events (fanout_stamp events ts new_v4 r).1 ∧
  subs (fanout_stamp events ts new_v4 r).2 = subs r.
Proof.
  pose proof (stamp_in_memory_carries ts new_v4 0 (mem_seq r) events) as Hmem. unfold fanout_stamp.
  destruct (stamp_in_memory _ _ _ _ _) as [frames seq']. destruct (log r) as [l|]; [|done].
  destruct (append events ts new_v4 l) as [[stamped|e] l'] eqn:Happ; [|done].
  split; [|done]. cbn [fst]. apply Forall2_fmap_r. destruct events as [|e events].
  { injection Happ as <- _. constructor. }
  cbn [append] in Happ. unfold append_blocking in Happ.
  destruct (stamp_events _ _ _ _ _) as [rows|] eqn:Hst; [|done].
  apply stamp_events_channels in Hst. by case_match; simplify_eq.
Qed.

Lemma close_named_watches name reason entries h w :
  watches (foldl (λ h '(_, s),
    if String.eqb (sub_name s) name then watch_send (sub_close_tx s) reason h else h) h entries)
    !! w =
  if existsb (λ kv : Z * Subscriber,
       String.eqb (sub_name kv.2) name && bool_decide (sub_close_tx kv.2 = w)) entries
  then (λ _, Some reason) <$> watches h !! w else watches h !! w.
Proof.
  revert h. induction entries as [|[k s] entries IH]; intros h; [done|].
  cbn [foldl existsb snd]. rewrite IH. destruct (String.eqb (sub_name s) name); [|done].
  cbn [andb watch_send watches]. destruct (decide (sub_close_tx s = w)) as [->|Hne].
  - rewrite bool_decide_eq_true_2, lookup_alter_eq by done. cbn [orb].
    case_bool; [|done]. by destruct (watches h !! w).
  - rewrite bool_decide_eq_false_2, lookup_alter_ne by done. done.
Qed.

Lemma close_all_watches reason entries h w :
  watches (foldl (λ h '(_, s), watch_send (sub_close_tx s) reason h) h entries) !! w =
  if existsb (λ kv : Z * Subscriber, bool_decide (sub_close_tx kv.2 = w)) entries
  then (λ _, Some reason) <$> watches h !! w else watches h !! w.
Proof.
  revert h. induction entries as [|[k s] entries IH]; intros h; [done|].
  cbn [foldl existsb snd]. rewrite IH.
  cbn [watch_send watches]. destruct (decide (sub_close_tx s = w)) as [->|Hne].
  - rewrite bool_decide_eq_true_2, lookup_alter_eq by done. cbn [orb].
    case_bool; [|done]. by destruct (watches h !! w).
  - rewrite bool_decide_eq_false_2, lookup_alter_ne by done. done.
Qed.

Lemma close_named_queues name reason r h : queues (close_named name reason r h) = queues h.
Proof.
  unfold close_named. generalize (hash_iter (subs r)). intros entries. revert h.
  induction entries as [|[k s] entries IH]; intros h; cbn [foldl]; [done|].
  rewrite IH. by case_bool.
Qed.

(** A watch of a subscriber of the given name. *)
Definition named_watch r (name : string) (w : WatchRef) : Prop :=
  ∃ i s, subs r !! i = Some s ∧ sub_name s = name ∧ sub_close_tx s = w.

Lemma existsb_hash_iter (f : Subscriber → bool) r :
  existsb (λ kv, f kv.2) (hash_iter (subs r)) = true ↔
  ∃ i s, subs r !! i = Some s ∧ f s = true.
Proof.
  rewrite existsb_exists. setoid_rewrite <- list_elem_of_In. split.
  - intros ([i s] & Hin%elem_of_hash_iter & Hf). eauto.
  - intros (i & s & Hin & Hf). exists (i, s). by rewrite elem_of_hash_iter.
Qed.

#[global] Instance named_watch_dec r name w : Decision (named_watch r name w).
Proof.
  pose proof (existsb_hash_iter (λ s, String.eqb (sub_name s) name &&
    bool_decide (sub_close_tx s = w)) r) as Hex. cbn beta in Hex.
  destruct (existsb _ _); [left|right].
  - destruct (proj1 Hex eq_refl) as (i & s & Hl & Hb). bool_to_prop.
    exists i, s. by rewrite <- String.eqb_eq.
  - intros (i & s & Hl & Hn & Hw). discriminate (proj2 Hex). exists i, s. split; [done|].
    apply andb_true_iff. by rewrite String.eqb_eq, bool_decide_eq_true.
Defined.

Lemma close_named_spec name reason r h w :
  (named_watch r name w →
    watches (close_named name reason r h) !! w = (λ _, Some reason) <$> watches h !! w) ∧
  (¬ named_watch r name w → watches (close_named name reason r h) !! w = watches h !! w) ∧
  queues (close_named name reason r h) = queues h.
Proof.
  unfold close_named at 1 2. rewrite close_named_watches.
  pose proof (existsb_hash_iter (λ s, String.eqb (sub_name s) name &&
    bool_decide (sub_close_tx s = w)) r) as Hex. cbn beta in Hex.
  assert (existsb (λ kv : Z * Subscriber, String.eqb (sub_name kv.2) name &&
    bool_decide (sub_close_tx kv.2 = w)) (hash_iter (subs r)) = true ↔ named_watch r name w)
    as Hiff.
  { rewrite Hex. unfold named_watch. setoid_rewrite andb_true_iff.
    setoid_rewrite String.eqb_eq. by setoid_rewrite bool_decide_eq_true. }
  split_and!; [| |apply close_named_queues]; intros Hw.
  - by rewrite (proj2 Hiff Hw).
  - case_bool; [|done]. by destruct (Hw (proj1 Hiff eq_refl)).
Qed.

(** *** Counting *)

Lemma counts_fold name entries counts :
  foldl (λ counts '(_, s), count_one counts (sub_name s)) counts entries !! name =
  let n := len (filter (λ kv : Z * Subscriber, sub_name kv.2 = name) entries) in
  if decide (n = 0) then counts !! name else Some (default 0 (counts !! name) + n).
Proof.
  revert counts. induction entries as [|[k s] entries IH]; intros counts; [done|].
  cbn [foldl]. rewrite IH, filter_cons. cbn [snd]. cbv zeta. unfold count_one.
  set (n := len (filter _ entries)). assert (0 ≤ n) by apply len_nonneg.
  destruct (decide (sub_name s = name)) as [<-|Hs].
  - rewrite lookup_insert_eq, len_cons. fold n. rewrite (decide_False (P := 1 + n = 0)) by lia.
    case_decide; f_equal; simpl; lia.
  - by rewrite lookup_insert_ne by done.
Qed.

(** *** Unsubscribing *)

Lemma push_new_spec ps parsed :
  ∃ added, push_new_patterns ps parsed = ps ++ added ∧
    Forall (λ p, p ∈ parsed ∧ p ∉ ps) added.
Proof.
  revert ps. induction parsed as [|q parsed IH]; intros ps; cbn [push_new_patterns].
  { exists []. by rewrite app_nil_r. }
  case_bool; bool_to_prop.
  - destruct (IH ps) as (added & -> & Hall). exists added. split; [done|].
    eapply Forall_impl; [exact Hall|]. simpl. set_solver.
  - destruct (IH (ps ++ [q])) as (added & -> & Hall). exists (q :: added).
    rewrite <- app_assoc. split; [done|]. constructor; [set_solver|].
    eapply Forall_impl; [exact Hall|]. simpl. set_solver.
Qed.
End subscribers_spec.

(** ** Theorems *)

Section theorems.
Context {Db Table : Type} {R : Redb Db Table} {L : RedbLaws Db Table}.
Context {W : Wire StoredEvent} {WL : WireLaws StoredEvent}.
Context {M : Wire SubServerMsg} {O : HashOrder}.
Implicit Types r : Registry Db.

(** A subscribe is all or nothing: it fails, changing nothing, exactly when
    some pattern is not in the grammar; otherwise the connection receives what
    its old or the new patterns match, with no pattern twice, and repeating the
    subscribe changes nothing. *)
Theorem subscribe_exact id patterns r s res r' :
  subs r !! id = Some s → NoDup (sub_patterns s) → subscribe id patterns r = (res, r') →
  match res with
  | Err _ => r' = r ∧ ¬ Forall pattern_grammar patterns
  | Ok _ => Forall pattern_grammar patterns ∧ ∃ s', subs r' = <[id := s']> (subs r) ∧
      sub_queue s' = sub_queue s ∧ sub_name s' = sub_name s ∧ NoDup (sub_patterns s') ∧
      (∀ c, any_matches (sub_patterns s') c =
            any_matches (sub_patterns s) c || any_matches (MkPattern <$> patterns) c) ∧
      subscribe id patterns r' = (Ok (), r')
  end.
Proof.
  intros Hs Hnd. unfold subscribe.
  destruct (parse_patterns patterns) as [parsed|e] eqn:Hp; intros [= <- <-].
  - pose proof Hp as [Hall ->]%parse_patterns_Ok. split; [done|].
    set (f := map_patterns _). exists (f s). cbn [set_subs subs].
    rewrite (alter_alt_Some _ _ _ _ Hs). split_and!; try done.
    + by apply push_new_NoDup.
    + intros c. rewrite <- any_matches_app. apply any_matches_elem. intros p.
      cbn [f map_patterns sub_patterns]. by rewrite elem_of_push_new, elem_of_app.
    + rewrite alter_insert_eq. assert (f (f s) = f s) as ->; [|done].
      unfold f, map_patterns. cbn [sub_patterns sub_name sub_remote_addr sub_queue
        sub_close_tx]. f_equal. apply push_new_present, Forall_forall. intros p Hin.
      apply elem_of_push_new. by right.
  - split; [done|]. intros Hall.
    by rewrite (proj2 (parse_patterns_Ok patterns _) (conj Hall eq_refl)) in Hp.
Qed.

(** Unsubscribing the patterns a subscribe added to a connection that had
    none of them restores the registry. *)
Theorem unsubscribe_undoes_subscribe id patterns r s :
  subs r !! id = Some s → Forall pattern_grammar patterns →
  Forall (λ p, as_str p ∉ patterns) (sub_patterns s) →
  unsubscribe id patterns (subscribe id patterns r).2 = r.
Proof.
  intros Hs Hall Hdisj. unfold subscribe, unsubscribe.
  rewrite (proj2 (parse_patterns_Ok patterns _) (conj Hall eq_refl)). cbn [snd set_subs subs].
  rewrite (alter_alt_Some _ _ _ _ Hs), alter_insert_eq.
  unfold set_subs. cbn [subs next_id mem_seq log persist_errors].
  rewrite insert_id; [by destruct r|]. rewrite Hs. f_equal. destruct s as [n a ps q c].
  unfold map_patterns. cbn [sub_patterns sub_name sub_remote_addr sub_queue sub_close_tx] in *.
  f_equal. destruct (push_new_spec ps (MkPattern <$> patterns)) as (added & -> & Hadded).
  assert (∀ p, existsb (λ q, String.eqb q (as_str p)) patterns = true ↔ as_str p ∈ patterns)
    as Hin.
  { intros p. rewrite existsb_exists. setoid_rewrite <- list_elem_of_In.
    setoid_rewrite String.eqb_eq. split; [by intros (? & ? & <-)|eauto]. }
  rewrite filter_app, (filter_all _ ps), (filter_none _ added); [by rewrite app_nil_r| |].
  - eapply Forall_impl; [exact Hadded|]. intros p [Hp _] Hn. apply Hn.
    apply Is_true_true, Hin. by apply list_elem_of_fmap in Hp as (q' & -> & ?).
  - eapply Forall_impl; [exact Hdisj|]. intros p Hp Hn. apply Hp.
    by apply Hin, Is_true_true.
Qed.

(** C19: one fan-out delivery pushes to each subscriber's queue exactly the
    frames of the batch its patterns match, in the order of the batch, whatever
    the iteration order of the registry, and touches no other queue or cell. *)
Theorem fanout_delivers_exactly frames r h :
  distinct_queues r →
  (∀ id s, subs r !! id = Some s →
    queues (fanout_deliver frames r h) !! sub_queue s =
      (λ q, foldl (λ q t, push_event t q) q (texts_for (sub_patterns s) frames)) <$>
        queues h !! sub_queue s) ∧
  (∀ q, (∀ i s, subs r !! i = Some s → sub_queue s ≠ q) →
    queues (fanout_deliver frames r h) !! q = queues h !! q) ∧
  watches (fanout_deliver frames r h) = watches h.
Proof.
  intros Hd. split; [intros id s Hs; by apply (fanout_deliver_own _ _ _ id)|].
  split; [apply fanout_deliver_other|apply fanout_deliver_watches].
Qed.

(** C20: persist before deliver: when the durable log takes a batch, every frame
    delivered is an event the log now holds, with the same identity, after all
    those it held; when it refuses, the log is unchanged and the failure is
    counted. *)
Theorem fanout_persists_what_it_delivers events ts new_v4 r l evs frames r' :
  log r = Some l → log_repr l evs → head l + len events < 2 ^ 64 →
  fanout_stamp events ts new_v4 r = (frames, r') →
  (∀ l', log r' = Some l' → is_u64 (values_bytes (db_rows (db l')).*2)) →
  subs r' = subs r ∧
  ((∃ l' stamped, log r' = Some l' ∧ log_repr l' (evs ++ stamped) ∧
      frames = frame_of <$> stamped ∧
      stamped = stamp_batch (head l) ts new_v4 0 events ∧
      persist_errors r' = persist_errors r) ∨
   (log r' = Some l ∧ persist_errors r' = wrap64 (persist_errors r + 1))).
Proof.
  intros Hlog Hl Hlt. unfold fanout_stamp. rewrite Hlog.
  destruct (append events ts new_v4 l) as [[stamped|e] l'] eqn:Happ.
  - intros [= <- <-] Hfit. split; [done|left]. specialize (Hfit l' eq_refl).
    destruct (append_spec _ _ _ _ _ _ _ Hl Hlt Happ Hfit) as [Hl' Hst].
    exists l', stamped. done.
  - destruct (stamp_in_memory _ _ _ _ _) as [fs seq'] eqn:Hmem.
    intros [= <- <-] Hfit. split; [done|right]. cbn [log persist_errors] in *.
    specialize (Hfit l' eq_refl).
    by rewrite (append_spec _ _ _ _ _ _ _ Hl Hlt Happ Hfit).
Qed.

(** The connection counts are the numbers of connections per name: a name
    with no connection is absent. *)
Theorem active_connection_counts_exact r name :
  let n := Z.of_nat (size (filter (λ kv : Z * Subscriber, sub_name kv.2 = name) (subs r))) in
  active_connection_counts r !! name = if decide (n = 0) then None else Some n.
Proof.
  cbv zeta. unfold active_connection_counts. rewrite counts_fold, lookup_empty. cbv zeta.
  unfold len. pose proof (length_filter_hash_iter (λ s, sub_name s = name) (subs r)) as Hlen.
  cbn beta in Hlen. by rewrite Hlen.
Qed.
End theorems.

(** ** Witnesses *)

Section witnesses.
#[local] Existing Instance MemDb.mem_redb.
#[local] Existing Instance MemDb.mem_redb_laws.
#[local] Existing Instance BitCodec.wire.
#[local] Existing Instance BitCodec.wire_laws.
#[local] Existing Instance some_order.

Definition sub_a : Subscriber := MkSubscriber "alice" None [MkPattern "fake.>"] 10 20.
Definition sub_b : Subscriber := MkSubscriber "bob" None [MkPattern "fake.b"] 11 21.
Definition two_subs : Registry (list (Z * string)) :=
  MkRegistry (<[1 := sub_a]> (<[2 := sub_b]> ∅)) 3 0 None 0.
Definition two_queues : Heap :=
  MkHeap (<[10 := OutboundQueue_new 4 4000]> (<[11 := OutboundQueue_new 4 4000]> ∅))
    (<[20 := None]> (<[21 := None]> ∅)).
Definition durable_subs : Registry (list (Z * string)) :=
  MkRegistry (subs two_subs) 3 0 (Some log_of_three) 0.

Lemma two_subs_lookup i s :
  subs two_subs !! i = Some s → i = 1 ∧ s = sub_a ∨ i = 2 ∧ s = sub_b.
Proof.
  cbn [two_subs subs]. rewrite !lookup_insert, lookup_empty.
  repeat case_decide; intros; simplify_eq; auto.
Qed.

Lemma two_subs_distinct : distinct_queues two_subs.
Proof.
  intros i j s t Hi Hj. apply two_subs_lookup in Hi, Hj.
  destruct Hi as [[-> ->]|[-> ->]], Hj as [[-> ->]|[-> ->]]; done.
Qed.

Lemma subscribe_exact_witness :
  let r' := (subscribe 2 ["fake.b"; "other.*"] two_subs).2 in
  ∃ s', subs r' = <[2 := s']> (subs two_subs) ∧ NoDup (sub_patterns s') ∧
    subscribe 2 ["fake.b"; "other.*"] r' = (Ok (), r').
Proof.
  assert (subscribe 2 ["fake.b"; "other.*"] two_subs =
    (Ok (), (subscribe 2 ["fake.b"; "other.*"] two_subs).2)) as Hrun by reflexivity.
  destruct (subscribe_exact 2 ["fake.b"; "other.*"] two_subs sub_b (Ok ()) _ eq_refl
    (NoDup_singleton _) Hrun) as (_ & s' & H1 & _ & _ & H2 & _ & H3).
  exists s'. split; [exact H1|]. split; [exact H2|exact H3].
Defined.

Lemma unsubscribe_undoes_subscribe_witness :
  unsubscribe 2 ["other.*"] (subscribe 2 ["other.*"] two_subs).2 = two_subs.
Proof.
  apply (unsubscribe_undoes_subscribe 2 ["other.*"] two_subs sub_b).
  - reflexivity.
  - constructor; [|constructor]. apply pattern_grammar_tokens, validate_pattern_Ok.
    vm_compute. reflexivity.
  - constructor; [|constructor]. apply not_elem_of_cons. split; [discriminate|apply not_elem_of_nil].
Defined.

Definition demo_frames : list StampedFrame :=
  [MkStampedFrame 1 100 5 "fake.a" "eA=="; MkStampedFrame 2 101 5 "fake.b" "eQ=="].

Lemma fanout_delivers_exactly_witness :
  queues (fanout_deliver demo_frames two_subs two_queues) !! 11 =
    Some (push_event (unwrap_or EmptyString (to_string (Sub_Event 101 2 5 "fake.b" "eQ==")))
            (OutboundQueue_new 4 4000)).
Proof.
  destruct (fanout_delivers_exactly demo_frames two_subs two_queues two_subs_distinct)
    as [Hown _].
  etransitivity; [exact (Hown 2 sub_b eq_refl)|]. vm_compute. reflexivity.
Defined.

Lemma fanout_persists_what_it_delivers_witness :
  let '(frames, r') := fanout_stamp [sample_event] 2000 sample_uuid durable_subs in
  sf_seq <$> frames = [4] ∧
  (∃ l' stamped, log r' = Some l' ∧ log_repr l' (three_events ++ stamped) ∧
    frames = frame_of <$> stamped).
Proof.
  destruct (fanout_stamp [sample_event] 2000 sample_uuid durable_subs) as [frames r'] eqn:Hrun.
  assert (is_ok (append [sample_event] 2000 sample_uuid log_of_three).1 = true) as Hok
    by (vm_compute; reflexivity).
  assert (frames = (fanout_stamp [sample_event] 2000 sample_uuid durable_subs).1 ∧
    r' = (fanout_stamp [sample_event] 2000 sample_uuid durable_subs).2) as [Hf Hr]
    by (rewrite Hrun; split; reflexivity).
  split; [rewrite Hf; vm_compute; reflexivity|].
  destruct (fanout_persists_what_it_delivers [sample_event] 2000 sample_uuid durable_subs
    log_of_three three_events frames r' eq_refl log_of_three_repr
    ltac:(vm_compute; reflexivity) Hrun) as [_ [(l' & stamped & H1 & H2 & H3 & _)|[H1 H2]]].
  - intros l' Hl'. assert (Hfit : forallb (λ l, bool_decide (0 ≤ values_bytes (db_rows (db l)).*2 < 2 ^ 64))
      (option_list (log (fanout_stamp [sample_event] 2000 sample_uuid durable_subs).2)) = true)
      by (vm_compute; reflexivity).
    rewrite <- Hr, Hl' in Hfit. cbn [option_list forallb] in Hfit.
    apply andb_true_iff in Hfit as [Hfit _]. by apply bool_decide_eq_true in Hfit.
  - exists l', stamped. split; [exact H1|]. split; [exact H2|exact H3].
  - exfalso. rewrite Hr in H2. vm_compute in H2. discriminate.
Defined.
End witnesses.
