(* ===== verification/SubscriberWs.v ===== *)
(** * SubscriberWs: the subscriber connection task

    [crates/whdr-server/src/subscriber_ws.rs].  The bearer handshake, the
    handling of one client frame (with the replay window of a resuming
    subscribe) and one iteration of the connection's [select!] loop.  The sink
    is the list of messages sent on an open transport; a send on a closed one is
    the error the code checks for. *)

From S2P Require Import Prelude.
From S2P Require Import Text.
From S2P Require Import Channel.
From S2P Require Import Messages.
From S2P Require Import OutboundQueue.
From S2P Require Import Config.
From S2P Require Import DeliveryLog.
From S2P Require Import Subscribers.
From Stdlib Require Import Ascii.

Local Open Scope Z_scope.

(** ** Definitions *)

(** [axum::extract::ws::Message]. *)
Inductive Message : Type :=
  | MText (text : string)
  | MBinary (payload : string)
  | MPing (payload : string)
  | MPong (payload : string)
  | MClose.

(** The write half of the socket. *)
Record Sink : Type := MkSink { is_open : bool; sent : list Message }.

(** [sink.send(msg).await]: whether it failed, and the sink after it. *)
Definition send (m : Message) (k : Sink) : bool * Sink :=
  if is_open k then (false, MkSink true (sent k ++ [m])) else (true, k).

(** The [for frame in replay_frames] loop: stop at the first failed send. *)
Fixpoint send_all (frames : list string) (k : Sink) : bool * Sink :=
  match frames with
  | [] => (false, k)
  | f :: rest =>
      let '(failed, k') := send (MText f) k in
      if failed then (true, k') else send_all rest k'
  end.

(** [subscribe_handler]: the bearer token of the [Authorization] header, resolved
    to a subscriber name; [None] is [401]. *)
Definition bearer (authorization : option string) : option string :=
  value ← authorization; strip_prefix "Bearer " value.

Definition subscribe_handler (authenticate : string → option string)
    (authorization : option string) : option string :=
  token ← bearer authorization; authenticate token.

Section subscriber_ws.
Context {Db Table : Type} {R : Redb Db Table} {W : Wire StoredEvent}.
Context {M : Wire SubServerMsg} {C : Wire SubClientMsg} {O : HashOrder}.

Definition encode (msg : SubServerMsg) : string := unwrap_or EmptyString (to_string msg).

Definition push_ctl (msg : SubServerMsg) (q : QueueRef) (h : Heap) : Heap :=
  with_queue q (push_control msg) h.

(** The [for row in log.read_after(..)] loop: stop past the head snapshot. *)
Fixpoint replay_rows (head : Z) (rows : list StampedEvent) : list string :=
  match rows with
  | [] => []
  | row :: rest =>
      if head <? seq row then []
      else encode (Sub_Event (id row) (seq row) (ts_ms row) (st_channel row) (st_payload_b64 row))
           :: replay_rows head rest
  end.

(** The replay window of a subscribe.  The task reads the floor, then the
    head, then the rows, with no lock between: the three reads see the log at
    three times. *)
Definition replay_window (at_floor at_head at_read : Shared Db) (patterns : list string)
    (after : Z) : result string (list string) :=
  let parsed := omap (λ p, to_option (Pattern_new p)) patterns in
  let fl := floor at_floor in
  let gap := negb (fl =? 0) && (wrap64 (after + 1) <? fl) in
  let effective_after := if gap then fl - 1 else after in
  let hd := head at_head in
  rows ← read_after effective_after (Some parsed) at_read;
  Ok ([encode (Sub_Ok "subscribe")] ++
      (if gap then [encode (Sub_ReplayGap after fl)] else []) ++
      replay_rows hd rows ++ [encode (Sub_Replayed hd)]).

(** [handle_subscriber_text]: the frames to stream directly.  [to_head] and
    [to_read] are what other tasks do to the log between the reads of the
    replay window. *)
Definition handle_subscriber_text (id : Z) (text : string) (q : QueueRef)
    (to_head to_read : Shared Db → Shared Db) (r : Registry Db) (h : Heap)
    : result string (list string) * Registry Db * Heap :=
  match from_str text with
  | Err e => (Err e, r, h)
  | Ok (Subscribe patterns replay) =>
      match subscribe id patterns r with
      | (Err msg, r') => (Ok [], r', push_ctl (Sub_Error "subscribe" msg) q h)
      | (Ok _, r') =>
          match replay with
          | None => (Ok [], r', push_ctl (Sub_Ok "subscribe") q h)
          | Some rq =>
              match log r' with
              | None =>
                  (Ok [], r',
                   push_ctl (Sub_Error "replay" "durable delivery is not enabled") q
                     (push_ctl (Sub_Ok "subscribe") q h))
              | Some l =>
                  let l_head := to_head l in
                  let l_read := to_read l_head in
                  (replay_window l l_head l_read patterns (after_seq rq),
                   MkRegistry (subs r') (next_id r') (mem_seq r') (Some l_read)
                     (persist_errors r'), h)
              end
          end
      end
  | Ok (Unsubscribe patterns) =>
      (Ok [], unsubscribe id patterns r, push_ctl (Sub_Ok "unsubscribe") q h)
  | Ok Ping => (Ok [], r, push_ctl Sub_Pong q h)
  end.

(** *** The connection loop *)

(** What a branch of [select!] completes with.  Between the pop of a frame and
    the read of the lag counter other tasks may act on the heap. *)
Inductive WsEvent : Type :=
  | EvTick
  | EvPop (between : Heap → Heap)
  | EvCloseChanged (sender_alive : bool)
  | EvIncoming (incoming : option (result () Message)).

Record WsState : Type := MkWsState {
  ws_registry : Registry Db;
  ws_heap : Heap;
  ws_sink : Sink;
  awaiting_pong : bool
}.

Definition set_sink (k : Sink) (s : WsState) : WsState :=
  MkWsState (ws_registry s) (ws_heap s) k (awaiting_pong s).

(** The body of the [frame = queue.pop()] branch. *)
Definition send_frame (q : QueueRef) (frame : Frame) (s : WsState) : bool * WsState :=
  let '(lag, h) :=
    match queues (ws_heap s) !! q with
    | Some queue =>
        let '(lag, queue') := take_pending_lag queue in
        (lag, with_queue q (λ _, queue') (ws_heap s))
    | None => (None, ws_heap s)
    end in
  let s := MkWsState (ws_registry s) h (ws_sink s) (awaiting_pong s) in
  let '(failed, k) :=
    match lag with
    | Some dropped => send (MText (encode (Sub_Lagged dropped))) (ws_sink s)
    | None => (false, ws_sink s)
    end in
  if failed then (true, set_sink k s) else
  let '(failed, k) := send (MText (text frame)) k in
  if failed then (true, set_sink k s) else (closing frame, set_sink k s).

(** One iteration: whether the loop breaks, and the state after it. *)
Definition ws_step (id : Z) (q : QueueRef) (w : WatchRef)
    (to_head to_read : Shared Db → Shared Db) (ev : WsEvent) (s : WsState) : bool * WsState :=
  match ev with
  | EvTick =>
      if awaiting_pong s then (true, s) else
      let '(failed, k) := send (MPing EmptyString) (ws_sink s) in
      if failed then (true, set_sink k s)
      else (false, MkWsState (ws_registry s) (ws_heap s) k true)
  | EvPop between =>
      match queues (ws_heap s) !! q with
      | None => (false, s)
      | Some queue =>
          match pop queue with
          | (None, _) => (false, s)
          | (Some frame, queue') =>
              send_frame q frame
                (MkWsState (ws_registry s) (between (with_queue q (λ _, queue') (ws_heap s)))
                   (ws_sink s) (awaiting_pong s))
          end
      end
  | EvCloseChanged false => (true, s)
  | EvCloseChanged true =>
      match watches (ws_heap s) !! w with
      | Some (Some reason) =>
          match to_string (Sub_Closing reason) with
          | Ok text => (true, set_sink (send (MText text) (ws_sink s)).2 s)
          | Err _ => (true, s)
          end
      | _ => (false, s)
      end
  | EvIncoming incoming =>
      match incoming with
      | Some (Ok (MText text)) =>
          match handle_subscriber_text id text q to_head to_read (ws_registry s) (ws_heap s) with
          | (Ok frames, r, h) =>
              let '(failed, k) := send_all frames (ws_sink s) in
              (failed, MkWsState r h k (awaiting_pong s))
          | (Err _, r, h) => (true, MkWsState r h (ws_sink s) (awaiting_pong s))
          end
      | Some (Ok (MPing payload)) =>
          (false, set_sink (send (MPong payload) (ws_sink s)).2 s)
      | Some (Ok (MPong _)) =>
          (false, MkWsState (ws_registry s) (ws_heap s) (ws_sink s) false)
      | Some (Ok MClose) | None => (true, s)
      | Some (Ok (MBinary _)) => (false, s)
      | Some (Err _) => (true, s)
      end
  end.

(** The loop of [subscriber_socket].  Each entry of [events] is what other tasks
    do to the registry and the heap before the branch that completes next. *)
Fixpoint ws_loop (id : Z) (q : QueueRef) (w : WatchRef)
    (to_head to_read : Shared Db → Shared Db)
    (events : list ((Registry Db * Heap → Registry Db * Heap) * WsEvent)) (s : WsState)
    : bool * WsState :=
  match events with
  | [] => (false, s)
  | (others, ev) :: rest =>
      let '(r, h) := others (ws_registry s, ws_heap s) in
      let '(stop, s') :=
        ws_step id q w to_head to_read ev (MkWsState r h (ws_sink s) (awaiting_pong s)) in
      if stop then (true, s') else ws_loop id q w to_head to_read rest s'
  end.

(** The prologue of [subscriber_socket]: the queue, the close cell, the
    registration and the greeting; and its epilogue. *)
Definition ws_open (name : string) (cfg : LimitsConfig) (q : QueueRef) (w : WatchRef)
    (r : Registry Db) (h : Heap) : Z * WsState :=
  let h' := MkHeap (<[q := OutboundQueue_new (sub_queue_len cfg) (sub_queue_bytes cfg)]> (queues h))
              (<[w := None]> (watches h)) in
  let '(id, r') := insert_subscriber (MkSubscriberRegistration name None q w) r in
  (id, MkWsState r' h' (MkSink true [MText (encode (Sub_Welcome name))]) false).

Definition ws_close (id : Z) (s : WsState) : WsState :=
  MkWsState (remove_subscriber id (ws_registry s)) (ws_heap s) (ws_sink s) (awaiting_pong s).
End subscriber_ws.

(** ** Specification: replay *)

Section replay_spec.
Context {Db Table : Type} {R : Redb Db Table} {L : RedbLaws Db Table}.
Context {W : Wire StoredEvent} {WL : WireLaws StoredEvent}.
Context {M : Wire SubServerMsg} {C : Wire SubClientMsg} {O : HashOrder}.

Definition event_text (e : StampedEvent) : string :=
  encode (Sub_Event (id e) (seq e) (ts_ms e) (st_channel e) (st_payload_b64 e)).

Lemma replay_rows_app head es fs :
  Forall (λ e, seq e ≤ head) es → Forall (λ e, head < seq e) fs →
  replay_rows head (es ++ fs) = event_text <$> es.
Proof.
  intros Hes Hfs. induction Hes as [|e es He _ IH]; cbn [replay_rows app].
  - destruct Hfs as [|f fs Hf]; [done|]. cbn [replay_rows]. by rewrite (proj2 (Z.ltb_lt _ _)).
  - rewrite (proj2 (Z.ltb_ge _ _)) by done. by rewrite IH.
Qed.

(** [s'] is [s] after appends of the events [more]. *)
Definition appended (s s' : Shared Db) (evs more : list StampedEvent) : Prop :=
  log_repr s evs ∧ log_repr s' (evs ++ more) ∧ seq <$> more = seqZ (head s + 1) (len more).

Lemma appended_after s s' evs more :
  appended s s' evs more → Forall (λ e, head s < seq e) more.
Proof.
  intros (_ & _ & Hseq). assert (Forall (λ k, head s < k) (seq <$> more)) as Hall.
  { rewrite Hseq. apply Forall_seqZ. lia. }
  apply (Forall_fmap seq) in Hall. exact Hall.
Qed.

Lemma appended_refl s evs : log_repr s evs → appended s s evs [].
Proof. intros Hs. unfold appended. rewrite app_nil_r. split; [done|]. by split. Qed.

Definition parsed_patterns (patterns : list string) : list Pattern :=
  omap (λ p, to_option (Pattern_new p)) patterns.

Definition gap_expected (s : Shared Db) (evs : list StampedEvent) (after : Z) : Prop :=
  evs ≠ [] ∧ after + 1 < floor s.
#[global] Instance gap_expected_dec s evs after : Decision (gap_expected s evs after).
Proof. unfold gap_expected. apply _. Defined.

Lemma filter_wanted_ext after after' ps evs :
  Forall (λ e, after < seq e ↔ after' < seq e) evs →
  filter (λ e, wanted after ps e) evs = filter (λ e, wanted after' ps e) evs.
Proof.
  induction 1 as [|e evs He _ IH]; [done|]. rewrite !filter_cons, IH.
  assert (wanted after ps e = wanted after' ps e) as ->; [|done].
  unfold wanted. f_equal. apply eq_bool_prop_intro. by rewrite !Is_true_true, !Z.ltb_lt.
Qed.

Lemma replay_window_spec l0 l1 l2 evs a b patterns after frames :
  appended l0 l1 evs a → appended l1 l2 (evs ++ a) b → 0 ≤ after < u64_max →
  replay_window l0 l1 l2 patterns after = Ok frames →
  frames = [encode (Sub_Ok "subscribe")] ++
    (if decide (gap_expected l0 evs after) then [encode (Sub_ReplayGap after (floor l0))] else []) ++
    (event_text <$> filter (λ e, wanted after (Some (parsed_patterns patterns)) e) (evs ++ a)) ++
    [encode (Sub_Replayed (head l1))].
Proof.
  intros H01 H12 Hafter. unfold replay_window. fold (parsed_patterns patterns).
  pose proof H01 as (H0 & H1 & _). pose proof H12 as (_ & H2 & _).
  rewrite wrap64_small by (unfold is_u64, u64_max in *; lia).
  set (gap := negb (floor l0 =? 0) && (after + 1 <? floor l0)).
  pose proof (log_repr_bounds _ _ H0) as Hb0. pose proof (appended_after _ _ _ _ H01) as Hba.
  assert (gap = true ↔ gap_expected l0 evs after) as Hgap.
  { unfold gap, gap_expected. rewrite andb_true_iff, negb_true_iff, Z.eqb_neq, Z.ltb_lt.
    destruct H0 as (_ & _ & [[-> ->]|(Hne & Hf & _)] & _); intuition lia. }
  assert (floor l0 ≤ head l0 + 1 ∧ floor l0 ≤ u64_max) as [Hfh Hfm].
  { unfold u64_max. destruct H0 as (_ & [? ?] & [[-> ->]|(Hne & _ & _ & ?)] & _); [lia|].
    assert (0 < len evs) by (destruct evs; [done|unfold len; simpl; lia]). lia. }
  intros (rows & Hrows & [= <-])%result_bind_Ok.
  rewrite (read_after_spec _ _ _ _ H2) in Hrows
    by (destruct gap; [destruct (proj1 Hgap eq_refl); lia|done]).
  destruct (begin_read (db l2) ≫= _) as [?|]; [|done]. injection Hrows as <-.
  rewrite filter_app, replay_rows_app.
  - assert (filter (λ e, wanted (if gap then floor l0 - 1 else after)
        (Some (parsed_patterns patterns)) e) (evs ++ a) =
      filter (λ e, wanted after (Some (parsed_patterns patterns)) e) (evs ++ a)) as ->.
    { apply filter_wanted_ext, Forall_app. destruct gap; [|by split; apply Forall_true; intros].
      destruct (proj1 Hgap eq_refl) as [_ Hlt].
      split; [eapply Forall_impl; [exact Hb0|]|eapply Forall_impl; [exact Hba|]]; simpl; lia. }
    f_equal. f_equal. case_decide; destruct gap; intuition discriminate.
  - apply Forall_filtered. eapply Forall_impl; [exact (log_repr_bounds _ _ H1)|]. simpl. lia.
  - apply Forall_filtered. exact (appended_after _ _ _ _ H12).
Qed.
End replay_spec.

(** ** Specification: the stream of one connection

    The queue's operations by other tasks ([CPushEvent], [CPushControl]) may
    fall between the connection's pop and its send. *)

Inductive WsOut : Type := OutLagged (dropped : Z) | OutFrame (f : Frame).

Inductive ConnOp : Type :=
  | CPushEvent (t : string)
  | CPushControl (msg : SubServerMsg)
  | CPop
  | CSend.

Record ConnState : Type := MkConnState {
  c_queue : OutboundQueue;
  c_held : option Frame;
  c_out : list WsOut
}.

Section stream.
Context {M : Wire SubServerMsg}.

Definition conn_step (st : ConnState) (op : ConnOp) : ConnState :=
  match op with
  | CPushEvent t => MkConnState (push_event t (c_queue st)) (c_held st) (c_out st)
  | CPushControl msg => MkConnState (push_control msg (c_queue st)) (c_held st) (c_out st)
  | CPop =>
      match c_held st with
      | Some _ => st
      | None => let '(f, q) := pop (c_queue st) in MkConnState q f (c_out st)
      end
  | CSend =>
      match c_held st with
      | None => st
      | Some f =>
          let '(lag, q) := take_pending_lag (c_queue st) in
          MkConnState q None
            (c_out st ++ match lag with Some n => [OutLagged n] | None => [] end ++ [OutFrame f])
      end
  end.

Definition conn_run (st : ConnState) (ops : list ConnOp) : ConnState := foldl conn_step st ops.

Definition pushed_events (ops : list ConnOp) : list string :=
  omap (λ op, match op with CPushEvent t => Some t | _ => None end) ops.

(** The event frames sent before the first [lagged]. *)
Fixpoint events_before_lag (out : list WsOut) : list string :=
  match out with
  | [] => []
  | OutLagged _ :: _ => []
  | OutFrame f :: rest =>
      if is_event f then text f :: events_before_lag rest else events_before_lag rest
  end.

Definition not_lagged (o : WsOut) : bool :=
  match o with OutLagged _ => false | OutFrame _ => true end.

Definition queued_events (q : OutboundQueue) : list string := text <$> event_frames (inner q).
Definition held_event (o : option Frame) : list string :=
  match o with Some f => if is_event f then [text f] else [] | None => [] end.

Lemma events_before_lag_app out out' :
  events_before_lag (out ++ out') =
    events_before_lag out ++ (if forallb not_lagged out then events_before_lag out' else []).
Proof.
  induction out as [|[n|f] out IH]; cbn [app events_before_lag forallb not_lagged andb]; [done..|].
  rewrite IH. by destruct (is_event f).
Qed.

(** Until a drop, what was pushed is what was sent, held and queued; after one,
    what was sent is a prefix of it and the drop is pending or announced. *)
Definition stream_inv (pushed : list string) (st : ConnState) : Prop :=
  within_budget (c_queue st) ∧
  0 ≤ lag_pending (c_queue st) ∧
  lag_pending (c_queue st) + len (event_frames (inner (c_queue st))) ≤ len pushed ∧
  (forallb not_lagged (c_out st) = true ∧ lag_pending (c_queue st) = 0 ∧
     pushed = events_before_lag (c_out st) ++ held_event (c_held st) ++ queued_events (c_queue st)
   ∨ (forallb not_lagged (c_out st) = false ∨ 0 < lag_pending (c_queue st)) ∧
     events_before_lag (c_out st) `prefix_of` pushed).

Lemma stream_inv_prefix pushed st :
  stream_inv pushed st → events_before_lag (c_out st) `prefix_of` pushed.
Proof. intros (_ & _ & _ & [(_ & _ & ->)|[_ ?]]); [by apply prefix_app_r|done]. Qed.

Lemma stream_inv_push pushed st t :
  stream_inv pushed st → len pushed + 1 < 2 ^ 64 →
  stream_inv (pushed ++ [t]) (conn_step st (CPushEvent t)).
Proof.
  intros Hinv Hlt. pose proof (stream_inv_prefix _ _ Hinv) as Hpre.
  destruct Hinv as (Hq & Hlag & Hsum & Hcase). destruct st as [q hd out]. unfold stream_inv.
  cbn [conn_step c_queue c_held c_out] in *. pose proof (len_nonneg (event_frames (inner q))).
  split; [by apply push_event_within_budget|]. rewrite len_app. change (len [t]) with 1.
  assert (events_before_lag out `prefix_of` pushed ++ [t]) as Hpre' by (by apply prefix_app_r).
  destruct (Z.lt_ge_cases (max_event_bytes q) (slen t)) as [Ht|Ht].
  - rewrite push_event_oversized by done. cbn [record_drop lag_pending inner].
    rewrite wrap64_small by (unfold is_u64; lia). split; [lia|]. split; [lia|].
    right. split; [right; lia|done].
  - destruct (push_event_fitting q t Hq Ht) as (k & Hk & -> & _).
    cbn [set_inner lag_pending inner]. rewrite record_drops_lag by (unfold is_u64; lia).
    unfold queued_events. cbn [set_inner inner].
    rewrite event_frames_app, event_frames_remove_events, len_app.
    change (event_frames [MkFrame t false true]) with [MkFrame t false true].
    change (len [MkFrame t false true]) with 1.
    unfold len in *. rewrite length_drop. rewrite wrap64_small by (unfold is_u64; lia).
    split; [lia|]. split; [lia|]. destruct (decide (k = 0%nat)) as [->|Hk0].
    + destruct Hcase as [(Hno & Hz & ->)|[Hdrop ?]]; [left|right].
      * split; [done|]. split; [lia|]. rewrite drop_0, fmap_app.
        unfold queued_events. by rewrite <- !app_assoc.
      * split; [|done]. destruct Hdrop; [by left|right; lia].
    + right. split; [right; lia|done].
Qed.

Lemma stream_inv_control pushed st msg :
  stream_inv pushed st → stream_inv pushed (conn_step st (CPushControl msg)).
Proof.
  destruct st as [q hd out]. intros (Hq & Hlag & Hsum & Hcase). cbn [conn_step c_held c_queue c_out] in *.
  unfold push_control. destruct (to_string msg) as [t|e]; [|done].
  assert (event_frames (inner q ++ [MkFrame t (is_closing msg) false]) = event_frames (inner q))
    as Heq by (by rewrite event_frames_app, (event_frames_cons_control _ []), app_nil_r by done).
  unfold stream_inv, within_budget, queued_events in *.
  cbn [c_held c_queue c_out set_inner inner lag_pending max_events max_event_bytes].
  by rewrite Heq.
Qed.

Lemma stream_inv_pop pushed st : stream_inv pushed st → stream_inv pushed (conn_step st CPop).
Proof.
  destruct st as [q hd out]. cbn [conn_step c_held c_queue c_out]. destruct hd as [f|]; [done|].
  intros (Hq & Hlag & Hsum & Hcase). cbn [c_held c_queue c_out] in *. unfold pop.
  destruct (inner q) as [|f rest] eqn:Hin.
  { unfold stream_inv. cbn [c_held c_queue c_out]. rewrite Hin in *. done. }
  unfold stream_inv, within_budget, queued_events in *. rewrite Hin in *.
  destruct (is_event f) eqn:Hf;
    cbn [c_held c_queue c_out set_inner inner lag_pending max_events max_event_bytes held_event];
    rewrite Hf.
  - rewrite event_frames_cons_event, len_cons in * by done. cbn [total_bytes foldr] in Hq.
    fold (total_bytes (event_frames rest)) in Hq. pose proof (slen_nonneg (text f)).
    split; [lia|]. split; [lia|]. split; [lia|].
    destruct Hcase as [(? & ? & ->)|Hc]; [left|by right]. done.
  - by rewrite event_frames_cons_control in * by done.
Qed.

Lemma stream_inv_send pushed st : stream_inv pushed st → stream_inv pushed (conn_step st CSend).
Proof.
  destruct st as [q hd out]. cbn [conn_step c_held c_queue c_out]. destruct hd as [f|]; [|done].
  intros (Hq & Hlag & Hsum & Hcase). cbn [c_held c_queue c_out] in *. unfold take_pending_lag.
  pose proof (len_nonneg (event_frames (inner q))).
  unfold stream_inv, within_budget, queued_events in *.
  cbn [c_held c_queue c_out inner lag_pending max_events max_event_bytes held_event].
  rewrite forallb_app, events_before_lag_app. split; [done|]. split; [lia|]. split; [lia|].
  destruct (lag_pending q =? 0) eqn:Hz; bool_to_prop.
  - destruct Hcase as [(Hno & _ & ->)|[[Hlagged|?] Hpre]]; [left|right|lia].
    + rewrite Hno. cbn. split; [done|]. split; [done|]. cbn [held_event].
      destruct (is_event f); by rewrite <- ?app_assoc.
    + rewrite Hlagged. rewrite app_nil_r. split; [by left|done].
  - right. cbn. rewrite andb_false_r. split; [by left|].
    assert (events_before_lag out `prefix_of` pushed) as Hpre
      by (destruct Hcase as [(? & ? & ?)|[_ ?]]; [lia|done]).
    destruct (forallb not_lagged out); by rewrite app_nil_r.
Qed.

Lemma stream_inv_step pushed st op :
  stream_inv pushed st → len pushed + 1 < 2 ^ 64 →
  stream_inv (pushed ++ pushed_events [op]) (conn_step st op).
Proof.
  intros Hinv Hlt. destruct op as [t|msg| |]; [by apply stream_inv_push|..];
    cbn [pushed_events omap list_omap]; rewrite app_nil_r;
    [by apply stream_inv_control|by apply stream_inv_pop|by apply stream_inv_send].
Qed.

Lemma pushed_events_app ops ops' :
  pushed_events (ops ++ ops') = pushed_events ops ++ pushed_events ops'.
Proof. apply omap_app. Qed.

Lemma stream_inv_run a b ops :
  a < 2 ^ 63 → b < 2 ^ 63 → len (pushed_events ops) + 1 < 2 ^ 64 →
  stream_inv (pushed_events ops) (conn_run (MkConnState (OutboundQueue_new a b) None []) ops).
Proof.
  intros Ha Hb. unfold conn_run. induction ops as [|op ops IH] using rev_ind; intros Hlt.
  { split; [by apply new_within_budget|]. cbn. split; [done|]. split; [done|]. by left. }
  rewrite foldl_app, pushed_events_app. rewrite pushed_events_app, len_app in Hlt.
  pose proof (len_nonneg (pushed_events [op])). apply stream_inv_step; [apply IH|]; lia.
Qed.

(** [send_frame] sends on an open sink what a [CSend] outputs. *)
Definition out_message (o : WsOut) : Message :=
  match o with
  | OutLagged n => MText (encode (Sub_Lagged n))
  | OutFrame f => MText (text f)
  end.

Lemma send_frame_outputs {Db} (q : QueueRef) (f : Frame) (s : WsState (Db := Db)) queue :
  is_open (ws_sink s) = true → queues (ws_heap s) !! q = Some queue →
  let st := conn_step (MkConnState queue (Some f) []) CSend in
  let '(stop, s') := send_frame q f s in
  stop = closing f ∧ sent (ws_sink s') = sent (ws_sink s) ++ (out_message <$> c_out st) ∧
  queues (ws_heap s') !! q = Some (c_queue st).
Proof.
  destruct s as [r h [o st] aw]. cbn. intros -> Hq. unfold send_frame. cbn. rewrite Hq.
  unfold take_pending_lag. destruct (lag_pending queue =? 0); cbn;
    rewrite lookup_alter_eq, Hq, <- ?app_assoc; done.
Qed.
End stream.

(** ** Theorems *)

Section theorems.
Context {Db Table : Type} {R : Redb Db Table} {L : RedbLaws Db Table}.
Context {W : Wire StoredEvent} {WL : WireLaws StoredEvent}.
Context {M : Wire SubServerMsg} {C : Wire SubClientMsg} {O : HashOrder}.



(** A pong among the events of the loop. *)
Definition is_pong (ev : WsEvent) : bool :=
  match ev with EvIncoming (Some (Ok (MPong _))) => true | _ => false end.

Lemma ws_step_awaiting id q w f1 f2 ev (s s' : WsState (Db := Db)) :
  awaiting_pong s = true → is_pong ev = false →
  ws_step id q w f1 f2 ev s = (false, s') → awaiting_pong s' = true ∧ ev ≠ EvTick.
Proof.
  intros Ha Hp. destruct ev as [|between|[]|[[[]|]|]]; cbn [ws_step is_pong] in *; try done.
  - by rewrite Ha.
  - destruct (queues _ !! q) as [queue|]; [|by intros [= <-]].
    destruct (pop queue) as [[f|] queue']; [|by intros [= <-]].
    unfold send_frame. repeat (case_match; simplify_eq/=; try done); by intros [= _ <-].
  - repeat (case_match; simplify_eq/=; try done); by intros [= <-].
  - destruct (handle_subscriber_text _ _ _ _ _ _ _) as [[[frames|e] r] h]; [|done].
    destruct (send_all frames (ws_sink s)) as [failed k]. by intros [= _ <-].
  - by intros [= <-].
  - by intros [= <-].
Qed.

(** A peer that answers no ping is dropped: a loop that runs through two
    ticks without a pong does not go on. *)
Theorem silent_peer_is_dropped id q w f1 f2 evs1 evs2 evs3 e1 e2 (s : WsState (Db := Db)) :
  forallb (λ ev, negb (is_pong ev.2)) (evs2 : list ((_ → _) * _)) = true →
  (ws_loop id q w f1 f2 (evs1 ++ (e1, EvTick) :: evs2 ++ (e2, EvTick) :: evs3) s).1 = true.
Proof.
  intros Hno. revert s. induction evs1 as [|[others ev] evs1 IH]; intros s.
  2:{ cbn [app ws_loop]. destruct (others _) as [r h].
      destruct (ws_step _ _ _ _ _ _ _) as [[] s'] eqn:Hst; [done|]. apply IH. }
  cbn [app ws_loop]. destruct (e1 _) as [r h].
  destruct (ws_step _ _ _ _ _ _ _) as [[] s'] eqn:Hst; [done|].
  assert (awaiting_pong s' = true) as Ha.
  { cbn [ws_step] in Hst. destruct (awaiting_pong _); [done|].
    destruct (send _ _) as [[] k]; by simplify_eq/=. }
  clear Hst. revert s' Ha. induction evs2 as [|[others ev] evs2 IH]; intros s' Ha.
  - cbn [app ws_loop]. destruct (e2 _) as [r' h']. cbn [ws_step awaiting_pong].
    by rewrite Ha.
  - cbn [forallb snd] in Hno. apply andb_true_iff in Hno as [Hev Hno].
    apply negb_true_iff in Hev. cbn [app ws_loop]. destruct (others _) as [r' h'].
    destruct (ws_step _ _ _ _ _ ev _) as [[] s''] eqn:Hst; [done|].
    apply IH; [done|]. by eapply ws_step_awaiting in Hst as [? _].
Qed.

(** Revocation reaches the wire: once the connections of a name are closed,
    such a connection's loop stops when it sees the signal, and on an open
    socket the last message it sends is [closing] with the reason. *)
Theorem revoked_connection_is_closed name reason t id q w f1 f2 sub r h o st aw v :
  subs r !! id = Some sub → sub_name sub = name → sub_close_tx sub = w →
  watches h !! w = Some v → to_string (Sub_Closing reason) = Ok t →
  let '(stop, s') := ws_step id q w f1 f2 (EvCloseChanged true)
    (MkWsState r (close_named name reason r h) (MkSink o st) aw) in
  stop = true ∧ sent (ws_sink s') = st ++ (if o then [MText t] else []) ∧
  subs (ws_registry (ws_close id s')) = delete id (subs r).
Proof.
  intros Hs Hname Hw Hv Ht.
  assert (named_watch r name w) as Hnw by (exists id, sub; done).
  destruct (close_named_spec name reason r h w) as [Hsig _]. specialize (Hsig Hnw).
  cbn [ws_step ws_heap ws_sink]. rewrite Hsig, Hv. cbn. rewrite Ht.
  destruct o; cbn; by rewrite ?app_nil_r.
Qed.
End theorems.

(** ** Witnesses *)

Section witnesses.
#[local] Existing Instance MemDb.mem_redb.
#[local] Existing Instance MemDb.mem_redb_laws.
#[local] Existing Instance BitCodec.wire.
#[local] Existing Instance BitCodec.wire_laws.
#[local] Existing Instance some_order.

Definition log_of_two : Shared (list (Z * string)) := (prune_blocking 2000 log_of_three).2.
Definition two_events : list StampedEvent := drop 1 three_events.

Lemma log_of_two_repr : log_repr log_of_two two_events.
Proof.
  destruct (prune_blocking_spec log_of_three three_events 2000 (Ok 1) log_of_two log_of_three_repr)
    as (k & _ & Hk & Hrepr & _).
  - discriminate.
  - discriminate.
  - vm_compute. reflexivity.
  - assert (k = 1%nat) as -> by lia. exact Hrepr.
Qed.


(** Once the whole log is pruned no gap is announced, whatever was missed. *)
Lemma fully_pruned_log_announces_no_gap :
  let pruned := (prune_blocking 90000000 log_of_three).2 in
  head pruned = 3 ∧
  replay_window pruned pruned pruned ["fake.>"] 1 =
    Ok (encode <$> [Sub_Ok "subscribe"; Sub_Replayed 3]).
Proof. vm_compute. split; reflexivity. Qed.

(** A cursor of [u64::MAX] wraps in [after_seq + 1]: the client is told of a gap
    and sent the whole window. *)
Lemma max_cursor_replays_everything :
  replay_window log_of_two log_of_two log_of_two ["fake.b"] u64_max =
    Ok (encode <$> [Sub_Ok "subscribe"; Sub_ReplayGap u64_max 2;
      Sub_Event 8 2 1000 "fake.b" "eQ=="; Sub_Replayed 3]).
Proof. vm_compute. reflexivity. Qed.

(** The floor is read before the rows: a prune between the two drops event 1
    without a gap notice. *)
Lemma prune_during_replay_announces_no_gap :
  replay_window log_of_three log_of_three log_of_two ["fake.>"] 0 =
    Ok (encode <$> [Sub_Ok "subscribe"; Sub_Event 8 2 1000 "fake.b" "eQ==";
         Sub_Event 9 3 1000 "fake.a" "eA=="; Sub_Replayed 3]).
Proof. vm_compute. reflexivity. Qed.

Definition lagging_ops : list ConnOp :=
  [CPushEvent "a"; CPop; CPushEvent "b"; CPushEvent "c"; CSend; CPop; CSend].


Definition quiet_state : WsState (Db := list (Z * string)) :=
  MkWsState durable_subs two_queues (MkSink true []) false.

Lemma silent_peer_is_dropped_witness :
  (ws_loop 1 10 20 (λ l, l) (λ l, l)
    ([] ++ (λ x, x, EvTick) :: [(λ x, x, EvPop (λ h, h))] ++ (λ x, x, EvTick) :: []) quiet_state).1
    = true.
Proof.
  apply (silent_peer_is_dropped 1 10 20 (λ l, l) (λ l, l) [] [(λ x, x, EvPop (λ h, h))] []
    (λ x, x) (λ x, x) quiet_state). reflexivity.
Defined.

Lemma revoked_connection_is_closed_witness :
  let s' := (ws_step 1 10 20 (λ l, l) (λ l, l) (EvCloseChanged true)
    (MkWsState durable_subs (close_named "alice" ReasonRevoked durable_subs two_queues)
       (MkSink true []) false)).2 in
  sent (ws_sink s') = [] ++ [MText (encode (Sub_Closing ReasonRevoked))] ∧
  subs (ws_registry (ws_close 1 s')) = delete 1 (subs durable_subs).
Proof.
  assert (to_string (Sub_Closing ReasonRevoked) = Ok (encode (Sub_Closing ReasonRevoked))) as Ht
    by (vm_compute; reflexivity).
  pose proof (revoked_connection_is_closed "alice" ReasonRevoked _ 1 10 20 (λ l, l) (λ l, l) sub_a
    durable_subs two_queues true [] false None eq_refl eq_refl eq_refl eq_refl Ht) as Hw.
  destruct (ws_step 1 10 20 _ _ (EvCloseChanged true) _) as [stop s'].
  destruct Hw as (_ & H1 & H2). split; [exact H1|exact H2].
Defined.
End witnesses.
