(* ===== verification/Connections.v ===== *)
(** * Connections: the subscriber plane with all its tasks

    The connection tasks of [crates/whdr-server/src/subscriber_ws.rs], the
    fan-outs of [subscribers.rs] in their two phases and the closings of the
    rest of the daemon, in any interleaving, on one registry and one heap of
    queues and close cells.  The steps are the operations of Subscribers.v and
    SubscriberWs.v. *)

From S2P Require Import Prelude.
From S2P Require Import Text.
From S2P Require Import Channel.
From S2P Require Import Messages.
From S2P Require Import OutboundQueue.
From S2P Require Import Config.
From S2P Require Import DeliveryLog.
From S2P Require Import Subscribers.
From S2P Require Import SubscriberWs.

Local Open Scope Z_scope.

(** ** Definitions *)

(** What a connection's task owns: its [Arc] of the queue, its end of the close
    cell, the socket, and the ping it waits for. *)
Record Conn : Type := MkConn {
  cn_queue : QueueRef;
  cn_watch : WatchRef;
  cn_sink : Sink;
  cn_awaiting : bool
}.

(** What the task's [select!] completes with; while it holds a popped frame, a
    fan-out may deliver its batch. *)
Inductive ConnEvent : Type :=
  | CeTick
  | CePop (meanwhile : option nat)
  | CeCloseChanged (sender_alive : bool)
  | CeIncoming (incoming : option (result () Message)).

Inductive PlaneStep : Type :=
  | PlOpen (name : string) (limits : LimitsConfig) (q : QueueRef) (w : WatchRef)
  | PlStamp (i : nat) (events : list Event) (ts : Z) (new_v4 : nat → Uuid)
  | PlDeliver (i : nat)
  | PlConn (id : Z) (ev : ConnEvent)
  | PlCloseNamed (name : string) (reason : ClosingReason)
  | PlCloseAll (reason : ClosingReason).

Section plane.
Context {Db Table : Type} {R : Redb Db Table} {W : Wire StoredEvent}.
Context {M : Wire SubServerMsg} {C : Wire SubClientMsg} {O : HashOrder}.
(** What other tasks do to the log while a replay window is read. *)
Context (to_head to_read : Shared Db → Shared Db).

(** The registry and the heap, the tasks of the open connections, and the batches
    stamped and not yet delivered. *)
Record Plane : Type := MkPlane {
  pl_registry : Registry Db;
  pl_heap : Heap;
  pl_conns : gmap Z Conn;
  pl_batches : gmap nat (list StampedFrame)
}.

Definition Plane_new (r : Registry Db) : Plane := MkPlane r (MkHeap ∅ ∅) ∅ ∅.

Definition ws_event (r : Registry Db) (batches : gmap nat (list StampedFrame)) (ev : ConnEvent)
    : WsEvent :=
  match ev with
  | CeTick => EvTick
  | CePop meanwhile =>
      EvPop (λ h, match meanwhile ≫= λ i, batches !! i with
                  | Some frames => fanout_deliver frames r h
                  | None => h
                  end)
  | CeCloseChanged alive => EvCloseChanged alive
  | CeIncoming incoming => EvIncoming incoming
  end.

Definition batches_after (batches : gmap nat (list StampedFrame)) (ev : ConnEvent)
    : gmap nat (list StampedFrame) :=
  match ev with CePop (Some i) => delete i batches | _ => batches end.

(** [queue.pop()] completes when there is a frame; a batch is delivered once. *)
Definition completes (p : Plane) (cn : Conn) (ev : ConnEvent) : bool :=
  match ev with
  | CePop meanwhile =>
      match queues (pl_heap p) !! cn_queue cn with
      | Some queue => bool_decide (inner queue ≠ [])
      | None => false
      end && match meanwhile with Some i => bool_decide (is_Some (pl_batches p !! i)) | None => true end
  | _ => true
  end.

Definition plane_step (step : PlaneStep) (p : Plane) : option Plane :=
  match step with
  | PlOpen name limits q w =>
      if bool_decide (queues (pl_heap p) !! q = None ∧ watches (pl_heap p) !! w = None) then
        let '(id, ws) := ws_open name limits q w (pl_registry p) (pl_heap p) in
        Some (MkPlane (ws_registry ws) (ws_heap ws)
                (<[id := MkConn q w (ws_sink ws) (awaiting_pong ws)]> (pl_conns p)) (pl_batches p))
      else None
  | PlStamp i events ts new_v4 =>
      let '(frames, r) := fanout_stamp events ts new_v4 (pl_registry p) in
      Some (MkPlane r (pl_heap p) (pl_conns p) (<[i := frames]> (pl_batches p)))
  | PlDeliver i =>
      frames ← pl_batches p !! i;
      Some (MkPlane (pl_registry p) (fanout_deliver frames (pl_registry p) (pl_heap p)) (pl_conns p)
              (delete i (pl_batches p)))
  | PlConn id ev =>
      cn ← pl_conns p !! id;
      if negb (completes p cn ev) then None else
      let '(stop, ws) := ws_step id (cn_queue cn) (cn_watch cn) to_head to_read
        (ws_event (pl_registry p) (pl_batches p) ev)
        (MkWsState (pl_registry p) (pl_heap p) (cn_sink cn) (cn_awaiting cn)) in
      Some (if stop : bool then
              MkPlane (ws_registry (ws_close id ws)) (ws_heap ws) (delete id (pl_conns p))
                (batches_after (pl_batches p) ev)
            else
              MkPlane (ws_registry ws) (ws_heap ws)
                (<[id := MkConn (cn_queue cn) (cn_watch cn) (ws_sink ws) (awaiting_pong ws)]> (pl_conns p))
                (batches_after (pl_batches p) ev))
  | PlCloseNamed name reason =>
      Some (MkPlane (pl_registry p) (close_named name reason (pl_registry p) (pl_heap p)) (pl_conns p)
              (pl_batches p))
  | PlCloseAll reason =>
      Some (MkPlane (pl_registry p) (close_all reason (pl_registry p) (pl_heap p)) (pl_conns p)
              (pl_batches p))
  end.

Fixpoint plane_run (steps : list PlaneStep) (p : Plane) : option Plane :=
  match steps with
  | [] => Some p
  | step :: rest => p' ← plane_step step p; plane_run rest p'
  end.

(** ** Specification *)

(** The limits a connection is opened under are below [2^63]. *)
Definition sized (step : PlaneStep) : Prop :=
  match step with
  | PlOpen _ limits _ _ => sub_queue_len limits < 2 ^ 63 ∧ sub_queue_bytes limits < 2 ^ 63
  | _ => True
  end.

(** The handles of a registered connection, and those its task owns. *)
Definition handles (s : Subscriber) : QueueRef * WatchRef := (sub_queue s, sub_close_tx s).
Definition cells (cn : Conn) : QueueRef * WatchRef := (cn_queue cn, cn_watch cn).

(** The registry lists exactly the connections whose tasks run, each with its own
    queue and its own close cell; every queue is within its budgets. *)
Record plane_ok (p : Plane) : Prop := {
  po_next : 0 < next_id (pl_registry p);
  po_ids id s : subs (pl_registry p) !! id = Some s → 0 < id < next_id (pl_registry p);
  po_same id : handles <$> subs (pl_registry p) !! id = cells <$> pl_conns p !! id;
  po_apart i j cn cn' : pl_conns p !! i = Some cn → pl_conns p !! j = Some cn' →
    cn_queue cn = cn_queue cn' ∨ cn_watch cn = cn_watch cn' → i = j;
  po_cells id cn : pl_conns p !! id = Some cn →
    is_Some (queues (pl_heap p) !! cn_queue cn) ∧ is_Some (watches (pl_heap p) !! cn_watch cn);
  po_budget q queue : queues (pl_heap p) !! q = Some queue → within_budget queue
}.

(** ** Lemmas *)

(** *** The heap *)

(** Nothing is allocated or freed, and queues stay within their budgets. *)
Record keeps (h h' : Heap) : Prop := {
  keeps_queues q : is_Some (queues h' !! q) ↔ is_Some (queues h !! q);
  keeps_watches w : is_Some (watches h' !! w) ↔ is_Some (watches h !! w);
  keeps_budget : (∀ q queue, queues h !! q = Some queue → within_budget queue) →
    ∀ q queue, queues h' !! q = Some queue → within_budget queue
}.

#[local] Instance keeps_preorder : PreOrder keeps.
Proof.
  split; [by split|]. intros h1 h2 h3 [Hq Hw Hb] [Hq' Hw' Hb'].
  split; [intros q; by rewrite Hq', Hq|intros w; by rewrite Hw', Hw|]. intros Hall. apply Hb', Hb, Hall.
Qed.

Lemma keeps_with_queue q f h :
  (∀ queue, queues h !! q = Some queue → within_budget queue → within_budget (f queue)) →
  keeps h (with_queue q f h).
Proof.
  intros Hf. split; cbn [with_queue queues watches]; [|done|].
  - intros q'. destruct (decide (q = q')) as [->|].
    + by rewrite lookup_alter_eq, fmap_is_Some.
    + by rewrite lookup_alter_ne.
  - intros Hall q' queue. rewrite lookup_alter_Some. naive_solver.
Qed.

Lemma keeps_watch_send w reason h : keeps h (watch_send w reason h).
Proof.
  split; cbn [watch_send queues watches]; [done| |done]. intros w'. destruct (decide (w = w')) as [->|].
  - by rewrite lookup_alter_eq, fmap_is_Some.
  - by rewrite lookup_alter_ne.
Qed.

Lemma keeps_foldl {A} (f : Heap → A → Heap) l h : (∀ h a, keeps h (f h a)) → keeps h (foldl f h l).
Proof.
  intros Hf. revert h. induction l as [|a l IH]; intros h; cbn [foldl]; [done|].
  etrans; [apply Hf|apply IH].
Qed.

Lemma keeps_deliver frames (r : Registry Db) h : keeps h (fanout_deliver frames r h).
Proof.
  revert h. induction frames as [|f frames IH]; intros h; cbn [fanout_deliver]; [done|].
  destruct (to_string _) as [text|e]; [|done]. etrans; [|apply IH].
  apply keeps_foldl. intros h' [k s]. case_bool; [|done].
  apply keeps_with_queue. intros. by apply push_event_within_budget.
Qed.

Lemma keeps_send_frame q frame (s : WsState (Db := Db)) :
  let s' := (send_frame q frame s).2 in
  keeps (ws_heap s) (ws_heap s') ∧ ws_registry s' = ws_registry s.
Proof.
  cbv zeta.
  unfold send_frame. destruct (queues (ws_heap s) !! q) as [queue|] eqn:Hq.
  - destruct (take_pending_lag queue) as [lag queue'] eqn:Htake.
    assert (keeps (ws_heap s) (with_queue q (λ _, queue') (ws_heap s))) as Hk.
    { apply keeps_with_queue. intros queue1 Hq1 Hb. rewrite Hq in Hq1. injection Hq1 as <-.
      replace queue' with (queue_step queue OpTakeLag) by (unfold queue_step; by rewrite Htake).
      by apply queue_step_within_budget. }
    repeat case_match; simplify_eq/=; done.
  - repeat case_match; simplify_eq/=; done.
Qed.

(** *** The registry *)

(** The same connections with the same handles. *)
Definition same_handles (r r' : Registry Db) : Prop :=
  next_id r' = next_id r ∧ ∀ id, handles <$> subs r' !! id = handles <$> subs r !! id.

Lemma alter_handles f id (m : gmap Z Subscriber) k :
  handles <$> alter (map_patterns f) id m !! k = handles <$> m !! k.
Proof.
  destruct (decide (id = k)) as [->|]; [|by rewrite lookup_alter_ne].
  rewrite lookup_alter_eq. by destruct (m !! k).
Qed.

Lemma text_keeps id text q r h r1 h1 res :
  handle_subscriber_text id text q to_head to_read r h = (res, r1, h1) →
  keeps h h1 ∧ same_handles r r1.
Proof.
  assert (∀ msg h, keeps h (push_ctl msg q h)) as Hctl.
  { intros msg h'. apply keeps_with_queue. intros queue _ Hq.
    by apply (queue_step_within_budget queue (OpPushControl msg)). }
  unfold handle_subscriber_text. destruct (from_str text) as [[patterns replay|patterns|]|e];
    [| | |by intros [= _ <- <-]].
  - unfold subscribe. destruct (parse_patterns patterns) as [parsed|e]; [|by intros [= _ <- <-]].
    assert (same_handles r (set_subs (alter (map_patterns (λ ps, push_new_patterns ps parsed)) id (subs r)) r))
      as Hs by (split; [done|]; intros k; apply alter_handles).
    destruct replay as [rq|]; [|by intros [= _ <- <-]].
    cbn [log set_subs]. destruct (log r) as [l|]; [by intros [= _ <- <-]|].
    intros [= _ <- <-]. split; [|done]. etrans; apply Hctl.
  - intros [= _ <- <-]. split; [done|]. split; [done|]. intros k. apply alter_handles.
  - by intros [= _ <- <-].
Qed.

Lemma ws_step_keeps id q w ev (s : WsState (Db := Db)) stop s' :
  (∀ between, ev = EvPop between → ∀ h, keeps h (between h)) →
  ws_step id q w to_head to_read ev s = (stop, s') →
  keeps (ws_heap s) (ws_heap s') ∧ same_handles (ws_registry s) (ws_registry s').
Proof.
  intros Hbetween. assert (∀ k (t : WsState (Db := Db)), ws_heap (set_sink k t) = ws_heap t) as Hset by done.
  destruct ev as [|between|[]|[[[]|]|]]; cbn [ws_step];
    try (intros Hrun; repeat case_match; simplify_eq/=; done).
  - destruct (queues (ws_heap s) !! q) as [queue|] eqn:Hq; [|by intros [= _ <-]].
    destruct (pop queue) as [[frame|] queue'] eqn:Hpop; [|by intros [= _ <-]].
    intros Hrun. set (s1 := MkWsState _ _ _ _) in Hrun.
    destruct (keeps_send_frame q frame s1) as [Hk Hr]. rewrite Hrun in Hk, Hr. cbn [snd] in Hk, Hr.
    rewrite Hr. split; [|done]. etrans; [|exact Hk]. cbn [ws_heap s1]. etrans; [|by apply Hbetween].
    apply keeps_with_queue. intros queue1 Hq1 Hb. rewrite Hq in Hq1. injection Hq1 as <-.
    replace queue' with (queue_step queue OpPop) by (unfold queue_step; by rewrite Hpop).
    by apply queue_step_within_budget.
  - destruct (handle_subscriber_text _ _ _ _ _ _ _) as [[[frames|e] r1] h1] eqn:Ht;
      apply text_keeps in Ht as [Hk Hs]; [|by intros [= _ <-]].
    destruct (send_all _ _) as [failed k]. by intros [= _ <-].
Qed.

Lemma close_named_keeps name reason (r : Registry Db) h : keeps h (close_named name reason r h).
Proof.
  apply keeps_foldl. intros h' [k s]. case_bool; [apply keeps_watch_send|done].
Qed.

Lemma close_all_keeps reason (r : Registry Db) h : keeps h (close_all reason r h).
Proof. apply keeps_foldl. intros h' [k s]. apply keeps_watch_send. Qed.

Lemma fanout_stamp_keeps events ts new_v4 (r r' : Registry Db) frames :
  fanout_stamp events ts new_v4 r = (frames, r') → same_handles r r'.
Proof.
  unfold fanout_stamp. destruct (log r) as [l|]; [destruct (append _ _ _ l) as [[|] ?]|];
    try destruct (stamp_in_memory _ _ _ _ _) as [fs seq']; by intros [= _ <-].
Qed.

(** *** The plane *)

Lemma plane_ok_keeps p r' h' conns' batches' :
  plane_ok p → same_handles (pl_registry p) r' → keeps (pl_heap p) h' →
  (∀ id, cells <$> conns' !! id = cells <$> pl_conns p !! id) →
  plane_ok (MkPlane r' h' conns' batches').
Proof.
  intros [Hn Hids Hsame Hapart Hcells Hb] [Hnext Hsubs] [Hkq Hkw Hkb] Hc.
  assert (∀ id cn, conns' !! id = Some cn → ∃ cn', pl_conns p !! id = Some cn' ∧
    cn_queue cn' = cn_queue cn ∧ cn_watch cn' = cn_watch cn)
    as Hback.
  { intros id cn Hcn. specialize (Hc id). rewrite Hcn in Hc.
    destruct (pl_conns p !! id) as [cn'|]; [|done]. exists cn'. split; [done|]. by injection Hc. }
  split; cbn [pl_registry pl_heap pl_conns].
  - by rewrite Hnext.
  - intros id s Hs. rewrite Hnext. specialize (Hsubs id). rewrite Hs in Hsubs.
    destruct (subs (pl_registry p) !! id) as [s'|] eqn:Hs'; [|done]. by eapply Hids.
  - intros id. by rewrite Hsubs, Hc.
  - intros i j cn cn' (cn1 & Hi & Hq1 & Hw1)%Hback (cn2 & Hj & Hq2 & Hw2)%Hback.
    rewrite <- Hq1, <- Hw1, <- Hq2, <- Hw2. by apply Hapart.
  - intros id cn (cn1 & Hi & Hq1 & Hw1)%Hback. rewrite <- Hq1, <- Hw1, Hkq, Hkw. by eapply Hcells.
  - by apply Hkb.
Qed.

Lemma plane_ok_delete p id batches' :
  plane_ok p →
  plane_ok (MkPlane (remove_subscriber id (pl_registry p)) (pl_heap p) (delete id (pl_conns p)) batches').
Proof.
  intros [Hn Hids Hsame Hapart Hcells Hb].
  split; cbn [pl_registry pl_heap pl_conns remove_subscriber set_subs subs next_id]; [done|..|done].
  - intros k s [_ Hs]%lookup_delete_Some. by eapply Hids.
  - intros k. destruct (decide (id = k)) as [->|]; [by rewrite !lookup_delete_eq|].
    rewrite !lookup_delete_ne by done. apply Hsame.
  - intros i j cn cn' [_ Hi]%lookup_delete_Some [_ Hj]%lookup_delete_Some. by apply Hapart.
  - intros k cn [_ Hk]%lookup_delete_Some. by eapply Hcells.
Qed.

Lemma plane_ok_open p name limits q w id ws cn :
  plane_ok p → next_id (pl_registry p) + 1 < 2 ^ 64 →
  sub_queue_len limits < 2 ^ 63 → sub_queue_bytes limits < 2 ^ 63 →
  queues (pl_heap p) !! q = None → watches (pl_heap p) !! w = None →
  ws_open name limits q w (pl_registry p) (pl_heap p) = (id, ws) →
  cells cn = (q, w) →
  plane_ok (MkPlane (ws_registry ws) (ws_heap ws) (<[id := cn]> (pl_conns p)) (pl_batches p)) ∧
  next_id (ws_registry ws) = next_id (pl_registry p) + 1.
Proof.
  intros [Hn Hids Hsame Hapart Hcells Hb] Hlt Hlen Hbytes Hq Hw [= <- <-] Hcn.
  assert (cn_queue cn = q ∧ cn_watch cn = w) as [Hcq Hcw] by by injection Hcn.
  cbn [ws_registry ws_heap reg_name reg_remote_addr reg_queue reg_close_tx].
  rewrite wrap64_small by (unfold is_u64; lia).
  split; [|done].
  assert (∀ i c, pl_conns p !! i = Some c → cn_queue c ≠ q ∧ cn_watch c ≠ w) as Hfresh.
  { intros i c Hi. destruct (Hcells i c Hi) as [[? ?] [? ?]]. split; intros Heq; congruence. }
  split; cbn [pl_registry pl_heap pl_conns subs next_id queues watches]; [lia|..].
  - intros i s [[<- <-]|[_ Hs]]%lookup_insert_Some; [lia|]. apply Hids in Hs. lia.
  - intros i. destruct (decide (next_id (pl_registry p) = i)) as [->|].
    + rewrite !lookup_insert_eq. cbn. unfold cells. by rewrite Hcq, Hcw.
    + rewrite !lookup_insert_ne by done. apply Hsame.
  - intros i j c c' [[<- <-]|[? Hi]]%lookup_insert_Some [[<- <-]|[? Hj]]%lookup_insert_Some; [done|..].
    + apply Hfresh in Hj. rewrite Hcq, Hcw. intuition congruence.
    + apply Hfresh in Hi. rewrite Hcq, Hcw. intuition congruence.
    + by apply Hapart.
  - intros i c [[<- <-]|[? Hi]]%lookup_insert_Some.
    + rewrite Hcq, Hcw, !lookup_insert_eq. done.
    + destruct (Hfresh i c Hi). rewrite !lookup_insert_ne by done. by eapply Hcells.
  - intros q' queue [[<- <-]|[? Hq']]%lookup_insert_Some; [by apply new_within_budget|by eapply Hb].
Qed.

Lemma plane_step_ok step p p' :
  plane_ok p → sized step → next_id (pl_registry p) + 1 < 2 ^ 64 → plane_step step p = Some p' →
  plane_ok p' ∧ next_id (pl_registry p') ≤ next_id (pl_registry p) + 1.
Proof.
  intros Hp Hsz Hlt. destruct step as [name limits q w|i events ts new_v4|i|id ev|name reason|reason];
    cbn [plane_step].
  - destruct Hsz as [Hlen Hbytes]. case_bool_decide as Hfresh; [|done]. destruct Hfresh as [Hq Hw].
    destruct (ws_open name limits q w _ _) as [id ws] eqn:Hopen. intros [= <-].
    destruct (plane_ok_open p name limits q w id ws (MkConn q w (ws_sink ws) (awaiting_pong ws)))
      as [Hok Hnext]; try done. cbn [pl_registry]. rewrite Hnext. split; [done|lia].
  - destruct (fanout_stamp events ts new_v4 _) as [frames r] eqn:Hstamp. intros [= <-].
    apply fanout_stamp_keeps in Hstamp as Hs. split; [by apply (plane_ok_keeps p)|].
    cbn [pl_registry]. destruct Hs as [-> _]. lia.
  - destruct (pl_batches p !! i) as [frames|]; [|done]. intros [= <-].
    split; [|cbn [pl_registry]; lia]. apply (plane_ok_keeps p); [done|done|apply keeps_deliver|done].
  - destruct (pl_conns p !! id) as [cn|] eqn:Hcn; [|done]. cbn [mbind option_bind].
    destruct (negb _); [done|].
    destruct (ws_step _ _ _ _ _ _ _) as [stop ws] eqn:Hstep. intros [= <-].
    apply ws_step_keeps in Hstep as [Hk Hs].
    2:{ intros between Hev h. destruct ev; try done. injection Hev as <-.
        destruct (meanwhile ≫= _); [apply keeps_deliver|done]. }
    assert (plane_ok (MkPlane (ws_registry ws) (ws_heap ws) (pl_conns p) (pl_batches p))) as Hok
      by by apply (plane_ok_keeps p).
    destruct stop; cbn [pl_registry]; (split; [|destruct Hs as [Hn _]; cbn in Hn |- *; lia]).
    + by apply (plane_ok_delete _ id _ Hok).
    + eapply (plane_ok_keeps _ _ _ _ _ Hok); [done|done|]. intros k. cbn [pl_conns].
      destruct (decide (id = k)) as [->|]; [by rewrite lookup_insert_eq, Hcn|by rewrite lookup_insert_ne].
  - intros [= <-]. split; [|cbn [pl_registry]; lia].
    apply (plane_ok_keeps p); [done|done|apply close_named_keeps|done].
  - intros [= <-]. split; [|cbn [pl_registry]; lia].
    apply (plane_ok_keeps p); [done|done|apply close_all_keeps|done].
Qed.

Lemma plane_run_ok steps p p' :
  plane_ok p → Forall sized steps → next_id (pl_registry p) + len steps < 2 ^ 64 →
  plane_run steps p = Some p' → plane_ok p'.
Proof.
  revert p. induction steps as [|step steps IH]; intros p Hp Hsz Hlt; cbn [plane_run].
  { by intros [= <-]. }
  rewrite len_cons in Hlt. pose proof (len_nonneg steps). apply Forall_cons in Hsz as [Hst Hsz].
  intros (p1 & Hp1 & Hrun)%bind_Some.
  destruct (plane_step_ok step p p1 Hp Hst ltac:(lia) Hp1) as [Hok Hnext].
  apply (IH p1); [done|done|lia|done].
Qed.

Lemma plane_new_ok (r : Registry Db) : subs r = ∅ → next_id r = 1 → plane_ok (Plane_new r).
Proof.
  intros Hs Hn. split; cbn [Plane_new pl_registry pl_heap pl_conns queues watches]; [lia|..].
  - intros id s. by rewrite Hs, lookup_empty.
  - intros id. by rewrite Hs, !lookup_empty.
  - intros i j cn cn'. by rewrite lookup_empty.
  - intros id cn. by rewrite lookup_empty.
  - intros q queue. by rewrite lookup_empty.
Qed.

Lemma plane_ok_registered p id cn s :
  plane_ok p → pl_conns p !! id = Some cn → subs (pl_registry p) !! id = Some s →
  sub_queue s = cn_queue cn ∧ sub_close_tx s = cn_watch cn.
Proof.
  intros Hp Hcn Hs. pose proof (po_same _ Hp id) as Hsame. rewrite Hcn, Hs in Hsame.
  by injection Hsame.
Qed.

Lemma plane_ok_task p id s :
  plane_ok p → subs (pl_registry p) !! id = Some s → ∃ cn, pl_conns p !! id = Some cn.
Proof.
  intros Hp Hs. pose proof (po_same _ Hp id) as Hsame. rewrite Hs in Hsame.
  destruct (pl_conns p !! id) as [cn|]; [by exists cn|done].
Qed.

Lemma plane_ok_distinct p : plane_ok p → distinct_queues (pl_registry p).
Proof.
  intros Hp i j s t Hi Hj Heq. destruct (plane_ok_task p i s Hp Hi) as [cn Hcn].
  destruct (plane_ok_task p j t Hp Hj) as [cn' Hcn'].
  destruct (plane_ok_registered p i cn s Hp Hcn Hi) as [H1 _].
  destruct (plane_ok_registered p j cn' t Hp Hcn' Hj) as [H2 _].
  eapply (po_apart _ Hp); [done..|]. left. congruence.
Qed.

(** The close cell of a connection belongs to its name only. *)
Lemma plane_ok_named p id cn s name :
  plane_ok p → pl_conns p !! id = Some cn → subs (pl_registry p) !! id = Some s →
  named_watch (pl_registry p) name (cn_watch cn) ↔ sub_name s = name.
Proof.
  intros Hp Hcn Hs. destruct (plane_ok_registered p id cn s Hp Hcn Hs) as [_ Hw]. split.
  - intros (j & t & Ht & Hname & Hwt). destruct (plane_ok_task p j t Hp Ht) as [cn' Hcn'].
    destruct (plane_ok_registered p j cn' t Hp Hcn' Ht) as [_ Hw'].
    assert (id = j) as -> by (eapply (po_apart _ Hp); [done..|]; right; congruence). congruence.
  - intros Hname. by exists id, s.
Qed.

Lemma plane_ok_close p id cn s name reason :
  plane_ok p → pl_conns p !! id = Some cn → subs (pl_registry p) !! id = Some s →
  ∃ v, watches (pl_heap p) !! cn_watch cn = Some v ∧
    watches (close_named name reason (pl_registry p) (pl_heap p)) !! cn_watch cn =
      Some (if decide (sub_name s = name) then Some reason else v).
Proof.
  intros Hp Hcn Hs. destruct (po_cells _ Hp id cn Hcn) as [_ [v Hv]]. exists v. split; [done|].
  pose proof (plane_ok_named p id cn s name Hp Hcn Hs) as Hnamed.
  destruct (close_named_spec name reason (pl_registry p) (pl_heap p) (cn_watch cn)) as (Hin & Hout & _).
  case_decide; [rewrite Hin by by apply Hnamed|rewrite Hout by by rewrite Hnamed]; by rewrite Hv.
Qed.

(** ** Theorems *)

(** C5: subscribers never get each other's frames, and a revocation never hits
    another's connection: whatever the interleaving of handshakes, client frames,
    stampings, deliveries and closings, the registry lists exactly the connections
    whose tasks run; a connection's queue is within its budgets; the delivery of a
    stamped batch pushes to it exactly the frames its own patterns select, in
    order; closing a name signals it exactly when it has that name, and it is then
    gone after its task's next look at the cell. *)
Theorem connections_stay_apart steps (r : Registry Db) p :
  subs r = ∅ → next_id r = 1 → Forall sized steps → len steps < 2 ^ 64 - 1 →
  plane_run steps (Plane_new r) = Some p →
  (∀ id, is_Some (subs (pl_registry p) !! id) ↔ is_Some (pl_conns p !! id)) ∧
  ∀ id cn s, pl_conns p !! id = Some cn → subs (pl_registry p) !! id = Some s →
    (∃ queue, queues (pl_heap p) !! cn_queue cn = Some queue ∧ within_budget queue ∧
      ∀ i frames, pl_batches p !! i = Some frames → ∃ p',
        plane_step (PlDeliver i) p = Some p' ∧
        queues (pl_heap p') !! cn_queue cn =
          Some (foldl (λ queue t, push_event t queue) queue (texts_for (sub_patterns s) frames))) ∧
    (∀ name reason, ∃ v p', watches (pl_heap p) !! cn_watch cn = Some v ∧
      plane_step (PlCloseNamed name reason) p = Some p' ∧
      watches (pl_heap p') !! cn_watch cn =
        Some (if decide (sub_name s = name) then Some reason else v)) ∧
    (∀ reason, ∃ p',
      plane_run [PlCloseNamed (sub_name s) reason; PlConn id (CeCloseChanged true)] p = Some p' ∧
      pl_conns p' = delete id (pl_conns p) ∧
      subs (pl_registry p') = delete id (subs (pl_registry p))).
Proof.
  intros Hsubs Hnext Hsized Hlen Hrun.
  assert (plane_ok p) as Hp.
  { eapply plane_run_ok; [by apply plane_new_ok|done| |done]. cbn [Plane_new pl_registry]. lia. }
  split.
  { intros id. rewrite <- (fmap_is_Some handles), (po_same _ Hp id). apply fmap_is_Some. }
  intros id cn s Hcn Hs. pose proof (plane_ok_registered p id cn s Hp Hcn Hs) as [Hq Hw].
  split; [|split].
  - destruct (po_cells _ Hp id cn Hcn) as [[queue Hqueue] _]. exists queue.
    split; [done|]. split; [by eapply (po_budget _ Hp)|]. intros i frames Hframes.
    eexists. cbn [plane_step]. rewrite Hframes. split; [done|]. cbn [pl_heap].
    rewrite <- Hq, (fanout_deliver_own _ _ _ id s (plane_ok_distinct p Hp) Hs), Hq. by rewrite Hqueue.
  - intros name reason. destruct (plane_ok_close p id cn s name reason Hp Hcn Hs) as (v & Hv & Hv').
    by exists v, (MkPlane (pl_registry p) (close_named name reason (pl_registry p) (pl_heap p))
      (pl_conns p) (pl_batches p)).
  - intros reason. destruct (plane_ok_close p id cn s (sub_name s) reason Hp Hcn Hs) as (v & _ & Hv').
    rewrite decide_True in Hv' by done.
    cbn [plane_run plane_step mbind option_bind pl_conns]. rewrite Hcn.
    cbn [mbind option_bind completes negb ws_event ws_step ws_heap pl_heap]. rewrite Hv'.
    destruct (to_string (Sub_Closing reason)); by eexists.
Qed.
End plane.

(** ** Witnesses *)

Section witnesses.
#[local] Existing Instance MemDb.mem_redb.
#[local] Existing Instance BitCodec.wire.
#[local] Existing Instance some_order.

Definition roomy : LimitsConfig := Config.LimitsConfig_default.

Definition busy_plane : list PlaneStep :=
  [PlOpen "alice" roomy 10 20; PlOpen "bob" roomy 11 21;
   PlConn 1 (CeIncoming (Some (Ok (MText (unwrap_or EmptyString
     (to_string (Subscribe ["fake.>"] None)))))));
   PlStamp 0 [sample_event] 2000 sample_uuid].

Definition busy : Plane (Db := list (Z * string)) :=
  default (Plane_new SubscriberRegistry_new)
    (plane_run (λ l, l) (λ l, l) busy_plane (Plane_new SubscriberRegistry_new)).
Definition bob_conn : Conn := MkConn 11 21 (MkSink true [MText (encode (Sub_Welcome "bob"))]) false.
Definition stamped_frames : list StampedFrame :=
  [MkStampedFrame 1 (sample_uuid 0) 2000 "fake.a" "eA=="].
Definition bob_sub : Subscriber := MkSubscriber "bob" None [] 11 21.

(** Alice subscribed to what is stamped, Bob did not: the delivery leaves Bob's
    queue empty, and revoking Alice leaves Bob's close cell. *)
Lemma connections_stay_apart_witness :
  (∃ p', plane_step (λ l, l) (λ l, l) (PlDeliver 0) busy = Some p' ∧
    (length ∘ inner) <$> queues (pl_heap p') !! 10 = Some 2%nat ∧
    queues (pl_heap p') !! 11 = Some (OutboundQueue_new 1024 8388608)) ∧
  (∃ p', plane_step (λ l, l) (λ l, l) (PlCloseNamed "alice" ReasonRevoked) busy = Some p' ∧
    watches (pl_heap p') !! 20 = Some (Some ReasonRevoked) ∧ watches (pl_heap p') !! 21 = Some None).
Proof.
  assert (plane_run (λ l, l) (λ l, l) busy_plane (Plane_new SubscriberRegistry_new) = Some busy) as Hrun
    by (vm_compute; reflexivity).
  assert (pl_conns busy !! 2 = Some bob_conn) as Hconn by (vm_compute; reflexivity).
  assert (pl_batches busy !! 0%nat = Some stamped_frames) as Hframes by (vm_compute; reflexivity).
  assert (subs (pl_registry busy) !! 2 = Some bob_sub) as Hsub by (vm_compute; reflexivity).
  destruct (connections_stay_apart (λ l, l) (λ l, l) busy_plane SubscriberRegistry_new busy eq_refl eq_refl
    ltac:(repeat constructor) eq_refl Hrun) as [_ Heach].
  destruct (Heach 2 bob_conn bob_sub Hconn Hsub) as ((queue & Hq & _ & Hdeliver) & Hclose & _).
  split.
  - destruct (Hdeliver 0%nat stamped_frames Hframes) as (p' & Hp' & Hq'). exists p'. split; [exact Hp'|].
    assert (queue = OutboundQueue_new 1024 8388608) as ->.
    { apply Some_inj. rewrite <- Hq. vm_compute. reflexivity. }
    split; [|exact Hq'].
    assert (∀ p1, plane_step (λ l, l) (λ l, l) (PlDeliver 0) busy = Some p1 →
      (length ∘ inner) <$> queues (pl_heap p1) !! 10 = Some 2%nat) as Hat; [|by apply Hat].
    intros p1 H1. vm_compute in H1. injection H1 as <-. vm_compute. reflexivity.
  - destruct (Hclose "alice" ReasonRevoked) as (v & p' & Hv & Hp' & Hw). exists p'.
    split; [exact Hp'|]. split.
    + injection Hp' as <-. vm_compute. reflexivity.
    + assert (v = None) as -> by (apply Some_inj; rewrite <- Hv; vm_compute; reflexivity).
      exact Hw.
Defined.
End witnesses.
