(* ===== verification/SubKit.v ===== *)
(** * SubKit: the subscriber client library

    [crates/whdr-sub-kit/src/{lib,connection,frame,resume,cursor,error}.rs], and
    the attempt counter of [backoff.rs].  The transport is what the client
    observes of it: the outcome of a connect, then the messages its stream
    yields.  The user's [Handler] and [CursorStore] are interfaces (records of
    operations on a state of the user's). *)

From S2P Require Import Prelude.
From S2P Require Import Text.
From S2P Require Import Messages.
From S2P Require Import SubscriberWs.
From Stdlib Require Import Ascii.

Local Open Scope Z_scope.

(** ** Errors ([error.rs]) *)

Inductive SubError : Type :=
  | EAuth
  | EHttp (status : Z)
  | ERevoked
  | EHandler (msg : string)
  | ECursorStore (msg : string)
  | ETransport
  | EConnectionClosed
  | ERequest (msg : string).

Definition is_fatal (e : SubError) : bool :=
  match e with
  | EAuth | ERevoked | EHandler _ | ECursorStore _ | ERequest _ => true
  | EHttp _ | ETransport | EConnectionClosed => false
  end.

(** ** Resume state ([resume.rs]) *)

(** The [HashSet] of recent ids and the queue of their insertion order. *)
Record ResumeState : Type := MkResumeState {
  cursor : Z;
  seen : gset Uuid;
  order : list Uuid;
  capacity : Z
}.

Definition ResumeState_new (cursor capacity : Z) : ResumeState :=
  MkResumeState cursor ∅ [] (Z.max capacity 1).

Definition should_process (id : Uuid) (seq : Z) (r : ResumeState) : bool :=
  (cursor r <? seq) && negb (bool_decide (id ∈ seen r)).

Definition record (id : Uuid) (seq : Z) (r : ResumeState) : ResumeState :=
  let '(seen', order') :=
    if bool_decide (id ∈ seen r) then (seen r, order r)
    else
      let seen1 := {[id]} ∪ seen r in
      let order1 := order r ++ [id] in
      if capacity r <? len order1 then
        match order1 with
        | old :: rest => (seen1 ∖ {[old]}, rest)
        | [] => (seen1, order1)
        end
      else (seen1, order1) in
  MkResumeState (if cursor r <? seq then seq else cursor r) seen' order' (capacity r).

(** ** Frames ([frame.rs]) *)

Record DeliveredEvent : Type := MkDeliveredEvent {
  de_id : Uuid;
  de_seq : Z;
  de_ts_ms : Z;
  de_channel : string;
  de_payload_b64 : string
}.

Inductive WsAction : Type :=
  | AText (text : string)
  | APong (payload : string)
  | AClosed
  | AIgnore.

Definition classify (m : Message) : WsAction :=
  match m with
  | MText text => AText text
  | MPing payload => APong payload
  | MClose => AClosed
  | MBinary _ | MPong _ => AIgnore
  end.

Definition closing_is_fatal (reason : ClosingReason) : bool :=
  match reason with ReasonRevoked => true | ReasonShutdown => false end.

(** ** Back-off attempts ([backoff.rs]; the delays are in Backoff.v) *)

Definition backoff_next (attempt : Z) : Z := Z.min (attempt + 1) (2 ^ 32 - 1).

(** ** Interfaces of the user ([CursorStore], [Handler]) *)

Record CursorStore (S : Type) : Type := MkCursorStore {
  load : S → result SubError Z;
  save : Z → S → result SubError () * S
}.
Arguments load {S}.
Arguments save {S}.

(** [MemoryCursorStore]. *)
Definition MemoryCursorStore : CursorStore Z :=
  MkCursorStore Z (λ c, Ok c) (λ c _, (Ok (), c)).

Record Handler (H : Type) : Type := MkHandler {
  on_event : DeliveredEvent → H → result string () * H;
  on_replayed : Z → H → result string () * H;
  on_replay_gap : Z → Z → H → result string () * H;
  on_lagged : Z → H → result string () * H;
  on_replay_unavailable : string → H → result string () * H
}.
Arguments on_event {H}.
Arguments on_replayed {H}.
Arguments on_replay_gap {H}.
Arguments on_lagged {H}.
Arguments on_replay_unavailable {H}.

Section sub_kit.
Context {M : Wire SubServerMsg} {C : Wire SubClientMsg}.

Definition parse_frame (text : string) : option SubServerMsg := to_option (from_str text).

(** ** Connections ([connection.rs]) *)

(** What is left of the stream ([None] of [stream.next()] at its end), and the
    sink. *)
Record Connection : Type := MkConnection {
  incoming : list (result () Message);
  conn_sink : Sink;
  conn_name : string
}.

Definition subscribe_msg (patterns : list string) (after : option Z) : SubClientMsg :=
  Subscribe patterns (MkReplayRequest <$> after).

(** [serde_json::to_string(msg).expect(..)] of a client message. *)
Definition client_text (msg : SubClientMsg) : string := unwrap_or EmptyString (to_string msg).

Definition conn_send (msg : SubClientMsg) (c : Connection) : result SubError () * Connection :=
  let '(failed, k) := send (MText (client_text msg)) (conn_sink c) in
  (if failed then Err ETransport else Ok (), MkConnection (incoming c) k (conn_name c)).

Definition conn_subscribe (patterns : list string) (after : option Z) (c : Connection)
    : result SubError () * Connection :=
  conn_send (subscribe_msg patterns after) c.

(** [Connection::recv]: skip until a frame parses. *)
Fixpoint recv_from (items : list (result () Message)) (k : Sink)
    : result SubError SubServerMsg * list (result () Message) * Sink :=
  match items with
  | [] => (Err EConnectionClosed, [], k)
  | Err _ :: rest => (Err ETransport, rest, k)
  | Ok m :: rest =>
      match classify m with
      | AText text =>
          match parse_frame text with
          | Some msg => (Ok msg, rest, k)
          | None => recv_from rest k
          end
      | APong payload =>
          let '(failed, k') := send (MPong payload) k in
          if failed then (Err ETransport, rest, k') else recv_from rest k'
      | AClosed => (Err EConnectionClosed, rest, k)
      | AIgnore => recv_from rest k
      end
  end.

Definition recv (c : Connection) : result SubError SubServerMsg * Connection :=
  let '(r, rest, k) := recv_from (incoming c) (conn_sink c) in
  (r, MkConnection rest k (conn_name c)).

(** The outcome of the upgrade: an open stream, an HTTP status, or another
    failure; [map_connect_error]. *)
Inductive Upgrade : Type :=
  | Upgraded (items : list (result () Message)) (k : Sink)
  | HttpStatus (status : Z)
  | UpgradeFailed.

(** The welcome loop of [Connection::connect]; [fuel] bounds the frames read,
    each of which consumes an item. *)
Fixpoint await_welcome (fuel : nat) (c : Connection) : option (result SubError Connection) :=
  match recv c with
  | (Err e, _) => Some (Err e)
  | (Ok (Sub_Welcome name), c') => Some (Ok (MkConnection (incoming c') (conn_sink c') name))
  | (Ok _, c') =>
      match fuel with O => None | S fuel' => await_welcome fuel' c' end
  end.

Definition connect (u : Upgrade) : option (result SubError Connection) :=
  match u with
  | Upgraded items k => await_welcome (length items) (MkConnection items k EmptyString)
  | HttpStatus status => Some (Err (if status =? 401 then EAuth else EHttp status))
  | UpgradeFailed => Some (Err ETransport)
  end.

(** ** The run loop ([lib.rs]) *)

Section client.
Context {H St : Type} (handler : Handler H) (store : CursorStore St).

Record ClientState : Type := MkClientState {
  st_handler : H;
  st_resume : ResumeState;
  st_store : St;
  st_attempt : Z
}.

(** A frame's effect: [None] to go on, [Some r] to end the session with
    [r]. *)
Definition hook (r : result string () * H) (st : ClientState) (k : option (result SubError ()))
    : option (result SubError ()) * ClientState :=
  let '(res, h) := r in
  let st' := MkClientState h (st_resume st) (st_store st) (st_attempt st) in
  match res with
  | Err e => (Some (Err (EHandler e)), st')
  | Ok _ => (k, st')
  end.

Definition on_frame (msg : SubServerMsg) (st : ClientState)
    : option (result SubError ()) * ClientState :=
  match msg with
  | Sub_Event id seq ts_ms channel payload_b64 =>
      if should_process id seq (st_resume st) then
        let event := MkDeliveredEvent id seq ts_ms channel payload_b64 in
        let '(res, h) := on_event handler event (st_handler st) in
        match res with
        | Err e =>
            (Some (Err (EHandler e)),
             MkClientState h (st_resume st) (st_store st) (st_attempt st))
        | Ok _ =>
            let resume := record id seq (st_resume st) in
            let '(saved, s) := save store (cursor resume) (st_store st) in
            let st' := MkClientState h resume s (st_attempt st) in
            match saved with
            | Err e => (Some (Err e), st')
            | Ok _ => (None, st')
            end
        end
      else (None, st)
  | Sub_Replayed through_seq =>
      hook (on_replayed handler through_seq (st_handler st)) st None
  | Sub_ReplayGap from_seq earliest_seq =>
      hook (on_replay_gap handler from_seq earliest_seq (st_handler st)) st None
  | Sub_Lagged dropped => hook (on_lagged handler dropped (st_handler st)) st (Some (Ok ()))
  | Sub_Error op msg =>
      if String.eqb op "replay"
      then hook (on_replay_unavailable handler msg (st_handler st)) st None
      else (None, st)
  | Sub_Closing reason =>
      if closing_is_fatal reason then (Some (Err ERevoked), st) else (Some (Ok ()), st)
  | Sub_Welcome _ | Sub_Ok _ | Sub_Pong => (None, st)
  end.

(** The receive loop of [run_session]; [fuel] as for [await_welcome]. *)
Fixpoint session_loop (fuel : nat) (c : Connection) (st : ClientState)
    : option (result SubError () * ClientState) :=
  match recv c with
  | (Err e, _) => Some (Err e, st)
  | (Ok msg, c') =>
      match on_frame msg st with
      | (Some r, st') => Some (r, st')
      | (None, st') =>
          match fuel with O => None | S fuel' => session_loop fuel' c' st' end
      end
  end.

Definition run_session (patterns : list string) (u : Upgrade) (st : ClientState)
    : option (result SubError () * ClientState) :=
  conn ← connect u;
  match conn with
  | Err e => Some (Err e, st)
  | Ok conn =>
      let st := MkClientState (st_handler st) (st_resume st) (st_store st) 0 in
      match conn_subscribe patterns (Some (cursor (st_resume st))) conn with
      | (Err e, _) => Some (Err e, st)
      | (Ok _, conn') => session_loop (length (incoming conn')) conn' st
      end
  end.

(** The loop of [run] over the connection attempts the network grants:
    [Some e] is the fatal error it returns. *)
Fixpoint run_sessions (patterns : list string) (us : list Upgrade) (st : ClientState)
    : option (option SubError * ClientState) :=
  match us with
  | [] => Some (None, st)
  | u :: rest =>
      '(r, st') ← run_session patterns u st;
      match r with
      | Err e =>
          if is_fatal e then Some (Some e, st')
          else run_sessions patterns rest
                 (MkClientState (st_handler st') (st_resume st') (st_store st')
                    (backoff_next (st_attempt st')))
      | Ok _ =>
          run_sessions patterns rest
            (MkClientState (st_handler st') (st_resume st') (st_store st')
               (backoff_next (st_attempt st')))
      end
  end.

Definition run (patterns : list string) (dedup_capacity : Z) (us : list Upgrade) (h : H) (s : St)
    : option (option SubError * ClientState) :=
  match load store s with
  | Err e => Some (Some e, MkClientState h (ResumeState_new 0 dedup_capacity) s 0)
  | Ok cursor =>
      run_sessions patterns us
        (MkClientState h (ResumeState_new cursor dedup_capacity) s 0)
  end.
End client.
End sub_kit.
Arguments ClientState : clear implicits.

(** ** Specification: the resume state *)

(** The set and the queue hold the same ids, once each, at most [capacity]. *)
Definition resume_wf (r : ResumeState) : Prop :=
  1 ≤ capacity r ∧ seen r = list_to_set (order r) ∧ NoDup (order r) ∧ len (order r) ≤ capacity r.

Lemma ResumeState_new_wf c cap : resume_wf (ResumeState_new c cap).
Proof.
  unfold resume_wf, ResumeState_new. cbn. split; [lia|]. split; [done|]. split; [constructor|].
  unfold len. cbn. lia.
Qed.

Lemma record_cursor id seq r : cursor (record id seq r) = Z.max (cursor r) seq.
Proof.
  unfold record. case_match. cbn. destruct (cursor r <? seq) eqn:Hlt; bool_to_prop; lia.
Qed.

(** The last [n] elements of a list. *)
Definition last_n {A} (n : Z) (l : list A) : list A := drop (length l - Z.to_nat n) l.

Lemma record_order id seq r :
  resume_wf r →
  order (record id seq r) =
    if bool_decide (id ∈ order r) then order r else last_n (capacity r) (order r ++ [id]).
Proof.
  intros (Hcap & Hseen & Hnd & Hlen). unfold record. rewrite Hseen.
  rewrite (bool_decide_ext (id ∈ list_to_set (C := gset Uuid) (order r)) (id ∈ order r))
    by apply elem_of_list_to_set.
  case_bool; [done|]. unfold last_n. rewrite len_app. change (len [id]) with 1.
  unfold len in *. rewrite length_app. cbn [length].
  destruct (capacity r <? Z.of_nat (length (order r)) + 1) eqn:Hfull; bool_to_prop.
  - assert (length (order r) + 1 - Z.to_nat (capacity r) = 1)%nat as -> by lia.
    by destruct (order r).
  - by assert (length (order r) + 1 - Z.to_nat (capacity r) = 0)%nat as -> by lia.
Qed.

Lemma record_wf id seq r : resume_wf r → resume_wf (record id seq r).
Proof.
  intros (Hcap & Hseen & Hnd & Hlen). unfold record. rewrite Hseen.
  destruct (bool_decide (id ∈ list_to_set (C := gset Uuid) (order r))) eqn:Hin; bool_to_prop.
  { done. }
  rewrite elem_of_list_to_set in Hin. rewrite len_app. change (len [id]) with 1.
  assert (NoDup (order r ++ [id])) as Hnd'.
  { apply NoDup_app. split_and!; [done| |apply NoDup_singleton].
    intros x Hx ->%list_elem_of_singleton. done. }
  destruct (capacity r <? len (order r) + 1) eqn:Hfull; bool_to_prop; unfold resume_wf; cbn.
  - destruct (order r) as [|old rest] eqn:Ho; cbn [app] in *.
    { change (len (@nil Uuid)) with 0 in *. lia. }
    apply NoDup_cons in Hnd' as [Hold Hnd']. rewrite len_cons in *.
    cbn. split; [done|]. split; [|split; [done|rewrite len_app; change (len [id]) with 1; lia]].
    rewrite list_to_set_app_L. cbn. set_solver.
  - split; [done|]. split; [rewrite list_to_set_app_L; cbn; set_solver|].
    split; [done|]. rewrite len_app. change (len [id]) with 1. lia.
Qed.

(** ** Specification: termination on a finite stream *)

Section termination.
Context {M : Wire SubServerMsg} {C : Wire SubClientMsg}.

Lemma recv_from_shrinks items k msg rest k' :
  recv_from items k = (Ok msg, rest, k') → (length rest < length items)%nat.
Proof.
  revert k. induction items as [|[m|[]] items IH]; intros k; cbn [recv_from]; [done| |done].
  intros Hr. cbn [length].
  assert (∀ k, recv_from items k = (Ok msg, rest, k') → (length rest < S (length items))%nat)
    as Hskip by (intros k0 H0; apply IH in H0; lia).
  destruct (classify m) as [text|payload| |]; [|..|done|by eapply Hskip].
  - destruct (parse_frame text); [simplify_eq; lia|by eapply Hskip].
  - destruct (send _ k) as [[] k1]; [done|by eapply Hskip].
Qed.

Lemma recv_shrinks c msg c' :
  recv c = (Ok msg, c') → (length (incoming c') < length (incoming c))%nat.
Proof.
  unfold recv. destruct (recv_from _ _) as [[r rest] k] eqn:Hr. intros [= -> <-].
  by eapply recv_from_shrinks.
Qed.

Lemma recv_nil c : incoming c = [] → ∃ c', recv c = (Err EConnectionClosed, c').
Proof. unfold recv. intros ->. cbn. eauto. Qed.

Lemma await_welcome_total fuel c :
  (length (incoming c) ≤ fuel)%nat → is_Some (await_welcome fuel c).
Proof.
  revert c. induction fuel as [|fuel IH]; intros c Hlen; cbn [await_welcome];
    destruct (recv c) as [[msg|e] c'] eqn:Hr; try done; apply recv_shrinks in Hr; [lia|].
  destruct msg; try done; apply IH; lia.
Qed.

Lemma connect_total u : is_Some (connect u).
Proof. destruct u; cbn; [|done..]. by apply await_welcome_total. Qed.

Context {H St : Type} (handler : Handler H) (store : CursorStore St).

Lemma session_loop_total fuel c st :
  (length (incoming c) ≤ fuel)%nat → is_Some (session_loop handler store fuel c st).
Proof.
  revert c st. induction fuel as [|fuel IH]; intros c st Hlen; cbn [session_loop];
    destruct (recv c) as [[msg|e] c'] eqn:Hr; try done; apply recv_shrinks in Hr; [lia|].
  destruct (on_frame _ _ _ _) as [[r|] st']; [done|]. apply IH. lia.
Qed.

Lemma run_session_total patterns u st : is_Some (run_session handler store patterns u st).
Proof.
  unfold run_session. destruct (connect_total u) as [[conn|e] ->]; cbn; [|done].
  destruct (conn_subscribe _ _ _) as [[[]|e] conn']; [|done]. by apply session_loop_total.
Qed.

Lemma run_total patterns cap us h s : is_Some (run handler store patterns cap us h s).
Proof.
  unfold run. destruct (load store s) as [c|e]; [|done]. generalize (MkClientState h
    (ResumeState_new c cap) s 0). induction us as [|u us IH]; intros st; cbn [run_sessions]; [done|].
  destruct (run_session_total patterns u st) as [[r st'] ->]. cbn.
  destruct r as [[]|e]; [apply IH|]. destruct (is_fatal e); [done|apply IH].
Qed.
End termination.

(** ** Specification: invariants of the run loop *)

Section invariants.
Context {M : Wire SubServerMsg} {C : Wire SubClientMsg}.
Context {H St : Type} (handler : Handler H) (store : CursorStore St).
Implicit Types st : ClientState H St.
Context (I : H → ResumeState → St → Prop).

Definition holds_in st : Prop := I (st_handler st) (st_resume st) (st_store st).
Context (Hframe : ∀ msg st r st',
  holds_in st → on_frame handler store msg st = (r, st') → holds_in st').

Lemma session_loop_preserves fuel c st r st' :
  holds_in st → session_loop handler store fuel c st = Some (r, st') → holds_in st'.
Proof.
  revert c st. induction fuel as [|fuel IH]; intros c st Hinv; cbn [session_loop];
    (destruct (recv c) as [[msg|e] c']; [|by intros [= <- <-]]);
    destruct (on_frame _ _ msg st) as [[r'|] st1] eqn:Hf; apply Hframe in Hf;
    try done; try (by intros [= <- <-]).
  by apply IH.
Qed.

Lemma run_session_preserves patterns u st r st' :
  holds_in st → run_session handler store patterns u st = Some (r, st') → holds_in st'.
Proof.
  intros Hinv. unfold run_session. destruct (connect u) as [[conn|e]|]; cbn; [|by intros [= <- <-]|done].
  destruct (conn_subscribe _ _ _) as [[[]|e] conn']; [|by intros [= <- <-]].
  by apply session_loop_preserves.
Qed.

Lemma run_sessions_preserves patterns us st r st' :
  holds_in st → run_sessions handler store patterns us st = Some (r, st') → holds_in st'.
Proof.
  revert st. induction us as [|u us IH]; intros st Hinv; cbn [run_sessions]; [by intros [= <- <-]|].
  destruct (run_session _ _ _ u st) as [[r1 st1]|] eqn:Hs; [|done]. cbn.
  apply run_session_preserves in Hs; [|done]. destruct r1 as [[]|e]; [by apply IH|].
  destruct (is_fatal e); [by intros [= <- <-]|by apply IH].
Qed.
End invariants.

(** ** Specification: at most once, in order *)

(** A handler with a log of the events it returned [Ok] for. *)
Definition logged {H} (hd : Handler H) : Handler (H * list DeliveredEvent) := {|
  on_event ev h :=
    let '(res, h1) := on_event hd ev h.1 in
    (res, (h1, match res with Ok _ => h.2 ++ [ev] | Err _ => h.2 end));
  on_replayed n h := let '(res, h1) := on_replayed hd n h.1 in (res, (h1, h.2));
  on_replay_gap a b h := let '(res, h1) := on_replay_gap hd a b h.1 in (res, (h1, h.2));
  on_lagged n h := let '(res, h1) := on_lagged hd n h.1 in (res, (h1, h.2));
  on_replay_unavailable m h := let '(res, h1) := on_replay_unavailable hd m h.1 in (res, (h1, h.2))
|}.

Section in_order.
Context {M : Wire SubServerMsg} {C : Wire SubClientMsg}.
Context {H St : Type} (hd : Handler H) (store : CursorStore St).
Implicit Types st : ClientState (H * list DeliveredEvent) St.

(** The log's sequence numbers increase strictly from [c0]; the cursor is the
    last of them. *)
Definition log_ok (c0 : Z) (h : H * list DeliveredEvent) (r : ResumeState) (_ : St) : Prop :=
  let seqs := de_seq <$> h.2 in
  StronglySorted Z.lt (c0 :: seqs) ∧ cursor r = default c0 (last seqs) ∧ resume_wf r.
Definition log_inv (c0 : Z) st : Prop := holds_in (log_ok c0) st.

Lemma StronglySorted_snoc (c0 : Z) l x :
  StronglySorted Z.lt (c0 :: l) → default c0 (last l) < x → StronglySorted Z.lt (c0 :: l ++ [x]).
Proof.
  revert c0. induction l as [|y l IH]; intros c0 Hs Hx.
  - repeat constructor. exact Hx.
  - apply StronglySorted_inv in Hs as [Hs Hall]. inversion_clear Hall as [|? ? Hy _].
    assert (default y (last l) < x) as Hx'
      by (rewrite last_cons in Hx; by destruct (last l)).
    specialize (IH y Hs Hx'). constructor; [done|].
    apply StronglySorted_inv in IH as [_ Hall]. constructor; [done|].
    eapply Forall_impl; [exact Hall|]. simpl. lia.
Qed.

Lemma hook_inv c0 r st k res st' :
  log_inv c0 st → r.2.2 = (st_handler st).2 → hook r st k = (res, st') → log_inv c0 st'.
Proof.
  intros Hinv Hlog. unfold hook. destruct r as [[[]|e] [h l]]; cbn in Hlog; subst l;
    intros [= <- <-]; done.
Qed.

Lemma on_frame_inv c0 msg st res st' :
  log_inv c0 st → on_frame (logged hd) store msg st = (res, st') → log_inv c0 st'.
Proof.
  intros Hinv. destruct msg as [n|op|op m|id seq ts c p|n|a b|n| |reason]; cbn [on_frame];
    try (by intros [= <- <-]);
    try (apply hook_inv; [done|]; cbn; by case_match).
  - destruct (String.eqb op "replay"); [|by intros [= <- <-]].
    apply hook_inv; [done|]. cbn. by case_match.
  - destruct (should_process id seq (st_resume st)) eqn:Hp; [|by intros [= <- <-]].
    cbn [on_event logged]. destruct (on_event hd _ _) as [[[]|e] h]; [|by intros [= <- <-]].
    set (ev := MkDeliveredEvent id seq ts c p).
    destruct Hinv as (Hs & Hc & Hwf).
    unfold should_process in Hp. apply andb_true_iff in Hp as [Hlt _]. apply Z.ltb_lt in Hlt.
    assert (∀ s, log_inv c0 (MkClientState (h, (st_handler st).2 ++ [ev])
      (record id seq (st_resume st)) s (st_attempt st))) as Hnew.
    { intros s. unfold log_inv, holds_in, log_ok. cbn [st_handler st_resume snd]. rewrite fmap_app.
      split; [|split; [|by apply record_wf]].
      - apply StronglySorted_snoc; [done|]. cbn. by rewrite <- Hc.
      - rewrite record_cursor. cbn. rewrite last_snoc. cbn. lia. }
    destruct (save store _ _) as [[[]|e] s]; intros [= <- <-]; apply Hnew.
  - destruct (closing_is_fatal reason); by intros [= <- <-].
Qed.

End in_order.

(** The memory store holds the resume cursor. *)
Lemma on_frame_memory {H} (hd : Handler H) msg (st st' : ClientState H Z) r :
  st_store st = cursor (st_resume st) → on_frame hd MemoryCursorStore msg st = (r, st') →
  st_store st' = cursor (st_resume st').
Proof.
  intros Hst. assert (∀ res k, hook res st k = (r, st') → st_store st' = cursor (st_resume st')) as Hhook.
  { intros [[[]|e] h] k; cbn; by intros [= <- <-]. }
  destruct msg; cbn [on_frame]; try (by intros [= <- <-]); try apply Hhook.
  - destruct (String.eqb op "replay"); [apply Hhook|by intros [= <- <-]].
  - destruct (should_process _ _ _); [|by intros [= <- <-]].
    destruct (on_event _ _ _) as [[[]|e] h]; cbn; by intros [= <- <-].
  - destruct (closing_is_fatal reason); by intros [= <- <-].
Qed.

(** ** Specification: sessions as folds over frames *)

Section sessions.
Context {M : Wire SubServerMsg} {L : WireLaws SubServerMsg} {C : Wire SubClientMsg}.
Context {H St : Type} (handler : Handler H) (store : CursorStore St).
Implicit Types st : ClientState H St.

(** [on_frame] frame by frame until a frame ends the session. *)
Fixpoint process (msgs : list SubServerMsg) st : option (result SubError ()) * ClientState H St :=
  match msgs with
  | [] => (None, st)
  | msg :: rest =>
      match on_frame handler store msg st with
      | (Some r, st') => (Some r, st')
      | (None, st') => process rest st'
      end
  end.

Lemma process_app msgs1 msgs2 st :
  process (msgs1 ++ msgs2) st =
    match process msgs1 st with
    | (Some r, st') => (Some r, st')
    | (None, st') => process msgs2 st'
    end.
Proof.
  revert st. induction msgs1 as [|msg msgs1 IH]; intros st; [done|]. cbn [process app].
  destruct (on_frame _ _ msg st) as [[r|] st1]; [done|]. apply IH.
Qed.

(** The codec encodes every server message. *)
Definition codec_total : Prop := ∀ m : SubServerMsg, is_ok (to_string m) = true.

Definition text_items (msgs : list SubServerMsg) : list (result () Message) :=
  (λ m, Ok (MText (encode m))) <$> msgs.

Lemma parse_encode m : codec_total → parse_frame (encode m) = Some m.
Proof.
  intros Htot. specialize (Htot m). unfold parse_frame, encode.
  destruct (to_string m) as [t|e] eqn:Ht; [|done]. cbn. by rewrite (wire_round_trip _ _ Ht).
Qed.

(** A session over well-formed frames that the server closes at their end. *)
Lemma session_loop_frames fuel msgs k n st :
  codec_total → (length msgs ≤ fuel)%nat →
  session_loop handler store fuel (MkConnection (text_items msgs) k n) st =
    Some (match process msgs st with
          | (Some r, st') => (r, st')
          | (None, st') => (Err EConnectionClosed, st')
          end).
Proof.
  intros Htot. revert fuel st. induction msgs as [|msg msgs IH]; intros fuel st Hlen.
  { by destruct fuel. }
  destruct fuel as [|fuel]; cbn [length] in Hlen; [lia|].
  assert (recv (MkConnection (text_items (msg :: msgs)) k n) =
    (Ok msg, MkConnection (text_items msgs) k n)) as Hr.
  { unfold recv. cbn [incoming conn_sink conn_name text_items fmap list_fmap recv_from classify].
    by rewrite parse_encode. }
  cbn [session_loop process]. rewrite Hr.
  destruct (on_frame _ _ msg st) as [[r|] st1]; [done|]. apply IH. lia.
Qed.
End sessions.

(** *** Handlers and stores that always succeed *)

Section accepting.
Context {H St : Type} (hd : Handler H) (store : CursorStore St).

Record accepting : Prop := {
  event_ok ev h : ∃ h', on_event hd ev h = (Ok (), h');
  replayed_ok n h : ∃ h', on_replayed hd n h = (Ok (), h');
  gap_ok a b h : ∃ h', on_replay_gap hd a b h = (Ok (), h');
  save_ok c s : ∃ s', save store c s = (Ok (), s')
}.

Context (Hok : accepting).
Implicit Types st : ClientState (H * list DeliveredEvent) St.

Definition ev_msg (e : DeliveredEvent) : SubServerMsg :=
  Sub_Event (de_id e) (de_seq e) (de_ts_ms e) (de_channel e) (de_payload_b64 e).

(** Events in sequence order whose unprocessed ids are not in the window. *)
Definition fresh st (es : list DeliveredEvent) : Prop :=
  StronglySorted Z.lt (de_seq <$> es) ∧ NoDup (de_id <$> es) ∧
  ∀ e, e ∈ es → cursor (st_resume st) < de_seq e → de_id e ∉ seen (st_resume st).

Lemma record_seen_subset id seq r : seen (record id seq r) ⊆ {[id]} ∪ seen r.
Proof.
  unfold record. repeat case_match; simplify_eq/=; set_solver.
Qed.

(** An accepting client handles every event of the frames past its cursor, once,
    in order. *)
Lemma process_events es st :
  fresh st es →
  ∃ st', process (logged hd) store (ev_msg <$> es) st = (None, st') ∧
    (st_handler st').2 = (st_handler st).2 ++ filter (λ e, cursor (st_resume st) < de_seq e) es ∧
    cursor (st_resume st') = default (cursor (st_resume st))
      (last (de_seq <$> filter (λ e, cursor (st_resume st) < de_seq e) es)) ∧
    seen (st_resume st') ⊆ seen (st_resume st) ∪
      list_to_set (de_id <$> filter (λ e, cursor (st_resume st) < de_seq e) es).
Proof.
  revert st. induction es as [|e es IH]; intros st (Hs & Hnd & Hfr).
  { exists st. cbn. rewrite app_nil_r. split_and!; [done..|set_solver]. }
  csimpl in *. apply StronglySorted_inv in Hs as [Hs Hall]. apply NoDup_cons in Hnd as [Hni Hnd].
  rewrite (Forall_fmap de_seq) in Hall.
  unfold should_process. cbn [process ev_msg on_frame].
  destruct (Z.lt_ge_cases (cursor (st_resume st)) (de_seq e)) as [Hlt|Hge].
  - rewrite (bool_decide_eq_false_2 (de_id e ∈ _)) by (apply Hfr; [set_solver|done]).
    rewrite (proj2 (Z.ltb_lt _ _) Hlt). cbn [andb negb on_event logged].
    destruct (event_ok Hok (MkDeliveredEvent (de_id e) (de_seq e) (de_ts_ms e) (de_channel e)
      (de_payload_b64 e)) (st_handler st).1) as [h' ->].
    destruct (save_ok Hok (cursor (record (de_id e) (de_seq e) (st_resume st))) (st_store st))
      as [s' ->].
    set (st1 := MkClientState (h', _) _ s' _).
    assert (cursor (st_resume st1) = de_seq e) as Hc1
      by (unfold st1; cbn; rewrite record_cursor; lia).
    assert (filter (λ e', cursor (st_resume st1) < de_seq e') es = es) as Hall1.
    { apply filter_all. eapply Forall_impl; [exact Hall|]. intros x Hx. rewrite Hc1. exact Hx. }
    assert (filter (λ e', cursor (st_resume st) < de_seq e') (e :: es) = e :: es) as Hall0.
    { apply filter_all. constructor; [done|]. eapply Forall_impl; [exact Hall|].
      simpl. lia. }
    destruct (IH st1) as (st' & Hp & Hl & Hc & Hseen).
    { split; [done|]. split; [done|]. intros e' He' _ Hin.
      apply record_seen_subset, elem_of_union in Hin as [Hin%elem_of_singleton|Hin].
      - apply Hni. rewrite <- Hin. apply list_elem_of_fmap. by exists e'.
      - revert Hin. apply Hfr; [by apply list_elem_of_further|].
        rewrite Forall_forall in Hall. specialize (Hall e' He'). simpl in Hall. lia. }
    exists st'. rewrite Hall0. rewrite Hall1 in *. rewrite Hl, Hc, Hc1. split; [done|]. split.
    { unfold st1. cbn. rewrite <- app_assoc. by destruct e. }
    split; [csimpl; rewrite last_cons; by destruct (last _)|].
    pose proof (record_seen_subset (de_id e) (de_seq e) (st_resume st)) as Hsub. csimpl.
    etrans; [exact Hseen|]. unfold st1. cbn [st_resume]. clear -Hsub.
    generalize (list_to_set (C := gset Uuid) (de_id <$> es)). set_solver.
  - rewrite (proj2 (Z.ltb_ge _ _) Hge). cbn [andb].
    destruct (IH st) as (st' & Hp & Hl & Hc & Hseen).
    { split; [done|]. split; [done|]. intros e' He'. apply Hfr. by apply list_elem_of_further. }
    exists st'. rewrite filter_cons_False by lia. done.
Qed.
End accepting.

(** ** Theorems *)

(** A handled event is remembered: the cursor never goes back, the event is
    refused from then on under its id and every sequence number up to its own is
    refused, and the window holds the most recent ids, at most its capacity. *)
Theorem recorded_events_are_refused id seq r :
  resume_wf r →
  let r' := record id seq r in
  resume_wf r' ∧ cursor r' = Z.max (cursor r) seq ∧
  (∀ id' seq', seq' ≤ seq → should_process id' seq' r' = false) ∧
  (∀ seq', should_process id seq' r' = false) ∧
  order r' = if bool_decide (id ∈ order r) then order r
             else last_n (capacity r) (order r ++ [id]).
Proof.
  intros Hwf. cbv zeta. pose proof (record_wf id seq r Hwf) as Hwf'.
  pose proof (record_order id seq r Hwf) as Hord. pose proof (record_cursor id seq r) as Hc.
  split; [done|]. split; [done|]. split; [|split; [|done]]; intros; unfold should_process.
  - by rewrite Hc, (proj2 (Z.ltb_ge _ _)) by lia.
  - rewrite bool_decide_eq_true_2; [apply andb_false_r|]. destruct Hwf' as (_ & -> & _).
    rewrite Hord, elem_of_list_to_set. case_bool; bool_to_prop; [done|].
    destruct Hwf as (Hcap & _). unfold last_n. rewrite length_app, drop_app_le
      by (cbn [length]; lia).
    apply elem_of_app. right. apply list_elem_of_singleton. done.
Qed.

Section theorems.
Context {M : Wire SubServerMsg} {L : WireLaws SubServerMsg} {C : Wire SubClientMsg}.

(** Over any finite sequence of connections [run] comes to an end without
    running out of fuel, and when it returns an error, the error is fatal:
    transient ones make it reconnect. *)
Theorem run_returns_only_fatal_errors {H St} (handler : Handler H) (store : CursorStore St)
    patterns cap us h s c :
  load store s = Ok c →
  ∃ o st, run handler store patterns cap us h s = Some (o, st) ∧
    match o with Some e => is_fatal e = true | None => True end.
Proof.
  intros Hload. destruct (run_total handler store patterns cap us h s) as [[o st] Hrun].
  exists o, st. split; [done|]. revert Hrun. unfold run. rewrite Hload.
  generalize (MkClientState h (ResumeState_new c cap) s 0).
  induction us as [|u us IH]; intros st0; cbn [run_sessions]; [by intros [= <- <-]|].
  destruct (run_session _ _ _ u st0) as [[r1 st1]|]; [|done]. cbn.
  destruct r1 as [[]|e]; [apply IH|]. destruct (is_fatal e) eqn:He; [by intros [= <- <-]|apply IH].
Qed.

(** C39: across reconnects, whatever frames the servers send, the handler
    accepts each sequence number at most once and in increasing order, always
    past the initial cursor; the cursor it resumes from and the one the memory
    store holds are the last accepted. *)
Theorem events_are_handled_once_in_order {H} (hd : Handler H) patterns cap us h c0 o st :
  run (logged hd) MemoryCursorStore patterns cap us (h, []) c0 = Some (o, st) →
  let seqs := de_seq <$> (st_handler st).2 in
  StronglySorted Z.lt (c0 :: seqs) ∧ cursor (st_resume st) = default c0 (last seqs) ∧
  st_store st = cursor (st_resume st).
Proof.
  unfold run. cbn [load MemoryCursorStore]. intros Hrun.
  assert (log_inv c0 st) as (H1 & H2 & _).
  { refine (run_sessions_preserves _ _ (log_ok c0) _ patterns us _ _ _ _ Hrun).
    - intros ????. apply on_frame_inv.
    - split; [repeat constructor|]. split; [done|]. apply ResumeState_new_wf. }
  split; [done|]. split; [done|].
  refine (run_sessions_preserves _ _ (λ _ r s, s = cursor r) _ patterns us _ _ _ _ Hrun).
  - intros ????. apply on_frame_memory.
  - done.
Qed.
End theorems.

(** ** Witnesses *)

Section witnesses.
#[local] Existing Instance BitCodec.wire.
#[local] Existing Instance BitCodec.wire_laws.

Definition quiet_handler : Handler () := MkHandler ()
  (λ _ h, (Ok (), h)) (λ _ h, (Ok (), h)) (λ _ _ h, (Ok (), h)) (λ _ h, (Ok (), h))
  (λ _ h, (Ok (), h)).

Lemma recorded_events_are_refused_witness :
  let r := record 8 2 (record 7 1 (ResumeState_new 0 2)) in
  order (record 9 3 r) = [8; 9] ∧ resume_wf (record 9 3 r) ∧
  should_process 9 5 (record 9 3 r) = false.
Proof.
  pose proof (record_wf 8 2 _ (record_wf 7 1 _ (ResumeState_new_wf 0 2))) as Hwf.
  destruct (recorded_events_are_refused 9 3 _ Hwf) as (H1 & _ & _ & H2 & _).
  split; [reflexivity|]. split; [exact H1|apply H2].
Defined.

(** Two connections: the second repeats event 2 and then revokes the token. *)
Definition demo_sessions : list Upgrade :=
  [Upgraded (text_items [Sub_Welcome "a"; Sub_Event 7 1 0 "fake.a" "eA=="; Sub_Lagged 1])
     (MkSink true []);
   HttpStatus 503;
   Upgraded (text_items [Sub_Welcome "a"; Sub_Event 7 1 0 "fake.a" "eA==";
              Sub_Event 8 2 0 "fake.a" "eA=="; Sub_Closing ReasonRevoked]) (MkSink true [])].

Lemma run_returns_only_fatal_errors_witness :
  ∃ st, run quiet_handler MemoryCursorStore ["fake.>"] 8 demo_sessions () 0 =
    Some (Some ERevoked, st) ∧ is_fatal ERevoked = true.
Proof.
  destruct (run_returns_only_fatal_errors quiet_handler MemoryCursorStore ["fake.>"] 8
    demo_sessions () 0 0 eq_refl) as (o & st & Hrun & Hfatal).
  exists st. pose proof Hrun as Hrun'. vm_compute in Hrun'. injection Hrun' as Ho _.
  rewrite <- Ho in Hrun, Hfatal. split; [exact Hrun|exact Hfatal].
Defined.

Lemma events_are_handled_once_in_order_witness :
  ∃ st, run (logged quiet_handler) MemoryCursorStore ["fake.>"] 8 demo_sessions ((), []) 0 =
      Some (Some ERevoked, st) ∧
    de_seq <$> (st_handler st).2 = [1; 2] ∧ cursor (st_resume st) = 2 ∧
    st_store st = cursor (st_resume st).
Proof.
  destruct (run (logged quiet_handler) MemoryCursorStore ["fake.>"] 8 demo_sessions ((), []) 0)
    as [[o st]|] eqn:Hrun; [|vm_compute in Hrun; discriminate].
  destruct (events_are_handled_once_in_order quiet_handler ["fake.>"] 8 demo_sessions () 0 o st
    Hrun) as (_ & H2 & H3).
  assert (o = Some ERevoked ∧ de_seq <$> (st_handler st).2 = [1; 2]) as [-> Hseqs]
    by (vm_compute in Hrun; injection Hrun as <- <-; split; reflexivity).
  exists st. split; [reflexivity|]. split; [exact Hseqs|]. split; [|exact H3].
  rewrite H2, Hseqs. reflexivity.
Defined.
End witnesses.
