(* ===== verification/Float64.v ===== *)
(** * Float64: the double-precision arithmetic the client's back-off uses

    Rust's [f64] (IEEE 754 binary64), without a model of the sign of zero: a
    finite double is its rational value, and an operation is the exact one
    rounded to the nearest double, ties to even.  Durations ([std::time]) are
    nanoseconds. *)

From S2P Require Import Prelude.
From Stdlib Require Import QArith Qabs Qpower Qround Lqa.

Local Open Scope Q_scope.

(** ** Definitions *)

Inductive f64 : Type :=
  | Fin (q : Q)
  | Inf (negative : bool)
  | NaN.

Definition Qlt_bool (a b : Q) : bool := negb (Qle_bool b a).

(** To the nearest integer, ties to even, and ties away from zero. *)
Definition round_half_even (q : Q) : Z :=
  let n := Qfloor q in
  match Qcompare (q - inject_Z n) (1 # 2) with
  | Lt => n
  | Gt => (n + 1)%Z
  | Eq => if Z.even n then n else (n + 1)%Z
  end.

Definition round_half_away (q : Q) : Z :=
  if Qle_bool 0 q then Qfloor (q + (1 # 2)) else (- Qfloor (- q + (1 # 2)))%Z.

(** The exponent of the binade of a positive rational. *)
Definition binade (q : Q) : Z :=
  let e := (Z.log2 (Qnum q) - Z.log2 (Zpos (Qden q)))%Z in
  if Qle_bool (2 ^ e) q then e else (e - 1)%Z.

(** The distance between doubles there: 53 bits, or that of the subnormals. *)
Definition quantum (q : Q) : Q := 2 ^ Z.max (binade q - 52) (-1074).

Definition round_positive (q : Q) : Q :=
  Qred (inject_Z (round_half_even (q / quantum q)) * quantum q).

Definition f64_limit : Q := 2 ^ 1024.

(** The double of a rational. *)
Definition fl (q : Q) : f64 :=
  match Qcompare q 0 with
  | Eq => Fin 0
  | Gt => let r := round_positive q in if Qle_bool f64_limit r then Inf false else Fin r
  | Lt => let r := round_positive (- q) in
          if Qle_bool f64_limit r then Inf true else Fin (Qred (- r))
  end.

Definition fneg (x : f64) : f64 :=
  match x with Fin a => Fin (Qred (- a)) | Inf s => Inf (negb s) | NaN => NaN end.

Definition fadd (x y : f64) : f64 :=
  match x, y with
  | Fin a, Fin b => fl (a + b)
  | NaN, _ | _, NaN => NaN
  | Inf s, Inf t => if Bool.eqb s t then Inf s else NaN
  | Inf s, _ | _, Inf s => Inf s
  end.

Definition fsub (x y : f64) : f64 := fadd x (fneg y).

Definition Qneg_bool (q : Q) : bool := Qlt_bool q 0.

Definition fmul (x y : f64) : f64 :=
  match x, y with
  | Fin a, Fin b => fl (a * b)
  | NaN, _ | _, NaN => NaN
  | Inf s, Inf t => Inf (xorb s t)
  | Inf s, Fin a | Fin a, Inf s =>
      if Qeq_bool a 0 then NaN else Inf (xorb s (Qneg_bool a))
  end.

(** By a finite divisor that is not zero. *)
Definition fdiv (x : f64) (d : Q) : f64 :=
  match x with
  | Fin a => fl (a / d)
  | Inf s => Inf (xorb s (Qneg_bool d))
  | NaN => NaN
  end.

(** [f64::min]: the other argument when one is not a number. *)
Definition fmin (x y : f64) : f64 :=
  match x, y with
  | NaN, z | z, NaN => z
  | Inf true, _ | _, Inf true => Inf true
  | Inf false, z | z, Inf false => z
  | Fin a, Fin b => if Qle_bool a b then Fin a else Fin b
  end.

(** [x <= 0.0]. *)
Definition fle0 (x : f64) : bool :=
  match x with Fin a => Qle_bool a 0 | Inf s => s | NaN => false end.

(** [f64::round]: integers up to 2^53 are doubles, larger doubles are integers. *)
Definition fround (x : f64) : f64 :=
  match x with Fin a => Fin (inject_Z (round_half_away a)) | x => x end.

(** [x as u64]. *)
Definition f64_to_u64 (x : f64) : Z :=
  match x with
  | Fin a => Z.min (Z.max (if Qle_bool 0 a then Qfloor a else 0%Z) 0) u64_max
  | Inf s => if s then 0%Z else u64_max
  | NaN => 0%Z
  end.

(** [z as f64]. *)
Definition f64_of_Z (z : Z) : f64 := fl (inject_Z z).

(** *** Durations *)

Definition nanos_per_sec : Z := 1000000000.
Definition from_millis (ms : Z) : Z := (ms * 1000000)%Z.
Definition from_secs (s : Z) : Z := (s * nanos_per_sec)%Z.
Definition as_millis (d : Z) : Z := (d / 1000000)%Z.

(** [as_secs_f64]: seconds and nanoseconds apart. *)
Definition as_secs_f64 (d : Z) : f64 :=
  fadd (f64_of_Z (d / nanos_per_sec))
       (fdiv (f64_of_Z (d mod nanos_per_sec)) (inject_Z nanos_per_sec)).

(** [Duration::from_secs_f64]: to the nearest nanosecond; [None] is its panic. *)
Definition from_secs_f64 (x : f64) : option Z :=
  match x with
  | Fin a =>
      if Qlt_bool a 0 then None
      else let n := round_half_even (a * inject_Z nanos_per_sec) in
           if (u64_max <? n / nanos_per_sec)%Z then None else Some n
  | _ => None
  end.

(** ** Lemmas *)

Lemma Qlt_bool_iff a b : Qlt_bool a b = true ↔ a < b.
Proof.
  unfold Qlt_bool. rewrite negb_true_iff. split.
  - intros H. apply Qnot_le_lt. intros Hle. by rewrite (proj2 (Qle_bool_iff _ _) Hle) in H.
  - intros H. apply not_true_iff_false. intros Hle%Qle_bool_iff. lra.
Qed.

Lemma round_half_even_near q :
  inject_Z (round_half_even q) - (1 # 2) <= q <= inject_Z (round_half_even q) + (1 # 2).
Proof.
  unfold round_half_even. pose proof (Qfloor_le q) as Hlo. pose proof (Qlt_floor q) as Hhi.
  rewrite inject_Z_plus in Hhi. change (inject_Z 1) with 1 in Hhi.
  destruct (Qcompare_spec (q - inject_Z (Qfloor q)) (1 # 2)) as [H|H|H];
    [destruct (Z.even _)|..]; rewrite ?inject_Z_plus; change (inject_Z 1) with 1; lra.
Qed.

Lemma pow2_pos e : 0 < 2 ^ e.
Proof. apply Qpower_0_lt. reflexivity. Qed.

Lemma pow2_plus a b : 2 ^ (a + b) == 2 ^ a * 2 ^ b.
Proof. apply Qpower_plus. discriminate. Qed.

Lemma pow2_mono a b : (a <= b)%Z → 2 ^ a <= 2 ^ b.
Proof. intros H. apply Qpower_le_compat_l; [done|]. discriminate. Qed.

Lemma log2_bounds a :
  (0 < a)%Z → 2 ^ Z.log2 a <= inject_Z a ∧ inject_Z a < 2 ^ (Z.log2 a + 1).
Proof.
  intros Ha. destruct (Z.log2_spec a Ha) as [Hlo Hhi]. pose proof (Z.log2_nonneg a).
  change 2 with (inject_Z 2). rewrite <- !Zpower_Qpower by lia.
  split; [by rewrite <- Zle_Qle|by rewrite <- Zlt_Qlt].
Qed.

(** A positive rational is in its binade. *)
Lemma binade_spec q : 0 < q → 2 ^ binade q <= q ∧ q < 2 ^ (binade q + 1).
Proof.
  intros Hq. destruct q as [a b]. assert (0 < a)%Z as Ha by (unfold Qlt in Hq; simpl in Hq; lia).
  destruct (log2_bounds a Ha) as [Ha1 Ha2]. destruct (log2_bounds (Zpos b) eq_refl) as [Hb1 Hb2].
  assert (inject_Z a == (a # b) * inject_Z (Zpos b)) as Hab.
  { unfold Qeq, Qmult, inject_Z. simpl. lia. }
  set (q := a # b) in *. set (e := (Z.log2 a - Z.log2 (Zpos b))%Z).
  assert (0 < q * 2 ^ Z.log2 (Zpos b)) as Hpos by (apply Qmult_lt_0_compat; [done|apply pow2_pos]).
  assert (2 ^ (e - 1) <= q ∧ q < 2 ^ (e + 1)) as [Hlo Hhi].
  { split.
    - apply Qmult_le_r with (2 ^ (Z.log2 (Zpos b) + 1)); [apply pow2_pos|].
      rewrite <- pow2_plus. replace (e - 1 + (Z.log2 (Z.pos b) + 1))%Z with (Z.log2 a) by (unfold e; lia).
      apply Qle_trans with (inject_Z a); [done|]. rewrite Hab. apply Qmult_le_l; [done|]. lra.
    - apply Qmult_lt_r with (2 ^ Z.log2 (Zpos b)); [apply pow2_pos|].
      rewrite <- pow2_plus. replace (e + 1 + Z.log2 (Z.pos b))%Z with (Z.log2 a + 1)%Z by (unfold e; lia).
      apply Qle_lt_trans with (inject_Z a); [|done]. rewrite Hab. apply Qmult_le_l; done. }
  unfold binade. cbn [Qnum Qden q]. fold e. fold q. destruct (Qle_bool (2 ^ e) q) eqn:He.
  - by apply Qle_bool_iff in He.
  - split; [done|]. replace (e - 1 + 1)%Z with e by lia. apply Qnot_le_lt. intros Hle.
    by rewrite (proj2 (Qle_bool_iff _ _) Hle) in He.
Qed.

(** The relative error of a rounding, above the subnormals. *)
Definition unit_roundoff : Q := 1 # (2 ^ 53).

Lemma round_positive_near q :
  2 ^ (-1022) <= q → round_positive q <= q * (1 + unit_roundoff) ∧ q * (1 - unit_roundoff) <= round_positive q.
Proof.
  intros Hq. assert (0 < q) as Hpos by (eapply Qlt_le_trans; [apply pow2_pos|exact Hq]).
  destruct (binade_spec q Hpos) as [Hlo Hhi].
  assert (-1022 <= binade q)%Z as Hb.
  { apply Z.nlt_ge. intros Hlt. apply (Qlt_irrefl q).
    eapply Qlt_le_trans; [exact Hhi|]. eapply Qle_trans; [|exact Hq]. apply pow2_mono. lia. }
  assert (quantum q <= q * (2 * unit_roundoff)) as Hu.
  { unfold quantum. rewrite Z.max_l by lia. unfold Z.sub. rewrite pow2_plus.
    assert (2 * unit_roundoff == 2 ^ (-52)) as -> by (vm_compute; reflexivity).
    apply Qmult_le_compat_r; [exact Hlo|]. apply Qlt_le_weak, pow2_pos. }
  assert (0 < quantum q) as Hup by apply pow2_pos.
  unfold round_positive. rewrite Qred_correct.
  set (n := inject_Z (round_half_even (q / quantum q))).
  pose proof (round_half_even_near (q / quantum q)) as Hn. fold n in Hn.
  assert (q == q / quantum q * quantum q) as Hdiv by (field; lra).
  split; nra.
Qed.

(** A double close to a rational. *)
Definition near (q r : Q) : Prop :=
  q * (1 - unit_roundoff) <= r ∧ r <= q * (1 + unit_roundoff).

Lemma fl_positive q :
  2 ^ (-1022) <= q →
  (fl q = Inf false ∧ f64_limit <= q * (1 + unit_roundoff)) ∨ ∃ r, fl q = Fin r ∧ near q r.
Proof.
  intros Hq. destruct (round_positive_near q Hq) as [Hhi Hlo]. unfold fl.
  destruct (Qcompare_spec q 0) as [H|H|H].
  - exfalso. rewrite H in Hq. vm_compute in Hq. by apply Hq.
  - exfalso. apply (Qlt_irrefl 0). eapply Qlt_trans; [apply (pow2_pos (-1022))|].
    by eapply Qle_lt_trans.
  - destruct (Qle_bool f64_limit (round_positive q)) eqn:Hl; [left|right].
    + split; [done|]. apply Qle_bool_iff in Hl. by eapply Qle_trans.
    + by exists (round_positive q).
Qed.

(** The double of zero, or of a rational of ordinary size. *)
Lemma fl_near q :
  q == 0 ∨ 2 ^ (-1022) <= q → q * (1 + unit_roundoff) < f64_limit →
  ∃ r, fl q = Fin r ∧ near q r.
Proof.
  intros [Hz|Hq] Hlt.
  - exists 0. unfold fl, near. rewrite (proj1 (Qeq_alt _ _) Hz), Hz. split; [done|]. split; discriminate.
  - destruct (fl_positive q Hq) as [[_ Hover]|Hr]; [|done].
    exfalso. apply (Qlt_irrefl f64_limit). by eapply Qle_lt_trans.
Qed.

Lemma fmul_near a b :
  a * b == 0 ∨ 2 ^ (-1022) <= a * b → a * b * (1 + unit_roundoff) < f64_limit →
  ∃ r, fmul (Fin a) (Fin b) = Fin r ∧ near (a * b) r.
Proof. apply fl_near. Qed.

Lemma fadd_near a b :
  a + b == 0 ∨ 2 ^ (-1022) <= a + b → (a + b) * (1 + unit_roundoff) < f64_limit →
  ∃ r, fadd (Fin a) (Fin b) = Fin r ∧ near (a + b) r.
Proof. apply fl_near. Qed.
