(* ===== verification/Backoff.v ===== *)
(** * Backoff: the client's reconnect delays

    [crates/whdr-sub-kit/src/backoff.rs] on the doubles of Float64.v.  The
    precision of [f64::powi] is unspecified: it is a parameter, and the theorem
    lets it err by a millionth.  A sample of [rand::random] is a parameter
    too: a multiple of 2^-53 below one. *)

From S2P Require Import Prelude.
From S2P Require Import SubKit.
From S2P Require Import Float64.
From Stdlib Require Import QArith Qabs Qpower Qround Lqa.

Local Open Scope Z_scope.

(** ** Definitions *)

Section backoff.
Context (powi : f64 → Z → f64).

Record BackoffPolicy : Type := MkBackoffPolicy {
  bp_initial : Z;
  bp_max : Z;
  bp_multiplier : f64;
  bp_jitter : f64
}.

(** The double written [0.2]. *)
Definition one_fifth : f64 := fl (1 # 5).

Definition BackoffPolicy_default : BackoffPolicy :=
  MkBackoffPolicy (from_millis 500) (from_secs 30) (Fin 2) one_fifth.

Record Backoff : Type := MkBackoff { bo_policy : BackoffPolicy; bo_attempt : Z }.

Definition start (p : BackoffPolicy) : Backoff := MkBackoff p 0.

(** [attempt as i32]. *)
Definition as_i32 (a : Z) : Z := if a <? 2 ^ 31 then a else a - 2 ^ 32.

Definition base_delay (p : BackoffPolicy) (attempt : Z) : Z :=
  let factor := powi (bp_multiplier p) (as_i32 attempt) in
  let millis := fmin (fmul (fmul (as_secs_f64 (bp_initial p)) factor) (Fin 1000))
                     (f64_of_Z (as_millis (bp_max p))) in
  from_millis (f64_to_u64 (fround millis)).

Definition reset (b : Backoff) : Backoff := MkBackoff (bo_policy b) 0.

(** [None] is the panic of [Duration::from_secs_f64]. *)
Definition apply_jitter (base : Z) (jitter rand01 : f64) : option Z :=
  if fle0 jitter then Some base
  else
    let factor := fadd (fsub (Fin 1) jitter) (fmul (fmul rand01 (Fin 2)) jitter) in
    from_secs_f64 (fmul (as_secs_f64 base) factor).

Definition next_delay (sample : f64) (b : Backoff) : option Z * Backoff :=
  let base := base_delay (bo_policy b) (bo_attempt b) in
  (apply_jitter base (bp_jitter (bo_policy b)) sample,
   MkBackoff (bo_policy b) (backoff_next (bo_attempt b))).
End backoff.

(** ** Specification *)

(** The relative error allowed to [powi]. *)
Definition powi_error : Q := 1 # 1000000.

(** A double for a power so large that it may overflow. *)
Definition is_power (x : f64) (q : Q) : Prop :=
  (x = Inf false ∧ (f64_limit <= q * (1 + powi_error))%Q) ∨
  ∃ r, x = Fin r ∧ (q * (1 - powi_error) <= r ∧ r <= q * (1 + powi_error))%Q.

(** The doubles 2^n. *)
Definition two_to (n : Z) : f64 := if n <=? 1023 then Fin (2 ^ n)%Q else Inf false.

(** What [rand::random::<f64>()] can return. *)
Definition sample_of (k : Z) : Q := inject_Z k * (2 ^ (-53))%Q.

(** ** Lemmas *)

Local Open Scope Q_scope.

(** At least so large. *)
Definition at_least (c : Q) (x : f64) : Prop := x = Inf false ∨ ∃ r, x = Fin r ∧ c <= r.

Lemma fl_at_least c q : 1 <= c → c <= q → at_least (c * (1 - unit_roundoff)) (fl q).
Proof.
  intros Hc Hq. destruct (fl_positive q) as [[Hinf _]|(r & Hr & Hlo & _)].
  - apply Qle_trans with 1; [vm_compute; discriminate|lra].
  - by left.
  - right. exists r. split; [done|]. eapply Qle_trans; [|exact Hlo].
    apply Qmult_le_compat_r; [done|vm_compute; discriminate].
Qed.

Lemma at_least_le c d x : d <= c → at_least c x → at_least d x.
Proof. intros Hd [->|(r & -> & Hr)]; [by left|right]. exists r. split; [done|]. by eapply Qle_trans. Qed.

Lemma positive_sign a : 0 < a → Qeq_bool a 0 = false ∧ Qneg_bool a = false.
Proof.
  intros Ha. split.
  - apply not_true_iff_false. intros Hz%Qeq_bool_iff. lra.
  - apply not_true_iff_false. unfold Qneg_bool. intros Hz%Qlt_bool_iff. lra.
Qed.

Lemma fmul_at_least a c x :
  0 < a → 1 <= a * c → at_least c x →
  at_least (a * c * (1 - unit_roundoff)) (fmul (Fin a) x) ∧
  at_least (a * c * (1 - unit_roundoff)) (fmul x (Fin a)).
Proof.
  intros Ha Hac [->|(r & -> & Hr)].
  - cbn [fmul]. destruct (positive_sign a Ha) as [-> ->]. split; by left.
  - assert (a * c <= a * r) as Hle by (apply Qmult_le_l; done).
    split; apply fl_at_least; try done. by rewrite (Qmult_comm r a).
Qed.

(** *** Roundings *)

Definition step : Q := 1 # 9007199254740992.
Lemma unit_roundoff_eq : unit_roundoff = step.
Proof. vm_compute. reflexivity. Qed.

(** Zero, or of ordinary size: what the roundings below need. *)
Lemma ordinary q : (1 # 1000000000000000000000) <= q → 2 ^ (-1022) <= q.
Proof. apply Qle_trans. vm_compute. discriminate. Qed.

Lemma below_limit q : q <= 100000 → q * (1 + unit_roundoff) < f64_limit.
Proof.
  intros Hq. assert (unit_roundoff == 1 # 9007199254740992) as -> by (vm_compute; reflexivity).
  apply Qle_lt_trans with 200000; [lra|]. vm_compute. reflexivity.
Qed.

(** *** The base delay *)

(** [round], [as u64] of a double close to an integer. *)
Lemma to_u64_near z r :
  (0 ≤ z ≤ u64_max)%Z → inject_Z z - (1 # 2) < r → r < inject_Z z + (1 # 2) → 0 <= r →
  f64_to_u64 (fround (Fin r)) = z.
Proof.
  intros Hz Hlo Hhi H0. cbn [fround f64_to_u64]. unfold round_half_away.
  rewrite (proj2 (Qle_bool_iff 0 r)) by done.
  assert (Qfloor (r + (1 # 2)) = z) as ->.
  { pose proof (Qfloor_le (r + (1 # 2))) as H1. pose proof (Qlt_floor (r + (1 # 2))) as H2.
    rewrite inject_Z_plus in H2. change (inject_Z 1) with 1 in H2.
    assert (inject_Z (Qfloor (r + (1 # 2))) < inject_Z (z + 1)) as H3.
    { rewrite inject_Z_plus. change (inject_Z 1) with 1. lra. }
    assert (inject_Z z < inject_Z (Qfloor (r + (1 # 2)) + 1)) as H4.
    { rewrite inject_Z_plus. change (inject_Z 1) with 1. lra. }
    rewrite <- Zlt_Qlt in H3, H4. lia. }
  rewrite (proj2 (Qle_bool_iff 0 (inject_Z z))) by (change 0 with (inject_Z 0); rewrite <- Zle_Qle; lia).
  rewrite Qfloor_Z. lia.
Qed.

Section base.
Context (powi : f64 → Z → f64).
Context (powi_two : ∀ n, (0 ≤ n < 2 ^ 31)%Z → is_power (powi (Fin 2) n) (2 ^ n)).

Lemma is_power_at_least n x : (6 ≤ n)%Z → is_power x (2 ^ n) → at_least 63 x.
Proof.
  intros Hn [[-> _]|(r & -> & Hr & _)]; [by left|right]. exists r. split; [done|].
  eapply Qle_trans; [|exact Hr]. pose proof (pow2_mono 6 n Hn) as H6.
  change (2 ^ 6) with 64 in H6. unfold powi_error. lra.
Qed.

Lemma fmin_at_least c b x : b <= c → (∀ r, x = Fin r → b < r) → at_least c x → fmin x (Fin b) = Fin b.
Proof.
  intros Hb Hr [->|(r & -> & Hle)]; [done|]. cbn [fmin]. specialize (Hr r eq_refl).
  destruct (Qle_bool r b) eqn:He; [|done]. apply Qle_bool_iff in He. lra.
Qed.

(** The expression of [base_delay] under the default policy. *)
Lemma capped_millis x :
  at_least 63 x → fmin (fmul (fmul (Fin (1 # 2)) x) (Fin 1000)) (Fin 30000) = Fin 30000.
Proof.
  intros Hx. destruct (fmul_at_least (1 # 2) 63 x) as [H1 _]; [reflexivity|discriminate|done|].
  apply (at_least_le _ 31) in H1; [|vm_compute; discriminate].
  destruct (fmul_at_least 1000 31 (fmul (Fin (1 # 2)) x)) as [_ H2];
    [reflexivity|discriminate|done|].
  apply (at_least_le _ 30001) in H2; [|vm_compute; discriminate].
  apply (fmin_at_least 30001); [discriminate| |done].
  intros r Hr. destruct H2 as [?|(r' & Hr' & Hle)]; [congruence|].
  rewrite Hr in Hr'. injection Hr' as <-. lra.
Qed.

Lemma uncapped_millis z r :
  (1 ≤ z ≤ 32)%Z → inject_Z z * (1 - powi_error) <= r → r <= inject_Z z * (1 + powi_error) →
  f64_to_u64 (fround (fmin (fmul (fmul (Fin (1 # 2)) (Fin r)) (Fin 1000)) (Fin 30000))) = (500 * z)%Z.
Proof.
  intros Hz Hlo Hhi. unfold powi_error in *.
  assert (1 <= inject_Z z ∧ inject_Z z <= 32) as [Hz1 Hz2].
  { change 1 with (inject_Z 1). change 32 with (inject_Z 32). rewrite <- !Zle_Qle. lia. }
  destruct (fmul_near (1 # 2) r) as (h & -> & Hh);
    [right; apply ordinary; lra|apply below_limit; lra|].
  unfold near in Hh. rewrite unit_roundoff_eq in Hh. unfold step in Hh.
  destruct (fmul_near h 1000) as (m & -> & Hm);
    [right; apply ordinary; lra|apply below_limit; lra|].
  unfold near in Hm. rewrite unit_roundoff_eq in Hm. unfold step in Hm.
  cbn [fmin]. rewrite (proj2 (Qle_bool_iff m 30000)) by lra.
  apply to_u64_near; [unfold u64_max; lia|..|lra];
    rewrite inject_Z_mult; change (inject_Z 500) with 500; lra.
Qed.

Lemma default_base_delay n :
  (0 ≤ n < 2 ^ 31)%Z →
  base_delay powi BackoffPolicy_default n = from_millis (Z.min (500 * 2 ^ n) 30000).
Proof.
  intros Hn. unfold base_delay. cbn [bp_multiplier bp_initial bp_max BackoffPolicy_default].
  assert (as_i32 n = n) as -> by (unfold as_i32; by rewrite (proj2 (Z.ltb_lt _ _)) by lia).
  assert (as_secs_f64 (from_millis 500) = Fin (1 # 2)) as -> by (vm_compute; reflexivity).
  assert (f64_of_Z (as_millis (from_secs 30)) = Fin 30000) as -> by (vm_compute; reflexivity).
  pose proof (powi_two n Hn) as Hp. destruct (Z.le_gt_cases 6 n) as [H6|H6].
  - rewrite Z.min_r by (pose proof (Z.pow_le_mono_r 2 6 n ltac:(lia) H6); lia).
    rewrite capped_millis by (by apply (is_power_at_least n)). vm_compute. reflexivity.
  - pose proof (Z.pow_le_mono_r 2 n 5 ltac:(lia) ltac:(lia)) as H32.
    pose proof (Z.pow_pos_nonneg 2 n ltac:(lia) ltac:(lia)) as H1.
    change (2 ^ 5)%Z with 32%Z in H32. rewrite Z.min_l by lia. f_equal.
    pose proof (Zpower_Qpower 2 n ltac:(lia)) as Hq. change (inject_Z 2) with 2 in Hq.
    destruct Hp as [[_ Hbig]|(r & -> & Hlo & Hhi)]; rewrite <- Hq in *;
      [|by apply uncapped_millis; [lia|..]].
    exfalso. assert (inject_Z (2 ^ n) <= 32) as Hle.
    { change 32 with (inject_Z 32). by rewrite <- Zle_Qle. }
    assert (f64_limit <= 100) as Habs by (unfold powi_error in Hbig; lra).
    revert Habs. vm_compute. auto.
Qed.
End base.

(** *** The jitter *)

Definition fifth : Q := 3602879701896397 # 18014398509481984.
Definition four_fifths : Q := 3602879701896397 # 4503599627370496.

Lemma one_fifth_eq : one_fifth = Fin fifth.
Proof. vm_compute. reflexivity. Qed.
Lemma four_fifths_eq : fsub (Fin 1) one_fifth = Fin four_fifths.
Proof. vm_compute. reflexivity. Qed.

Lemma sample_range k :
  (0 ≤ k < 2 ^ 53)%Z → (sample_of k == 0 ∨ step <= sample_of k) ∧ 0 <= sample_of k ∧ sample_of k <= 1.
Proof.
  intros Hk. unfold sample_of. assert (2 ^ (-53) == step) as -> by (vm_compute; reflexivity).
  assert (0 <= inject_Z k ∧ inject_Z k <= 9007199254740992) as [H0 H1].
  { change 9007199254740992 with (inject_Z 9007199254740992). change 0 with (inject_Z 0).
    rewrite <- !Zle_Qle. lia. }
  unfold step. split; [|lra]. destruct (Z.eq_dec k 0) as [->|Hne]; [by left|right].
  assert (1 <= inject_Z k) by (change 1 with (inject_Z 1); rewrite <- Zle_Qle; lia). lra.
Qed.

(** The factor of a sample is within a hair of [0.8 .. 1.2]. *)
Lemma jitter_factor k :
  (0 ≤ k < 2 ^ 53)%Z →
  ∃ f, fadd (fsub (Fin 1) one_fifth) (fmul (fmul (Fin (sample_of k)) (Fin 2)) one_fifth) = Fin f ∧
    0.8 - (1 # 1000000000000000) <= f ∧ f <= 1.2 + (1 # 1000000000000000).
Proof.
  intros Hk. destruct (sample_range k Hk) as (Hzero & H0 & H1). set (r := sample_of k) in *.
  rewrite four_fifths_eq, one_fifth_eq.
  destruct (fmul_near r 2) as (r2 & -> & Hr2).
  { destruct Hzero as [->|Hs]; [by left|right]. apply ordinary. unfold step in Hs. lra. }
  { apply below_limit. lra. }
  unfold near in Hr2. rewrite unit_roundoff_eq in Hr2. unfold step in *.
  destruct (fmul_near r2 fifth) as (p & -> & Hp).
  { unfold fifth. destruct Hzero as [Hz|Hs]; [left|right; apply ordinary]; lra. }
  { apply below_limit. unfold fifth. lra. }
  unfold near in Hp. rewrite unit_roundoff_eq in Hp. unfold step, fifth in *.
  destruct (fadd_near four_fifths p) as (f & -> & Hf).
  { right. apply ordinary. unfold four_fifths. lra. }
  { apply below_limit. unfold four_fifths. lra. }
  unfold near in Hf. rewrite unit_roundoff_eq in Hf. unfold step, four_fifths in *.
  exists f. split; [done|]. lra.
Qed.

Lemma apply_jitter_bounds base s k :
  as_secs_f64 base = Fin s → s * 1000000000 == inject_Z base → 1 # 2 <= s → s <= 30 →
  (0 ≤ k < 2 ^ 53)%Z →
  ∃ d, apply_jitter base one_fifth (Fin (sample_of k)) = Some d ∧
    (4 * base ≤ 5 * (d + 1) ∧ 5 * (d - 1) ≤ 6 * base)%Z.
Proof.
  intros Hs Hbase Hlo Hhi Hk. unfold apply_jitter.
  assert (fle0 one_fifth = false) as -> by (vm_compute; reflexivity).
  destruct (jitter_factor k Hk) as (f & -> & Hf0 & Hf1). rewrite Hs.
  assert ((1 # 4) <= s * f ∧ s * f <= 40) as [Hp0 Hp1] by (split; nra).
  destruct (fmul_near s f) as (t & -> & Ht).
  { right. apply ordinary. lra. }
  { apply below_limit. lra. }
  unfold near in Ht. rewrite unit_roundoff_eq in Ht. unfold step in Ht.
  assert (0 <= t ∧ t <= 41) as [Ht0 Ht1] by (split; lra).
  cbn [from_secs_f64]. destruct (Qlt_bool t 0) eqn:Hneg.
  { apply Qlt_bool_iff in Hneg. exfalso. lra. }
  set (x := t * inject_Z nanos_per_sec). assert (x == t * 1000000000) as Hx by reflexivity.
  pose proof (round_half_even_near x) as Hn. set (n := round_half_even x) in *. clearbody x n.
  assert (n <= 42000000000)%Z as Hsmall.
  { rewrite Zle_Qle. change (inject_Z 42000000000) with 42000000000. lra. }
  rewrite (proj2 (Z.ltb_ge _ _)).
  2:{ apply Z.le_trans with (42000000000 / nanos_per_sec)%Z; [by apply Z.div_le_mono|].
      vm_compute. discriminate. }
  exists n. split; [done|].
  assert (0.8 * (s * 1000000000) - 1 <= inject_Z n ∧ inject_Z n <= 1.2 * (s * 1000000000) + 1)
    as [Hd0 Hd1] by (split; nra).
  rewrite Hbase in Hd0, Hd1. split; rewrite Zle_Qle, !inject_Z_mult, ?inject_Z_plus, ?inject_Z_minus.
  - change (inject_Z 4) with 4. change (inject_Z 5) with 5. change (inject_Z 1) with 1. lra.
  - unfold Z.sub. rewrite inject_Z_plus. change (inject_Z 5) with 5. change (inject_Z 6) with 6.
    change (inject_Z (- (1))) with (-1). lra.
Qed.

(** The default delays are exact in seconds. *)
Definition exact_secs (base : Z) : bool :=
  match as_secs_f64 base with
  | Fin s => Qeq_bool (s * 1000000000) (inject_Z base) && Qle_bool (1 # 2) s && Qle_bool s 30
  | _ => false
  end.

Lemma default_secs n :
  (0 ≤ n < 2 ^ 31)%Z →
  ∃ s, as_secs_f64 (from_millis (Z.min (500 * 2 ^ n) 30000)) = Fin s ∧
    s * 1000000000 == inject_Z (from_millis (Z.min (500 * 2 ^ n) 30000)) ∧ 1 # 2 <= s ∧ s <= 30.
Proof.
  intros Hn. assert (exact_secs (from_millis (Z.min (500 * 2 ^ n) 30000)) = true) as Hok.
  { destruct (Z.le_gt_cases 6 n) as [H6|H6].
    - rewrite Z.min_r; [vm_compute; reflexivity|].
      pose proof (Z.pow_le_mono_r 2 6 n ltac:(lia) H6). lia.
    - assert (n ∈ [0; 1; 2; 3; 4; 5]%Z) as Hin by (rewrite !elem_of_cons, elem_of_nil; lia).
      repeat (apply elem_of_cons in Hin as [->|Hin]; [vm_compute; reflexivity|]).
      by apply elem_of_nil in Hin. }
  unfold exact_secs in Hok. destruct (as_secs_f64 _) as [s| |]; [|done..].
  apply andb_true_iff in Hok as [[H1 H2]%andb_true_iff H3]. exists s.
  apply Qeq_bool_iff in H1. apply Qle_bool_iff in H2, H3. done.
Qed.

(** ** The default schedule *)

(** Half a second doubled [n] times, at most thirty, give or take a fifth (and a
    nanosecond). *)
Definition paced (n delay : Z) : Prop :=
  (let base := from_millis (Z.min (500 * 2 ^ n) 30000) in
   4 * base ≤ 5 * (delay + 1) ∧ 5 * (delay - 1) ≤ 6 * base)%Z.

Lemma default_delays powi n k :
  (∀ n, (0 ≤ n < 2 ^ 31)%Z → is_power (powi (Fin 2) n) (2 ^ n)) →
  (0 ≤ n < 2 ^ 31)%Z → (0 ≤ k < 2 ^ 53)%Z →
  ∃ d, next_delay powi (Fin (sample_of k)) (MkBackoff BackoffPolicy_default n) =
      (Some d, MkBackoff BackoffPolicy_default (n + 1)) ∧ paced n d.
Proof.
  intros Hpowi Hn Hk. pose proof (default_base_delay powi Hpowi n Hn) as Hbase.
  unfold next_delay. cbn [bo_policy bo_attempt]. rewrite Hbase.
  cbn [bp_jitter BackoffPolicy_default].
  destruct (default_secs n Hn) as (secs & Hsecs & Heq & Hlo & Hhi).
  destruct (apply_jitter_bounds _ secs k Hsecs Heq Hlo Hhi Hk) as (d & -> & Hd).
  exists d. split; [|done]. f_equal. f_equal. unfold backoff_next. lia.
Qed.

(** A [powi] that meets the hypothesis. *)
Lemma two_to_is_power n : (0 ≤ n < 2 ^ 31)%Z → is_power (two_to n) (2 ^ n).
Proof.
  intros Hn. unfold two_to, is_power, powi_error. pose proof (pow2_pos n). destruct (n <=? 1023)%Z eqn:Hb.
  - right. eexists. split; [done|]. split; lra.
  - left. split; [done|]. apply Z.leb_gt in Hb. pose proof (pow2_mono 1024 n ltac:(lia)).
    unfold f64_limit. lra.
Qed.
