(* ===== verification/Client.v ===== *)
(** * Client: building a subscriber client and running it

    [Client] and [ClientBuilder] of [crates/whdr-sub-kit/src/lib.rs] and
    [build_request] of [connection.rs], around the sessions of SubKit.v and the
    delays of Backoff.v.  Parsing the URL and checking the header value are
    library code: parameters.  The network answers each request as it likes. *)

From S2P Require Import Prelude.
From S2P Require Import Text.
From S2P Require Import Messages.
From S2P Require Import SubscriberWs.
From S2P Require Import SubKit.
From S2P Require Import Float64.
From S2P Require Import Backoff.
From Stdlib Require Import QArith.

Local Open Scope Z_scope.

(** ** Definitions *)

(** [Arc<dyn CursorStore>]: the operations with the state they share. *)
Record DynStore : Type := MkDynStore {
  ds_state : Type;
  ds_ops : CursorStore ds_state;
  ds_now : ds_state
}.

Record Client : Type := MkClient {
  cl_url : string;
  cl_token : string;
  cl_patterns : list string;
  cl_backoff : BackoffPolicy;
  cl_cursor_store : DynStore;
  cl_dedup_capacity : Z
}.

Record ClientBuilder : Type := MkClientBuilder {
  cb_url : string;
  cb_token : string;
  cb_patterns : list string;
  cb_backoff : BackoffPolicy;
  cb_cursor_store : option DynStore;
  cb_resume_cursor : Z;
  cb_dedup_capacity : Z
}.

(** [Client::builder] and the methods of the builder. *)
Definition Client_builder (url token : string) : ClientBuilder :=
  MkClientBuilder url token [] BackoffPolicy_default None 0 8192.

Definition ClientBuilder_pattern (pattern : string) (b : ClientBuilder) : ClientBuilder :=
  MkClientBuilder (cb_url b) (cb_token b) (cb_patterns b ++ [pattern]) (cb_backoff b)
    (cb_cursor_store b) (cb_resume_cursor b) (cb_dedup_capacity b).

Definition ClientBuilder_patterns (patterns : list string) (b : ClientBuilder) : ClientBuilder :=
  MkClientBuilder (cb_url b) (cb_token b) (cb_patterns b ++ patterns) (cb_backoff b)
    (cb_cursor_store b) (cb_resume_cursor b) (cb_dedup_capacity b).

Definition ClientBuilder_backoff (policy : BackoffPolicy) (b : ClientBuilder) : ClientBuilder :=
  MkClientBuilder (cb_url b) (cb_token b) (cb_patterns b) policy
    (cb_cursor_store b) (cb_resume_cursor b) (cb_dedup_capacity b).

Definition ClientBuilder_resume_cursor (cursor : Z) (b : ClientBuilder) : ClientBuilder :=
  MkClientBuilder (cb_url b) (cb_token b) (cb_patterns b) (cb_backoff b)
    (cb_cursor_store b) cursor (cb_dedup_capacity b).

Definition ClientBuilder_cursor_store (store : DynStore) (b : ClientBuilder) : ClientBuilder :=
  MkClientBuilder (cb_url b) (cb_token b) (cb_patterns b) (cb_backoff b)
    (Some store) (cb_resume_cursor b) (cb_dedup_capacity b).

Definition ClientBuilder_dedup_capacity (capacity : Z) (b : ClientBuilder) : ClientBuilder :=
  MkClientBuilder (cb_url b) (cb_token b) (cb_patterns b) (cb_backoff b)
    (cb_cursor_store b) (cb_resume_cursor b) (Z.max capacity 1).

Definition ClientBuilder_build (b : ClientBuilder) : Client :=
  MkClient (cb_url b) (cb_token b) (cb_patterns b) (cb_backoff b)
    (default (MkDynStore Z MemoryCursorStore (cb_resume_cursor b)) (cb_cursor_store b))
    (cb_dedup_capacity b).

(** *** Requests *)

Record ClientRequest : Type := MkClientRequest {
  cr_uri : string;
  cr_headers : gmap string string
}.

Section client.
Context {M : Wire SubServerMsg} {C : Wire SubClientMsg}.
(** [into_client_request], and [parse] to a header value. *)
Context (into_client_request : string → result string ClientRequest).
Context (parse_header : string → option string).
Context (powi : f64 → Z → f64).

Definition build_request (url token : string) : result SubError ClientRequest :=
  match into_client_request url with
  | Err e => Err (ERequest e)
  | Ok request =>
      match parse_header ("Bearer " +:+ token) with
      | None => Err (ERequest "invalid Authorization header value")
      | Some value =>
          Ok (MkClientRequest (cr_uri request) (<["authorization" := value]> (cr_headers request)))
      end
  end.

(** [Client::connect]: [network] is what becomes of the request. *)
Definition Client_connect (cl : Client) (network : ClientRequest → Upgrade)
    : option (result SubError Connection) :=
  let store := cl_cursor_store cl in
  match load (ds_ops store) (ds_now store) with
  | Err e => Some (Err e)
  | Ok cursor =>
      match build_request (cl_url cl) (cl_token cl) with
      | Err e => Some (Err e)
      | Ok request =>
          r ← connect (network request);
          match r with
          | Err e => Some (Err e)
          | Ok conn =>
              match conn_subscribe (cl_patterns cl) (Some cursor) conn with
              | (Err e, _) => Some (Err e)
              | (Ok _, conn') => Some (Ok conn')
              end
          end
      end
  end.

(** *** [Client::run] with its delays *)

(** Still in the loop when the rounds granted are over; returned; or the panic
    of the jitter. *)
Inductive RunEnd : Type :=
  | Looping
  | Returned (e : SubError)
  | Panicked.

Section run.
Context {H : Type} (handler : Handler H) (cl : Client).
Local Notation St := (ds_state (cl_cursor_store cl)).
Local Notation store := (ds_ops (cl_cursor_store cl)).

(** [Client::run_session] from its request on. *)
Definition client_session (network : ClientRequest → Upgrade) (st : ClientState H St)
    : option (result SubError () * ClientState H St) :=
  match build_request (cl_url cl) (cl_token cl) with
  | Err e => Some (Err e, st)
  | Ok request => run_session handler store (cl_patterns cl) (network request) st
  end.

(** A round is what the network makes of a request and the sample of the
    jitter; the list returned holds the delays slept. *)
Fixpoint run_rounds (rounds : list ((ClientRequest → Upgrade) * f64)) (st : ClientState H St)
    : option (RunEnd * list Z * ClientState H St) :=
  match rounds with
  | [] => Some (Looping, [], st)
  | (network, sample) :: rest =>
      '(r, st1) ← client_session network st;
      let again :=
        match next_delay powi sample (MkBackoff (cl_backoff cl) (st_attempt st1)) with
        | (None, _) => Some (Panicked, [], st1)
        | (Some delay, backoff) =>
            '(o, delays, st2) ← run_rounds rest
              (MkClientState (st_handler st1) (st_resume st1) (st_store st1) (bo_attempt backoff));
            Some (o, delay :: delays, st2)
        end in
      match r with
      | Ok _ => again
      | Err e => if is_fatal e then Some (Returned e, [], st1) else again
      end
  end.

Definition Client_run (rounds : list ((ClientRequest → Upgrade) * f64)) (h : H)
    : option (RunEnd * list Z * ClientState H St) :=
  let s := ds_now (cl_cursor_store cl) in
  match load store s with
  | Err e =>
      Some (Returned e, [], MkClientState h (ResumeState_new 0 (cl_dedup_capacity cl)) s 0)
  | Ok cursor =>
      run_rounds rounds
        (MkClientState h (ResumeState_new cursor (cl_dedup_capacity cl)) s
           (bo_attempt (start (cl_backoff cl))))
  end.
End run.
End client.

(** ** Specification *)

Definition accepted {M : Wire SubServerMsg} {C : Wire SubClientMsg} (u : Upgrade) : bool :=
  match connect u with Some (Ok _) => true | _ => false end.

(** The number of the wait after each round: it counts the connects that were
    not accepted in a row. *)
Fixpoint wait_numbers {M : Wire SubServerMsg} {C : Wire SubClientMsg} (n : Z) (us : list Upgrade)
    : list Z :=
  match us with
  | [] => []
  | u :: rest => let a := if accepted u then 0 else n in a :: wait_numbers (a + 1) rest
  end.

Definition end_of (o : option SubError) : RunEnd :=
  match o with Some e => Returned e | None => Looping end.

(** The server's answer to an upgrade request: [subscribe_handler] on its
    [Authorization] header, then the frames of the connection. *)
Definition server_answer {M : Wire SubServerMsg} (to_str : string → option string)
    (authenticate : string → option string) (frames : list SubServerMsg) (k : Sink)
    (request : ClientRequest) : Upgrade :=
  match subscribe_handler authenticate (cr_headers request !! "authorization" ≫= to_str) with
  | Some name => Upgraded (text_items (Sub_Welcome name :: frames)) k
  | None => HttpStatus 401
  end.

(** *** Lemmas *)

Section lemmas.
Context {M : Wire SubServerMsg} {C : Wire SubClientMsg}.
Context {H St : Type} (handler : Handler H) (store : CursorStore St).

Lemma on_frame_attempt msg st : st_attempt (on_frame handler store msg st).2 = st_attempt st.
Proof.
  destruct msg; cbn [on_frame]; unfold hook; repeat (case_match; cbn [snd st_attempt]); done.
Qed.

Lemma session_loop_attempt fuel c st r st' :
  session_loop handler store fuel c st = Some (r, st') → st_attempt st' = st_attempt st.
Proof.
  revert c st. induction fuel as [|fuel IH]; intros c st; cbn [session_loop];
    (destruct (recv c) as [[msg|e] c']; [|by intros [= <- <-]]);
    pose proof (on_frame_attempt msg st) as Hf; destruct (on_frame _ _ msg st) as [[r'|] st1];
    cbn [snd] in Hf; try done; try (by intros [= <- <-]).
  intros Hrun. rewrite <- Hf. by eapply IH.
Qed.

Lemma run_session_attempt patterns u st r st' :
  run_session handler store patterns u st = Some (r, st') →
  st_attempt st' = if accepted u then 0 else st_attempt st.
Proof.
  unfold run_session, accepted. destruct (connect u) as [[conn|e]|]; cbn; [|by intros [= <- <-]|done].
  destruct (conn_subscribe _ _ _) as [[[]|e] conn']; [|by intros [= <- <-]].
  intros Hrun. by apply session_loop_attempt in Hrun.
Qed.
End lemmas.

(** The welcome is the first frame a server sends. *)
Lemma connect_welcome {M : Wire SubServerMsg} {C : Wire SubClientMsg} {L : WireLaws SubServerMsg}
    name frames k :
  codec_total →
  connect (Upgraded (text_items (Sub_Welcome name :: frames)) k) =
    Some (Ok (MkConnection (text_items frames) k name)).
Proof.
  intros Htotal. unfold text_items. cbn [connect fmap list_fmap length await_welcome].
  unfold recv. cbn [incoming conn_sink recv_from classify]. by rewrite parse_encode.
Qed.

(** A session over an accepted connection is the processing of its frames. *)
Lemma run_session_frames {M : Wire SubServerMsg} {C : Wire SubClientMsg} {L : WireLaws SubServerMsg}
    {H St} (handler : Handler H) (store : CursorStore St) patterns name frames out
    (st : ClientState H St) :
  codec_total →
  run_session handler store patterns
      (Upgraded (text_items (Sub_Welcome name :: frames)) (MkSink true out)) st =
    Some (match process handler store frames
                  (MkClientState (st_handler st) (st_resume st) (st_store st) 0) with
          | (Some r, st') => (r, st')
          | (None, st') => (Err EConnectionClosed, st')
          end).
Proof.
  intros Htotal. unfold run_session. rewrite connect_welcome by done.
  cbn [mbind option_bind conn_subscribe conn_send send conn_sink is_open incoming conn_name sent].
  apply session_loop_frames; [done|]. unfold text_items. by rewrite length_fmap.
Qed.

(** *** The two ends of the handshake *)

Section handshake.
Context {M : Wire SubServerMsg} {C : Wire SubClientMsg}.
Context (into_client_request : string → result string ClientRequest).
Context (parse_header to_str : string → option string).
Context (round_trips : ∀ v w, parse_header v = Some w → to_str w = Some v).
Context (cl : Client) (r : ClientRequest) (v : string).
Context (url_ok : into_client_request (cl_url cl) = Ok r).
Context (token_ok : parse_header ("Bearer " +:+ cl_token cl) = Some v).

Definition request_of_client : ClientRequest :=
  MkClientRequest (cr_uri r) (<["authorization" := v]> (cr_headers r)).

Lemma build_request_Ok :
  build_request into_client_request parse_header (cl_url cl) (cl_token cl) = Ok request_of_client.
Proof. unfold build_request. by rewrite url_ok, token_ok. Qed.

(** The server reads the token the client was given. *)
Lemma server_answer_to authenticate frames k :
  server_answer to_str authenticate frames k request_of_client =
    match authenticate (cl_token cl) with
    | Some name => Upgraded (text_items (Sub_Welcome name :: frames)) k
    | None => HttpStatus 401
    end.
Proof.
  unfold server_answer, subscribe_handler, bearer. cbn [cr_headers request_of_client].
  rewrite lookup_insert_eq. cbn [mbind option_bind]. rewrite (round_trips _ _ token_ok).
  cbn [mbind option_bind]. by rewrite (proj2 (strip_prefix_Some _ _ _) eq_refl).
Qed.

Context {H : Type} (handler : Handler H) (powi : f64 → Z → f64).
Context (cursor : Z) (loads : load (ds_ops (cl_cursor_store cl)) (ds_now (cl_cursor_store cl)) = Ok cursor).

(** A client whose token is not known stops at once. *)
Lemma refused_client_stops authenticate frames k sample rounds h :
  authenticate (cl_token cl) = None →
  ∃ st, Client_run into_client_request parse_header powi handler cl
      ((server_answer to_str authenticate frames k, sample) :: rounds) h = Some (Returned EAuth, [], st).
Proof.
  intros Hauth. unfold Client_run. rewrite loads. cbn [run_rounds]. unfold client_session.
  rewrite build_request_Ok, server_answer_to, Hauth. by eexists.
Qed.
End handshake.

(** What a sample can be. *)
Definition sampled (r : (ClientRequest → Upgrade) * f64) : Prop :=
  ∃ k, 0 ≤ k < 2 ^ 53 ∧ r.2 = Fin (sample_of k).

Section rounds.
Context {M : Wire SubServerMsg} {C : Wire SubClientMsg}.
Context (into_client_request : string → result string ClientRequest).
Context (parse_header : string → option string).
Context (powi : f64 → Z → f64).
Context (Hpowi : ∀ n, 0 ≤ n < 2 ^ 31 → is_power (powi (Fin 2) n) (2 ^ n)%Q).
Context {H : Type} (handler : Handler H) (cl : Client) (request : ClientRequest).
Context (Hpolicy : cl_backoff cl = BackoffPolicy_default).
Context (Hrequest : build_request into_client_request parse_header (cl_url cl) (cl_token cl) = Ok request).
Local Notation loop := (run_rounds into_client_request parse_header powi handler cl).
Local Notation sessions := (run_sessions handler (ds_ops (cl_cursor_store cl)) (cl_patterns cl)).
Local Notation upgrades rounds := ((λ r, r.1 request) <$> rounds).

Lemma run_rounds_spec rounds st :
  Forall sampled rounds → 0 ≤ st_attempt st → st_attempt st + len rounds < 2 ^ 31 →
  ∃ o delays st', loop rounds st = Some (end_of o, delays, st') ∧
    sessions (upgrades rounds) st = Some (o, st') ∧
    Forall2 paced (take (length delays) (wait_numbers (st_attempt st) (upgrades rounds))) delays ∧
    (o = None → length delays = length rounds).
Proof.
  revert st. induction rounds as [|[network sample] rounds IH]; intros st Hs H0 Hn.
  { exists None, [], st. repeat split; constructor. }
  apply Forall_cons in Hs as [(k & Hk & Hsample) Hs]. cbn [snd] in Hsample. subst sample.
  rewrite len_cons in Hn. cbn [run_rounds run_sessions fmap list_fmap fst].
  unfold client_session. rewrite Hrequest.
  destruct (run_session_total handler (ds_ops (cl_cursor_store cl)) (cl_patterns cl)
    (network request) st) as [[r st1] Hrun].
  rewrite Hrun. cbn [mbind option_bind]. apply run_session_attempt in Hrun.
  set (a := if accepted (network request) then 0 else st_attempt st) in *.
  assert (0 ≤ a ≤ st_attempt st) as Ha by (unfold a; destruct (accepted _); lia).
  pose proof (len_nonneg rounds) as Hlen.
  destruct (default_delays powi a k Hpowi ltac:(lia) Hk) as (d & Hd & Hpaced).
  rewrite Hpolicy, Hrun, Hd. cbn [bo_attempt].
  assert (backoff_next a = a + 1) as -> by (unfold backoff_next; lia).
  destruct (IH (MkClientState (st_handler st1) (st_resume st1) (st_store st1) (a + 1)))
    as (o & ds & st' & Hl & Hsess & Hall & Hlast); [done|cbn; lia|cbn; lia|].
  rewrite Hl, Hsess. cbn [mbind option_bind st_attempt] in *.
  assert (Forall2 paced (take (length (d :: ds)) (wait_numbers (st_attempt st)
    (network request :: upgrades rounds))) (d :: ds)) as Hall' by (by constructor).
  assert (o = None → length (d :: ds) = S (length rounds)) as Hlast' by (intros; cbn; f_equal; auto).
  destruct r as [u|e]; [by eauto 10|]. destruct (is_fatal e) eqn:He; [|by eauto 10].
  exists (Some e), [], st1. repeat split; [constructor|done].
Qed.
End rounds.

(** ** Theorems *)

(** C15: a client with the default policy reconnects at the documented pace,
    whatever the network does and whatever the samples are: [Client::run] ends
    as the session loop over the same connections does, computing a delay never
    panics, and after every session it waits half a second doubled once per
    connect refused in a row, at most thirty seconds, within a fifth; an
    accepted connect starts the doubling again.  While no fatal error comes it
    goes on through every round. *)
Theorem reconnects_are_paced {M : Wire SubServerMsg} {C : Wire SubClientMsg} {H}
    into_client_request parse_header powi (handler : Handler H) (cl : Client) request cursor rounds h :
  (∀ n, 0 ≤ n < 2 ^ 31 → is_power (powi (Fin 2) n) (2 ^ n)%Q) →
  cl_backoff cl = BackoffPolicy_default →
  build_request into_client_request parse_header (cl_url cl) (cl_token cl) = Ok request →
  load (ds_ops (cl_cursor_store cl)) (ds_now (cl_cursor_store cl)) = Ok cursor →
  Forall sampled rounds → len rounds < 2 ^ 31 →
  let us := (λ r, r.1 request) <$> rounds in
  ∃ o delays st,
    Client_run into_client_request parse_header powi handler cl rounds h =
      Some (end_of o, delays, st) ∧
    run handler (ds_ops (cl_cursor_store cl)) (cl_patterns cl) (cl_dedup_capacity cl) us h
      (ds_now (cl_cursor_store cl)) = Some (o, st) ∧
    Forall2 paced (take (length delays) (wait_numbers 0 us)) delays ∧
    (o = None → length delays = length rounds).
Proof.
  intros Hpowi Hpolicy Hrequest Hload Hs Hn. unfold Client_run, run. rewrite Hload.
  apply (run_rounds_spec into_client_request parse_header powi Hpowi handler cl request
    Hpolicy Hrequest rounds); cbn; [done|lia|lia].
Qed.

(** The two ends of the handshake agree: the request a client builds is
    accepted exactly when the server authenticates its token; then the
    connection carries the subscriber's name and [Client::run] enters its
    session, otherwise [Client::run] returns the authentication error at once,
    without a retry. *)
Theorem handshake_is_authentication {M : Wire SubServerMsg} {C : Wire SubClientMsg} {H}
    {L : WireLaws SubServerMsg} into_client_request parse_header to_str powi (handler : Handler H)
    (cl : Client) authenticate frames k r v cursor rounds sample h :
  (∀ v w, parse_header v = Some w → to_str w = Some v) → codec_total →
  into_client_request (cl_url cl) = Ok r → parse_header ("Bearer " +:+ cl_token cl) = Some v →
  load (ds_ops (cl_cursor_store cl)) (ds_now (cl_cursor_store cl)) = Ok cursor →
  let answer := server_answer to_str authenticate frames k in
  match authenticate (cl_token cl) with
  | Some name =>
      ∃ request, build_request into_client_request parse_header (cl_url cl) (cl_token cl) = Ok request ∧
        connect (answer request) = Some (Ok (MkConnection (text_items frames) k name))
  | None =>
      Client_connect into_client_request parse_header cl answer = Some (Err EAuth) ∧
      ∃ st, Client_run into_client_request parse_header powi handler cl ((answer, sample) :: rounds) h
        = Some (Returned EAuth, [], st)
  end.
Proof.
  intros Hstr Htotal Huri Hv Hload. cbv zeta.
  pose proof (build_request_Ok into_client_request parse_header cl r v Huri Hv) as Hreq.
  pose proof (server_answer_to parse_header to_str Hstr cl r v Hv authenticate frames k) as Hanswer.
  destruct (authenticate (cl_token cl)) as [name|] eqn:Hauth.
  - exists (request_of_client r v). split; [done|]. rewrite Hanswer. by apply connect_welcome.
  - split; [|by eapply refused_client_stops].
    unfold Client_connect. by rewrite Hload, Hreq, Hanswer.
Qed.

(** ** Witnesses *)

Section witnesses.
#[local] Existing Instance BitCodec.wire.
#[local] Existing Instance BitCodec.wire_laws.

Definition demo_client : Client :=
  ClientBuilder_build (ClientBuilder_resume_cursor 4 (ClientBuilder_pattern "fake.>"
    (Client_builder "ws://127.0.0.1/subscribe" "tok_a"))).

(** Refused twice, accepted and lagged, refused, revoked. *)
Definition demo_rounds : list ((ClientRequest → Upgrade) * f64) :=
  [(λ _, HttpStatus 503, Fin (sample_of 0)); (λ _, UpgradeFailed, Fin (sample_of (2 ^ 52)));
   (λ _, Upgraded (text_items [Sub_Welcome "a"; Sub_Lagged 1]) (MkSink true []), Fin (sample_of 1));
   (λ _, HttpStatus 503, Fin (sample_of 7));
   (λ _, Upgraded (text_items [Sub_Welcome "a"; Sub_Closing ReasonRevoked]) (MkSink true []),
    Fin (sample_of 2))].

Lemma reconnects_are_paced_witness :
  ∃ delays st,
    Client_run (λ url, Ok (MkClientRequest url ∅)) Some (λ _, two_to) quiet_handler demo_client
      demo_rounds () = Some (Returned ERevoked, delays, st) ∧
    Forall2 paced [0; 1; 0; 1] delays.
Proof.
  pose (request := MkClientRequest "ws://127.0.0.1/subscribe"
    {[ "authorization" := "Bearer tok_a" ]}).
  assert (build_request (λ url, Ok (MkClientRequest url ∅)) Some (cl_url demo_client)
    (cl_token demo_client) = Ok request) as Hreq by (vm_compute; reflexivity).
  assert (Forall sampled demo_rounds) as Hs.
  { repeat constructor; eexists; (split; [|reflexivity]); vm_compute; split; (discriminate || reflexivity). }
  assert (len demo_rounds < 2 ^ 31) as Hn by (vm_compute; reflexivity).
  destruct (reconnects_are_paced (λ url, Ok (MkClientRequest url ∅)) Some (λ _, two_to) quiet_handler
    demo_client request 4 demo_rounds () two_to_is_power eq_refl Hreq eq_refl Hs Hn)
    as (o & delays & st & Hrun & Hplain & Hpaced & _).
  assert (o = Some ERevoked) as -> by (vm_compute in Hplain; by injection Hplain as <- _).
  assert (wait_numbers 0 ((λ r, r.1 request) <$> demo_rounds) = [0; 1; 0; 1; 0]) as Ew
    by (vm_compute; reflexivity).
  rewrite Ew in Hpaced.
  assert (length delays = 4%nat) as Hlen.
  { vm_compute in Hrun. injection Hrun as <- _. reflexivity. }
  rewrite Hlen in Hpaced. exists delays, st. split; [exact Hrun|exact Hpaced].
Defined.
End witnesses.
