(* ===== verification/EndToEnd.v ===== *)
(** * EndToEnd: replay, live delivery and the resuming client together

    What a resuming subscriber gets from the pieces of the other files: the
    replay window of [subscriber_ws.rs] over the log of [delivery_log.rs], the
    live frames of the fan-out of [subscribers.rs], and the client loop of
    [whdr-sub-kit].  The last section shows what the composition does not
    promise when two fan-outs overlap. *)

From S2P Require Import Prelude.
From S2P Require Import Text.
From S2P Require Import Channel.
From S2P Require Import Messages.
From S2P Require Import OutboundQueue.
From S2P Require Import Config.
From S2P Require Import DeliveryLog.
From S2P Require Import Subscribers.
From S2P Require Import SubscriberWs.
From S2P Require Import SubKit.
From Stdlib Require Import Ascii.

Local Open Scope Z_scope.

(** ** Definitions *)

(** A log event as the client sees it. *)
Definition delivered_event (e : StampedEvent) : DeliveredEvent :=
  MkDeliveredEvent (id e) (seq e) (ts_ms e) (st_channel e) (st_payload_b64 e).

Definition event_frame (e : StampedEvent) : SubServerMsg := ev_msg (delivered_event e).

(** The frames of a resuming connection: the replay window followed by the live
    frames of its queue. *)
Definition replay_msgs (gap : option (Z * Z)) (window : list StampedEvent) (head : Z)
    : list SubServerMsg :=
  [Sub_Ok "subscribe"] ++
  match gap with Some (a, b) => [Sub_ReplayGap a b] | None => [] end ++
  (event_frame <$> window) ++ [Sub_Replayed head].

(** ** Lemmas *)

Section lemmas.
Context {H St : Type} (hd : Handler H) (store : CursorStore St) (Hok : accepting hd store).
Implicit Types st : ClientState (H * list DeliveredEvent) St.

(** Frames other than events leave the log and the resume state alone. *)
Definition same_progress st st' : Prop :=
  (st_handler st').2 = (st_handler st).2 ∧ st_resume st' = st_resume st.

Lemma hook_progress (r : result string () * (H * list DeliveredEvent)) st :
  (∃ h', r = (Ok (), (h', (st_handler st).2))) →
  ∃ st', hook r st None = (None, st') ∧ same_progress st st'.
Proof. intros [h' ->]. cbn. eexists. split; [done|]. by split. Qed.

Lemma process_replayed n st :
  ∃ st', process (logged hd) store [Sub_Replayed n] st = (None, st') ∧ same_progress st st'.
Proof.
  cbn [process on_frame]. destruct (hook_progress (on_replayed (logged hd) n (st_handler st)) st)
    as (st' & -> & Hp); [|by exists st'].
  cbn. destruct (replayed_ok _ _ Hok n (st_handler st).1) as [h' ->]. by exists h'.
Qed.

Lemma process_head gap st :
  ∃ st', process (logged hd) store
    ([Sub_Ok "subscribe"] ++
     match gap with Some (a, b) => [Sub_ReplayGap a b] | None => [] end) st = (None, st') ∧
    same_progress st st'.
Proof.
  destruct gap as [[a b]|]; cbn [process on_frame app]; [|exists st; by repeat split].
  destruct (hook_progress (on_replay_gap (logged hd) a b (st_handler st)) st)
    as (st' & -> & Hp); [|by exists st'].
  cbn. destruct (gap_ok _ _ Hok a b (st_handler st).1) as [h' ->]. by exists h'.
Qed.

Lemma filter_delivered (P : Z → Prop) `{∀ z, Decision (P z)}
    (es : list StampedEvent) :
  filter (λ e, P (de_seq e)) (delivered_event <$> es) =
  delivered_event <$> filter (λ e, P (seq e)) es.
Proof.
  induction es as [|e es IH]; [done|]. rewrite fmap_cons, !filter_cons. cbn.
  case_decide; by rewrite ?fmap_cons, IH.
Qed.
End lemmas.

(** What a client at cursor [c] should handle of a history. *)
Definition due (c : Z) (ps : option (list Pattern)) (hist : list StampedEvent) : list StampedEvent :=
  filter (λ e, wanted c ps e) hist.

Definition subscribed (ps : option (list Pattern)) (hist : list StampedEvent) : list StampedEvent :=
  filter (λ e, selected ps e) hist.

Lemma due_subscribed c ps hist : due c ps hist = filter (λ e, c < seq e) (subscribed ps hist).
Proof.
  unfold due, subscribed, wanted. rewrite list_filter_filter. apply list_filter_iff. intros e.
  by rewrite andb_True, (Is_true_true (_ <? _)), Z.ltb_lt.
Qed.

Lemma sorted_seqs_app (l k : list StampedEvent) :
  StronglySorted Z.lt (seq <$> l ++ k) ↔
  StronglySorted Z.lt (seq <$> l) ∧ StronglySorted Z.lt (seq <$> k) ∧
  ∀ x y, x ∈ l → y ∈ k → seq x < seq y.
Proof.
  rewrite fmap_app. induction l as [|e l IH]; csimpl.
  { split; [intros; split_and!; [constructor|done|set_solver]|by intros (_ & ? & _)]. }
  split.
  - intros [Hs Hall]%StronglySorted_inv. apply IH in Hs as (H1 & H2 & H3).
    apply Forall_app in Hall as [Hl Hk]. split_and!; [by constructor|done|].
    intros x y [-> |Hx]%elem_of_cons Hy; [|by apply H3].
    rewrite Forall_forall in Hk. apply Hk. apply list_elem_of_fmap. by exists y.
  - intros (H1 & H2 & H3). apply StronglySorted_inv in H1 as [H1 Hl].
    constructor; [apply IH; split_and!; [done..|]; intros; apply H3; [by apply list_elem_of_further|done]|].
    apply Forall_app. split; [done|]. apply Forall_forall. intros z Hz.
    apply list_elem_of_fmap in Hz as (y & -> & Hy). apply H3; [by apply list_elem_of_here|done].
Qed.

Lemma sorted_seqs_filter (P : StampedEvent → Prop) `{∀ e, Decision (P e)} l :
  StronglySorted Z.lt (seq <$> l) → StronglySorted Z.lt (seq <$> filter P l).
Proof.
  induction l as [|e l IH]; [done|]. csimpl. intros [Hs Hall]%StronglySorted_inv.
  rewrite filter_cons. case_decide; [|auto]. csimpl. constructor; [auto|].
  apply (Forall_fmap seq). apply Forall_filtered. by apply (Forall_fmap seq) in Hall.
Qed.

Lemma NoDup_ids_filter (P : StampedEvent → Prop) `{∀ e, Decision (P e)} l :
  NoDup (id <$> l) → NoDup (id <$> filter P l).
Proof.
  induction l as [|e l IH]; [done|]. csimpl. intros [Hni Hnd]%NoDup_cons.
  rewrite filter_cons. case_decide; [|auto]. csimpl. constructor; [|auto].
  intros (x & Heq & [_ Hx]%list_elem_of_filter)%list_elem_of_fmap. apply Hni. rewrite Heq.
  apply list_elem_of_fmap. by exists x.
Qed.

Section resume.
Context {H St : Type} (hd : Handler H) (store : CursorStore St) (Hok : accepting hd store).
Implicit Types st : ClientState (H * list DeliveredEvent) St.

(** [process_events] for log events. *)
Lemma process_stamped es st :
  StronglySorted Z.lt (seq <$> es) → NoDup (id <$> es) →
  (∀ e, e ∈ es → cursor (st_resume st) < seq e → id e ∉ seen (st_resume st)) →
  let new := filter (λ e, cursor (st_resume st) < seq e) es in
  ∃ st', process (logged hd) store (event_frame <$> es) st = (None, st') ∧
    (st_handler st').2 = (st_handler st).2 ++ (delivered_event <$> new) ∧
    cursor (st_resume st') = default (cursor (st_resume st)) (last (seq <$> new)) ∧
    ∀ i, i ∈ seen (st_resume st') → i ∈ seen (st_resume st) ∨ i ∈ id <$> new.
Proof.
  intros Hs Hnd Hfr. cbv zeta.
  destruct (process_events hd store Hok (delivered_event <$> es) st)
    as (st' & Hp & Hl & Hc & Hseen).
  { unfold fresh. rewrite <- !list_fmap_compose. split; [done|]. split; [done|].
    intros e (x & -> & Hx)%list_elem_of_fmap. by apply Hfr. }
  exists st'. rewrite <- list_fmap_compose in Hp.
  rewrite (filter_delivered (λ z, cursor (st_resume st) < z)) in Hl, Hc, Hseen.
  rewrite <- list_fmap_compose in Hc, Hseen. split; [done|]. split; [done|]. split; [done|].
  intros i Hi. apply Hseen, elem_of_union in Hi as [?|Hi]; [by left|right].
  by apply elem_of_list_to_set in Hi.
Qed.

Lemma last_seq_max c es (e : StampedEvent) :
  StronglySorted Z.lt (c :: (seq <$> es)) → e ∈ es → seq e ≤ default c (last (seq <$> es)).
Proof.
  revert c. induction es as [|x es IH]; intros c Hs He; [by apply not_elem_of_nil in He|].
  csimpl in *. apply StronglySorted_inv in Hs as [Hs _].
  rewrite last_cons. assert (default c (match last (seq <$> es) with Some y => Some y
    | None => Some (seq x) end) = default (seq x) (last (seq <$> es))) as -> by (by destruct (last _)).
  apply elem_of_cons in He as [->|He]; [|by apply IH].
  destruct (last (seq <$> es)) as [z|] eqn:Hl; cbn; [|done].
  apply StronglySorted_inv in Hs as [_ Hall]. rewrite Forall_forall in Hall.
  apply last_Some in Hl as [l Hl]. rewrite Hl in Hall.
  specialize (Hall z ltac:(apply elem_of_app; right; apply list_elem_of_singleton; done)). lia.
Qed.

Lemma due_app c ps l k : due c ps (l ++ k) = due c ps l ++ due c ps k.
Proof. apply filter_app. Qed.

(** After handling what was due of the window, what is due of the live frames is
    what was due of the rest of the history. *)
Lemma due_after_window c ps win rest live_win :
  StronglySorted Z.lt (seq <$> win ++ rest) → (∀ e, e ∈ live_win → e ∈ win) →
  let c' := default c (last (seq <$> due c ps win)) in
  due c' ps (live_win ++ rest) = due c ps rest.
Proof.
  intros Hs Hsub. cbv zeta. set (c' := default c _).
  apply sorted_seqs_app in Hs as (Hw & Hr & Hlt).
  assert (StronglySorted Z.lt (c :: (seq <$> due c ps win))) as Hdue.
  { constructor; [by apply sorted_seqs_filter|]. apply (Forall_fmap seq), Forall_forall.
    intros e [He _]%list_elem_of_filter. unfold wanted in He. cbn.
    apply andb_True in He as [He _]. by apply Is_true_true, Z.ltb_lt in He. }
  assert (∀ e, e ∈ win → wanted c' ps e → False) as Hwin.
  { intros e He Hwant. unfold wanted in Hwant. apply andb_True in Hwant as [Hc' Hsel].
    apply Is_true_true, Z.ltb_lt in Hc'. assert (c ≤ c') as Hcc.
    { unfold c'. destruct (last (seq <$> due c ps win)) as [z|] eqn:Hl; cbn; [|lia].
      apply last_Some in Hl as [l Hl]. apply StronglySorted_inv in Hdue as [_ Hall].
      rewrite Forall_forall, Hl in Hall.
      specialize (Hall z ltac:(apply elem_of_app; right; apply list_elem_of_singleton; done)). lia. }
    assert (e ∈ due c ps win) as Hin.
    { apply list_elem_of_filter. split; [|done]. unfold wanted. apply andb_True. split; [|done].
      apply Is_true_true, Z.ltb_lt. lia. }
    pose proof (last_seq_max _ _ _ Hdue Hin). unfold c' in Hc'. lia. }
  unfold due at 1. rewrite filter_app, filter_none.
  2:{ apply Forall_forall. intros e He Hw'. by apply (Hwin e); [apply Hsub|]. }
  cbn [app]. apply filter_wanted_ext, Forall_forall. intros e He. unfold c'.
  destruct (last (seq <$> due c ps win)) as [z|] eqn:Hl; cbn; [|done].
  apply last_Some in Hl as [l Hl].
  assert (z ∈ seq <$> due c ps win) as (x & Hz & [Hx Hxw]%list_elem_of_filter)%list_elem_of_fmap
    by (rewrite Hl; apply elem_of_app; right; by apply list_elem_of_singleton).
  unfold wanted in Hx. apply andb_True in Hx as [Hx _]. apply Is_true_true, Z.ltb_lt in Hx.
  specialize (Hlt x e Hxw He). lia.
Qed.

Lemma due_past c ps l e : e ∈ due c ps l → c < seq e ∧ e ∈ l.
Proof.
  intros [Hw He]%list_elem_of_filter. split; [|done]. unfold wanted in Hw.
  apply andb_True in Hw as [Hw _]. by apply Is_true_true, Z.ltb_lt in Hw.
Qed.

(** The replay window alone. *)
Lemma process_window st ps win gap hd_seq :
  let c := cursor (st_resume st) in
  StronglySorted Z.lt (seq <$> win) → NoDup (id <$> win) →
  (∀ e, e ∈ win → c < seq e → id e ∉ seen (st_resume st)) →
  ∃ st', process (logged hd) store (replay_msgs gap (due c ps win) hd_seq) st = (None, st') ∧
    (st_handler st').2 = (st_handler st).2 ++ (delivered_event <$> due c ps win) ∧
    cursor (st_resume st') = default c (last (seq <$> due c ps win)) ∧
    ∀ i, i ∈ seen (st_resume st') → i ∈ seen (st_resume st) ∨ i ∈ id <$> due c ps win.
Proof.
  cbv zeta. intros Hs Hnd Hfr. set (c := cursor (st_resume st)) in *.
  unfold replay_msgs. rewrite app_assoc, process_app.
  destruct (process_head hd store Hok gap st) as (st1 & -> & Hl1 & Hr1). rewrite process_app.
  assert (filter (λ e, cursor (st_resume st1) < seq e) (due c ps win) = due c ps win) as Hall.
  { apply filter_all, Forall_forall. intros e [He _]%due_past. by rewrite Hr1. }
  destruct (process_stamped (due c ps win) st1) as (st2 & -> & Hl2 & Hc2 & Hseen2).
  { by apply sorted_seqs_filter. }
  { by apply NoDup_ids_filter. }
  { intros e [_ He]%due_past. rewrite Hr1. by apply Hfr. }
  rewrite Hall, Hr1 in *. fold c in Hc2.
  destruct (process_replayed hd store Hok hd_seq st2) as (st3 & -> & Hl3 & Hr3).
  exists st3. rewrite Hl3, Hr3, Hl2, Hl1. done.
Qed.

Lemma resume_handles_due st ps win rest live_win gap hd_seq :
  let c := cursor (st_resume st) in
  StronglySorted Z.lt (seq <$> win ++ rest) → NoDup (id <$> win ++ rest) →
  (∀ e, e ∈ win ++ rest → c < seq e → id e ∉ seen (st_resume st)) →
  live_win `suffix_of` win →
  ∃ st', process (logged hd) store
      (replay_msgs gap (due c ps win) hd_seq ++
       (event_frame <$> subscribed ps (live_win ++ rest))) st = (None, st') ∧
    (st_handler st').2 = (st_handler st).2 ++ (delivered_event <$> due c ps (win ++ rest)) ∧
    cursor (st_resume st') = default c (last (seq <$> due c ps (win ++ rest))).
Proof.
  cbv zeta. intros Hs Hnd Hfr [pre Hpre]. set (c := cursor (st_resume st)) in *.
  pose proof Hs as (Hw & Hr & Hlt)%sorted_seqs_app.
  pose proof Hnd as Hnd0. rewrite fmap_app in Hnd0. apply NoDup_app in Hnd0 as (Hnw & Hdis & Hnr).
  destruct (process_window st ps win gap hd_seq Hw Hnw) as (st1 & Hp1 & Hl1 & Hc1 & Hseen1).
  { intros e He. apply Hfr. apply elem_of_app. by left. }
  fold c in Hp1, Hl1, Hc1, Hseen1. rewrite process_app, Hp1.
  assert (due (cursor (st_resume st1)) ps (live_win ++ rest) = due c ps rest) as Hdue.
  { rewrite Hc1. apply due_after_window; [done|]. intros e He. rewrite Hpre. apply elem_of_app. by right. }
  rewrite due_subscribed in Hdue. assert (pre ++ live_win ++ rest = win ++ rest) as Hsplit
    by (by rewrite Hpre, app_assoc).
  destruct (process_stamped (subscribed ps (live_win ++ rest)) st1) as (st2 & -> & Hl2 & Hc2 & _).
  { apply sorted_seqs_filter. rewrite <- Hsplit in Hs. by apply sorted_seqs_app in Hs as (_ & ? & _). }
  { apply NoDup_ids_filter. rewrite <- Hsplit, fmap_app in Hnd. by apply NoDup_app in Hnd as (_ & _ & ?). }
  { intros e He Hce. assert (e ∈ due c ps rest) as [Hpast Hin]%due_past
      by (rewrite <- Hdue; by apply list_elem_of_filter).
    intros [Hid|(x & Hx & [_ Hxw]%due_past)%list_elem_of_fmap]%Hseen1.
    - by apply (Hfr e); [apply elem_of_app; by right|..].
    - apply (Hdis (id e)); [rewrite Hx|]; apply list_elem_of_fmap; eauto. }
  exists st2. split; [done|]. rewrite Hdue in *. rewrite (due_app c ps win rest).
  rewrite Hl2, Hl1, (fmap_app delivered_event), <- app_assoc. split; [done|].
  rewrite Hc2, Hc1, (fmap_app seq), last_app. by destruct (last (seq <$> due c ps rest)).
Qed.
End resume.

(** ** From texts to frames *)

Section texts.
Context {Db Table : Type} {R : Redb Db Table} {L : RedbLaws Db Table}.
Context {W : Wire StoredEvent} {WL : WireLaws StoredEvent}.
Context {M : Wire SubServerMsg} {ML : WireLaws SubServerMsg} {C : Wire SubClientMsg}.

Lemma texts_for_frames ps hist :
  codec_total →
  texts_for ps (frame_of <$> hist) = encode <$> (event_frame <$> subscribed (Some ps) hist).
Proof.
  intros Htot. unfold texts_for, subscribed.
  induction hist as [|e hist IH]; [done|]. rewrite fmap_cons, filter_cons. cbn [omap list_omap].
  rewrite IH. change (sf_channel (frame_of e)) with (st_channel e). cbn [selected].
  destruct (any_matches ps (st_channel e));
    [rewrite decide_True by done|by rewrite decide_False by tauto].
  change (event_msg (frame_of e)) with (event_frame e). rewrite !fmap_cons.
  assert (to_option (to_string (event_frame e)) = Some (encode (event_frame e))) as ->; [|done].
  specialize (Htot (event_frame e)). unfold encode. by destruct (to_string (event_frame e)).
Qed.

Lemma replay_window_texts l0 l1 l2 evs a b patterns after frames :
  appended l0 l1 evs a → appended l1 l2 (evs ++ a) b → 0 ≤ after < u64_max →
  replay_window l0 l1 l2 patterns after = Ok frames →
  frames = encode <$> replay_msgs
    (if decide (gap_expected l0 evs after) then Some (after, floor l0) else None)
    (due after (Some (parsed_patterns patterns)) (evs ++ a)) (head l1).
Proof.
  intros H1 H2 Hafter Hw. rewrite (replay_window_spec _ _ _ _ _ _ _ _ _ H1 H2 Hafter Hw).
  unfold replay_msgs. rewrite !fmap_app, <- list_fmap_compose.
  by case_decide.
Qed.

Lemma log_repr_sorted (s : Shared Db) evs :
  log_repr s evs → StronglySorted Z.lt (seq <$> evs).
Proof. intros (Hrows & _). rewrite <- (rows_repr_keys _ _ Hrows). apply db_sorted. Qed.
End texts.

(** ** Theorems *)


(** ** Witnesses *)

Section witnesses.
#[local] Existing Instance MemDb.mem_redb.
#[local] Existing Instance MemDb.mem_redb_laws.
#[local] Existing Instance BitCodec.wire.
#[local] Existing Instance BitCodec.wire_laws.
#[local] Existing Instance some_order.

Definition client_at (c : Z) : ClientState (() * list DeliveredEvent) Z :=
  MkClientState ((), []) (ResumeState_new c 8) c 0.

Definition event_four : StampedEvent := MkStampedEvent 4 70 3000 "fake.a" "eA==".

Lemma quiet_accepting : accepting quiet_handler MemoryCursorStore.
Proof. split; intros; eexists; reflexivity. Qed.

Lemma bit_codec_total : codec_total.
Proof. intros m. reflexivity. Qed.


(** Stamping and delivering are two steps of a fan-out.  When two fan-outs
    overlap so that the second delivers first, the client handles event 5, moves
    its cursor past event 4, refuses event 4, and will not ask for it again. *)
Definition overlapped : Registry (list (Z * string)) * Heap :=
  let '(batch1, r1) := fanout_stamp [sample_event] 3000 (λ _, 70) durable_subs in
  let '(batch2, r2) := fanout_stamp [sample_event] 3000 (λ _, 71) r1 in
  (r2, fanout_deliver batch1 r2 (fanout_deliver batch2 r2 two_queues)).

Definition queue_texts (q : QueueRef) (h : Heap) : list string :=
  from_option queued_events [] (queues h !! q).

Lemma overlapping_fanouts_lose_an_event :
  let texts := queue_texts 10 overlapped.2 in
  from_option head 0 (log overlapped.1) = 5 ∧ length texts = 2%nat ∧
  match session_loop (logged quiet_handler) MemoryCursorStore 2
      (MkConnection ((λ t, Ok (MText t)) <$> texts) (MkSink true []) "a") (client_at 3) with
  | Some (_, st') =>
      de_seq <$> (st_handler st').2 = [5] ∧ cursor (st_resume st') = 5 ∧ st_store st' = 5
  | None => False
  end.
Proof. vm_compute. repeat split. Qed.

(** When the log refuses a batch, its events are stamped from the in-memory
    counter: a client whose cursor is past it drops them although they are
    delivered. *)
Lemma unpersisted_events_are_dropped_by_clients :
  let '(frames, _) := stamp_in_memory 3000 (λ _, 72) 0 (mem_seq durable_subs) [sample_event] in
  sf_seq <$> frames = [1] ∧
  (on_frame (logged quiet_handler) MemoryCursorStore (Sub_Event 72 1 3000 "fake.a" "eA==")
     (client_at 3)).2 = client_at 3.
Proof. vm_compute. split; reflexivity. Qed.
End witnesses.
