(* ===== verification/Recovery.v ===== *)
(** * Recovery: durable delivery across disconnections, crashes and pruning

    One client and one durable log over any number of sessions: the connection
    may break after any frame ([run_session] of [crates/whdr-sub-kit/src/lib.rs]
    over what [subscriber_ws.rs] sends), events may be appended at any time, the
    log may be pruned, the daemon may be killed and reopen the database
    ([delivery_log.rs]), the client may be killed between two frames (a session
    cut there, then a restart) and load its cursor again.  The history and the
    events retention took before the client came back are ghost state.  Appends
    are the acknowledged ones of fan-outs that do not overlap, and no prune runs
    inside a replay. *)

From S2P Require Import Prelude.
From S2P Require Import Text.
From S2P Require Import Channel.
From S2P Require Import Messages.
From S2P Require Import OutboundQueue.
From S2P Require Import Config.
From S2P Require Import DeliveryLog.
From S2P Require Import Subscribers.
From S2P Require Import SubscriberWs.
From S2P Require Import SubKit.
From S2P Require Import Client.
From S2P Require Import EndToEnd.

Local Open Scope Z_scope.

(** ** Definitions *)

(** What may follow the frames of a session: nothing, the notice of a slow
    consumer or that of a shutdown. *)
Inductive farewell : list SubServerMsg → Prop :=
  | farewell_silent : farewell []
  | farewell_lagged n : farewell [Sub_Lagged n]
  | farewell_shutdown : farewell [Sub_Closing ReasonShutdown].

(** The first [n] frames, or all. *)
Definition cut {A} (n : option nat) (l : list A) : list A :=
  match n with Some n => take n l | None => l end.

Section recovery.
Context {Db Table : Type} {R : Redb Db Table} {L : RedbLaws Db Table}.
Context {W : Wire StoredEvent} {WL : WireLaws StoredEvent}.
Context {M : Wire SubServerMsg} {ML : WireLaws SubServerMsg} {C : Wire SubClientMsg}.
Context {H St : Type} (hd : Handler H) (store : CursorStore St) (patterns : list string).
Local Notation ps := (Some (parsed_patterns patterns)).

(** Appends by the fan-outs, each acknowledged, and the events they added. *)
Inductive grows : Shared Db → Shared Db → list StampedEvent → Prop :=
  | grows_none l : grows l l []
  | grows_append events ts new_v4 l l1 l2 stamped more :
      append events ts new_v4 l = (Ok stamped, l1) → head l + len events < u64_max →
      is_u64 (values_bytes (db_rows (db l1)).*2) → grows l1 l2 more →
      grows l l2 (stamped ++ more).

Record World : Type := MkWorld {
  w_log : Shared Db;
  w_client : ClientState (H * list DeliveredEvent) St;
  w_kept : list StampedEvent;
  w_hist : list StampedEvent;
  w_lost : list StampedEvent
}.

Definition w_cursor (w : World) : Z := cursor (st_resume (w_client w)).
Definition handled (w : World) : list DeliveredEvent := (st_handler (w_client w)).2.

Definition add_events (l : Shared Db) (client : ClientState (H * list DeliveredEvent) St)
    (more : list StampedEvent) (w : World) : World :=
  MkWorld l client (w_kept w ++ more) (w_hist w ++ more) (w_lost w).

(** The log [l] retains the last of the events; those dropped that the client
    still wanted are lost. *)
Definition shrink (l : Shared Db) (w : World) : World :=
  let kept := last_n (retained_count l) (w_kept w) in
  let dropped := take (length (w_kept w) - length kept) (w_kept w) in
  MkWorld l (w_client w) kept (w_hist w)
    (w_lost w ++ filter (λ e, wanted (w_cursor w) ps e) dropped).

(** The texts of a connection: the welcome, the replay window, the live frames. *)
Definition session_texts (name : string) (frames : list string) (live : list StampedEvent)
    : list string :=
  encode (Sub_Welcome name) :: frames ++ texts_for (parsed_patterns patterns) (frame_of <$> live).

(** The client between two sessions. *)
Definition next_round (st : ClientState (H * list DeliveredEvent) St)
    : ClientState (H * list DeliveredEvent) St :=
  MkClientState (st_handler st) (st_resume st) (st_store st) (backoff_next (st_attempt st)).

(** A session of which the first [n] frames arrive: the three reads of the replay
    with appends between them, and the live frames, from some of the events
    before the head of the window on. *)
Inductive session (n : option nat) (w : World) : World → Prop :=
  | session_run l1 l2 l3 a b d live_win name frames bye out r st :
      grows (w_log w) l1 a → grows l1 l2 b → grows l2 l3 d →
      NoDup (id <$> w_hist w ++ a ++ b ++ d) →
      live_win `suffix_of` w_kept w ++ a → farewell bye →
      replay_window (w_log w) l1 l2 patterns (w_cursor w) = Ok frames →
      run_session (logged hd) store patterns
        (Upgraded ((λ t, Ok (MText t)) <$>
           cut n (session_texts name frames (live_win ++ b ++ d)) ++ (encode <$> bye))
           (MkSink true out)) (w_client w) = Some (r, st) →
      match r with Err e => is_fatal e = false | Ok _ => True end →
      session n w (add_events l3 (next_round st) (a ++ b ++ d) w).

Inductive wstep (w : World) : World → Prop :=
  | step_append l more :
      grows (w_log w) l more → NoDup (id <$> w_hist w ++ more) →
      wstep w (add_events l (w_client w) more w)
  | step_prune now n l :
      prune_blocking now (w_log w) = (Ok n, l) → wstep w (shrink l w)
  | step_daemon_restart fs mk ch create cfg now db0 l :
      create (store_path cfg) = Ok db0 → db_rows db0 = db_rows (db (w_log w)) →
      0 ≤ dc_max_events cfg → 0 ≤ max_bytes cfg → (w_kept w ≠ [] ∨ head (w_log w) = 0) →
      DeliveryLog_open fs mk ch create cfg now = Ok l → wstep w (shrink l w)
  | step_client_restart c cap :
      load store (st_store (w_client w)) = Ok c →
      wstep w (MkWorld (w_log w)
        (MkClientState (st_handler (w_client w)) (ResumeState_new c cap) (st_store (w_client w)) 0)
        (w_kept w) (w_hist w) (w_lost w))
  | step_session n w' : session n w w' → wstep w w'.

(** A new client at [c0], on a log with the events [w_kept]. *)
Record initial (c0 : Z) (w : World) : Prop := {
  in_log : log_repr (w_log w) (w_kept w);
  in_limits : 0 ≤ sh_max_events (w_log w) ∧ 0 ≤ sh_max_bytes (w_log w);
  in_head : head (w_log w) < u64_max;
  in_hist : w_hist w = w_kept w;
  in_lost : w_lost w = [];
  in_ids : NoDup (id <$> w_hist w);
  in_cursor : w_cursor w = c0 ∧ 0 ≤ c0 < u64_max;
  in_seen : seen (st_resume (w_client w)) = ∅;
  in_handled : handled w = [];
  in_store : load store (st_store (w_client w)) = Ok c0
}.

(** What the client loads is what it saved last. *)
Definition durable_store : Prop := ∀ c s s', save store c s = (Ok (), s') → load store s' = Ok c.

(** ** Lemmas *)

(** *** The log *)

Lemma append_Ok_spec events ts new_v4 (l : Shared Db) evs stamped l' :
  log_repr l evs → head l + len events < u64_max →
  append events ts new_v4 l = (Ok stamped, l') → is_u64 (values_bytes (db_rows (db l')).*2) →
  appended l l' evs stamped ∧ head l' = head l + len stamped ∧
  sh_max_events l' = sh_max_events l ∧ sh_max_bytes l' = sh_max_bytes l.
Proof.
  intros Hl Hlt Happ Hfit. unfold u64_max in Hlt.
  destruct (append_spec l evs events ts new_v4 (Ok stamped) l' Hl ltac:(lia) Happ Hfit) as [Hl' Hst].
  assert (len stamped = len events) as Hlen by (unfold len; by rewrite Hst, stamp_batch_length).
  assert (seq <$> stamped = seqZ (head l + 1) (len stamped)) as Hseq
    by (by rewrite Hlen, Hst, stamp_batch_seqs).
  split; [done|]. rewrite Hlen. destruct events as [|e events].
  { injection Happ as <- <-. change (len (@nil Event)) with 0. split_and!; [lia|done..]. }
  destruct (append_blocking_head l (e :: events) ts new_v4 (Ok stamped) l' ltac:(apply Hl)
    ltac:(lia) Happ) as [_ Hhead]. split; [done|].
  revert Happ. cbn [append]. unfold append_blocking. destruct (stamp_events _ _ _ _ _); [|done].
  destruct (t ← _; _); [|done]. by intros [= _ <-].
Qed.

Lemma grows_spec (l l' : Shared Db) evs more :
  log_repr l evs → 0 ≤ sh_max_events l ∧ 0 ≤ sh_max_bytes l → grows l l' more → head l < u64_max →
  appended l l' evs more ∧ head l' = head l + len more ∧ head l' < u64_max ∧
  0 ≤ sh_max_events l' ∧ 0 ≤ sh_max_bytes l'.
Proof.
  intros Hl Hlim Hg Hhead. revert evs Hl Hlim Hhead.
  induction Hg as [l|events ts new_v4 l l1 l2 stamped more Happ Hlt Hfit _ IH]; intros evs Hl Hlim Hhead.
  { split; [by apply appended_refl|]. change (len (@nil StampedEvent)) with 0. split; [lia|]. done. }
  destruct (append_Ok_spec events ts new_v4 l evs stamped l1 Hl Hlt Happ Hfit) as (Ha & Hh & He & Hb).
  pose proof Ha as (_ & Hl1 & Hseq). assert (len stamped = len events) as Hlen.
  { destruct (append_spec l evs events ts new_v4 (Ok stamped) l1 Hl ltac:(unfold u64_max in Hlt; lia) Happ Hfit)
      as [_ ->]. unfold len. by rewrite stamp_batch_length. }
  destruct (IH (evs ++ stamped) Hl1 ltac:(by rewrite He, Hb) ltac:(lia)) as ((_ & Hl2 & Hseq2) & Hh2 & ? & ?).
  rewrite <- app_assoc in Hl2. rewrite len_app. split; [|split; [lia|done]].
  split; [done|]. split; [done|]. rewrite fmap_app, Hseq, Hseq2, Hh, len_app.
  pose proof (len_nonneg stamped). pose proof (len_nonneg more).
  rewrite seqZ_app by lia. f_equal. f_equal. lia.
Qed.

(** *** What a client accepts *)

Fixpoint accept (c : Z) (es : list DeliveredEvent) : list DeliveredEvent :=
  match es with
  | [] => []
  | e :: rest => if c <? de_seq e then e :: accept (de_seq e) rest else accept c rest
  end.

Definition last_seq (c : Z) (es : list DeliveredEvent) : Z := default c (last (de_seq <$> es)).

Definition events_of (msgs : list SubServerMsg) : list DeliveredEvent :=
  omap (λ m, match m with Sub_Event i s t c p => Some (MkDeliveredEvent i s t c p) | _ => None end) msgs.

(** The frames of a replay and of the live phase. *)
Definition streamed (m : SubServerMsg) : Prop :=
  match m with
  | Sub_Event _ _ _ _ _ | Sub_Ok _ | Sub_ReplayGap _ _ | Sub_Replayed _ => True
  | _ => False
  end.

Lemma last_seq_cons c e es : last_seq c (e :: es) = last_seq (de_seq e) es.
Proof. unfold last_seq. csimpl. rewrite last_cons. by destruct (last _). Qed.

Lemma last_seq_app c es fs : last_seq c (es ++ fs) = last_seq (last_seq c es) fs.
Proof. unfold last_seq. rewrite fmap_app, last_app. by destruct (last (de_seq <$> fs)). Qed.

Lemma accept_app c es fs : accept c (es ++ fs) = accept c es ++ accept (last_seq c (accept c es)) fs.
Proof.
  revert c. induction es as [|e es IH]; intros c; [done|]. cbn [accept app].
  destruct (c <? de_seq e); [|apply IH]. rewrite last_seq_cons, IH. done.
Qed.

Lemma accept_prefix c es fs : es `prefix_of` fs → accept c es `prefix_of` accept c fs.
Proof. intros [k ->]. rewrite accept_app. by eexists. Qed.

Lemma accept_sorted c es :
  StronglySorted Z.lt (de_seq <$> es) → accept c es = filter (λ e, c < de_seq e) es.
Proof.
  revert c. induction es as [|e es IH]; intros c Hs; [done|]. csimpl in *.
  apply StronglySorted_inv in Hs as [Hs Hall]. rewrite (Forall_fmap de_seq) in Hall.
  destruct (c <? de_seq e) eqn:Hlt; bool_to_prop.
  - rewrite filter_cons_True, IH by done. f_equal. rewrite !filter_all; [done|..];
      (eapply Forall_impl; [exact Hall|]); simpl; lia.
  - rewrite filter_cons_False by lia. by apply IH.
Qed.

Lemma events_of_app msgs msgs' : events_of (msgs ++ msgs') = events_of msgs ++ events_of msgs'.
Proof. apply omap_app. Qed.

Lemma events_of_stamped es : events_of (event_frame <$> es) = delivered_event <$> es.
Proof. induction es as [|e es IH]; [done|]. csimpl. by rewrite <- IH. Qed.

(** *** A client that accepts *)

Section accepting.
Context (Hok : accepting hd store) (Hstore : durable_store).
Implicit Types st : ClientState (H * list DeliveredEvent) St.
(** The events there are, by their identifiers. *)
Context (pool : list DeliveredEvent) (Hpool : ∀ e e', e ∈ pool → e' ∈ pool → de_id e = de_id e' → e = e').

(** What the client remembers it has handled. *)
Definition remembers st : Prop :=
  (∀ i, i ∈ seen (st_resume st) → ∃ e, e ∈ pool ∧ de_id e = i ∧ de_seq e ≤ cursor (st_resume st)) ∧
  load store (st_store st) = Ok (cursor (st_resume st)).

(** The effect of the events [es] of a stream. *)
Definition progressed st st' (es : list DeliveredEvent) : Prop :=
  let new := accept (cursor (st_resume st)) es in
  remembers st' ∧ (st_handler st').2 = (st_handler st).2 ++ new ∧
  cursor (st_resume st') = last_seq (cursor (st_resume st)) new.

Lemma progressed_nil st st' :
  remembers st' → (st_handler st').2 = (st_handler st).2 → st_resume st' = st_resume st →
  progressed st st' [].
Proof. intros Hr Hl Hres. unfold progressed. cbn. by rewrite Hl, Hres, app_nil_r. Qed.

Lemma progressed_trans st st1 st2 es fs :
  progressed st st1 es → progressed st1 st2 fs → progressed st st2 (es ++ fs).
Proof.
  intros (_ & Hl1 & Hc1) (Hr2 & Hl2 & Hc2). unfold progressed. rewrite accept_app, <- Hc1.
  split; [done|]. split; [by rewrite Hl2, Hl1, app_assoc|]. by rewrite last_seq_app, <- Hc1.
Qed.

Lemma hook_progressed r st :
  remembers st → (∃ h', r = (Ok (), (h', (st_handler st).2))) →
  ∃ st', hook r st None = (None, st') ∧ progressed st st' [].
Proof.
  intros Hr [h' ->]. cbn. eexists. split; [done|]. unfold progressed. cbn. by rewrite app_nil_r.
Qed.

Lemma frame_progressed msg st :
  streamed msg → remembers st → (∀ e, e ∈ events_of [msg] → e ∈ pool) →
  ∃ st', on_frame (logged hd) store msg st = (None, st') ∧ progressed st st' (events_of [msg]).
Proof.
  intros Hm Hr Hin. destruct msg as [n|op|op m|i s t c p|n|a b|n| |reason]; try done.
  - exists st. split; [done|]. unfold progressed. cbn. by rewrite app_nil_r.
  - set (e := MkDeliveredEvent i s t c p). assert (e ∈ pool) as He by (apply Hin, list_elem_of_here).
    change (events_of [Sub_Event i s t c p]) with [e]. unfold progressed.
    cbn [on_frame accept]. unfold should_process. change (de_seq e) with s.
    destruct (cursor (st_resume st) <? s) eqn:Hlt; bool_to_prop; cbn [andb].
    2:{ exists st. rewrite app_nil_r. done. }
    assert (i ∉ seen (st_resume st)) as Hnew.
    { intros Hi. destruct (proj1 Hr i Hi) as (e' & He' & Hid & Hle).
      assert (e' = e) as -> by (by apply Hpool). cbn in Hle. lia. }
    rewrite bool_decide_eq_false_2 by done. cbn [negb on_event logged].
    destruct (event_ok _ _ Hok (MkDeliveredEvent i s t c p) (st_handler st).1) as [h' ->].
    set (res := record i s (st_resume st)).
    destruct (save_ok _ _ Hok (cursor res) (st_store st)) as [s' Hs']. rewrite Hs'.
    eexists. split; [done|]. cbn [st_handler st_resume st_store snd].
    assert (cursor res = s) as Hc by (unfold res; rewrite record_cursor; lia).
    split; [|by rewrite Hc].
    split; [|by apply Hstore in Hs']. cbn [st_resume]. intros j Hj. rewrite Hc.
    apply (record_seen_subset hd store Hok), elem_of_union in Hj as [->%elem_of_singleton|Hj].
    + by exists e.
    + destruct (proj1 Hr j Hj) as (e' & ? & ? & ?). exists e'. split_and!; [done..|lia].
  - apply hook_progressed; [done|]. cbn. destruct (replayed_ok _ _ Hok n (st_handler st).1) as [h' ->].
    by exists h'.
  - apply hook_progressed; [done|]. cbn. destruct (gap_ok _ _ Hok a b (st_handler st).1) as [h' ->].
    by exists h'.
Qed.

Lemma process_progressed msgs st :
  Forall streamed msgs → remembers st → (∀ e, e ∈ events_of msgs → e ∈ pool) →
  ∃ st', process (logged hd) store msgs st = (None, st') ∧ progressed st st' (events_of msgs).
Proof.
  intros Hall. revert st. induction Hall as [|msg msgs Hm _ IH]; intros st Hr Hin.
  { exists st. unfold progressed. cbn. by rewrite app_nil_r. }
  change (msg :: msgs) with ([msg] ++ msgs) in Hin |- *. rewrite events_of_app in Hin |- *.
  destruct (frame_progressed msg st Hm Hr) as (st1 & Hf & Hr1 & Hl1 & Hc1).
  { intros e He. apply Hin, elem_of_app. by left. }
  destruct (IH st1 Hr1) as (st2 & Hp & Hr2 & Hl2 & Hc2).
  { intros e He. apply Hin, elem_of_app. by right. }
  exists st2. cbn [app process]. rewrite Hf. split; [done|].
  by eapply (progressed_trans st st1 st2).
Qed.

Lemma farewell_progressed bye st o st' :
  farewell bye → remembers st → process (logged hd) store bye st = (o, st') → progressed st st' [].
Proof.
  intros Hbye Hr. destruct Hbye as [|n|]; cbn [process].
  - intros [= _ <-]. by apply progressed_nil.
  - cbn [on_frame on_lagged logged]. destruct (on_lagged hd n _) as [[[]|e] h'];
      cbn; intros [= _ <-]; by apply progressed_nil.
  - cbn. intros [= _ <-]. by apply progressed_nil.
Qed.

(** A session makes the progress of the frames that arrived. *)
Lemma run_session_progressed n name msgs bye out st res st' :
  codec_total → Forall streamed msgs → farewell bye → remembers st →
  (∀ e, e ∈ events_of msgs → e ∈ pool) →
  run_session (logged hd) store patterns
    (Upgraded (text_items (cut n (Sub_Welcome name :: msgs) ++ bye)) (MkSink true out)) st =
    Some (res, st') →
  ∃ pre, pre `prefix_of` msgs ∧ (n = None → pre = msgs) ∧ progressed st st' (events_of pre).
Proof.
  intros Htot Hmsgs Hbye Hr Hin Hrun.
  assert (n = Some 0%nat ∨ ∃ pre, pre `prefix_of` msgs ∧ (n = None → pre = msgs) ∧
    cut n (Sub_Welcome name :: msgs) = Sub_Welcome name :: pre) as [->|(pre & Hpre & Hall & Hcut)].
  { destruct n as [[|n]|]; [by left|right..].
    - exists (take n msgs). split; [by exists (drop n msgs); rewrite take_drop|done].
    - by exists msgs. }
  - exists []. split; [apply prefix_nil|]. split; [done|].
    assert (st' = st) as ->; [|by apply progressed_nil].
    revert Hrun. unfold run_session. destruct Hbye as [|n|]; cbn [cut take app].
    + by intros [= _ <-].
    + unfold text_items, connect. cbn [fmap list_fmap length await_welcome]. unfold recv.
      cbn [incoming conn_sink recv_from classify]. rewrite parse_encode by done. by intros [= _ <-].
    + unfold text_items, connect. cbn [fmap list_fmap length await_welcome]. unfold recv.
      cbn [incoming conn_sink recv_from classify]. rewrite parse_encode by done. by intros [= _ <-].
  - exists pre. split; [done|]. split; [done|]. revert Hrun. rewrite Hcut. cbn [app].
    rewrite run_session_frames by done. set (st0 := MkClientState _ _ _ 0).
    destruct (process_progressed pre st0) as (st1 & Hp & Hprog).
    { destruct Hpre as [k ->]. by apply Forall_app in Hmsgs as [? _]. }
    { done. }
    { intros e He. apply Hin. destruct Hpre as [k ->]. rewrite events_of_app. apply elem_of_app. by left. }
    rewrite process_app, Hp. destruct (process (logged hd) store bye st1) as [o st2] eqn:Hb.
    apply farewell_progressed in Hb; [|done|apply Hprog].
    intros Hrun. assert (st2 = st') as <- by (destruct o; by injection Hrun).
    rewrite <- (app_nil_r (events_of pre)). exact (progressed_trans st0 st1 st2 _ [] Hprog Hb).
Qed.
End accepting.

(** *** Sorted histories *)

Definition sorted (es : list StampedEvent) : Prop := StronglySorted Z.lt (seq <$> es).

Lemma sorted_app_lt l k x y : sorted (l ++ k) → x ∈ l → y ∈ k → seq x < seq y.
Proof. intros Hs. apply sorted_seqs_app in Hs as (_ & _ & Hlt). apply Hlt. Qed.

(** A sorted history is given by its events. *)
Lemma sorted_ext l k : sorted l → sorted k → (∀ e, e ∈ l ↔ e ∈ k) → l = k.
Proof.
  revert k. induction l as [|x l IH]; intros [|y k] Hl Hk Heq; try done.
  - exfalso. apply (not_elem_of_nil y), Heq, list_elem_of_here.
  - exfalso. apply (not_elem_of_nil x), Heq, list_elem_of_here.
  - unfold sorted in *. csimpl in *.
    apply StronglySorted_inv in Hl as [Hl Hxl], Hk as [Hk Hyk].
    rewrite (Forall_fmap seq), Forall_forall in Hxl, Hyk.
    assert (x = y) as <-.
    { pose proof (proj1 (Heq x) (list_elem_of_here _ _)) as [->|Hx]%elem_of_cons; [done|].
      pose proof (proj2 (Heq y) (list_elem_of_here _ _)) as [->|Hy]%elem_of_cons; [done|].
      specialize (Hxl y Hy). specialize (Hyk x Hx). simpl in *. lia. }
    f_equal. apply IH; [done..|]. intros e. split; intros He.
    + assert (e ∈ x :: k) as [->|?]%elem_of_cons by (apply Heq; by apply list_elem_of_further); [|done].
      specialize (Hxl x He). simpl in Hxl. lia.
    + assert (e ∈ x :: l) as [->|?]%elem_of_cons by (apply Heq; by apply list_elem_of_further); [|done].
      specialize (Hyk x He). simpl in Hyk. lia.
Qed.

Lemma sorted_filter (P : StampedEvent → Prop) `{∀ e, Decision (P e)} l : sorted l → sorted (filter P l).
Proof. apply sorted_seqs_filter. Qed.

Lemma de_seq_delivered (es : list StampedEvent) : de_seq <$> (delivered_event <$> es) = seq <$> es.
Proof. by rewrite <- list_fmap_compose. Qed.

Lemma last_seq_delivered c (es : list StampedEvent) : last_seq c (delivered_event <$> es) = default c (last (seq <$> es)).
Proof. unfold last_seq. by rewrite de_seq_delivered. Qed.

Lemma due_elem c l e : e ∈ due c ps l ↔ c < seq e ∧ selected ps e = true ∧ e ∈ l.
Proof.
  unfold due. rewrite list_elem_of_filter. unfold wanted.
  rewrite andb_True, !Is_true_true, Z.ltb_lt. tauto.
Qed.

(** The events of the whole stream of a session are what is due. *)
Lemma stream_accepted c win rest live_win :
  sorted (win ++ rest) → live_win `suffix_of` win →
  accept c (delivered_event <$> due c ps win ++ subscribed ps (live_win ++ rest)) =
    delivered_event <$> due c ps (win ++ rest).
Proof.
  intros Hs Hsuf. pose proof Hs as (Hw & _ & _)%sorted_seqs_app.
  assert (sorted (live_win ++ rest)) as Hlive.
  { destruct Hsuf as [pre ->]. rewrite <- app_assoc in Hs. by apply sorted_seqs_app in Hs as (_ & ? & _). }
  assert (∀ c l, sorted l → accept c (delivered_event <$> l) = delivered_event <$> filter (λ e, c < seq e) l)
    as Haccept.
  { intros c' l Hl. rewrite accept_sorted by by rewrite de_seq_delivered.
    apply (filter_delivered (λ z, c' < z)). }
  rewrite fmap_app, accept_app, !Haccept by by apply sorted_filter.
  rewrite (filter_all _ (due c ps win)) by (apply Forall_forall; intros e [? _]%due_elem; done).
  rewrite last_seq_delivered, <- due_subscribed.
  rewrite (due_after_window c ps win rest live_win Hs).
  2:{ destruct Hsuf as [pre ->]. intros e He. apply elem_of_app. by right. }
  by rewrite due_app, fmap_app.
Qed.

(** What has been accepted of it so far. *)
Lemma sorted_prefix c es pre :
  sorted es → Forall (λ e, c < seq e) es → pre `prefix_of` es →
  pre = filter (λ e, seq e ≤ default c (last (seq <$> pre))) es.
Proof.
  intros Hs Hc [k ->]. apply sorted_seqs_app in Hs as (Hp & Hk & Hlt). apply Forall_app in Hc as [Hcp Hck].
  rewrite filter_app, filter_all, filter_none; [by rewrite app_nil_r|..].
  - apply Forall_forall. intros e He. destruct (last (seq <$> pre)) as [z|] eqn:Hl; cbn.
    + apply last_Some_elem_of in Hl as (x & -> & Hx)%list_elem_of_fmap. specialize (Hlt x e Hx He). lia.
    + rewrite Forall_forall in Hck. specialize (Hck e He). simpl in Hck. lia.
  - apply Forall_forall. intros e He. apply (last_seq_max c pre e); [|done].
    constructor; [done|]. by apply (Forall_fmap seq).
Qed.

(** *** The invariant *)

Definition pool (w : World) : list DeliveredEvent := delivered_event <$> w_hist w.

(** What the client has been given up to its cursor. *)
Definition given (c0 : Z) (w : World) : list StampedEvent :=
  filter (λ e, seq e ≤ w_cursor w ∧ e ∉ w_lost w) (due c0 ps (w_hist w)).

Record world_ok (c0 : Z) (w : World) : Prop := {
  ok_log : log_repr (w_log w) (w_kept w);
  ok_limits : 0 ≤ sh_max_events (w_log w) ∧ 0 ≤ sh_max_bytes (w_log w);
  ok_head : head (w_log w) < u64_max;
  ok_kept : w_kept w `suffix_of` w_hist w;
  ok_sorted : sorted (w_hist w);
  ok_below e : e ∈ w_hist w → seq e ≤ head (w_log w);
  ok_ids : NoDup (id <$> w_hist w);
  ok_cursor : 0 ≤ c0 ≤ w_cursor w ∧ w_cursor w < u64_max ∧ (w_cursor w = c0 ∨ w_cursor w ≤ head (w_log w));
  ok_lost e : e ∈ w_lost w → e ∈ w_hist w ∧ e ∉ w_kept w;
  ok_caught e : e ∈ w_hist w → e ∉ w_kept w → w_cursor w < seq e → selected ps e = true → e ∈ w_lost w;
  ok_handled : handled w = delivered_event <$> given c0 w;
  ok_remembers : remembers (pool w) (w_client w)
}.

Lemma remembers_grows (es es' : list DeliveredEvent) st :
  (∀ e, e ∈ es → e ∈ es') → remembers es st → remembers es' st.
Proof. intros Hsub [Hseen Hload]. split; [|done]. intros i (e & ? & ? & ?)%Hseen. exists e. auto. Qed.

Lemma kept_sub w c0 e : world_ok c0 w → e ∈ w_kept w → e ∈ w_hist w.
Proof. intros Hw He. destruct (ok_kept _ _ Hw) as [k ->]. apply elem_of_app. by right. Qed.

Lemma pool_ids w c0 e e' :
  world_ok c0 w → e ∈ pool w → e' ∈ pool w → de_id e = de_id e' → e = e'.
Proof.
  intros Hw (x & -> & Hx)%list_elem_of_fmap (y & -> & Hy)%list_elem_of_fmap. cbn. intros Hid. f_equal.
  pose proof (ok_ids _ _ Hw) as Hnd. revert x y Hx Hy Hid. induction (w_hist w) as [|z l IH]; csimpl in *.
  { by intros x y Hx%not_elem_of_nil. }
  apply NoDup_cons in Hnd as [Hni Hnd].
  intros x y [->|Hx]%elem_of_cons [->|Hy]%elem_of_cons Hid; [done|..].
  - destruct Hni. rewrite Hid. apply list_elem_of_fmap. by exists y.
  - destruct Hni. rewrite <- Hid. apply list_elem_of_fmap. by exists x.
  - by apply IH.
Qed.

Lemma grows_app (l l1 l2 : Shared Db) a b : grows l l1 a → grows l1 l2 b → grows l l2 (a ++ b).
Proof.
  induction 1 as [|events ts new_v4 l l1 l2' stamped more Happ Hlt Hfit _ IH]; intros Hb; [done|].
  rewrite <- app_assoc. eapply grows_append; [done..|]. by apply IH.
Qed.

Lemma world_ok_grows c0 w l more :
  world_ok c0 w → grows (w_log w) l more → NoDup (id <$> w_hist w ++ more) →
  world_ok c0 (add_events l (w_client w) more w).
Proof.
  intros Hw Hg Hnd. pose proof (ok_below _ _ Hw) as Hbelow.
  destruct (grows_spec _ l _ more (ok_log _ _ Hw) (ok_limits _ _ Hw) Hg (ok_head _ _ Hw))
    as (Happ & Hhead & Hmax & Hlim). pose proof (appended_after _ _ _ _ Happ) as Hafter.
  rewrite Forall_forall in Hafter. destruct Happ as (_ & Hl & Hseq). pose proof (len_nonneg more).
  assert (∀ e, e ∈ more → seq e ≤ head l) as Hmore.
  { intros e He. assert (seq e ∈ seq <$> more) as Hin by (apply list_elem_of_fmap; by exists e).
    rewrite Hseq in Hin. apply elem_of_seqZ in Hin. lia. }
  assert (∀ e, e ∈ more → e ∉ w_hist w) as Hnew.
  { intros e He Hin. specialize (Hafter e He). specialize (Hbelow e Hin). simpl in Hafter. lia. }
  destruct (ok_cursor _ _ Hw) as (Hc0 & Hcmax & Hc).
  split; cbn [add_events w_log w_client w_kept w_hist w_lost]; try done.
  - destruct (ok_kept _ _ Hw) as [k Hk]. exists k. by rewrite Hk, app_assoc.
  - apply sorted_seqs_app. split_and!; [by apply (ok_sorted _ _ Hw)|by apply log_repr_sorted, sorted_seqs_app in Hl as (_ & ? & _)|].
    intros x y Hx Hy. specialize (Hbelow x Hx). specialize (Hafter y Hy). simpl in Hafter. lia.
  - intros e [He|He]%elem_of_app; [specialize (Hbelow e He); lia|by apply Hmore].
  - unfold w_cursor in *. cbn [add_events w_client]. split; [done|]. split; [done|]. destruct Hc as [Hc|Hc]; [by left|right; lia].
  - intros e He. destruct (ok_lost _ _ Hw e He) as [Hh Hk]. split; [apply elem_of_app; by left|].
    intros [?|Hm]%elem_of_app; [done|by apply (Hnew e)].
  - intros e [He|He]%elem_of_app Hk; [|destruct Hk; apply elem_of_app; by right].
    apply (ok_caught _ _ Hw e He). intros ?. apply Hk, elem_of_app. by left.
  - unfold handled, given, w_cursor. cbn [add_events w_client w_hist w_lost]. rewrite due_app, filter_app.
    rewrite (filter_none _ (due c0 ps more)), app_nil_r; [apply (ok_handled _ _ Hw)|].
    apply Forall_forall. intros e (Hgt & _ & He)%due_elem [Hle _]. specialize (Hafter e He).
    simpl in Hafter. unfold w_cursor in Hc. destruct Hc; lia.
  - eapply remembers_grows; [|apply (ok_remembers _ _ Hw)]. unfold pool. cbn [add_events w_hist].
    intros e He. rewrite fmap_app. apply elem_of_app. by left.
Qed.

Lemma last_n_drop {A} k (l : list A) :
  (k ≤ length l)%nat → last_n (len (drop k l)) l = drop k l.
Proof. intros Hk. unfold last_n, len. rewrite length_drop. f_equal. lia. Qed.

Lemma world_ok_shrink c0 w l k :
  world_ok c0 w → (k ≤ length (w_kept w))%nat → log_repr l (drop k (w_kept w)) →
  head l = head (w_log w) → 0 ≤ sh_max_events l ∧ 0 ≤ sh_max_bytes l →
  world_ok c0 (shrink l w).
Proof.
  intros Hw Hk Hl Hhead Hlim.
  assert (retained_count l = len (drop k (w_kept w))) as Hcount by apply Hl.
  assert (last_n (retained_count l) (w_kept w) = drop k (w_kept w)) as Hlast
    by (rewrite Hcount; by apply last_n_drop).
  unfold shrink. rewrite Hlast, length_drop.
  assert (length (w_kept w) - (length (w_kept w) - k) = k)%nat as -> by lia.
  set (dropped := take k (w_kept w)). set (kept := drop k (w_kept w)) in *.
  assert (w_kept w = dropped ++ kept) as Hsplit by (symmetry; apply take_drop).
  assert (sorted (dropped ++ kept)) as Hs.
  { rewrite <- Hsplit. destruct (ok_kept _ _ Hw) as [p Hp]. pose proof (ok_sorted _ _ Hw) as Hs.
    unfold sorted in Hs. rewrite Hp in Hs. by apply sorted_seqs_app in Hs as (_ & ? & _). }
  assert (∀ e, e ∈ dropped → e ∈ kept → False) as Hdis.
  { intros e H1 H2. pose proof (sorted_app_lt _ _ e e Hs H1 H2). lia. }
  split; cbn [w_log w_client w_kept w_hist w_lost]; unfold w_cursor in *; cbn [w_client];
    try apply Hw; try done.
  - rewrite Hhead. apply Hw.
  - destruct (ok_kept _ _ Hw) as [p Hp]. exists (p ++ dropped). by rewrite Hp, Hsplit, app_assoc.
  - intros e. rewrite Hhead. apply Hw.
  - rewrite Hhead. apply (ok_cursor _ _ Hw).
  - intros e [He|[_ He]%list_elem_of_filter]%elem_of_app.
    + destruct (ok_lost _ _ Hw e He) as [Hh Hn]. split; [done|]. intros Hin. apply Hn. rewrite Hsplit.
      apply elem_of_app. by right.
    + split; [|intros Hin; by eapply Hdis]. eapply kept_sub; [done|]. rewrite Hsplit.
      apply elem_of_app. by left.
  - intros e He Hn Hgt Hsel. apply elem_of_app.
    destruct (decide (e ∈ w_kept w)) as [Hin|Hin]; [|left; by apply (ok_caught _ _ Hw)].
    right. apply list_elem_of_filter. split.
    + unfold wanted, w_cursor. rewrite Hsel, andb_true_r. by apply Is_true_true, Z.ltb_lt.
    + rewrite Hsplit in Hin. by apply elem_of_app in Hin as [?|?].
  - etrans; [apply (ok_handled _ _ Hw)|]. unfold given, w_cursor. cbn [w_client w_hist w_lost]. f_equal.
    apply list_filter_iff. intros e. rewrite elem_of_app, list_elem_of_filter.
    unfold wanted, w_cursor. rewrite andb_True, Is_true_true, Z.ltb_lt.
    split; [intros [Hle Hn]; split; [done|intros [?|[[? _] _]]; [done|lia]]|intros [Hle Hn]; split; [done|]].
    intros Hin. apply Hn. by left.
Qed.

Definition with_client (st : ClientState (H * list DeliveredEvent) St) (w : World) : World :=
  MkWorld (w_log w) st (w_kept w) (w_hist w) (w_lost w).

(** Everything due and not lost. *)
Definition all_given (c0 : Z) (w : World) : list StampedEvent :=
  filter (λ e, e ∉ w_lost w) (due c0 ps (w_hist w)).

(** The client handles some of what it is due, from the first on. *)
Lemma world_ok_progress c0 w st pre :
  world_ok c0 w → pre `prefix_of` due (w_cursor w) ps (w_kept w) →
  (st_handler st).2 = handled w ++ (delivered_event <$> pre) →
  cursor (st_resume st) = default (w_cursor w) (last (seq <$> pre)) →
  remembers (pool w) st →
  world_ok c0 (with_client st w) ∧
  (pre = due (w_cursor w) ps (w_kept w) →
   (st_handler st).2 = delivered_event <$> all_given c0 w).
Proof.
  intros Hw Hpre Hlog Hc Hr. set (c := w_cursor w) in *.
  set (D := due c ps (w_kept w)) in *.
  destruct (ok_cursor _ _ Hw) as ([Hc0 Hcc] & Hcmax & Hch). fold c in Hcc, Hcmax, Hch.
  pose proof (ok_sorted _ _ Hw) as Hs.
  assert (sorted (w_kept w)) as Hsk.
  { destruct (ok_kept _ _ Hw) as [p Hp]. unfold sorted in Hs. rewrite Hp in Hs.
    by apply sorted_seqs_app in Hs as (_ & ? & _). }
  assert (sorted D) as HsD by by apply sorted_filter.
  assert (pre = filter (λ e, seq e ≤ cursor (st_resume st)) D) as Hfilter.
  { rewrite Hc. apply sorted_prefix; [done| |done]. apply Forall_forall. by intros e [? _]%due_elem. }
  assert (c ≤ cursor (st_resume st)) as Hmono.
  { rewrite Hc. destruct (last (seq <$> pre)) as [z|] eqn:Hl; cbn; [|lia].
    apply last_Some_elem_of in Hl as (x & -> & Hx)%list_elem_of_fmap. rewrite Hfilter in Hx.
    apply list_elem_of_filter in Hx as [_ [? _]%due_elem]. lia. }
  assert (cursor (st_resume st) = c ∨ cursor (st_resume st) ≤ head (w_log w)) as Hnewc.
  { rewrite Hc. destruct (last (seq <$> pre)) as [z|] eqn:Hl; cbn; [right|by left].
    apply last_Some_elem_of in Hl as (x & -> & Hx)%list_elem_of_fmap. rewrite Hfilter in Hx.
    apply list_elem_of_filter in Hx as [_ (_ & _ & Hx)%due_elem].
    apply (ok_below _ _ Hw). by eapply kept_sub. }
  pose proof (ok_head _ _ Hw) as Hhead.
  assert (∀ e, e ∈ w_hist w → c < seq e → selected ps e = true → e ∉ w_lost w → e ∈ w_kept w) as Hkept.
  { intros e He Hgt Hsel Hn. destruct (decide (e ∈ w_kept w)) as [|Hk]; [done|].
    destruct Hn. by apply (ok_caught _ _ Hw). }
  assert (∀ (P : StampedEvent → Prop) (dec : ∀ e, Decision (P e)), (∀ e, seq e ≤ c → P e) →
    filter (λ e, P e ∧ e ∉ w_lost w) (due c0 ps (w_hist w)) = given c0 w ++ filter P D) as Hsplit.
  { intros P dec HP. apply sorted_ext.
    - by apply sorted_filter, sorted_filter.
    - apply sorted_seqs_app. split_and!; [by apply sorted_filter, sorted_filter|by apply sorted_filter|].
      intros x y [[Hx _] _]%list_elem_of_filter [_ [Hy _]%due_elem]%list_elem_of_filter. fold c in Hx. lia.
    - intros e. unfold given. fold c. unfold D. rewrite elem_of_app, !list_elem_of_filter, !due_elem. split.
      + intros [[HPe Hn] (Hgt & Hsel & He)]. destruct (Z.le_gt_cases (seq e) c); [by left|right].
        split; [done|]. split; [done|]. split; [done|]. apply Hkept; [done|lia|done|done].
      + intros [[[Hle Hn] Hdue]|[HPe (Hgt & Hsel & He)]]; [by auto|].
        split; [split; [done|]|split; [lia|split; [done|by eapply kept_sub]]].
        intros Hl. by destruct (ok_lost _ _ Hw e Hl). }
  split.
  - split; cbn [with_client w_log w_client w_kept w_hist w_lost]; unfold w_cursor;
      cbn [with_client w_client]; try apply Hw; try done.
    + split; [lia|]. split; [destruct Hnewc; lia|]. destruct Hnewc as [->|?]; [done|by right].
    + intros e He Hn Hgt. apply (ok_caught _ _ Hw); [done..|]. fold c. lia.
    + unfold handled, given, w_cursor. cbn [with_client w_client w_hist w_lost].
      rewrite Hlog, (ok_handled _ _ Hw), <- fmap_app.
      rewrite (Hsplit (λ e, seq e ≤ cursor (st_resume st)) _) by (intros; lia). by rewrite <- Hfilter.
  - intros Hall. rewrite Hlog, (ok_handled _ _ Hw), <- fmap_app. f_equal. rewrite Hall.
    unfold all_given. rewrite <- (filter_all (λ _, True) D) by by apply Forall_true.
    rewrite <- (Hsplit (λ _, True) _) by done. apply list_filter_iff. tauto.
Qed.

(** *** Sessions *)

Lemma events_of_replay gap win hd_seq :
  events_of (replay_msgs gap win hd_seq) = delivered_event <$> win.
Proof.
  unfold replay_msgs. rewrite !events_of_app, events_of_stamped.
  destruct gap as [[a b]|]; by rewrite app_nil_r.
Qed.

Lemma streamed_replay gap win hd_seq : Forall streamed (replay_msgs gap win hd_seq).
Proof.
  unfold replay_msgs. repeat (apply Forall_app; split).
  - by repeat constructor.
  - destruct gap as [[a b]|]; by repeat constructor.
  - apply Forall_fmap, Forall_true. done.
  - by repeat constructor.
Qed.

Lemma cut_fmap {A B} (f : A → B) n l : cut n (f <$> l) = f <$> cut n l.
Proof. destruct n; [apply firstn_map|done]. Qed.

Lemma prefix_delivered (es : list DeliveredEvent) (l : list StampedEvent) :
  es `prefix_of` delivered_event <$> l → ∃ pre, pre `prefix_of` l ∧ es = delivered_event <$> pre.
Proof.
  intros [k Hk]. apply fmap_app_inv in Hk as (pre & rest & -> & -> & ->).
  exists pre. split; [by exists rest|done].
Qed.

Section steps.
Context (Hok : accepting hd store) (Hstore : durable_store) (Htot : codec_total).

Lemma session_ok n c0 w w' :
  world_ok c0 w → session n w w' →
  world_ok c0 w' ∧ (n = None → handled w' = delivered_event <$> all_given c0 w').
Proof.
  intros Hw [l1 l2 l3 a b d live_win name frames bye out r st Ha Hb Hd Hnd Hsuf Hbye Hwin Hrun _].
  destruct (grows_spec _ _ _ _ (ok_log _ _ Hw) (ok_limits _ _ Hw) Ha (ok_head _ _ Hw))
    as (H01 & _ & Hhead1 & Hlim1). pose proof H01 as (_ & Hl1 & _).
  destruct (grows_spec _ _ _ _ Hl1 Hlim1 Hb Hhead1) as (H12 & _).
  set (more := a ++ b ++ d) in *. set (w1 := add_events l3 (w_client w) more w).
  assert (world_ok c0 w1) as Hw1.
  { apply world_ok_grows; [done| |done]. eapply grows_app; [done|]. by eapply grows_app. }
  assert (w_kept w1 = (w_kept w ++ a) ++ b ++ d) as Hkept by (cbn; unfold more; by rewrite app_assoc).
  destruct (ok_cursor _ _ Hw) as ([? ?] & ? & _).
  set (win := w_kept w ++ a) in *. set (c := w_cursor w) in *.
  assert (0 ≤ c < u64_max) as Hc by lia.
  rewrite (replay_window_texts _ _ _ _ _ _ _ _ _ H01 H12 Hc Hwin) in Hrun.
  fold win in Hrun. set (gap := if decide _ then _ else _) in Hrun.
  set (msgs := replay_msgs gap (due c ps win) (head l1) ++
    (event_frame <$> subscribed ps (live_win ++ b ++ d))).
  assert (session_texts name (encode <$> replay_msgs gap (due c ps win) (head l1)) (live_win ++ b ++ d) =
    encode <$> Sub_Welcome name :: msgs) as Htexts.
  { unfold session_texts, msgs. rewrite texts_for_frames by done. by rewrite <- fmap_app. }
  rewrite Htexts, cut_fmap, <- fmap_app, <- list_fmap_compose in Hrun.
  assert (events_of msgs = delivered_event <$> due c ps win ++ subscribed ps (live_win ++ b ++ d)) as Hevents.
  { unfold msgs. by rewrite events_of_app, events_of_replay, events_of_stamped, fmap_app. }
  assert (sorted (win ++ b ++ d)) as Hs.
  { rewrite <- Hkept. destruct (ok_kept _ _ Hw1) as [p Hp]. pose proof (ok_sorted _ _ Hw1) as Hs.
    unfold sorted in Hs. rewrite Hp in Hs. by apply sorted_seqs_app in Hs as (_ & ? & _). }
  destruct (run_session_progressed Hok Hstore (pool w1) (λ e e', pool_ids w1 c0 e e' Hw1) n name msgs bye out
    (w_client w) r st) as (pre & Hpre & Hall & Hr & Hlog & Hcur); [done| |done| | |exact Hrun|].
  - apply Forall_app. split; [apply streamed_replay|]. by apply Forall_fmap, Forall_true.
  - apply (ok_remembers _ _ Hw1).
  - rewrite Hevents. intros e He. apply list_elem_of_fmap in He as (x & -> & Hx).
    apply list_elem_of_fmap. exists x. split; [done|]. eapply (kept_sub w1); [done|]. rewrite Hkept.
    apply elem_of_app in Hx as [(_ & _ & Hx)%due_elem|[_ Hx]%list_elem_of_filter];
      [apply elem_of_app; by left|].
    destruct Hsuf as [p Hp]. rewrite Hp, <- app_assoc. apply elem_of_app. by right.
  - fold (w_cursor w) in Hcur, Hlog. fold c in Hcur, Hlog. fold (handled w) in Hlog.
    pose proof (stream_accepted c win (b ++ d) live_win Hs Hsuf) as Hstream. rewrite <- Hevents in Hstream.
    assert (accept c (events_of pre) `prefix_of` delivered_event <$> due c ps (win ++ b ++ d)) as Hp.
    { rewrite <- Hstream. apply accept_prefix. destruct Hpre as [k ->]. rewrite events_of_app. by eexists. }
    apply prefix_delivered in Hp as (new & Hnew & Heq). rewrite Heq in *. rewrite last_seq_delivered in Hcur.
    rewrite <- Hkept in Hnew.
    destruct (world_ok_progress c0 w1 (next_round st) new Hw1 Hnew Hlog Hcur Hr) as [Hw2 Hcomplete].
    split; [exact Hw2|]. intros Hn. specialize (Hall Hn). subst pre. apply Hcomplete.
    rewrite Hstream in Heq. assert (delivered_event <$> new = delivered_event <$> due c ps (w_kept w1)) as Hinj
      by (by rewrite Hkept, Heq). revert Hinj. apply list_fmap_eq_inj. intros [] []. by intros [= -> -> -> -> ->].
Qed.

Lemma wstep_ok c0 w w' : world_ok c0 w → wstep w w' → world_ok c0 w'.
Proof.
  intros Hw [l more Hg Hnd|now n l Hp|fs mk ch create cfg now db0 l Hcreate Hdb Hme Hmb Hempty Hopen|
    c cap Hload|n w1 Hs].
  - by apply world_ok_grows.
  - destruct (ok_limits _ _ Hw) as [Hme Hmb].
    destruct (prune_blocking_spec _ _ _ _ _ (ok_log _ _ Hw) Hme Hmb Hp)
      as (k & Hk & _ & Hl & Hhead & He & Hb & _).
    apply (world_ok_shrink c0 w l k); [done..|by rewrite He, Hb].
  - destruct (DeliveryLog_open_spec fs mk ch create cfg now (w_log w) (w_kept w) db0 l) as (k & Hk & Hl & Hhead);
      [apply (ok_log _ _ Hw)|done..|].
    apply (world_ok_shrink c0 w l k); [done..| |].
    + rewrite Hhead. case_decide; [by destruct Hempty|done].
    + pose proof (open_settings _ _ _ _ _ _ _ Hopen) as [= _ -> ->]. done.
  - destruct (ok_remembers _ _ Hw) as [_ Hst]. rewrite Hload in Hst. injection Hst as ->.
    destruct Hw. split; unfold w_cursor, given, handled in *; cbn in *; try done.
  - by eapply session_ok in Hs as [? _].
Qed.

Lemma initial_ok c0 w : initial c0 w → world_ok c0 w.
Proof.
  intros [Hlog Hlim Hhead Hhist Hlost Hids [Hc Hc0] Hseen Hhandled Hst].
  split; try done; rewrite ?Hhist, ?Hlost, ?Hc in *; try done.
  - by apply log_repr_sorted in Hlog.
  - intros e He. pose proof (log_repr_bounds _ _ Hlog) as Hb. rewrite Forall_forall in Hb.
    specialize (Hb e He). simpl in Hb. lia.
  - split; [lia|]. split; [lia|by left].
  - intros e He. by apply not_elem_of_nil in He.
  - rewrite Hhandled. unfold given. rewrite filter_none; [done|].
    apply Forall_forall. intros e [Hgt _]%due_elem [Hle _]. rewrite Hc in Hle. lia.
  - split; [|by unfold w_cursor in Hc; rewrite Hst, Hc]. rewrite Hseen. intros j Hj.
    by apply not_elem_of_empty in Hj.
Qed.

(** A session on an idle log whose frames all arrive. *)
Lemma session_exists c0 w frames :
  world_ok c0 w → replay_window (w_log w) (w_log w) (w_log w) patterns (w_cursor w) = Ok frames →
  ∃ w', session None w w' ∧ w_hist w' = w_hist w.
Proof.
  intros Hw Hwin. pose proof (appended_refl _ _ (ok_log _ _ Hw)) as H0.
  assert (appended (w_log w) (w_log w) (w_kept w ++ []) []) as H1 by by rewrite app_nil_r.
  destruct (ok_cursor _ _ Hw) as ([? ?] & ? & _). assert (0 ≤ w_cursor w < u64_max) as Hc by lia.
  pose proof (replay_window_texts _ _ _ _ _ _ _ _ _ H0 H1 Hc Hwin) as Hframes. rewrite app_nil_r in Hframes.
  set (gap := if decide _ then _ else _) in Hframes.
  set (msgs := replay_msgs gap (due (w_cursor w) ps (w_kept w)) (head (w_log w))) in Hframes.
  set (st0 := MkClientState (st_handler (w_client w)) (st_resume (w_client w)) (st_store (w_client w)) 0).
  destruct (process_progressed Hok Hstore (pool w) (λ e e', pool_ids w c0 e e' Hw) msgs st0) as (st1 & Hp & _).
  { apply streamed_replay. }
  { apply (ok_remembers _ _ Hw). }
  { intros e. unfold msgs. rewrite events_of_replay. intros (x & -> & (_ & _ & Hx)%due_elem)%list_elem_of_fmap.
    apply list_elem_of_fmap. exists x. split; [done|]. by eapply kept_sub. }
  exists (add_events (w_log w) (next_round st1) ([] ++ [] ++ []) w). split; [|cbn; by rewrite app_nil_r].
  apply (session_run None w (w_log w) (w_log w) (w_log w) [] [] [] [] EmptyString frames [] []
    (Err EConnectionClosed) st1); try done; try apply grows_none; try apply suffix_nil; try constructor.
  - rewrite app_nil_r. apply (ok_ids _ _ Hw).
  - unfold session_texts. change (texts_for _ _) with (@nil string).
    rewrite Hframes, !app_nil_r. change (cut None ?l) with l.
    change (encode (Sub_Welcome EmptyString) :: (encode <$> msgs)) with (encode <$> Sub_Welcome EmptyString :: msgs).
    assert ((λ t, Ok (MText t)) <$> (encode <$> Sub_Welcome EmptyString :: msgs) =
      text_items (Sub_Welcome EmptyString :: msgs)) as -> by (by rewrite <- list_fmap_compose).
    rewrite run_session_frames by done. fold st0. by rewrite Hp.
Qed.
End steps.

(** ** Theorems *)

End recovery.

(** ** Witnesses *)

Section witnesses.
#[local] Existing Instance MemDb.mem_redb.
#[local] Existing Instance MemDb.mem_redb_laws.
#[local] Existing Instance BitCodec.wire.
#[local] Existing Instance BitCodec.wire_laws.
#[local] Existing Instance some_order.
Local Notation demo_world := (World (Db := list (Z * string)) (H := ()) (St := Z)).
Local Notation step := (wstep quiet_handler MemoryCursorStore ["fake.>"]).

(** The client after a session on an idle log. *)
Definition demo_client (n : option nat) (bye : list SubServerMsg) (w : demo_world)
    : ClientState (() * list DeliveredEvent) Z :=
  match replay_window (w_log w) (w_log w) (w_log w) ["fake.>"] (w_cursor w) with
  | Ok frames =>
      match run_session (logged quiet_handler) MemoryCursorStore ["fake.>"]
              (Upgraded ((λ t, Ok (MText t)) <$>
                 cut n (session_texts ["fake.>"] "alice" frames []) ++ (encode <$> bye)) (MkSink true []))
              (w_client w) with
      | Some (_, st) => next_round st
      | None => w_client w
      end
  | Err _ => w_client w
  end.

Definition demo_session (n : option nat) (bye : list SubServerMsg) (w : demo_world) : demo_world :=
  add_events (w_log w) (demo_client n bye w) [] w.

Definition world0 : demo_world := MkWorld empty_log (client_at 0) [] [] [].
Definition world1 : demo_world := add_events log_of_three (client_at 0) three_events world0.
(** Cut after the acknowledgement, with the notice of a slow consumer. *)
Definition world2 : demo_world := demo_session (Some 2%nat) [Sub_Lagged 1] world1.
Definition world3 : demo_world := shrink ["fake.>"] log_of_two world2.
Definition reopened : Shared (list (Z * string)) :=
  unwrap_or log_of_two (reopen (db log_of_two) 2000).
Definition world4 : demo_world := shrink ["fake.>"] reopened world3.
Definition world5 : demo_world :=
  MkWorld (w_log world4)
    (MkClientState (st_handler (w_client world4)) (ResumeState_new 0 8) (st_store (w_client world4)) 0)
    (w_kept world4) (w_hist world4) (w_lost world4).
(** Cut after the first event. *)
Definition world6 : demo_world := demo_session (Some 4%nat) [] world5.

Lemma demo_append : step world0 world1.
Proof.
  apply (step_append quiet_handler MemoryCursorStore ["fake.>"] world0 log_of_three three_events).
  - rewrite <- (app_nil_r three_events).
    apply (grows_append [sample_event; sample_other; sample_event] 1000 sample_uuid empty_log log_of_three).
    + vm_compute. reflexivity.
    + reflexivity.
    + vm_compute. split; [discriminate|reflexivity].
    + apply grows_none.
  - apply (bool_decide_eq_true_1 _). vm_compute. reflexivity.
Qed.

Lemma demo_sessions :
  step world1 world2 ∧ step world5 world6.
Proof.
  assert (∀ n bye w frames r st, farewell bye → NoDup (id <$> w_hist w) →
    replay_window (w_log w) (w_log w) (w_log w) ["fake.>"] (w_cursor w) = Ok frames →
    run_session (logged quiet_handler) MemoryCursorStore ["fake.>"]
      (Upgraded ((λ t, Ok (MText t)) <$>
         cut n (session_texts ["fake.>"] "alice" frames []) ++ (encode <$> bye)) (MkSink true []))
      (w_client w) = Some (r, st) →
    match r with Err e => is_fatal e = false | Ok _ => True end →
    step w (demo_session n bye w)) as Hsession.
  { intros n bye w frames r st Hbye Hnd Hwin Hrun Hr. apply (step_session _ _ _ w n).
    unfold demo_session, demo_client. rewrite Hwin, Hrun.
    apply (session_run quiet_handler MemoryCursorStore ["fake.>"] n w (w_log w) (w_log w) (w_log w) [] [] [] []
      "alice" frames bye [] r st); try done; try apply grows_none; [by rewrite app_nil_r|apply suffix_nil]. }
  split.
  - eapply (Hsession _ _ world1); [constructor|apply (bool_decide_eq_true_1 _); vm_compute; reflexivity|
      vm_compute; reflexivity|vm_compute; reflexivity|exact I].
  - eapply (Hsession _ _ world5); [constructor|apply (bool_decide_eq_true_1 _); vm_compute; reflexivity|
      vm_compute; reflexivity|vm_compute; reflexivity|reflexivity].
Qed.

Lemma demo_run : rtc step world0 world6.
Proof.
  destruct demo_sessions as [Hs1 Hs2].
  apply rtc_l with world1; [exact demo_append|]. apply rtc_l with world2; [exact Hs1|].
  apply rtc_l with world3.
  { apply (step_prune _ _ _ world2 2000 1 log_of_two). vm_compute. reflexivity. }
  apply rtc_l with world4.
  { apply (step_daemon_restart _ _ _ world3 sample_fs (λ _, Ok ()) (λ _, Ok ()) (λ _, Ok (db log_of_two))
      sample_cfg 2000 (db log_of_two) reopened);
      [reflexivity|reflexivity|discriminate|discriminate|left; vm_compute; discriminate|].
    vm_compute. reflexivity. }
  apply rtc_l with world5.
  { apply (step_client_restart _ _ _ world4 0 8). vm_compute. reflexivity. }
  apply rtc_once. exact Hs2.
Qed.

Lemma demo_initial : initial MemoryCursorStore 0 world0.
Proof.
  split; try (vm_compute; done); try exact empty_log_repr. apply NoDup_nil_2.
Qed.

End witnesses.
