(* ===== verification/TokenStore.v ===== *)
(** * TokenStore: named bearer tokens, their file, and their administration

    [crates/whdr-server/src/token_store.rs], [token_control.rs] and the request
    dispatch of [control_plane.rs].  The store keeps a hash per name and writes
    the whole map to a temporary file that it renames over the store file; each
    file operation may fail.  SHA-256 (with its hex encoding), base64 and the
    TOML codec are library code: they are parameters. *)

From S2P Require Import Prelude.
From S2P Require Import Text.
From S2P Require Import Messages.
From S2P Require Import OutboundQueue.
From S2P Require Import Config.
From S2P Require Import DeliveryLog.
From S2P Require Import Subscribers.
From Stdlib Require Import Ascii.

Local Open Scope Z_scope.

(** ** The file system the store writes *)

(** A file's content and permission bits. *)
Record Disk : Type := MkDisk { files : gmap string (string * Z) }.

Definition fs_of (d : Disk) : FsView := {|
  fs_exists p := bool_decide (is_Some (files d !! p));
  fs_mode p := snd <$> files d !! p;
  fs_read p := fst <$> files d !! p
|}.

(** The steps of [persist] that can fail. *)
Inductive PersistStep : Type :=
  | StepMkdir | StepCreate | StepChmod | StepWrite | StepSync | StepRename | StepSyncDir.

(** What the environment does to a call: the steps that fail, the mode a created
    file starts with, and how much of a failed write reaches the file. *)
Record Env : Type := MkEnv {
  succeeds : PersistStep → bool;
  umask_mode : Z;
  torn : string → string
}.

Definition all_succeed : Env := MkEnv (λ _, true) 420 (λ t, t).

(** ** Paths *)

(** [Path::with_extension] of a path whose last component is its file name. *)
Definition file_stem (name : string) : string :=
  match split_on "." name with
  | [_] | [] => name
  | [EmptyString; _] => name
  | tokens => join "." (removelast tokens)
  end.

Definition with_extension (path ext : string) : string :=
  let components := split_on "/" path in
  let name := List.last components EmptyString in
  if is_empty name || String.eqb name ".." then path
  else join "/" (removelast components ++ [file_stem name +:+ String "." ext]).

(** [Path::parent]: the directory part, empty for a bare file name. *)
Definition parent_dir (path : string) : option string :=
  if is_empty path || String.eqb path "/" then None else
  let components := removelast (split_on "/" path) in
  let dir := join "/" components in
  Some (if is_empty dir && negb (bool_decide (components = [])) then "/" else dir).

(** ** Definitions *)

Record TokenRecord : Type := MkTokenRecord { hash : string; created : string }.

#[global] Instance TokenRecord_eq_dec : EqDecision TokenRecord.
Proof. solve_decision. Defined.

Record TokenStore : Type := MkTokenStore {
  ts_path : string;
  tokens : gmap string TokenRecord
}.

Definition name_byte (b : ascii) : bool :=
  is_ascii_alphanumeric b || Ascii.eqb b "-" || Ascii.eqb b "_".

Definition validate_name (name : string) : result string () :=
  if is_empty name || negb (bytes_all name_byte name)
  then Err ("invalid token name: " +:+ name) else Ok ().

(** [hash.chars().rev().take(8).collect().chars().rev()]. *)
Definition fingerprint (h : string) : string :=
  concat_chars (reverse (take 8 (reverse (chars h)))).

Section token_store.
(** [hex::encode(Sha256::digest(..))], [URL_SAFE_NO_PAD.encode], and the TOML
    codec of the token map. *)
Context (sha256_hex base64_url : string → string).
Context (toml_to_string : gmap string TokenRecord → result string string).
Context (toml_from_str : string → result string (gmap string TokenRecord)).

Definition hash_token (token : string) : string := "sha256:" +:+ sha256_hex token.

(** [random] draws the bytes. *)
Definition mint_token (random : string) : string := "tok_" +:+ base64_url random.

Definition record_for (token now : string) : TokenRecord := MkTokenRecord (hash_token token) now.

Definition load_or_empty (fs : FsView) (path : string) : result string TokenStore :=
  if negb (fs_exists fs path) then Ok (MkTokenStore path ∅) else
  _ ← enforce_0600 fs path "token store";
  text ← ok_or ("read token store " +:+ path) (fs_read fs path);
  tokens ← (if is_empty (trim text) then Ok ∅
            else map_err (λ _, "parse token store toml") (toml_from_str text));
  Ok (MkTokenStore path tokens).

Definition put (path content : string) (mode : Z) (d : Disk) : Disk :=
  MkDisk (<[path := (content, mode)]> (files d)).

(** [sync_dir(parent)]: an empty directory path cannot be opened. *)
Definition sync_parent (env : Env) (path : string) : result string () :=
  match parent_dir path with
  | None => Ok ()
  | Some dir =>
      if is_empty dir then Err "open dir " else
      if succeeds env StepSyncDir then Ok () else Err ("fsync dir " +:+ dir)
  end.

(** [persist]: on an error the disk is as the steps before it left it. *)
Definition persist (env : Env) (s : TokenStore) (d : Disk) : result string () * Disk :=
  if bool_decide (is_Some (parent_dir (ts_path s))) && negb (succeeds env StepMkdir)
  then (Err "create token store dir", d) else
  let tmp := with_extension (ts_path s) "toml.tmp" in
  match toml_to_string (tokens s) with
  | Err _ => (Err "serialize token store", d)
  | Ok text =>
      if negb (succeeds env StepCreate) then (Err ("create " +:+ tmp), d) else
      let mode := from_option snd (umask_mode env) (files d !! tmp) in
      let d := put tmp EmptyString mode d in
      if negb (succeeds env StepChmod) then (Err ("chmod " +:+ tmp), d) else
      let d := put tmp EmptyString 384 d in
      if negb (succeeds env StepWrite)
      then (Err ("write " +:+ tmp), put tmp (torn env text) 384 d) else
      let d := put tmp text 384 d in
      if negb (succeeds env StepSync) then (Err ("fsync " +:+ tmp), d) else
      if negb (succeeds env StepRename)
      then (Err ("rename " +:+ tmp +:+ " to " +:+ ts_path s), d) else
      let d := MkDisk (<[ts_path s := (text, 384)]> (delete tmp (files d))) in
      (sync_parent env (ts_path s), d)
  end.

Definition set_tokens (m : gmap string TokenRecord) (s : TokenStore) : TokenStore :=
  MkTokenStore (ts_path s) m.

(** Insert and persist: the tail [add] and [rotate] share. *)
Definition insert_and_persist (env : Env) (name token now : string) (s : TokenStore) (d : Disk)
    : result string string * TokenStore * Disk :=
  let s' := set_tokens (<[name := record_for token now]> (tokens s)) s in
  match persist env s' d with
  | (Ok _, d') => (Ok token, s', d')
  | (Err e, d') => (Err e, s', d')
  end.

Definition add (env : Env) (random now name : string) (s : TokenStore) (d : Disk)
    : result string string * TokenStore * Disk :=
  match validate_name name with
  | Err e => (Err e, s, d)
  | Ok _ =>
      if bool_decide (is_Some (tokens s !! name))
      then (Err ("token name already exists: " +:+ name), s, d)
      else insert_and_persist env name (mint_token random) now s d
  end.

Definition rotate (env : Env) (random now name : string) (s : TokenStore) (d : Disk)
    : result string string * TokenStore * Disk :=
  match validate_name name with
  | Err e => (Err e, s, d)
  | Ok _ =>
      if negb (bool_decide (is_Some (tokens s !! name)))
      then (Err ("unknown token name: " +:+ name), s, d)
      else insert_and_persist env name (mint_token random) now s d
  end.

Definition revoke (env : Env) (name : string) (s : TokenStore) (d : Disk)
    : result string () * TokenStore * Disk :=
  match tokens s !! name with
  | None => (Err ("unknown token name: " +:+ name), s, d)
  | Some _ =>
      let s' := set_tokens (delete name (tokens s)) s in
      let '(r, d') := persist env s' d in (r, s', d')
  end.

(** [find_map] over the map in key order. *)
Definition authenticate (s : TokenStore) (presented : string) : option string :=
  let h := hash_token presented in
  fst <$> find (λ nr, String.eqb (hash nr.2) h) (btree_iter (tokens s)).

Definition list_tokens (s : TokenStore) (active_conns : gmap string Z) : list TokenSummary :=
  (λ nr, MkTokenSummary nr.1 (fingerprint (hash nr.2)) (created nr.2)
           (default 0 (active_conns !! nr.1))) <$> btree_iter (tokens s).

Definition names (s : TokenStore) : list string := (btree_iter (tokens s)).*1.

Definition invalidated_names (s replacement : TokenStore) : list string :=
  omap (λ nr, if bool_decide (tokens replacement !! nr.1 = Some nr.2) then None else Some nr.1)
    (btree_iter (tokens s)).
End token_store.

(** ** Administration ([token_control.rs], [control_plane.rs]) *)

Section token_control.
Context (sha256_hex base64_url : string → string).
Context (toml_to_string : gmap string TokenRecord → result string string).
Context {Db : Type} {O : HashOrder}.

(** [TokenControl]: the shared store and registry, with the disk. *)
Record Control : Type := MkControl {
  tc_store : TokenStore;
  tc_disk : Disk;
  tc_subs : Registry Db;
  tc_heap : Heap
}.

Definition tc_add (env : Env) (random now name : string) (c : Control)
    : ControlResponse * Control :=
  let '(r, s, d) :=
    add sha256_hex base64_url toml_to_string env random now name (tc_store c) (tc_disk c) in
  (match r with Ok token => Res_Token name token | Err e => Res_Error e end,
   MkControl s d (tc_subs c) (tc_heap c)).

Definition tc_rotate (env : Env) (random now name : string) (c : Control)
    : ControlResponse * Control :=
  let '(r, s, d) :=
    rotate sha256_hex base64_url toml_to_string env random now name (tc_store c) (tc_disk c) in
  match r with
  | Ok token =>
      (Res_Token name token,
       MkControl s d (tc_subs c) (close_named name ReasonRevoked (tc_subs c) (tc_heap c)))
  | Err e => (Res_Error e, MkControl s d (tc_subs c) (tc_heap c))
  end.

Definition tc_revoke (env : Env) (name : string) (c : Control) : ControlResponse * Control :=
  let '(r, s, d) := revoke toml_to_string env name (tc_store c) (tc_disk c) in
  match r with
  | Ok _ =>
      (Res_Ok,
       MkControl s d (tc_subs c) (close_named name ReasonRevoked (tc_subs c) (tc_heap c)))
  | Err e => (Res_Error e, MkControl s d (tc_subs c) (tc_heap c))
  end.

Definition tc_list (c : Control) : ControlResponse :=
  Res_Tokens (list_tokens (tc_store c) (active_connection_counts (tc_subs c))).

(** [handle_control_request]; [status] is [state.status_json()]. *)
Definition handle_control_request (status : Control → Value) (env : Env) (random now : string)
    (request : ControlRequest) (c : Control) : ControlResponse * Control :=
  match request with
  | Req_Status => (Res_Status (status c), c)
  | Req_TokenAdd name => tc_add env random now name c
  | Req_TokenRotate name => tc_rotate env random now name c
  | Req_TokenRevoke name => tc_revoke env name c
  | Req_TokenList => (tc_list c, c)
  end.

(** [handle_control_stream]: one response line per non-blank request line;
    each request meets its own environment.  It ends early when a response
    does not encode. *)
Fixpoint handle_control_stream `{Wire ControlRequest} `{Wire ControlResponse}
    (status : Control → Value) (lines : list (string * (Env * string * string))) (c : Control)
    : list string * Control :=
  match lines with
  | [] => ([], c)
  | (line, (env, random, now)) :: rest =>
      let respond response c' :=
        match encode_line response with
        | Err _ => ([], c')
        | Ok text =>
            let '(out, c'') := handle_control_stream status rest c' in (text :: out, c'')
        end in
      match decode_line line with
      | Ok (Some request) =>
          let '(response, c') := handle_control_request status env random now request c in
          respond response c'
      | Ok None => handle_control_stream status rest c
      | Err e => respond (Res_Error (NdjsonError_to_string e)) c
      end
  end.
End token_control.
Arguments Control : clear implicits.

(** ** Specification: paths *)

(** A path with a file name. *)
Definition is_file_path (path : string) : Prop :=
  List.last (split_on "/" path) EmptyString ≠ EmptyString ∧
  List.last (split_on "/" path) EmptyString ≠ "..".

Lemma file_stem_many name :
  (3 ≤ length (split_on "." name))%nat →
  file_stem name = join "." (removelast (split_on "." name)).
Proof.
  unfold file_stem. destruct (split_on "." name) as [|a [|b [|c l]]]; cbn; [lia..|].
  intros _. by destruct a.
Qed.

Lemma file_stem_differs name : file_stem name +:+ ".toml.tmp" ≠ name.
Proof.
  intros Heq. assert (split_on "." name = split_on "." (file_stem name) ++ ["toml"; "tmp"]) as Hs.
  { rewrite <- Heq at 1. change ".toml.tmp" with (String "." "toml.tmp").
    by rewrite split_on_app_gen. }
  pose proof (split_on_not_nil "." (file_stem name)) as Hne.
  assert (file_stem name = join "." (split_on "." (file_stem name) ++ ["toml"])) as Hstem.
  { etrans; [apply file_stem_many|by rewrite Hs, removelast_app].
    rewrite Hs, length_app. cbn. destruct (split_on "." (file_stem name)); [done|cbn; lia]. }
  assert (split_on "." (file_stem name) = split_on "." (file_stem name) ++ ["toml"]) as Hcon.
  { rewrite Hstem at 1. apply split_join.
    - intros Hnil. by apply app_nil in Hnil as [_ ?].
    - apply Forall_app. split; [apply split_on_parts|by repeat constructor]. }
  apply (f_equal length) in Hcon. rewrite length_app in Hcon. simpl in Hcon. lia.
Qed.

Lemma string_app_inj_l s t u : s +:+ t = s +:+ u → t = u.
Proof.
  induction s as [|a s IH]; [by rewrite !string_app_nil_l|].
  rewrite !string_app_cons. intros [= Heq]. auto.
Qed.

Lemma join_snoc_inj c l x y : join c (l ++ [x]) = join c (l ++ [y]) → x = y.
Proof.
  induction l as [|t l IH]; [done|]. change ((t :: l) ++ [x]) with (t :: (l ++ [x])).
  change ((t :: l) ++ [y]) with (t :: (l ++ [y])).
  rewrite !join_cons by (by intros [_ ?]%app_nil).
  intros Heq. apply string_app_inj_l in Heq. injection Heq as Heq. auto.
Qed.

Lemma with_extension_differs path : is_file_path path → with_extension path "toml.tmp" ≠ path.
Proof.
  intros [Hne Hdd]. unfold with_extension. set (comps := split_on "/" path) in *.
  rewrite (proj2 (is_empty_false _)), (proj2 (String.eqb_neq _ _)) by done. cbn [orb].
  pose proof (split_on_not_nil "/" path) as Hnil. fold comps in Hnil.
  intros Heq. assert (path = join "/" (removelast comps ++ [List.last comps EmptyString])) as Hpath.
  { by rewrite <- (app_removelast_last EmptyString Hnil), <- (join_split "/" path). }
  rewrite Hpath in Heq. apply join_snoc_inj in Heq. by apply (file_stem_differs (List.last comps EmptyString)).
Qed.

(** ** Specification: the store *)

Section token_store_spec.
Context (sha256_hex base64_url : string → string).
Context (toml_to_string : gmap string TokenRecord → result string string).
Context (toml_from_str : string → result string (gmap string TokenRecord)).

(** What the code relies on of the TOML codec: printed maps parse back, and only
    the empty map prints as blank text. *)
Record toml_laws : Prop := {
  toml_round_trip m t : toml_to_string m = Ok t → toml_from_str t = Ok m;
  toml_blank m t : toml_to_string m = Ok t → is_empty (trim t) = true → m = ∅
}.
Context (Htoml : toml_laws).

Abbreviation load := (load_or_empty toml_from_str).
Abbreviation persist := (persist toml_to_string).
Abbreviation hash_token := (hash_token sha256_hex).
Abbreviation authenticate := (authenticate sha256_hex).

(** *** Persisting *)

(** Only the temporary file and the store file are written, and the store file
    only as a whole, by the rename. *)
Lemma persist_effect env s d r d' :
  is_file_path (ts_path s) → persist env s d = (r, d') →
  (∀ p, p ≠ ts_path s → p ≠ with_extension (ts_path s) "toml.tmp" → files d' !! p = files d !! p) ∧
  (r ≠ Ok () ∧ files d' !! ts_path s = files d !! ts_path s ∨
   ∃ t, toml_to_string (tokens s) = Ok t ∧ files d' !! ts_path s = Some (t, 384)).
Proof.
  intros Hpath. pose proof (with_extension_differs _ Hpath) as Htmp. unfold persist.
  case_bool; [intros [= <- <-]; split; [done|by left]|].
  destruct (toml_to_string (tokens s)) as [text|e] eqn:Htext;
    [|intros [= <- <-]; split; [done|by left]].
  repeat (case_bool; [intros [= <- <-]; split;
    [intros p ? ?; cbn [put files]; rewrite ?lookup_insert_ne by done; done|
     left; split; [done|cbn [put files]; rewrite ?lookup_insert_ne by done; done]]|]).
  intros [= <- <-]. split.
  - intros p ? ?. cbn [put files]. by rewrite !lookup_insert_ne, !lookup_delete_ne,
      ?lookup_insert_ne by done.
  - right. exists text. split; [done|]. cbn [put files]. by rewrite lookup_insert_eq.
Qed.

Lemma load_written d s t :
  toml_to_string (tokens s) = Ok t → files d !! ts_path s = Some (t, 384) →
  load (fs_of d) (ts_path s) = Ok s.
Proof.
  intros Ht Hfile. unfold load_or_empty. cbn [fs_exists fs_of].
  rewrite bool_decide_eq_true_2 by eauto. cbn [negb].
  rewrite (proj2 (enforce_0600_Ok (fs_of d) (ts_path s) "token store"));
    [|exists 384; cbn; by rewrite Hfile]. cbn [mbind result_bind].
  cbn [fs_read fs_of]. rewrite Hfile.
  cbn [fmap option_fmap option_map fst ok_or mbind result_bind].
  destruct (is_empty (trim t)) eqn:Hblank; cbn [mbind result_bind].
  - rewrite <- (toml_blank Htoml _ _ Ht Hblank). by destruct s.
  - rewrite (toml_round_trip Htoml _ _ Ht). by destruct s.
Qed.

Lemma load_same_file d d' p : files d' !! p = files d !! p → load (fs_of d') p = load (fs_of d) p.
Proof.
  intros Hp. unfold load_or_empty, enforce_0600. cbn [fs_exists fs_of fs_mode fs_read].
  by rewrite Hp.
Qed.

Lemma persist_atomic env s d r d' :
  is_file_path (ts_path s) → persist env s d = (r, d') →
  load (fs_of d') (ts_path s) = Ok s ∨
  r ≠ Ok () ∧ load (fs_of d') (ts_path s) = load (fs_of d) (ts_path s).
Proof.
  intros Hpath Hp. apply (persist_effect _ _ _ _ _ Hpath) in Hp
    as (_ & [[Hr Hsame]|(t & Ht & Hfile)]).
  - right. split; [done|]. by apply load_same_file.
  - left. by eapply load_written.
Qed.

(** *** Authentication *)

(** No two names share a token. *)
Definition distinct_hashes (s : TokenStore) : Prop := ∀ n1 r1 n2 r2,
  tokens s !! n1 = Some r1 → tokens s !! n2 = Some r2 → hash r1 = hash r2 → n1 = n2.

Lemma authenticate_Some s t n :
  distinct_hashes s →
  authenticate s t = Some n ↔ ∃ r, tokens s !! n = Some r ∧ hash r = hash_token t.
Proof.
  intros Hd. unfold authenticate. split.
  - destruct (find _ _) as [[n' r]|] eqn:Hf; [|done]. intros [= <-].
    apply find_some in Hf as [Hin Hh]. apply list_elem_of_In, elem_of_btree_iter in Hin.
    apply String.eqb_eq in Hh. by exists r.
  - intros (r & Hr & Hh). destruct (find _ _) as [[n' r']|] eqn:Hf.
    + apply find_some in Hf as [Hin Hh']. apply list_elem_of_In, elem_of_btree_iter in Hin.
      apply String.eqb_eq in Hh'. cbn in *. f_equal. eapply Hd; eauto. congruence.
    + exfalso. apply (find_none _ _ Hf) with (x := (n, r)) in Hr as Hr' || idtac.
      pose proof (find_none _ _ Hf (n, r)) as Hn.
      rewrite <- list_elem_of_In, elem_of_btree_iter in Hn. specialize (Hn Hr).
      cbn in Hn. by rewrite Hh, String.eqb_refl in Hn.
Qed.

(** What holders of the other tokens see of a change to the map. *)
Definition others_unchanged (name : string) (changed : string) (s s' : TokenStore) : Prop :=
  ∀ t, hash_token t ≠ changed →
    authenticate s' t = if decide (authenticate s t = Some name) then None else authenticate s t.

Definition fresh_token (token : string) (s : TokenStore) : Prop :=
  ∀ n r, tokens s !! n = Some r → hash r ≠ hash_token token.

Lemma insert_credential name token now s :
  distinct_hashes s → fresh_token token s →
  let s' := set_tokens (<[name := record_for sha256_hex token now]> (tokens s)) s in
  distinct_hashes s' ∧ authenticate s' token = Some name ∧
  others_unchanged name (hash_token token) s s'.
Proof.
  intros Hd Hfr. cbv zeta. set (s' := set_tokens _ s).
  assert (Hs' : ∀ n, tokens s' !! n =
    if decide (name = n) then Some (record_for sha256_hex token now) else tokens s !! n)
    by (intros n; apply lookup_insert).
  assert (distinct_hashes s') as Hd'.
  { intros n1 r1 n2 r2. rewrite !Hs'. case_decide; case_decide; intros [= <-] [= <-] Hh || intros ? ? ?;
      simplify_eq; try done; try (by eapply Hd; eauto); exfalso; cbn in *; eapply Hfr; eauto. }
  split; [done|]. split.
  - apply authenticate_Some; [done|]. exists (record_for sha256_hex token now).
    rewrite Hs', decide_True by done. done.
  - intros t Ht. apply option_eq. intros n. rewrite authenticate_Some, Hs' by done.
    case_decide as Hn; [subst n|].
    + split; [intros (r & [= <-] & Hh); by destruct Ht|].
      case_decide as Ha; [done|]. intros Ha'. by destruct Ha.
    + rewrite <- authenticate_Some by done. case_decide as Ha; [|done].
      rewrite Ha. split; [intros [= ->]; done|done].
Qed.

Lemma delete_credential name s :
  distinct_hashes s →
  let s' := set_tokens (delete name (tokens s)) s in
  distinct_hashes s' ∧ (∀ t, authenticate s' t ≠ Some name) ∧
  ∀ t, authenticate s' t = if decide (authenticate s t = Some name) then None else authenticate s t.
Proof.
  intros Hd. cbv zeta. set (s' := set_tokens _ s).
  assert (Hs' : ∀ n, tokens s' !! n = if decide (name = n) then None else tokens s !! n)
    by (intros n; apply lookup_delete).
  assert (distinct_hashes s') as Hd'.
  { intros n1 r1 n2 r2. rewrite !Hs'. case_decide; [done|]. case_decide; [done|]. apply Hd. }
  split; [done|]. split.
  - intros t (r & Hr & _)%authenticate_Some; [|done]. by rewrite Hs', decide_True in Hr.
  - intros t. apply option_eq. intros n. rewrite authenticate_Some, Hs' by done.
    case_decide as Hn; [subst n|].
    + split; [by intros (r & ? & _)|]. case_decide as Ha; [done|]. intros Ha'. by destruct Ha.
    + rewrite <- authenticate_Some by done. case_decide as Ha; [|done].
      rewrite Ha. split; [intros [= ->]; done|done].
Qed.

(** What a successful [add] or [rotate] leaves. *)
Lemma insert_and_persist_Ok env name token now s d t s' d' :
  is_file_path (ts_path s) → distinct_hashes s → fresh_token token s →
  insert_and_persist sha256_hex toml_to_string env name token now s d = (Ok t, s', d') →
  t = token ∧ authenticate s' token = Some name ∧ others_unchanged name (hash_token token) s s' ∧
  load (fs_of d') (ts_path s') = Ok s'.
Proof.
  intros Hpath Hd Hfr. unfold insert_and_persist.
  destruct (TokenStore.persist _ _ _ _) as [[[]|e] d1] eqn:Hp; [|done]. intros [= <- <- <-].
  destruct (insert_credential name token now s Hd Hfr) as (_ & Hauth & Hothers).
  split_and!; [done..|]. apply persist_atomic in Hp; [|done]. by destruct Hp as [?|[? _]].
Qed.

Lemma revoke_Ok env name s d s' d' :
  is_file_path (ts_path s) → distinct_hashes s →
  revoke toml_to_string env name s d = (Ok (), s', d') →
  (∀ t, authenticate s' t ≠ Some name) ∧
  (∀ t, authenticate s' t = if decide (authenticate s t = Some name) then None else authenticate s t) ∧
  load (fs_of d') (ts_path s') = Ok s'.
Proof.
  intros Hpath Hd. unfold revoke. destruct (tokens s !! name); [|done].
  destruct (TokenStore.persist _ _ _ _) as [[[]|e] d1] eqn:Hp; [|done]. intros [= <- <-].
  destruct (delete_credential name s Hd) as (_ & Hnone & Hothers).
  split_and!; [done..|]. apply persist_atomic in Hp; [|done]. by destruct Hp as [?|[? _]].
Qed.
End token_store_spec.

(** ** Theorems *)

Section theorems.
Context (sha256_hex base64_url : string → string).
Context (toml_to_string : gmap string TokenRecord → result string string).
Context (toml_from_str : string → result string (gmap string TokenRecord)).
Context {Db : Type} {O : HashOrder}.

(** C38: wherever [persist] stops (any file operation may fail, a failed write may
    leave anything in the temporary file), reloading the store file yields the
    store as it was or the new one, the new one if [persist] succeeded; and
    nothing but the two files is written. *)
Theorem persist_is_atomic env s d r d' :
  toml_laws toml_to_string toml_from_str → is_file_path (ts_path s) →
  persist toml_to_string env s d = (r, d') →
  (load_or_empty toml_from_str (fs_of d') (ts_path s) = Ok s ∨
   r ≠ Ok () ∧ load_or_empty toml_from_str (fs_of d') (ts_path s) =
               load_or_empty toml_from_str (fs_of d) (ts_path s)) ∧
  ∀ p, p ≠ ts_path s → p ≠ with_extension (ts_path s) "toml.tmp" → files d' !! p = files d !! p.
Proof.
  intros Htoml Hpath Hp. split; [by eapply persist_atomic|].
  by apply (persist_effect _ _ _ _ _ _ Hpath) in Hp as [? _].
Qed.

(** A rotation that succeeds replaces exactly the credential of its name: the
    new token authenticates as it, no other token does, every other token
    authenticates as before, every connection of the name is told to close, and
    the file reloads to the store in memory. *)
Theorem rotate_replaces_one_credential env random now name c token c' :
  toml_laws toml_to_string toml_from_str → is_file_path (ts_path (tc_store c)) →
  distinct_hashes (tc_store c) →
  fresh_token sha256_hex (mint_token base64_url random) (tc_store c) →
  tc_rotate sha256_hex base64_url toml_to_string env random now name c =
    (Res_Token name token, c') →
  let auth := λ c : Control Db, authenticate sha256_hex (tc_store c) in
  auth c' token = Some name ∧
  (∀ t, hash_token sha256_hex t ≠ hash_token sha256_hex token →
    auth c' t = if decide (auth c t = Some name) then None else auth c t) ∧
  (∀ w, named_watch (tc_subs c) name w →
    watches (tc_heap c') !! w = (λ _, Some ReasonRevoked) <$> watches (tc_heap c) !! w) ∧
  load_or_empty toml_from_str (fs_of (tc_disk c')) (ts_path (tc_store c')) = Ok (tc_store c').
Proof.
  intros Htoml Hpath Hd Hfr. unfold tc_rotate, rotate.
  destruct (validate_name name) as [[]|e]; [|done].
  case_bool; [done|]. destruct (insert_and_persist _ _ _ _ _ _ _ _) as [[[t|e] s] d] eqn:Hi; [|done].
  intros [= <- <-]. apply (insert_and_persist_Ok _ _ _ Htoml) in Hi as (-> & Hauth & Hothers & Hload); [|done..].
  cbn. split_and!; [done|exact Hothers| |done]. intros w Hw. by apply close_named_spec.
Qed.

(** A revocation that succeeds removes exactly the credential of its name: no
    token authenticates as it any more, every other token authenticates as
    before, every connection of the name is told to close, and the file reloads
    to the store in memory. *)
Theorem revoke_removes_one_credential env name c c' :
  toml_laws toml_to_string toml_from_str → is_file_path (ts_path (tc_store c)) →
  distinct_hashes (tc_store c) →
  tc_revoke toml_to_string env name c = (Res_Ok, c') →
  let auth := λ c : Control Db, authenticate sha256_hex (tc_store c) in
  (∀ t, auth c' t ≠ Some name) ∧
  (∀ t, auth c' t = if decide (auth c t = Some name) then None else auth c t) ∧
  (∀ w, named_watch (tc_subs c) name w →
    watches (tc_heap c') !! w = (λ _, Some ReasonRevoked) <$> watches (tc_heap c) !! w) ∧
  load_or_empty toml_from_str (fs_of (tc_disk c')) (ts_path (tc_store c')) = Ok (tc_store c').
Proof.
  intros Htoml Hpath Hd. unfold tc_revoke.
  destruct (revoke _ _ _ _ _) as [[[[]|e] s] d] eqn:Hr; [|done]. intros [= <-].
  apply (revoke_Ok sha256_hex _ _ Htoml) in Hr as (Hnone & Hothers & Hload); [|done..].
  cbn. split_and!; [exact Hnone|exact Hothers| |done]. intros w Hw. by apply close_named_spec.
Qed.

(** On reload, the invalidated names are exactly those whose credential the
    new store lacks or has changed. *)
Lemma invalidated_names_spec s replacement name :
  name ∈ invalidated_names s replacement ↔
  ∃ r, tokens s !! name = Some r ∧ tokens replacement !! name ≠ Some r.
Proof.
  unfold invalidated_names. rewrite list_elem_of_omap. split.
  - intros ([n r] & Hin%elem_of_btree_iter & Hn). cbn in Hn. case_bool; [done|]. simplify_eq.
    bool_to_prop. by exists r.
  - intros (r & Hr & Hne). exists (name, r). rewrite elem_of_btree_iter. split; [done|].
    cbn. by rewrite bool_decide_eq_false_2.
Qed.
End theorems.

(** ** Witnesses *)

#[global] Instance TokenRecord_countable : Countable TokenRecord :=
  inj_countable' (λ r, (hash r, created r)) (λ p, MkTokenRecord p.1 p.2)
    (λ r, match r with MkTokenRecord _ _ => eq_refl end).

Module DemoToml.
Definition print (m : gmap string TokenRecord) : result string string :=
  to_string (Wire := BitCodec.wire) m.
Definition parse (s : string) : result string (gmap string TokenRecord) :=
  from_str (Wire := BitCodec.wire) s.
Lemma laws : toml_laws print parse.
Proof.
  split; unfold print, parse.
  - intros m t. apply (wire_round_trip (WireLaws := BitCodec.wire_laws)).
  - intros m t Ht. destruct (wire_braces (WireLaws := BitCodec.wire_laws) m t Ht) as [u ->].
    by rewrite trim_braces.
Qed.
End DemoToml.

Section witnesses.
#[local] Existing Instance some_order.

(** The hash and base64 stand-ins of the examples are injective. *)
Definition demo_store : TokenStore :=
  MkTokenStore "/etc/whdr/tokens.toml"
    (<["alice" := record_for (λ t, t) "tok_a" "t0"]>
      (<["bob" := record_for (λ t, t) "tok_b" "t0"]> ∅)).
Definition demo_disk : Disk := (persist DemoToml.print all_succeed demo_store (MkDisk ∅)).2.
Definition demo_control : Control (list (Z * string)) :=
  MkControl demo_store demo_disk two_subs two_queues.

Lemma demo_path : is_file_path (ts_path demo_store).
Proof. split; vm_compute; discriminate. Qed.

Lemma demo_lookup n r :
  tokens demo_store !! n = Some r →
  n = "alice" ∧ r = record_for (λ t, t) "tok_a" "t0" ∨
  n = "bob" ∧ r = record_for (λ t, t) "tok_b" "t0".
Proof.
  cbn [demo_store tokens]. rewrite !lookup_insert, lookup_empty.
  repeat case_decide; intros; simplify_eq; auto.
Qed.

Lemma demo_distinct : distinct_hashes demo_store.
Proof.
  intros n1 r1 n2 r2 H1%demo_lookup H2%demo_lookup.
  destruct H1 as [[-> ->]|[-> ->]], H2 as [[-> ->]|[-> ->]]; done.
Qed.

Lemma demo_fresh : fresh_token (λ t, t) (mint_token (λ t, t) "new") demo_store.
Proof. intros n r H1%demo_lookup. by destruct H1 as [[-> ->]|[-> ->]]. Qed.

(** Every step up to the write succeeds, the write tears. *)
Definition torn_env : Env :=
  MkEnv (λ s, match s with StepWrite => false | _ => true end) 420 (λ _, "{0").

Lemma persist_is_atomic_witness :
  let '(r, d') := persist DemoToml.print torn_env (set_tokens ∅ demo_store) demo_disk in
  is_ok r = false ∧ load_or_empty DemoToml.parse (fs_of d') "/etc/whdr/tokens.toml" = Ok demo_store ∧
  files d' !! "/etc/passwd" = files demo_disk !! "/etc/passwd".
Proof.
  destruct (persist DemoToml.print torn_env (set_tokens ∅ demo_store) demo_disk) as [r d'] eqn:Hp.
  destruct (persist_is_atomic DemoToml.print DemoToml.parse torn_env (set_tokens ∅ demo_store)
    demo_disk r d' DemoToml.laws demo_path Hp) as [Hcase Hother].
  assert (is_ok r = false) as Hr
    by (change r with (r, d').1; rewrite <- Hp; vm_compute; reflexivity).
  assert (load_or_empty DemoToml.parse (fs_of demo_disk) "/etc/whdr/tokens.toml" = Ok demo_store)
    as Hold by (vm_compute; reflexivity).
  split; [exact Hr|]. split; [|apply Hother; discriminate].
  destruct Hcase as [Hnew|[_ Hsame]]; [|rewrite <- Hold; exact Hsame].
  change d' with (r, d').2. rewrite <- Hp. vm_compute. reflexivity.
Defined.

Lemma rotate_replaces_one_credential_witness :
  let '(r, c') := tc_rotate (λ t, t) (λ t, t) DemoToml.print all_succeed "new" "t1" "alice"
    demo_control in
  r = Res_Token "alice" "tok_new" ∧
  authenticate (λ t, t) (tc_store c') "tok_new" = Some "alice" ∧
  authenticate (λ t, t) (tc_store c') "tok_a" = None ∧
  authenticate (λ t, t) (tc_store c') "tok_b" = Some "bob".
Proof.
  destruct (tc_rotate (λ t, t) (λ t, t) DemoToml.print all_succeed "new" "t1" "alice"
    demo_control) as [r c'] eqn:Hrun.
  assert (r = Res_Token "alice" "tok_new") as Hr
    by (change r with (r, c').1; rewrite <- Hrun; vm_compute; reflexivity).
  subst r.
  destruct (rotate_replaces_one_credential (λ t, t) (λ t, t) DemoToml.print DemoToml.parse
    all_succeed "new" "t1" "alice" demo_control "tok_new" c' DemoToml.laws demo_path demo_distinct
    demo_fresh Hrun) as (H1 & H2 & _).
  split; [reflexivity|]. split; [exact H1|].
  split; (rewrite H2; [vm_compute; reflexivity|vm_compute; discriminate]).
Defined.

Lemma revoke_removes_one_credential_witness :
  let '(r, c') := tc_revoke DemoToml.print all_succeed "alice" demo_control in
  r = Res_Ok ∧ authenticate (λ t, t) (tc_store c') "tok_a" ≠ Some "alice" ∧
  watches (tc_heap c') !! 20 = Some (Some ReasonRevoked).
Proof.
  destruct (tc_revoke DemoToml.print all_succeed "alice" demo_control) as [r c'] eqn:Hrun.
  assert (r = Res_Ok) as Hr
    by (change r with (r, c').1; rewrite <- Hrun; vm_compute; reflexivity).
  subst r.
  destruct (revoke_removes_one_credential (λ t, t) DemoToml.print DemoToml.parse
    all_succeed "alice" demo_control c' DemoToml.laws demo_path demo_distinct Hrun)
    as (H1 & _ & H3 & _).
  split; [reflexivity|]. split; [apply H1|].
  rewrite H3; [vm_compute; reflexivity|]. exists 1, sub_a. repeat split.
Defined.

(** A revocation whose rename fails reports an error and closes nothing, but the
    token is gone from memory while the file still has it. *)
Lemma failed_revoke_diverges_from_disk :
  let env := MkEnv (λ s, match s with StepRename => false | _ => true end) 420 (λ t, t) in
  let '(r, c') := tc_revoke DemoToml.print env "alice" demo_control in
  (match r with Res_Error _ => true | _ => false end) = true ∧
  authenticate (λ t, t) (tc_store c') "tok_a" = None ∧
  to_option (load_or_empty DemoToml.parse (fs_of (tc_disk c')) (ts_path (tc_store c'))) ≫=
    (λ s, authenticate (λ t, t) s "tok_a") = Some "alice" ∧
  watches (tc_heap c') !! 20 = Some None.
Proof. vm_compute. repeat split. Qed.

(** A store at a bare file name is written, but every operation on it reports an
    error: its parent directory is the empty path, which cannot be opened. *)
Lemma bare_store_path_always_fails :
  let '(r, _, d) := add (λ t, t) (λ t, t) DemoToml.print all_succeed "new" "t1" "carol"
    (MkTokenStore "tokens.toml" ∅) (MkDisk ∅) in
  is_ok r = false ∧ is_Some (files d !! "tokens.toml").
Proof. vm_compute. split; [reflexivity|by eexists]. Qed.
End witnesses.
