(* ===== verification/Credentials.v ===== *)
(** * Credentials: who stays connected while tokens change

    The critical sections that authenticate a subscriber, register its
    connection, change the token store and close connections, each one step, in
    any interleaving: [subscribe_handler] and [subscriber_socket] of
    [crates/whdr-server/src/subscriber_ws.rs], [TokenControl] of
    [token_control.rs] and the credential part of [reload_from_path] in
    [daemon.rs].  The operations themselves are those of TokenStore.v and
    Subscribers.v. *)

From S2P Require Import Prelude.
From S2P Require Import Text.
From S2P Require Import Messages.
From S2P Require Import OutboundQueue.
From S2P Require Import Config.
From S2P Require Import Subscribers.
From S2P Require Import TokenStore.

Local Open Scope Z_scope.

(** ** Definitions *)

(** The next section of a task. *)
Inductive CredTask : Type :=
  | CAuthenticate (presented : string)
  | CRegister (name presented : string)
  | CAdmin (request : ControlRequest)
  | CReloadRead (path : string)
  | CReloadCompare (loaded : TokenStore)
  | CReloadInstall (loaded : TokenStore) (invalidated : list string)
  | CCloseNames (names : list string).

(** What a step draws from outside: the outcome of the disk operations, a random
    string and the date; the cells of a new connection. *)
Record CredInput : Type := MkCredInput {
  ci_env : Env;
  ci_random : string;
  ci_now : string;
  ci_queue : QueueRef;
  ci_watch : WatchRef;
  ci_limits : LimitsConfig
}.

(** Other than a task's step: a task begins, a connection's task ends, or someone
    edits the files. *)
Inductive CredChoice : Type :=
  | CrSpawn (i : nat) (t : CredTask)
  | CrRun (i : nat) (inp : CredInput)
  | CrDisconnect (id : Z)
  | CrEdit (d : Disk).

Section credentials.
Context (sha256_hex base64_url : string → string).
Context (toml_to_string : gmap string TokenRecord → result string string).
Context (toml_from_str : string → result string (gmap string TokenRecord)).
Context {Db : Type} {O : HashOrder}.

(** The daemon's state, the running tasks, and the token each connection
    presented (which the daemon does not keep). *)
Record CredWorld : Type := MkCredWorld {
  cw_control : Control Db;
  cw_tasks : gmap nat CredTask;
  cw_presented : gmap Z string
}.

Definition with_store (s : TokenStore) (d : Disk) (c : Control Db) : Control Db :=
  MkControl s d (tc_subs c) (tc_heap c).

(** The section of an administration command that holds the store's lock: what
    it returns, and whose connections are closed after it. *)
Definition admin_section (inp : CredInput) (request : ControlRequest) (c : Control Db)
    : bool * list string * Control Db :=
  match request with
  | Req_TokenAdd name =>
      let '(r, s, d) := add sha256_hex base64_url toml_to_string (ci_env inp) (ci_random inp)
                          (ci_now inp) name (tc_store c) (tc_disk c) in
      (is_ok r, [], with_store s d c)
  | Req_TokenRotate name =>
      let '(r, s, d) := rotate sha256_hex base64_url toml_to_string (ci_env inp) (ci_random inp)
                          (ci_now inp) name (tc_store c) (tc_disk c) in
      (is_ok r, if is_ok r then [name] else [], with_store s d c)
  | Req_TokenRevoke name =>
      let '(r, s, d) := revoke toml_to_string (ci_env inp) name (tc_store c) (tc_disk c) in
      (is_ok r, if is_ok r then [name] else [], with_store s d c)
  | Req_Status | Req_TokenList => (true, [], c)
  end.

(** [subscriber_socket] up to its loop: new cells and the registration. *)
Definition register_connection (inp : CredInput) (name : string) (c : Control Db)
    : Z * Control Db :=
  let '(id, r) := insert_subscriber
    (MkSubscriberRegistration name None (ci_queue inp) (ci_watch inp)) (tc_subs c) in
  (id, MkControl (tc_store c) (tc_disk c) r
         (MkHeap (<[ci_queue inp := OutboundQueue_new (sub_queue_len (ci_limits inp))
                                      (sub_queue_bytes (ci_limits inp))]> (queues (tc_heap c)))
            (<[ci_watch inp := None]> (watches (tc_heap c))))).

Definition close_section (name : string) (c : Control Db) : Control Db :=
  MkControl (tc_store c) (tc_disk c) (tc_subs c)
    (close_named name ReasonRevoked (tc_subs c) (tc_heap c)).

(** One section of a task: the state, the task's rest, and the connection it
    opened. *)
Definition cred_task_step (inp : CredInput) (t : CredTask) (c : Control Db)
    : Control Db * option CredTask * option (Z * string) :=
  match t with
  | CAuthenticate presented =>
      (c, (λ name, CRegister name presented) <$> authenticate sha256_hex (tc_store c) presented, None)
  | CRegister name presented =>
      let '(id, c') := register_connection inp name c in (c', None, Some (id, presented))
  | CAdmin request =>
      let '(_, names, c') := admin_section inp request c in (c', Some (CCloseNames names), None)
  | CReloadRead path =>
      (c, CReloadCompare <$>
            to_option (load_or_empty toml_from_str (fs_of (tc_disk c)) path), None)
  | CReloadCompare loaded =>
      (c, Some (CReloadInstall loaded (invalidated_names (tc_store c) loaded)), None)
  | CReloadInstall loaded names => (with_store loaded (tc_disk c) c, Some (CCloseNames names), None)
  | CCloseNames [] => (c, None, None)
  | CCloseNames (name :: names) => (close_section name c, Some (CCloseNames names), None)
  end.

(** A task starts at its first section. *)
Definition may_start (t : CredTask) : bool :=
  match t with CAuthenticate _ | CAdmin _ | CReloadRead _ => true | _ => false end.

Definition set_task (i : nat) (t : option CredTask) (m : gmap nat CredTask) : gmap nat CredTask :=
  partial_alter (λ _, t) i m.

Definition cred_step (ch : CredChoice) (w : CredWorld) : option CredWorld :=
  match ch with
  | CrSpawn i t =>
      if bool_decide (cw_tasks w !! i = None) && may_start t
      then Some (MkCredWorld (cw_control w) (<[i := t]> (cw_tasks w)) (cw_presented w)) else None
  | CrRun i inp =>
      t ← cw_tasks w !! i;
      if bool_decide (watches (tc_heap (cw_control w)) !! ci_watch inp = None) then
        let '(c, rest, opened) := cred_task_step inp t (cw_control w) in
        Some (MkCredWorld c (set_task i rest (cw_tasks w))
                (match opened with
                 | Some (id, presented) => <[id := presented]> (cw_presented w)
                 | None => cw_presented w
                 end))
      else None
  | CrDisconnect id =>
      let c := cw_control w in
      Some (MkCredWorld (MkControl (tc_store c) (tc_disk c) (remove_subscriber id (tc_subs c)) (tc_heap c))
              (cw_tasks w) (cw_presented w))
  | CrEdit d =>
      let c := cw_control w in
      Some (MkCredWorld (with_store (tc_store c) d c) (cw_tasks w) (cw_presented w))
  end.

(** ** Specification *)

(** A token is the current credential of a name. *)
Definition current (s : TokenStore) (presented name : string) : Prop :=
  ∃ r, tokens s !! name = Some r ∧ hash r = hash_token sha256_hex presented.

(** Two tasks race when one is between its check and its use of what the other
    is about to change: a handshake that was authenticated but is not registered
    yet against a change of its credential; a reload that has compared the two
    stores against any change of the one it compared with. *)
Definition changes (request : ControlRequest) (name : string) : bool :=
  match request with
  | Req_TokenAdd n | Req_TokenRotate n | Req_TokenRevoke n => String.eqb n name
  | Req_Status | Req_TokenList => false
  end.

Definition race (t1 t2 : CredTask) : bool :=
  match t1, t2 with
  | CRegister name _, CAdmin request => changes request name
  | CRegister name _, CReloadInstall _ names => bool_decide (name ∈ names)
  | CReloadInstall _ _, (CAdmin _ | CReloadInstall _ _) => true
  | _, _ => false
  end.

Definition race_free (w : CredWorld) : Prop := ∀ i j t1 t2,
  i ≠ j → cw_tasks w !! i = Some t1 → cw_tasks w !! j = Some t2 → race t1 t2 = false.

(** A command that fails leaves the store alone (it does not when it fails in
    [persist]). *)
Definition persisted (ch : CredChoice) (w : CredWorld) : Prop :=
  match ch with
  | CrRun i inp => ∀ request, cw_tasks w !! i = Some (CAdmin request) →
      let '(ok, _, c) := admin_section inp request (cw_control w) in
      ok = true ∨ tc_store c = tc_store (cw_control w)
  | _ => True
  end.

Inductive calm_step (w w' : CredWorld) : Prop :=
  | calm_step_intro ch :
      cred_step ch w = Some w' → race_free w → persisted ch w → calm_step w w'.

(** The signal of a connection has been sent. *)
Definition told (c : Control Db) (s : Subscriber) : Prop :=
  watches (tc_heap c) !! sub_close_tx s = Some (Some ReasonRevoked).

Definition closing (w : CredWorld) (name : string) : Prop :=
  ∃ i names, cw_tasks w !! i = Some (CCloseNames names) ∧ name ∈ names.

(** Every connection holds the current credential of its name, has been told to
    close, or is about to be. *)
Definition entitled (w : CredWorld) (id : Z) (sub : Subscriber) : Prop :=
  told (cw_control w) sub ∨ closing w (sub_name sub) ∨
  ∃ presented, cw_presented w !! id = Some presented ∧
    current (tc_store (cw_control w)) presented (sub_name sub).

(** What a task knows of the store. *)
Definition task_knows (s : TokenStore) (t : CredTask) : Prop :=
  match t with
  | CRegister name presented => current s presented name
  | CReloadInstall loaded names =>
      ∀ name r, tokens s !! name = Some r → name ∈ names ∨ tokens loaded !! name = Some r
  | _ => True
  end.

Record cred_ok (w : CredWorld) : Prop := {
  co_cells id sub : subs (tc_subs (cw_control w)) !! id = Some sub →
    is_Some (watches (tc_heap (cw_control w)) !! sub_close_tx sub);
  co_tasks i t : cw_tasks w !! i = Some t → task_knows (tc_store (cw_control w)) t;
  co_entitled id sub : subs (tc_subs (cw_control w)) !! id = Some sub → entitled w id sub
}.

(** ** Lemmas *)

Lemma authenticate_current s presented name :
  authenticate sha256_hex s presented = Some name → current s presented name.
Proof.
  unfold authenticate. destruct (find _ _) as [[n r]|] eqn:Hf; [|done]. intros [= <-].
  apply find_some in Hf as [Hin Hh]. apply list_elem_of_In, elem_of_btree_iter in Hin.
  apply String.eqb_eq in Hh. by exists r.
Qed.

Lemma insert_and_persist_store env name token now s d r s' d' :
  insert_and_persist sha256_hex toml_to_string env name token now s d = (r, s', d') →
  tokens s' = <[name := record_for sha256_hex token now]> (tokens s).
Proof. unfold insert_and_persist. destruct (persist _ _ _ _) as [[] ?]; by intros [= _ <- _]. Qed.

(** A command changes one name, and closes its connections when they may have
    lost their credential. *)
Lemma admin_section_spec inp request c ok names c' :
  admin_section inp request c = (ok, names, c') →
  tc_subs c' = tc_subs c ∧ tc_heap c' = tc_heap c ∧
  (∀ name, changes request name = false → tokens (tc_store c') !! name = tokens (tc_store c) !! name) ∧
  (ok = true ∨ tc_store c' = tc_store c → ∀ name r,
     tokens (tc_store c) !! name = Some r → name ∈ names ∨ tokens (tc_store c') !! name = Some r).
Proof.
  destruct request as [|name|name|name|]; cbn [admin_section changes];
    [by intros [= _ <- <-]; split_and!; auto| | | |by intros [= _ <- <-]; split_and!; auto].
  - unfold add. destruct (validate_name name); [|by intros [= _ <- <-]; split_and!; auto].
    case_bool; [by intros [= _ <- <-]; split_and!; auto|]. bool_to_prop.
    destruct (insert_and_persist _ _ _ _ _ _ _ _) as [[r s] d] eqn:Hi. intros [= <- <- <-].
    apply insert_and_persist_store in Hi. cbn [with_store tc_store tc_subs tc_heap]. rewrite Hi.
    split_and!; [done..| |].
    + intros n Hn%String.eqb_neq. by rewrite lookup_insert_ne.
    + intros _ n r' Hr. right. rewrite lookup_insert_ne; [done|]. intros ->.
      match goal with H : ¬ _ |- _ => apply H end. by exists r'.
  - unfold rotate. destruct (validate_name name); [|by intros [= _ <- <-]; split_and!; auto].
    case_bool; [by intros [= _ <- <-]; split_and!; auto|].
    destruct (insert_and_persist _ _ _ _ _ _ _ _) as [[r s] d] eqn:Hi. intros [= <- <- <-].
    apply insert_and_persist_store in Hi. cbn [with_store tc_store tc_subs tc_heap].
    split_and!; [done..| |].
    + intros n Hn%String.eqb_neq. by rewrite Hi, lookup_insert_ne.
    + intros [Hok| ->] n r' Hr; [|by right]. rewrite Hok, Hi.
      destruct (decide (name = n)) as [->|Hne]; [left; by apply list_elem_of_singleton|right].
      by rewrite lookup_insert_ne.
  - unfold revoke. destruct (tokens (tc_store c) !! name) eqn:Hname;
      [|by intros [= _ <- <-]; split_and!; auto].
    destruct (persist _ _ _ _) as [r d]. intros [= <- <- <-].
    cbn [with_store tc_store tc_subs tc_heap tokens set_tokens]. split_and!; [done..| |].
    + intros n Hn%String.eqb_neq. by rewrite lookup_delete_ne.
    + intros [Hok|Heq] n r' Hr; [|apply (f_equal tokens) in Heq; cbn in Heq; rewrite Heq; by right].
      rewrite Hok. destruct (decide (name = n)) as [->|Hne]; [left; by apply list_elem_of_singleton|right].
      by rewrite lookup_delete_ne.
Qed.

Lemma current_kept (s s' : TokenStore) presented name :
  tokens s' !! name = tokens s !! name → current s presented name → current s' presented name.
Proof. unfold current. by intros ->. Qed.

(** A change of the store after which those who lost their credential are
    closed. *)
Lemma store_change_entitled w w' id sub (names : list string) :
  tc_heap (cw_control w') = tc_heap (cw_control w) → cw_presented w' = cw_presented w →
  (∀ n, closing w n → closing w' n) → (∀ n, n ∈ names → closing w' n) →
  (∀ name r, tokens (tc_store (cw_control w)) !! name = Some r →
     name ∈ names ∨ tokens (tc_store (cw_control w')) !! name = Some r) →
  entitled w id sub → entitled w' id sub.
Proof.
  intros Hh Hp Hc Hn Hs [Ht|[Ht|(p & Hpr & r & Hr & Hash)]].
  - left. unfold told. by rewrite Hh.
  - right. left. by apply Hc.
  - apply Hs in Hr as [Hin|Hr]; [right; left; by apply Hn|]. right. right. exists p. rewrite Hp.
    split; [done|]. by exists r.
Qed.

Lemma closing_kept w i rest c presented n :
  (∀ names, cw_tasks w !! i ≠ Some (CCloseNames names)) →
  closing w n → closing (MkCredWorld c (set_task i rest (cw_tasks w)) presented) n.
Proof.
  intros Hi (j & names & Hj & Hin). exists j, names. split; [|done]. cbn [cw_tasks]. unfold set_task.
  rewrite lookup_partial_alter_ne; [done|]. intros <-. by apply (Hi names).
Qed.

Lemma closing_started w i c presented names n :
  n ∈ names → closing (MkCredWorld c (set_task i (Some (CCloseNames names)) (cw_tasks w)) presented) n.
Proof.
  intros Hin. exists i, names. split; [|done]. cbn [cw_tasks]. unfold set_task.
  by rewrite lookup_partial_alter_eq.
Qed.

(** The tasks other than the one that ran. *)
Lemma tasks_after w i rest c presented s s' :
  (∀ j t, cw_tasks w !! j = Some t → task_knows s t) →
  (∀ j t, j ≠ i → cw_tasks w !! j = Some t → task_knows s t → task_knows s' t) →
  (∀ t, rest = Some t → task_knows s' t) →
  ∀ j t, cw_tasks (MkCredWorld c (set_task i rest (cw_tasks w)) presented) !! j = Some t →
    task_knows s' t.
Proof.
  intros Hall Hother Hrest j t. cbn [cw_tasks]. unfold set_task.
  destruct (decide (j = i)) as [->|Hne].
  - rewrite lookup_partial_alter_eq. apply Hrest.
  - rewrite lookup_partial_alter_ne by done. intros Hj. eauto.
Qed.

(** A step that leaves the store and the registry. *)
Lemma quiet_step_ok w i rest :
  cred_ok w → (∀ names, cw_tasks w !! i ≠ Some (CCloseNames names)) →
  (∀ t, rest = Some t → task_knows (tc_store (cw_control w)) t) →
  cred_ok (MkCredWorld (cw_control w) (set_task i rest (cw_tasks w)) (cw_presented w)).
Proof.
  intros [Hcells Htasks Hent] Hi Hrest. split; cbn [cw_control].
  - exact Hcells.
  - by eapply tasks_after.
  - intros id sub Hsub. apply (store_change_entitled w _ id sub []); try done.
    + intros n. by apply closing_kept.
    + intros n []%not_elem_of_nil.
    + intros n r Hr. by right.
    + by apply Hent.
Qed.

(** A step that changes the store, and what is closed after it. *)
Lemma store_step_ok w i c names :
  cred_ok w → (∀ names, cw_tasks w !! i ≠ Some (CCloseNames names)) →
  tc_subs c = tc_subs (cw_control w) → tc_heap c = tc_heap (cw_control w) →
  (∀ name r, tokens (tc_store (cw_control w)) !! name = Some r →
     name ∈ names ∨ tokens (tc_store c) !! name = Some r) →
  (∀ j t, j ≠ i → cw_tasks w !! j = Some t → task_knows (tc_store (cw_control w)) t →
     task_knows (tc_store c) t) →
  cred_ok (MkCredWorld c (set_task i (Some (CCloseNames names)) (cw_tasks w)) (cw_presented w)).
Proof.
  intros [Hcells Htasks Hent] Hi Hsubs Hheap Hstore Hother. split; cbn [cw_control].
  - by rewrite Hsubs, Hheap.
  - eapply tasks_after; [done|done|]. by intros t [= <-].
  - intros id sub Hsub. rewrite Hsubs in Hsub. apply (store_change_entitled w _ id sub names); try done.
    + intros n. by apply closing_kept.
    + intros n. apply closing_started.
    + by apply Hent.
Qed.

Lemma register_step_ok w i inp name presented id c :
  cred_ok w → cw_tasks w !! i = Some (CRegister name presented) →
  watches (tc_heap (cw_control w)) !! ci_watch inp = None →
  register_connection inp name (cw_control w) = (id, c) →
  cred_ok (MkCredWorld c (set_task i None (cw_tasks w)) (<[id := presented]> (cw_presented w))).
Proof.
  intros [Hcells Htasks Hent] Hi Hfresh [= <- <-]. set (new := next_id _).
  assert (∀ v, v ≠ ci_watch inp → (<[ci_watch inp := None]> (watches (tc_heap (cw_control w)))) !! v =
    watches (tc_heap (cw_control w)) !! v) as Hw by (intros; by rewrite lookup_insert_ne).
  split; cbn [cw_control tc_store tc_subs tc_heap subs watches].
  - intros id sub [[<- <-]|[Hne Hsub]]%lookup_insert_Some; [by rewrite lookup_insert_eq|].
    destruct (Hcells id sub Hsub) as [v Hv]. rewrite Hw; [by exists v|]. congruence.
  - eapply tasks_after; [done|done|done].
  - intros id sub [[<- <-]|[Hne Hsub]]%lookup_insert_Some.
    + right. right. exists presented. cbn [cw_presented sub_name]. rewrite lookup_insert_eq. split; [done|].
      by apply (Htasks i (CRegister name presented)).
    + destruct (Hent id sub Hsub) as [Ht|[Ht|(p & Hp & Hc)]].
      * left. unfold told in *. cbn [cw_control tc_heap watches]. rewrite Hw; [done|]. intros Heq.
        rewrite Heq, Hfresh in Ht. done.
      * right. left. apply closing_kept; [|done]. congruence.
      * right. right. exists p. cbn [cw_presented]. by rewrite lookup_insert_ne.
Qed.

Lemma close_step_ok w i name names :
  cred_ok w → cw_tasks w !! i = Some (CCloseNames (name :: names)) →
  cred_ok (MkCredWorld (close_section name (cw_control w))
             (set_task i (Some (CCloseNames names)) (cw_tasks w)) (cw_presented w)).
Proof.
  intros [Hcells Htasks Hent] Hi. set (c := cw_control w) in *.
  assert (∀ v, watches (tc_heap (close_section name c)) !! v = watches (tc_heap c) !! v ∨
    watches (tc_heap (close_section name c)) !! v = (λ _, Some ReasonRevoked) <$> watches (tc_heap c) !! v)
    as Hcases.
  { intros v. destruct (close_named_spec name ReasonRevoked (tc_subs c) (tc_heap c) v) as (H1 & H2 & _).
    destruct (decide (named_watch (tc_subs c) name v)); [right; auto|left; auto]. }
  split; cbn [cw_control].
  - intros id sub Hsub. destruct (Hcells id sub Hsub) as [v Hv].
    destruct (Hcases (sub_close_tx sub)) as [-> | ->]; rewrite Hv; by eexists.
  - eapply tasks_after; [done|done|]. by intros t [= <-].
  - intros id sub Hsub. destruct (Hent id sub Hsub) as [Ht|[Ht|Hc]]; [| |by right; right].
    + left. unfold told in *. fold c in Ht. cbn [cw_control]. by destruct (Hcases (sub_close_tx sub)) as [-> | ->]; rewrite Ht.
    + destruct Ht as (j & ns & Hj & Hin). destruct (decide (j = i)) as [->|Hne].
      * rewrite Hi in Hj. injection Hj as <-. apply elem_of_cons in Hin as [Heq|Hin].
        -- left. unfold told. cbn [cw_control close_section tc_heap]. destruct (Hcells id sub Hsub) as [v Hv].
           rewrite (proj1 (close_named_spec name ReasonRevoked (tc_subs c) (tc_heap c) (sub_close_tx sub)));
             [by rewrite Hv|by exists id, sub].
        -- right. left. by apply closing_started.
      * right. left. exists j, ns. split; [|done]. cbn [cw_tasks]. unfold set_task.
        by rewrite lookup_partial_alter_ne.
Qed.

(** What a change of the store leaves to the other tasks, when none races. *)
Lemma knows_after_admin inp request c ok names c' t :
  admin_section inp request c = (ok, names, c') → race t (CAdmin request) = false →
  task_knows (tc_store c) t → task_knows (tc_store c') t.
Proof.
  intros Ha Hrace Ht. apply admin_section_spec in Ha as (_ & _ & Hsame & _).
  destruct t; cbn [race] in Hrace; try done.
  cbn [task_knows] in *. eapply current_kept; [|done]. by apply Hsame.
Qed.

Lemma knows_after_install s loaded names t :
  task_knows s (CReloadInstall loaded names) → race t (CReloadInstall loaded names) = false →
  task_knows s t → task_knows loaded t.
Proof.
  intros Hl Hrace Ht. destruct t; cbn [race] in Hrace; try done.
  cbn [task_knows] in *. destruct Ht as (r & Hr & Hh). apply bool_decide_eq_false in Hrace.
  destruct (Hl _ _ Hr) as [?|Hr']; [done|]. by exists r.
Qed.

Lemma run_step_ok w i inp w' :
  cred_ok w → race_free w → persisted (CrRun i inp) w → cred_step (CrRun i inp) w = Some w' →
  cred_ok w'.
Proof.
  intros Hok Hfree Hpers. cbn [cred_step]. intros (t & Hi & Hstep)%bind_Some.
  case_bool_decide as Hfresh; [|done].
  assert (∀ j t', j ≠ i → cw_tasks w !! j = Some t' → race t' t = false) as Hrace
    by (intros; by eapply Hfree).
  destruct t as [presented|name presented|request|path|loaded|loaded names|[|name names]];
    cbn [cred_task_step] in Hstep.
  - simplify_eq/=. apply quiet_step_ok; [done|congruence|].
    intros t Ht%fmap_Some. destruct Ht as (n & Hn & ->). by apply authenticate_current.
  - destruct (register_connection inp name (cw_control w)) as [id c] eqn:Hreg. simplify_eq/=.
    by eapply register_step_ok.
  - destruct (admin_section inp request (cw_control w)) as [[ok names] c] eqn:Ha. simplify_eq/=.
    specialize (Hpers request Hi). rewrite Ha in Hpers.
    pose proof (admin_section_spec _ _ _ _ _ _ Ha) as (H1 & H2 & _ & H4).
    apply store_step_ok; [done|congruence|done|done|by apply H4|].
    intros j t Hj Ht. eapply knows_after_admin; [done|by eapply Hrace].
  - simplify_eq/=. apply quiet_step_ok; [done|congruence|].
    intros t Ht%fmap_Some. by destruct Ht as (l & _ & ->).
  - simplify_eq/=. apply quiet_step_ok; [done|congruence|]. intros t [= <-] name r Hr.
    destruct (decide (tokens loaded !! name = Some r)); [by right|left].
    apply invalidated_names_spec. by exists r.
  - simplify_eq/=. pose proof (co_tasks _ Hok _ _ Hi) as Hk.
    apply store_step_ok; [done|congruence|done|done|done|].
    intros j t Hj Ht. eapply knows_after_install; [done|by eapply Hrace].
  - simplify_eq/=. destruct Hok as [Hcells Htasks Hent]. split; cbn [cw_control]; [done|by eapply tasks_after|].
    intros id sub Hsub. destruct (Hent id sub Hsub) as [Ht|[(j & ns & Hj & Hin)|Ht]];
      [by left| |by right; right].
    right. left. exists j, ns. split; [|done]. cbn [cw_tasks]. unfold set_task.
    rewrite lookup_partial_alter_ne; [done|]. intros <-. rewrite Hi in Hj. injection Hj as <-.
    by apply not_elem_of_nil in Hin.
  - simplify_eq/=. by apply close_step_ok.
Qed.

Lemma calm_step_ok w w' : cred_ok w → calm_step w w' → cred_ok w'.
Proof.
  intros Hok [ch Hstep Hfree Hpers]. destruct ch as [i t|i inp|id|d].
  - cbn [cred_step] in Hstep. destruct (bool_decide _) eqn:Hnone; [|done].
    destruct (may_start t) eqn:Hst; [|done]. bool_to_prop. injection Hstep as <-.
    destruct Hok as [Hcells Htasks Hent]. split; cbn [cw_control cw_tasks]; [done| |].
    + intros j t' [[<- <-]|[_ Hj]]%lookup_insert_Some; [by destruct t|by eapply Htasks].
    + intros id sub Hsub. destruct (Hent id sub Hsub) as [Ht|[(j & ns & Hj & Hin)|Ht]];
        [by left| |by right; right].
      right. left. exists j, ns. split; [|done]. cbn [cw_tasks]. rewrite lookup_insert_ne; [done|congruence].
  - by eapply run_step_ok.
  - injection Hstep as <-. destruct Hok as [Hcells Htasks Hent].
    split; cbn [cw_control tc_subs tc_heap tc_store remove_subscriber subs set_subs]; [|done|].
    + intros id' sub [_ Hsub]%lookup_delete_Some. by eapply Hcells.
    + intros id' sub [_ Hsub]%lookup_delete_Some. by apply (Hent id' sub).
  - injection Hstep as <-. by destruct Hok.
Qed.

Lemma calm_steps_ok w w' : cred_ok w → rtc calm_step w w' → cred_ok w'.
Proof. intros Hok Hsteps. induction Hsteps as [|w1 w2 w3 H1 _ IH]; [done|]. by apply IH, (calm_step_ok w1). Qed.

Lemma idle_ok c : subs (tc_subs c) = ∅ → cred_ok (MkCredWorld c ∅ ∅).
Proof. intros Hs. split; cbn [cw_control cw_tasks]; rewrite ?Hs; intros; by simplify_map_eq. Qed.
End credentials.
Arguments CredWorld : clear implicits.

(** ** Executable check of a calm execution *)

Section calm_run.
Context (sha256_hex base64_url : string → string).
Context (toml_to_string : gmap string TokenRecord → result string string).
Context (toml_from_str : string → result string (gmap string TokenRecord)).
Context {Db : Type} {O : HashOrder}.
Implicit Types w : CredWorld Db.

Definition race_freeb w : bool :=
  let ts := map_to_list (cw_tasks w) in
  forallb (λ p, forallb (λ q, Nat.eqb p.1 q.1 || negb (race p.2 q.2)) ts) ts.

Definition persistedb (ch : CredChoice) w : bool :=
  match ch with
  | CrRun i inp =>
      match cw_tasks w !! i with
      | Some (CAdmin request) =>
          (admin_section sha256_hex base64_url toml_to_string inp request (cw_control w)).1.1
      | _ => true
      end
  | _ => true
  end.

Definition calm_run : list CredChoice → CredWorld Db → option (CredWorld Db) :=
  fix go chs w :=
    match chs with
    | [] => Some w
    | ch :: rest =>
        if race_freeb w && persistedb ch w
        then w' ← cred_step sha256_hex base64_url toml_to_string toml_from_str ch w; go rest w'
        else None
    end.

Lemma race_freeb_sound w : race_freeb w = true → race_free w.
Proof.
  unfold race_freeb. intros Hall i j t1 t2 Hij Hi%elem_of_map_to_list Hj%elem_of_map_to_list.
  rewrite forallb_forall in Hall. apply list_elem_of_In in Hi, Hj. specialize (Hall _ Hi).
  rewrite forallb_forall in Hall. specialize (Hall _ Hj). cbn [fst snd] in Hall.
  destruct (Nat.eqb_spec i j); [done|]. by apply negb_true_iff in Hall.
Qed.

Lemma calm_run_sound chs w w' :
  calm_run chs w = Some w' →
  rtc (calm_step sha256_hex base64_url toml_to_string toml_from_str) w w'.
Proof.
  revert w. induction chs as [|ch chs IH]; intros w; cbn [calm_run]; [by intros [= ->]|].
  destruct (race_freeb w) eqn:Hfree; [|done]. destruct (persistedb ch w) eqn:Hp; [|done].
  cbn [andb]. intros (w1 & Hstep & Hrest)%bind_Some. eapply rtc_l; [|by apply IH].
  exists ch; [done|by apply race_freeb_sound|]. destruct ch as [| i inp | |]; try done.
  cbn [persisted persistedb] in *. intros request Hi. rewrite Hi in Hp.
  destruct (admin_section _ _ _ _ _ _) as [[ok names] c]. by left.
Qed.
End calm_run.

(** ** Theorems *)

Section theorems.
Context (sha256_hex base64_url : string → string).
Context (toml_to_string : gmap string TokenRecord → result string string).
Context (toml_from_str : string → result string (gmap string TokenRecord)).
Context {Db : Type} {O : HashOrder}.
Local Notation calm := (rtc (calm_step sha256_hex base64_url toml_to_string toml_from_str (Db := Db))).

(** The sections of a command, one after the other, are the command. *)
Lemma sections_are_the_request status inp request (c : Control Db) :
  let '(_, names, c1) := admin_section sha256_hex base64_url toml_to_string inp request c in
  foldl (λ c name, close_section name c) c1 names =
    (handle_control_request sha256_hex base64_url toml_to_string status (ci_env inp) (ci_random inp)
       (ci_now inp) request c).2.
Proof.
  destruct request as [|name|name|name|]; try done;
    cbn [admin_section handle_control_request]; unfold tc_add, tc_rotate, tc_revoke;
    [destruct (add _ _ _ _ _ _ _ _ _) as [[[] s] d]|destruct (rotate _ _ _ _ _ _ _ _ _) as [[[] s] d]
    |destruct (revoke _ _ _ _ _) as [[[] s] d]]; done.
Qed.

End theorems.

(** ** Witnesses *)

Section witnesses.
#[local] Existing Instance some_order.

Definition demo_input (w : WatchRef) : CredInput :=
  MkCredInput all_succeed "new" "t1" w w LimitsConfig_default.
Definition idle_control : Control (list (Z * string)) :=
  MkControl demo_store demo_disk SubscriberRegistry_new (MkHeap ∅ ∅).
Definition run_choices (chs : list CredChoice) (w : CredWorld (list (Z * string)))
    : option (CredWorld (list (Z * string))) :=
  foldl (λ o ch, w ← o; cred_step (λ t, t) (λ t, t) DemoToml.print DemoToml.parse ch w) (Some w) chs.

(** Alice connects; then her token is rotated. *)
Definition calm_choices : list CredChoice :=
  [CrSpawn 0 (CAuthenticate "tok_a"); CrRun 0 (demo_input 20); CrRun 0 (demo_input 20);
   CrSpawn 1 (CAdmin (Req_TokenRotate "alice")); CrRun 1 (demo_input 21); CrRun 1 (demo_input 21);
   CrRun 1 (demo_input 21)].
(** Her token is revoked between the check and the registration. *)
Definition racing_choices : list CredChoice :=
  [CrSpawn 0 (CAuthenticate "tok_a"); CrRun 0 (demo_input 20);
   CrSpawn 1 (CAdmin (Req_TokenRevoke "alice")); CrRun 1 (demo_input 21); CrRun 1 (demo_input 21);
   CrRun 1 (demo_input 21); CrRun 0 (demo_input 20)].


(** A connection between its authentication and its registration is not closed
    by the revocation of its token, nor by anything later: its credential is
    gone, no close is pending, and it is open. *)
Lemma revocation_misses_a_handshake :
  ∃ w, run_choices racing_choices (MkCredWorld idle_control ∅ ∅) = Some w ∧
    cw_tasks w = ∅ ∧ tokens (tc_store (cw_control w)) !! "alice" = None ∧
    authenticate (λ t, t) (tc_store (cw_control w)) "tok_a" = None ∧
    sub_name <$> subs (tc_subs (cw_control w)) !! 1 = Some "alice" ∧
    watches (tc_heap (cw_control w)) !! 20 = Some None.
Proof. eexists. split; [vm_compute; reflexivity|]. vm_compute. repeat split. Qed.
End witnesses.
