(* ===== verification/DispatchWindow.v ===== *)
(** * DispatchWindow: the bounded window of in-flight dispatches

    [crates/whdr-server/src/dispatch_window.rs].  A shared counter, raised by a
    compare-and-swap loop and lowered when a permit is dropped, and a
    mutex-protected map from request ids to the sender ends of one-shot
    channels.  Threads interleave at every atomic access: an [Action] is one
    atomic step of one call (or of the reader, or of a clear), and a run is a
    list of them. *)

From S2P Require Import Prelude.

Local Open Scope Z_scope.

(** ** Definitions *)

Abbreviation Uuid := Z (only parsing).
Abbreviation CallId := nat (only parsing).

(** [DispatchWait] with the outcomes of [reserve] ([None]) and of dropping the
    reservation. *)
Inductive Outcome (T : Type) : Type :=
  | Busy
  | Result (v : T)
  | Dead
  | Timeout
  | Cancelled.
Arguments Busy {T}.
Arguments Result {T}.
Arguments Dead {T}.
Arguments Timeout {T}.
Arguments Cancelled {T}.

(** Where a call is: in the loop of [reserve_in_flight] with the value it last
    read, holding a permit not yet in the map, waiting on its receiver, past its
    time-out but not yet out of the map, or done. *)
Inductive CallState (T : Type) : Type :=
  | CLoop (max current : Z)
  | CReserved
  | CWaiting (req_id : Uuid)
  | CTimedOut (req_id : Uuid)
  | CDone (req_id : option Uuid) (o : Outcome T).
Arguments CLoop {T}.
Arguments CReserved {T}.
Arguments CWaiting {T}.
Arguments CTimedOut {T}.
Arguments CDone {T}.

(** A one-shot channel, as its receiver finds it. *)
Inductive Oneshot (T : Type) : Type := Open | Sent (v : T) | Closed.
Arguments Open {T}.
Arguments Sent {T}.
Arguments Closed {T}.

Section dispatch_window.
Context {T : Type}.

(** The window, the channels, and the calls.  [dropping] counts permits whose
    map entry is gone but whose [Drop] has not yet lowered the counter;
    [received] is the results the reader matched to a call. *)
Record Window : Type := MkWindow {
  pending : gmap Uuid CallId;
  in_flight : Z;
  dropping : nat;
  oneshots : gmap CallId (Oneshot T);
  calls : gmap CallId (CallState T);
  received : list (Uuid * T)
}.

Definition DispatchWindow_new : Window := MkWindow ∅ 0 0 ∅ ∅ [].

Definition set_call (c : CallId) (s : CallState T) (w : Window) : Window :=
  MkWindow (pending w) (in_flight w) (dropping w) (oneshots w) (<[c := s]> (calls w)) (received w).

(** The receiver finds the channel closed when the sender is dropped unsent. *)
Definition drop_sender (c : CallId) (os : gmap CallId (Oneshot T)) : gmap CallId (Oneshot T) :=
  alter (λ o, match o with Open => Closed | o => o end) c os.

(** [lock_pending(..).remove(&req_id)] with the entry dropped. *)
Definition remove_entry (id : Uuid) (w : Window) : Window :=
  match pending w !! id with
  | None => w
  | Some c =>
      MkWindow (delete id (pending w)) (in_flight w) (S (dropping w))
        (drop_sender c (oneshots w)) (calls w) (received w)
  end.

Inductive Action : Type :=
  | ALoad (c : CallId) (max : Z)          (* reserve_in_flight: the first load *)
  | ACas (c : CallId) (spurious : bool)   (* one iteration of its loop *)
  | AInsert (c : CallId) (id : Uuid)      (* the rest of reserve *)
  | ARemove (id : Uuid) (v : T)           (* the reader: remove, then send *)
  | AClear                                (* clear *)
  | ARelease                              (* release_in_flight of one permit *)
  | AReceive (c : CallId)                 (* wait: the receiver is ready *)
  | AExpire (c : CallId)                  (* wait: the timer fires first *)
  | ARemovePending (c : CallId)           (* the remove_pending of a time-out *)
  | ADrop (c : CallId).                   (* the reservation dropped while armed *)

(** One atomic step; [None] when the action does not apply. *)
Definition act (a : Action) (w : Window) : option Window :=
  match a with
  | ALoad c max =>
      match calls w !! c with
      | None => Some (set_call c (CLoop max (in_flight w)) w)
      | Some _ => None
      end
  | ACas c spurious =>
      match calls w !! c with
      | Some (CLoop max current) =>
          if max <=? current then Some (set_call c (CDone None Busy) w)
          else if (in_flight w =? current) && negb spurious then
            Some (MkWindow (pending w) (wrap64 (current + 1)) (dropping w) (oneshots w)
                    (<[c := CReserved]> (calls w)) (received w))
          else Some (set_call c (CLoop max (in_flight w)) w)
      | _ => None
      end
  | AInsert c id =>
      match calls w !! c with
      | Some CReserved =>
          let w1 := remove_entry id w in
          Some (MkWindow (<[id := c]> (pending w1)) (in_flight w1) (dropping w1)
                  (<[c := Open]> (oneshots w1)) (<[c := CWaiting id]> (calls w1)) (received w1))
      | _ => None
      end
  | ARemove id v =>
      match pending w !! id with
      | None => Some w
      | Some c =>
          Some (MkWindow (delete id (pending w)) (in_flight w) (S (dropping w))
                  (<[c := Sent v]> (oneshots w)) (calls w) (received w ++ [(id, v)]))
      end
  | AClear =>
      Some (MkWindow ∅ (in_flight w) (dropping w + size (pending w))
              (map_fold (λ _ c os, drop_sender c os) (oneshots w) (pending w)) (calls w)
              (received w))
  | ARelease =>
      match dropping w with
      | O => None
      | S n =>
          Some (MkWindow (pending w) (saturating_sub (in_flight w) 1) n (oneshots w) (calls w)
                  (received w))
      end
  | AReceive c =>
      match calls w !! c, oneshots w !! c with
      | Some (CWaiting id), Some (Sent v) => Some (set_call c (CDone (Some id) (Result v)) w)
      | Some (CWaiting id), Some Closed => Some (set_call c (CDone (Some id) Dead) w)
      | _, _ => None
      end
  | AExpire c =>
      match calls w !! c, oneshots w !! c with
      | Some (CWaiting id), Some Open => Some (set_call c (CTimedOut id) w)
      | _, _ => None
      end
  | ARemovePending c =>
      match calls w !! c with
      | Some (CTimedOut id) => Some (set_call c (CDone (Some id) Timeout) (remove_entry id w))
      | _ => None
      end
  | ADrop c =>
      match calls w !! c with
      | Some (CWaiting id) => Some (set_call c (CDone (Some id) Cancelled) (remove_entry id w))
      | _ => None
      end
  end.

Fixpoint run_actions (acts : list Action) (w : Window) : option Window :=
  match acts with
  | [] => Some w
  | a :: rest => w' ← act a w; run_actions rest w'
  end.

(** [is_idle]. *)
Definition is_idle (w : Window) : bool :=
  bool_decide (size (pending w) = 0%nat) && (in_flight w =? 0).

(** ** Specification *)

Definition is_reserved (s : CallState T) : Prop := match s with CReserved => True | _ => False end.
#[global] Instance is_reserved_dec s : Decision (is_reserved s).
Proof. destruct s; apply _. Defined.

(** The permits in existence: held by calls, in the map, or being dropped. *)
Definition reserved (w : Window) : gmap CallId (CallState T) :=
  filter (λ kv, is_reserved kv.2) (calls w).
Definition permits (w : Window) : Z :=
  Z.of_nat (size (reserved w)) + Z.of_nat (size (pending w)) + Z.of_nat (dropping w).

(** Calls compare against a limit of at most [m]. *)
Definition limits_ok (m : Z) (w : Window) : Prop :=
  ∀ c mx cur, calls w !! c = Some (CLoop mx cur) → mx ≤ m.

Definition window_inv (m : Z) (w : Window) : Prop :=
  in_flight w = permits w ∧ in_flight w ≤ m ∧ limits_ok m w.

(** What a call got is what the reader received under its request id. *)
Record correlated (w : Window) : Prop := {
  pending_calls id c : pending w !! id = Some c →
    oneshots w !! c = Some Open ∧
    (calls w !! c = Some (CWaiting id) ∨ calls w !! c = Some (CTimedOut id));
  sent_values c id v : oneshots w !! c = Some (Sent v) →
    calls w !! c = Some (CWaiting id) → (id, v) ∈ received w;
  results c id v : calls w !! c = Some (CDone (Some id) (Result v)) → (id, v) ∈ received w
}.

Definition action_limit (m : Z) (a : Action) : Prop :=
  match a with ALoad _ mx => mx ≤ m | _ => True end.

(** ** Lemmas: permits *)

Definition count_reserved (m : gmap CallId (CallState T)) : Z :=
  Z.of_nat (size (filter (λ kv, is_reserved kv.2) m)).

Definition reserved_at (m : gmap CallId (CallState T)) (c : CallId) : bool :=
  match m !! c with Some CReserved => true | _ => false end.

Lemma count_reserved_delete m c :
  count_reserved (delete c m) = count_reserved m - Z.b2z (reserved_at m c).
Proof.
  unfold count_reserved, reserved_at. rewrite map_filter_delete, map_size_delete.
  destruct (m !! c) as [s|] eqn:Hc.
  - destruct (decide (is_reserved s)) as [Hs|Hs].
    + assert (filter (λ kv : CallId * CallState T, is_reserved kv.2) m !! c = Some s) as Hf
        by (by apply map_lookup_filter_Some).
      rewrite Hf. assert (size (filter (λ kv : CallId * CallState T, is_reserved kv.2) m) ≠ 0%nat)
        by (eapply map_size_ne_0_lookup_2; eauto). destruct s; simpl in *; lia || done.
    + assert (filter (λ kv : CallId * CallState T, is_reserved kv.2) m !! c = None) as ->.
      { apply map_lookup_filter_None. right. intros x Hx. by simplify_eq. }
      destruct s; simpl in *; lia || tauto.
  - assert (filter (λ kv : CallId * CallState T, is_reserved kv.2) m !! c = None) as ->
      by (apply map_lookup_filter_None; by left). simpl. lia.
Qed.

Lemma count_reserved_insert m c s :
  count_reserved (<[c := s]> m) =
    count_reserved m - Z.b2z (reserved_at m c) + (if decide (is_reserved s) then 1 else 0).
Proof.
  unfold count_reserved at 1. rewrite map_filter_insert. cbn [snd]. case_decide.
  - rewrite <- insert_delete_eq, <- map_filter_delete, map_size_insert_None.
    + rewrite <- count_reserved_delete. unfold count_reserved. lia.
    + rewrite map_filter_delete. apply lookup_delete_eq.
  - rewrite <- count_reserved_delete. unfold count_reserved. lia.
Qed.

Lemma remove_entry_permits id w :
  permits (remove_entry id w) = permits w ∧ in_flight (remove_entry id w) = in_flight w ∧
  calls (remove_entry id w) = calls w ∧ pending (remove_entry id w) = delete id (pending w).
Proof.
  unfold remove_entry. destruct (pending w !! id) as [c|] eqn:Hc.
  - cbn. split_and!; try done. unfold permits, reserved. cbn.
    rewrite map_size_delete, Hc.
    assert (size (pending w) ≠ 0%nat) by (eapply map_size_ne_0_lookup_2; eauto). lia.
  - split_and!; try done. by rewrite delete_id.
Qed.

Lemma permits_alt w :
  permits w = count_reserved (calls w) + Z.of_nat (size (pending w)) + Z.of_nat (dropping w).
Proof. done. Qed.

Lemma limits_set_call m c s w :
  limits_ok m w → (∀ mx cur, s = CLoop mx cur → mx ≤ m) → limits_ok m (set_call c s w).
Proof.
  intros Hl Hs c' mx cur. cbn. rewrite lookup_insert. case_decide; [intros [= ->]; eauto|apply Hl].
Qed.

Lemma set_call_inv m c s w :
  window_inv m w → reserved_at (calls w) c = false → bool_decide (is_reserved s) = false →
  (∀ mx cur, s = CLoop mx cur → mx ≤ m) → window_inv m (set_call c s w).
Proof.
  intros (Hp & Hm & Hl) Hc Hs%bool_decide_eq_false Hlim. split; [|split; [done|by apply limits_set_call]].
  rewrite permits_alt in *. cbn [set_call calls pending dropping in_flight].
  rewrite count_reserved_insert, Hc, decide_False by done. simpl. lia.
Qed.

Lemma remove_entry_inv m id w : window_inv m w → window_inv m (remove_entry id w).
Proof.
  intros (Hp & Hm & Hl). destruct (remove_entry_permits id w) as (H1 & H2 & H3 & _).
  split; [lia|]. split; [lia|]. unfold limits_ok. by rewrite H3.
Qed.

Lemma permits_nonneg w : 0 ≤ permits w.
Proof. unfold permits. lia. Qed.

(** A successful compare-and-swap takes one permit. *)
Lemma cas_inv m w c mx cur :
  m < 2 ^ 64 → window_inv m w → calls w !! c = Some (CLoop mx cur) → cur < mx → in_flight w = cur →
  window_inv m (MkWindow (pending w) (wrap64 (cur + 1)) (dropping w) (oneshots w)
                  (<[c := CReserved]> (calls w)) (received w)).
Proof.
  intros Hm64 (Hp & Hm & Hl) Hc Hlt Hcas. pose proof (permits_nonneg w). pose proof (Hl c mx cur Hc).
  unfold window_inv. rewrite permits_alt in *. cbn [calls pending dropping in_flight].
  rewrite count_reserved_insert, decide_True by done.
  assert (reserved_at (calls w) c = false) as -> by (unfold reserved_at; by rewrite Hc). simpl.
  rewrite wrap64_small by (unfold is_u64; lia). split; [lia|]. split; [lia|].
  intros c' mx' cur'. cbn. rewrite lookup_insert. case_decide; [done|apply Hl].
Qed.

(** The reserved permit moves into the map, over an entry of the same id. *)
Lemma insert_inv m w c id :
  window_inv m w → calls w !! c = Some CReserved →
  let w1 := remove_entry id w in
  window_inv m (MkWindow (<[id := c]> (pending w1)) (in_flight w1) (dropping w1)
                  (<[c := Open]> (oneshots w1)) (<[c := CWaiting id]> (calls w1)) (received w1)).
Proof.
  intros (Hp & Hm & Hl) Hc. cbv zeta. destruct (remove_entry_permits id w) as (H1 & H2 & H3 & H4).
  unfold window_inv. rewrite !permits_alt in *. rewrite H3, H4 in H1.
  cbn [calls pending dropping in_flight].
  rewrite H2, H3, H4, count_reserved_insert, decide_False by (by intros []).
  assert (reserved_at (calls w) c = true) as -> by (unfold reserved_at; by rewrite Hc).
  rewrite map_size_insert_None by apply lookup_delete_eq.
  simpl. split; [lia|]. split; [lia|].
  intros c' mx' cur'. cbn. rewrite lookup_insert. case_decide; [done|apply Hl].
Qed.

(** An entry taken out of the map, its permit not yet released. *)
Lemma take_inv m w id c os rs :
  window_inv m w → pending w !! id = Some c →
  window_inv m (MkWindow (delete id (pending w)) (in_flight w) (S (dropping w)) os (calls w) rs).
Proof.
  intros (Hp & Hm & Hl) Hc. unfold window_inv. rewrite permits_alt in *. cbn.
  rewrite map_size_delete, Hc.
  assert (size (pending w) ≠ 0%nat) by (eapply map_size_ne_0_lookup_2; eauto).
  split; [lia|]. by split.
Qed.

Lemma act_inv m a w w' :
  m < 2 ^ 64 → window_inv m w → action_limit m a → act a w = Some w' → window_inv m w'.
Proof.
  intros Hm64 Hinv Hlim. pose proof Hinv as (Hp & Hm & Hl). pose proof (permits_nonneg w).
  destruct a as [c mx|c sp|c id|id v| | |c|c|c|c]; cbn [act action_limit] in *.
  - destruct (calls w !! c) eqn:Hc; [done|]. intros [= <-].
    apply set_call_inv; [done|by unfold reserved_at; rewrite Hc|done|].
    by intros ?? [= <- _].
  - destruct (calls w !! c) as [[mx cur| | | |]|] eqn:Hc; try done.
    assert (reserved_at (calls w) c = false) as Hr by (unfold reserved_at; by rewrite Hc).
    destruct (mx <=? cur) eqn:Hfull; [intros [= <-]; by apply set_call_inv|].
    destruct ((in_flight w =? cur) && negb sp) eqn:Hcas; intros [= <-].
    + bool_to_prop. by eapply cas_inv.
    + apply set_call_inv; try done. intros ?? [= <- _]. by eapply Hl.
  - destruct (calls w !! c) as [[| | | |]|] eqn:Hc; try done. intros [= <-]. by apply insert_inv.
  - destruct (pending w !! id) as [c|] eqn:Hc; intros [= <-]; [|done]. by eapply take_inv.
  - intros [= <-]. unfold window_inv. rewrite permits_alt in *. cbn. rewrite map_size_empty.
    split; [lia|]. by split.
  - destruct (dropping w) as [|n] eqn:Hd; [done|]. intros [= <-].
    unfold window_inv. rewrite permits_alt in *. cbn. unfold saturating_sub.
    split; [|split; [lia|done]]. unfold count_reserved in *. lia.
  - destruct (calls w !! c) as [[| |id| |]|] eqn:Hc; try done.
    assert (reserved_at (calls w) c = false) as Hr by (unfold reserved_at; by rewrite Hc).
    destruct (oneshots w !! c) as [[|v|]|]; try done; intros [= <-]; by apply set_call_inv.
  - destruct (calls w !! c) as [[| |id| |]|] eqn:Hc; try done.
    assert (reserved_at (calls w) c = false) as Hr by (unfold reserved_at; by rewrite Hc).
    destruct (oneshots w !! c) as [[|v|]|]; try done; intros [= <-]; by apply set_call_inv.
  - destruct (calls w !! c) as [[| | |id|]|] eqn:Hc; try done. intros [= <-].
    apply set_call_inv; [by apply remove_entry_inv| |done|done].
    unfold reserved_at. destruct (remove_entry_permits id w) as (_ & _ & -> & _). by rewrite Hc.
  - destruct (calls w !! c) as [[| |id| |]|] eqn:Hc; try done. intros [= <-].
    apply set_call_inv; [by apply remove_entry_inv| |done|done].
    unfold reserved_at. destruct (remove_entry_permits id w) as (_ & _ & -> & _). by rewrite Hc.
Qed.

(** ** Lemmas: correlation *)

Definition waits_for (s : option (CallState T)) (id : Uuid) : Prop :=
  s = Some (CWaiting id) ∨ s = Some (CTimedOut id).

(** A call whose entry is in the map is waiting under that id alone. *)
Lemma pending_inj w id id' c :
  correlated w → pending w !! id = Some c → pending w !! id' = Some c → id = id'.
Proof.
  intros Hw H1 H2. destruct (pending_calls w Hw _ _ H1) as [_ [?|?]],
    (pending_calls w Hw _ _ H2) as [_ [?|?]]; congruence.
Qed.

Lemma drop_sender_Sent c os c' v :
  drop_sender c os !! c' = Some (Sent v) → os !! c' = Some (Sent v).
Proof.
  unfold drop_sender. rewrite lookup_alter. case_decide; [subst|done].
  destruct (os !! c') as [[|x|]|]; cbn; congruence.
Qed.

Lemma remove_entry_correlated id w : correlated w → correlated (remove_entry id w).
Proof.
  intros Hw. unfold remove_entry. destruct (pending w !! id) as [c|] eqn:Hc; [|done].
  split; cbn.
  - intros id' c' [Hne Hp]%lookup_delete_Some. destruct (pending_calls w Hw _ _ Hp) as [Ho Hcall].
    split; [|done]. unfold drop_sender. rewrite lookup_alter_ne; [done|].
    intros ->. apply Hne. by eapply pending_inj.
  - intros c' id' v Ho%drop_sender_Sent. by apply (sent_values w Hw).
  - apply (results w Hw).
Qed.

(** Moving a call that is in no map entry. *)
Lemma set_call_correlated c s w :
  correlated w → (∀ id, pending w !! id ≠ Some c) →
  (∀ id, s ≠ CWaiting id) → (∀ id v, s = CDone (Some id) (Result v) → (id, v) ∈ received w) →
  correlated (set_call c s w).
Proof.
  intros Hw Hnp Hs Hr. split; cbn.
  - intros id c' Hp. destruct (pending_calls w Hw _ _ Hp) as [Ho Hcall]. split; [done|].
    rewrite lookup_insert_ne; [done|]. intros ->. by apply (Hnp id).
  - intros c' id v Ho. rewrite lookup_insert. case_decide; [intros [= ->]; by destruct (Hs id)|].
    by apply (sent_values w Hw).
  - intros c' id v. rewrite lookup_insert. case_decide; [intros [= ->]; by apply Hr|].
    apply (results w Hw).
Qed.

Lemma not_pending c w s :
  correlated w → calls w !! c = s → (∀ id, ¬ waits_for s id) → ∀ id, pending w !! id ≠ Some c.
Proof.
  intros Hw <- Hs id Hp. destruct (pending_calls w Hw _ _ Hp) as [_ Hcall]. by apply (Hs id).
Qed.

Lemma insert_correlated c id w :
  correlated w → calls w !! c = Some CReserved →
  let w1 := remove_entry id w in
  correlated (MkWindow (<[id := c]> (pending w1)) (in_flight w1) (dropping w1)
                (<[c := Open]> (oneshots w1)) (<[c := CWaiting id]> (calls w1)) (received w1)).
Proof.
  intros Hw Hc. cbv zeta. destruct (remove_entry_permits id w) as (_ & _ & Hcalls & Hpend).
  pose proof (remove_entry_correlated id w Hw) as Hw1.
  assert (∀ id', pending (remove_entry id w) !! id' ≠ Some c) as Hnp.
  { apply (not_pending _ _ (Some CReserved) Hw1); [by rewrite Hcalls|by intros ? [?|?]]. }
  split; cbn.
  - intros id' c'. rewrite lookup_insert. case_decide.
    + intros [= <-]. rewrite !lookup_insert_eq. subst. auto.
    + intros Hp. destruct (pending_calls _ Hw1 _ _ Hp) as [Ho Hcall].
      assert (c ≠ c') by (intros <-; by apply (Hnp id')).
      by rewrite !lookup_insert_ne by done.
  - intros c' id' v. rewrite !lookup_insert. case_decide; [done|]. apply (sent_values _ Hw1).
  - intros c' id' v. rewrite lookup_insert. case_decide; [done|]. apply (results _ Hw1).
Qed.

(** The reader sends a value to the call an id belongs to. *)
Lemma remove_correlated c id v w :
  correlated w → pending w !! id = Some c →
  correlated (MkWindow (delete id (pending w)) (in_flight w) (S (dropping w))
                (<[c := Sent v]> (oneshots w)) (calls w) (received w ++ [(id, v)])).
Proof.
  intros Hw Hc. split; cbn.
  - intros id' c' [Hne Hp]%lookup_delete_Some.
    destruct (pending_calls w Hw _ _ Hp) as [Ho Hcall]. split; [|done].
    rewrite lookup_insert_ne; [done|]. intros ->. apply Hne. by eapply pending_inj.
  - intros c' id' v'. rewrite lookup_insert. case_decide as Heq.
    + intros [= <-] Hcall. subst. destruct (pending_calls w Hw _ _ Hc) as [_ [Hcall'|Hcall']];
        rewrite Hcall in Hcall'; simplify_eq. set_solver.
    + intros Ho Hcall. apply elem_of_app. left. by apply (sent_values w Hw c').
  - intros c' id' v' Hd. apply elem_of_app. left. by apply (results w Hw c').
Qed.

Lemma clear_correlated w :
  correlated w →
  correlated (MkWindow ∅ (in_flight w) (dropping w + size (pending w))
                (map_fold (λ _ c os, drop_sender c os) (oneshots w) (pending w)) (calls w)
                (received w)).
Proof.
  intros Hw. split; cbn; [intros ??; by rewrite lookup_empty| |apply (results w Hw)].
  intros c id v Ho. apply (sent_values w Hw). revert v Ho.
  apply (map_fold_weak_ind (λ os _, ∀ v, os !! c = Some (Sent v) → oneshots w !! c = Some (Sent v)));
    [done|]. intros i x m os _ IH v Ho%drop_sender_Sent. auto.
Qed.

(** A call that leaves the map by itself. *)
Lemma withdraw_correlated c id s w :
  correlated w → calls w !! c = Some (CWaiting id) ∨ calls w !! c = Some (CTimedOut id) →
  (∀ id, s ≠ CWaiting id) → (∀ id v, s ≠ CDone (Some id) (Result v)) →
  correlated (set_call c s (remove_entry id w)).
Proof.
  intros Hw Hc Hs Hr. apply set_call_correlated; [by apply remove_entry_correlated| |done|].
  - destruct (remove_entry_permits id w) as (_ & _ & _ & ->).
    intros id' [Hne Hp]%lookup_delete_Some.
    destruct (pending_calls w Hw _ _ Hp) as [_ [?|?]], Hc; congruence.
  - intros id' v Heq. by destruct (Hr id' v).
Qed.

Lemma act_correlated a w w' : correlated w → act a w = Some w' → correlated w'.
Proof.
  intros Hw. destruct a as [c mx|c sp|c id|id v| | |c|c|c|c]; cbn [act].
  - destruct (calls w !! c) eqn:Hc; [done|]. intros [= <-].
    apply set_call_correlated; try done. apply (not_pending _ _ _ Hw Hc). by intros ? [?|?].
  - destruct (calls w !! c) as [[mx cur| | | |]|] eqn:Hc; try done.
    assert (∀ id, pending w !! id ≠ Some c) as Hnp
      by (apply (not_pending _ _ _ Hw Hc); by intros ? [?|?]).
    destruct (mx <=? cur); [intros [= <-]; by apply set_call_correlated|].
    case_bool; intros [= <-]; [|by apply set_call_correlated].
    pose proof (set_call_correlated c CReserved w Hw Hnp) as [H1 H2 H3]; [done..|]. by split.
  - destruct (calls w !! c) as [[| | | |]|] eqn:Hc; try done. intros [= <-].
    by apply insert_correlated.
  - destruct (pending w !! id) as [c|] eqn:Hc; intros [= <-]; [|done]. by apply remove_correlated.
  - intros [= <-]. by apply clear_correlated.
  - destruct (dropping w); [done|]. intros [= <-]. destruct Hw. by split.
  - destruct (calls w !! c) as [[| |id| |]|] eqn:Hc; try done.
    destruct (oneshots w !! c) as [[|v|]|] eqn:Ho; try done; intros [= <-];
      (apply set_call_correlated; [done| |done|]).
    1, 3: intros id' Hp; destruct (pending_calls w Hw _ _ Hp) as [Ho' _]; congruence.
    + intros ?? [= <- <-]. by apply (sent_values w Hw c).
    + done.
  - destruct (calls w !! c) as [[| |id| |]|] eqn:Hc; try done.
    destruct (oneshots w !! c) as [[|v|]|] eqn:Ho; try done; intros [= <-]. split; cbn.
    + intros id' c' Hp. destruct (pending_calls w Hw _ _ Hp) as [Ho' Hcall]. split; [done|].
      rewrite lookup_insert. case_decide; [|done]. subst. right.
      destruct Hcall; congruence.
    + intros c' id' v Ho'. rewrite lookup_insert. case_decide; [done|]. by apply (sent_values w Hw).
    + intros c' id' v. rewrite lookup_insert. case_decide; [done|]. apply (results w Hw).
  - destruct (calls w !! c) as [[| | |id|]|] eqn:Hc; try done. intros [= <-].
    apply withdraw_correlated; auto; discriminate.
  - destruct (calls w !! c) as [[| |id| |]|] eqn:Hc; try done. intros [= <-].
    apply withdraw_correlated; auto; discriminate.
Qed.
End dispatch_window.
Arguments Window : clear implicits.
Arguments Action : clear implicits.

(** ** Theorems *)

Section theorems.
Context {T : Type}.

Lemma run_actions_ind (P : Window T → Prop) (Q : Action T → Prop) acts w w' :
  (∀ a w w', Q a → P w → act a w = Some w' → P w') →
  Forall Q acts → P w → run_actions acts w = Some w' → P w'.
Proof.
  intros Hstep Hacts. revert w. induction Hacts as [|a acts Ha _ IH]; intros w Hw; cbn.
  { by intros [= <-]. }
  intros (w1 & Hw1 & Hrun)%bind_Some. eapply IH; [|done]. by eapply Hstep.
Qed.

Lemma new_inv m : 0 ≤ m → window_inv m (@DispatchWindow_new T).
Proof.
  intros Hm. split; [done|]. split; [done|]. intros ???. cbn. by rewrite lookup_empty.
Qed.

Lemma new_correlated : correlated (@DispatchWindow_new T).
Proof. split; cbn; intros *; by rewrite ?lookup_empty. Qed.

(** C36: however loads, compare-and-swaps (spurious failures included), inserts,
    removals, clears and permit drops interleave, the counter is exactly the
    number of live permits and never exceeds the limit; so no more dispatches
    than that are ever pending, and once no permit is in transit the counter is
    the number of pending dispatches: none leaks, none is released twice. *)
Theorem window_is_bounded_and_leak_free m (acts : list (Action T)) w :
  0 ≤ m < 2 ^ 64 → Forall (action_limit m) acts → run_actions acts DispatchWindow_new = Some w →
  in_flight w = permits w ∧ Z.of_nat (size (pending w)) ≤ in_flight w ≤ m ∧
  (dropping w = 0%nat → (∀ c, calls w !! c ≠ Some CReserved) →
   in_flight w = Z.of_nat (size (pending w))).
Proof.
  intros Hm Hacts Hrun.
  assert (window_inv m w) as (Hp & Hle & _).
  { eapply (run_actions_ind (window_inv m) (action_limit m)); [|done|apply new_inv; lia|done].
    intros a w1 w2 Ha Hw1 Hact. eapply act_inv; [lia|done..]. }
  split; [done|]. split; [unfold permits in *; lia|]. intros Hd Hr.
  rewrite Hp, permits_alt, Hd. assert (count_reserved (calls w) = 0) as ->; [|lia].
  unfold count_reserved. apply (f_equal Z.of_nat (y := 0%nat)), map_size_empty_iff, map_eq.
  intros c. rewrite lookup_empty. apply map_lookup_filter_None. right. intros s Hs.
  specialize (Hr c). destruct s; cbn; try (by intros []).
Qed.

Lemma act_received (a : Action T) w w' x :
  act a w = Some w' → x ∈ received w' → x ∈ received w ∨ a = ARemove x.1 x.2.
Proof.
  assert (∀ id, received (remove_entry id w) = received w) as Hre
    by (intros id; unfold remove_entry; by case_match).
  destruct a as [c mx|c sp|c id|id v| | |c|c|c|c]; cbn [act]; intros Hact;
    repeat (case_match; try done); simplify_eq/=; rewrite ?Hre; auto.
  intros [?| ->%list_elem_of_singleton]%elem_of_app; auto.
Qed.

(** A dispatch that gets a result gets one the reader received under its own
    request id: a late or foreign result never completes it. *)
Theorem results_are_correlated (acts : list (Action T)) w c id v :
  run_actions acts DispatchWindow_new = Some w →
  calls w !! c = Some (CDone (Some id) (Result v)) → ARemove id v ∈ acts.
Proof.
  intros Hrun Hc.
  assert (correlated w) as Hw.
  { eapply (run_actions_ind correlated (λ _, True)); [|by apply Forall_forall|apply new_correlated|done].
    intros a w1 w2 _ Hw1. by apply act_correlated. }
  apply (results w Hw) in Hc. clear Hw.
  assert (∀ w0, run_actions acts w0 = Some w → (id, v) ∈ received w0 ∨ ARemove id v ∈ acts) as Hall.
  { clear Hrun. induction acts as [|a acts IH]; intros w0; cbn.
    { intros [= ->]. by left. }
    intros (w1 & Hw1 & Hrun)%bind_Some. destruct (IH w1 Hrun) as [Hin|Hin].
    - apply (act_received _ _ _ _ Hw1) in Hin as [Hin| ->]; [by left|right]. apply list_elem_of_here.
    - right. by apply list_elem_of_further. }
  destruct (Hall _ Hrun) as [Hin|]; [|done]. by apply not_elem_of_nil in Hin.
Qed.
End theorems.

(** ** Witnesses *)

(** Two calls race for a window of one; the loser is busy, the winner's result
    arrives, and an unknown result is ignored. *)
Definition demo_actions : list (Action string) :=
  [ALoad 1 1; ALoad 2 1; ACas 1 false; ACas 2 false; ACas 2 false; AInsert 1 77;
   ARemove 99 "foreign"; ARemove 77 "ok"; AReceive 1; ARelease].

Lemma window_is_bounded_and_leak_free_witness :
  ∃ w, run_actions demo_actions DispatchWindow_new = Some w ∧
    calls w !! 2%nat = Some (CDone None Busy) ∧
    Z.of_nat (size (pending w)) ≤ in_flight w ≤ 1 ∧ is_idle w = true.
Proof.
  destruct (run_actions demo_actions DispatchWindow_new) as [w|] eqn:Hrun;
    [|vm_compute in Hrun; discriminate Hrun].
  exists w. split; [reflexivity|].
  assert (Forall (action_limit 1) demo_actions) as Hlim
    by (repeat (apply Forall_cons; split; [cbn; done|]); apply Forall_nil; done).
  destruct (window_is_bounded_and_leak_free 1 demo_actions w
    (conj (Z.le_0_1 : 0 ≤ 1) (eq_refl : 1 < 2 ^ 64)) Hlim Hrun) as (_ & H2 & _).
  vm_compute in Hrun. injection Hrun as <-.
  split; [reflexivity|]. split; [exact H2|reflexivity].
Defined.

Lemma results_are_correlated_witness :
  ∃ w, run_actions demo_actions DispatchWindow_new = Some w ∧
    calls w !! 1%nat = Some (CDone (Some 77) (Result "ok")) ∧ ARemove 77 "ok" ∈ demo_actions.
Proof.
  destruct (run_actions demo_actions DispatchWindow_new) as [w|] eqn:Hrun;
    [|vm_compute in Hrun; discriminate Hrun].
  exists w. split; [reflexivity|].
  assert (calls w !! 1%nat = Some (CDone (Some 77) (Result "ok"))) as Hc
    by (vm_compute in Hrun; injection Hrun as <-; reflexivity).
  split; [exact Hc|]. exact (results_are_correlated demo_actions w 1%nat 77 "ok" Hrun Hc).
Defined.
