(* ===== verification/ExtensionProcess.v ===== *)
(** * ExtensionProcess: finding, starting, registering and stopping extensions

    [crates/whdr-server/src/extension_process.rs] and
    [extension_registration.rs].  The directory listings, the child process and
    its standard output are what the program observes of them. *)

From S2P Require Import Prelude.
From S2P Require Import Text.
From S2P Require Import Messages.

Local Open Scope Z_scope.

(** ** Discovery *)

(** A directory of PATH as [fs::read_dir] and [is_executable] see it: [None]
    when it cannot be read, else its entries, with [None] for a name that is
    not UTF-8. *)
Record DirEntry : Type := MkDirEntry { file_name : option string; is_executable : bool }.
Record PathDir : Type := MkPathDir { dir_path : string; entries : option (list DirEntry) }.

Definition entry_path (dir : PathDir) (name : string) : string :=
  dir_path dir +:+ "/" +:+ name.

(** The body of the entry loop. *)
Definition discover_entry (dir : PathDir) (found : gmap string string) (entry : DirEntry)
    : gmap string string :=
  match file_name entry with
  | None => found
  | Some name =>
      match strip_prefix "whdr-ext-" name with
      | None => found
      | Some id =>
          if is_empty id || negb (is_executable entry) then found
          else match found !! id with
               | Some _ => found
               | None => <[id := entry_path dir name]> found
               end
      end
  end.

Definition discover_dir (found : gmap string string) (dir : PathDir) : gmap string string :=
  match entries dir with
  | None => found
  | Some es => foldl (discover_entry dir) found es
  end.

(** [discover_extensions]; [None] is an unset PATH.  The caller collects the
    pairs into a map again. *)
Definition discover_extensions (path_var : option (list PathDir)) : gmap string string :=
  match path_var with
  | None => ∅
  | Some dirs => foldl discover_dir ∅ dirs
  end.

(** ** Registration *)

Record ExtensionRegistration : Type := MkExtensionRegistration {
  er_id : string;
  er_paths : list string;
  er_channels : list string
}.

(** [time::timeout(.., lines.next_line())]. *)
Inductive FirstLine : Type :=
  | LineTimeout
  | LineIoError (err : string)
  | LineEof
  | LineText (line : string).

Section registration.
Context {W : Wire ExtMsg}.
(** The derived [Debug] rendering of a message. *)
Context (debug : ExtMsg → string).

Definition read_registration (candidate_id : string) (first_line : FirstLine)
    : result string ExtensionRegistration :=
  line ← match first_line with
         | LineTimeout => Err "extension register timeout"
         | LineIoError err => Err err
         | LineEof => Err "extension exited before register"
         | LineText line => Ok line
         end;
  msg ← map_err NdjsonError_to_string (decode_line line);
  match msg with
  | Some (Register protocol id paths channels _) =>
      if negb (protocol =? PROTOCOL_VERSION)
      then Err ("unsupported protocol version " +:+ pretty protocol)
      else Ok (MkExtensionRegistration (default candidate_id id) paths channels)
  | Some other => Err ("expected register, got " +:+ debug other)
  | None => Err "blank register line"
  end.
End registration.

(** ** Stopping *)

(** What [time::timeout(grace, child.wait())] returns. *)
Inductive Waited : Type := WaitExited | WaitFailed | WaitElapsed.

(** What is done to the child: [SIGTERM], [SIGKILL] ([start_kill]), or the final
    unbounded [wait]. *)
Inductive ChildAction : Type := SigTerm | SigKill | Reap.

(** [terminate_child]: [has_pid] is [child.id()], [kill_ok] the return code of
    [libc::kill]. *)
Definition terminate_child (has_pid kill_ok : bool) : list ChildAction :=
  if has_pid then if kill_ok then [SigTerm] else [SigTerm; SigKill] else [SigKill].

Definition term_grace (term_grace_ms : Z) : Z := Z.max term_grace_ms 1.

(** [wait_for_child_shutdown]: the actions on the child and the milliseconds
    the timed waits can take, given how its two waits end. *)
Definition wait_for_child_shutdown (term_grace_ms : Z) (has_pid kill_ok : bool)
    (first second : Waited) : list ChildAction * Z :=
  let grace := term_grace term_grace_ms in
  match first with
  | WaitExited | WaitFailed => ([], grace)
  | WaitElapsed =>
      match second with
      | WaitExited | WaitFailed => (terminate_child has_pid kill_ok, grace + grace)
      | WaitElapsed => (terminate_child has_pid kill_ok ++ [SigKill; Reap], grace + grace)
      end
  end.

(** ** Specification of discovery *)

(** The executables PATH offers for an id, in search order. *)
Definition entry_offers (id : string) (dir : PathDir) (entry : DirEntry) : option string :=
  match file_name entry with
  | Some name =>
      if bool_decide (name = "whdr-ext-" +:+ id) && negb (is_empty id) && is_executable entry
      then Some (entry_path dir name) else None
  | None => None
  end.
Definition dir_offers (id : string) (dir : PathDir) : list string :=
  omap (entry_offers id dir) (default [] (entries dir)).
Definition path_offers (id : string) (dirs : list PathDir) : list string :=
  dirs ≫= dir_offers id.

(** ** Lemmas *)

Definition or_else {A} (o : option A) (l : list A) : option A :=
  match o with Some a => Some a | None => head l end.

Lemma or_else_app {A} (o : option A) l1 l2 :
  or_else (or_else o l1) l2 = or_else o (l1 ++ l2).
Proof. destruct o; [done|]. by destruct l1. Qed.

Lemma discover_entry_lookup dir found entry id :
  discover_entry dir found entry !! id =
  or_else (found !! id) (option_list (entry_offers id dir entry)).
Proof.
  assert (∀ m : option string, m = or_else m []) as Hnil by (by intros [?|]).
  unfold discover_entry, entry_offers. destruct (file_name entry) as [name|]; [|apply Hnil].
  destruct (strip_prefix "whdr-ext-" name) as [id'|] eqn:Hp.
  - apply strip_prefix_Some in Hp as ->. destruct (decide (id' = id)) as [->|Hne].
    + rewrite (bool_decide_eq_true_2 (_ = _)) by done. cbn [andb].
      destruct (is_empty id), (is_executable entry); try apply Hnil; cbn -[lookup].
      destruct (found !! id) eqn:Hf; [by rewrite Hf|]. rewrite lookup_insert_eq. done.
    + rewrite (bool_decide_eq_false_2 (_ = _)).
      2:{ intros Heq. apply Hne. by simplify_eq. }
      cbn [andb option_list]. rewrite <- Hnil. destruct (_ || _); [done|].
      destruct (found !! id'); [done|]. by rewrite lookup_insert_ne.
  - rewrite bool_decide_eq_false_2; [apply Hnil|]. intros ->.
    by rewrite (proj2 (strip_prefix_Some _ _ id)) in Hp.
Qed.

Lemma discover_dir_lookup dir found id :
  discover_dir found dir !! id = or_else (found !! id) (dir_offers id dir).
Proof.
  unfold discover_dir, dir_offers. destruct (entries dir) as [es|]; cbn [default].
  2:{ by destruct (found !! id). }
  revert found. induction es as [|e es IH]; intros found; cbn [foldl].
  { by destruct (found !! id). }
  rewrite IH, discover_entry_lookup, or_else_app. f_equal.
  unfold Datatypes.id. simpl. by destruct (entry_offers id dir e).
Qed.

Lemma discover_dirs_lookup dirs found id :
  foldl discover_dir found dirs !! id = or_else (found !! id) (path_offers id dirs).
Proof.
  revert found. induction dirs as [|d dirs IH]; intros found; cbn [foldl].
  { by destruct (found !! id). }
  by rewrite IH, discover_dir_lookup, or_else_app.
Qed.

(** ** Theorems *)

(** An id resolves to the first executable of that name in PATH order. *)
Theorem discover_extensions_first dirs id :
  discover_extensions (Some dirs) !! id = head (path_offers id dirs).
Proof. unfold discover_extensions. by rewrite discover_dirs_lookup, lookup_empty. Qed.

(** A child is only signalled after a full grace period, killed outright only
    after a second, and the timed waits take at most two. *)
Theorem shutdown_escalates ms has_pid kill_ok first second acts t :
  wait_for_child_shutdown ms has_pid kill_ok first second = (acts, t) →
  (acts ≠ [] → first = WaitElapsed) ∧
  (Reap ∈ acts ↔ first = WaitElapsed ∧ second = WaitElapsed) ∧
  t ≤ 2 * term_grace ms.
Proof.
  unfold wait_for_child_shutdown, terminate_child, term_grace.
  destruct first, second, has_pid, kill_ok; intros [= <- <-];
    (split; [done|]); (split; [|lia]); rewrite ?elem_of_app, ?elem_of_cons, ?elem_of_nil;
    intuition discriminate.
Qed.
