(* ===== verification/AppState.v ===== *)
(** * AppState: the daemon's shared state and its critical sections

    [crates/whdr-server/src/daemon.rs], the state [Inner] behind [AppState] and
    what each lock-protected section does to it: registration, unrouting,
    clean-up of a generation, the back-off policy of the supervisor, the lookup
    of a dispatch and the (re)start of the configured extensions.  Supervision.v
    interleaves these sections; here each is a function on the state.  Instants
    and durations are in nanoseconds. *)

From S2P Require Import Prelude.
From S2P Require Import Text.
From S2P Require Import Messages.
From S2P Require Import OutboundQueue.
From S2P Require Import Config.
From S2P Require Import DeliveryLog.
From S2P Require Import ChannelClaims.
From S2P Require Import Subscribers.
From S2P Require Import TokenStore.
From S2P Require Import ExtensionProcess.

Local Open Scope Z_scope.

(** ** Data *)

Definition INITIAL_RESPAWN_BACKOFF_MS : Z := 250.
Definition MAX_RESPAWN_BACKOFF_MS : Z := 30000.

Definition ms (n : Z) : Z := n * 1000000.

(** The immutable part of an [ExtHandle]. *)
Record ExtHandle : Type := MkExtHandle {
  candidate_id : string;
  h_id : string;
  generation : Uuid;
  h_path : string;
  h_paths : list string;
  h_channels : list string;
  h_pid : option Z
}.

(** The atomics an [ExtHandle] shares with the reader task and with every clone
    of the handle; [last_event_at] is the cell of [EventStats]. *)
Record Counters : Type := MkCounters {
  protocol_errors : Z;
  namespace_violations : Z;
  consecutive_timeouts : Z;
  c_restarts : Z;
  emitted : Z;
  last_event_at : Z
}.

Record SupervisorState : Type := MkSupervisorState {
  restarts : Z;
  recent_exits : list Z
}.
Definition SupervisorState_default : SupervisorState := MkSupervisorState 0 [].

Inductive DispatchError : Type := Busy | Starting | DispatchTimeout | Dead | NotFound.

#[global] Instance ExtHandle_eq_dec : EqDecision ExtHandle.
Proof. solve_decision. Defined.
#[global] Instance DispatchError_eq_dec : EqDecision DispatchError.
Proof. solve_decision. Defined.

(** [Inner]; [i_counters] holds the shared atomics by generation. *)
Record Inner (Db : Type) : Type := MkInner {
  i_config : Config;
  i_token_store : TokenStore;
  i_routes : gmap string string;
  i_unavailable : gmap string string;
  i_prefixes : gmap string string;
  i_extensions : gmap string ExtHandle;
  i_counters : gmap Uuid Counters;
  i_failed : gmap string string;
  i_subscribers : Registry Db;
  i_supervisor : gmap string SupervisorState;
  i_shutting_down : bool;
  i_started : Z
}.
Arguments MkInner {Db}.
Arguments i_config {Db}.
Arguments i_token_store {Db}.
Arguments i_routes {Db}.
Arguments i_unavailable {Db}.
Arguments i_prefixes {Db}.
Arguments i_extensions {Db}.
Arguments i_counters {Db}.
Arguments i_failed {Db}.
Arguments i_subscribers {Db}.
Arguments i_supervisor {Db}.
Arguments i_shutting_down {Db}.
Arguments i_started {Db}.

Section setters.
Context {Db : Type}.
Implicit Types st : Inner Db.

Definition set_config (c : Config) (ts : TokenStore) st : Inner Db :=
  MkInner c ts (i_routes st) (i_unavailable st) (i_prefixes st) (i_extensions st)
    (i_counters st) (i_failed st) (i_subscribers st) (i_supervisor st) (i_shutting_down st)
    (i_started st).
Definition on_routes (f : gmap string string → gmap string string) st : Inner Db :=
  MkInner (i_config st) (i_token_store st) (f (i_routes st)) (i_unavailable st) (i_prefixes st)
    (i_extensions st) (i_counters st) (i_failed st) (i_subscribers st) (i_supervisor st)
    (i_shutting_down st) (i_started st).
Definition on_unavailable (f : gmap string string → gmap string string) st : Inner Db :=
  MkInner (i_config st) (i_token_store st) (i_routes st) (f (i_unavailable st)) (i_prefixes st)
    (i_extensions st) (i_counters st) (i_failed st) (i_subscribers st) (i_supervisor st)
    (i_shutting_down st) (i_started st).
Definition on_prefixes (f : gmap string string → gmap string string) st : Inner Db :=
  MkInner (i_config st) (i_token_store st) (i_routes st) (i_unavailable st) (f (i_prefixes st))
    (i_extensions st) (i_counters st) (i_failed st) (i_subscribers st) (i_supervisor st)
    (i_shutting_down st) (i_started st).
Definition on_extensions (f : gmap string ExtHandle → gmap string ExtHandle) st : Inner Db :=
  MkInner (i_config st) (i_token_store st) (i_routes st) (i_unavailable st) (i_prefixes st)
    (f (i_extensions st)) (i_counters st) (i_failed st) (i_subscribers st) (i_supervisor st)
    (i_shutting_down st) (i_started st).
Definition on_counters (f : gmap Uuid Counters → gmap Uuid Counters) st : Inner Db :=
  MkInner (i_config st) (i_token_store st) (i_routes st) (i_unavailable st) (i_prefixes st)
    (i_extensions st) (f (i_counters st)) (i_failed st) (i_subscribers st) (i_supervisor st)
    (i_shutting_down st) (i_started st).
Definition on_failed (f : gmap string string → gmap string string) st : Inner Db :=
  MkInner (i_config st) (i_token_store st) (i_routes st) (i_unavailable st) (i_prefixes st)
    (i_extensions st) (i_counters st) (f (i_failed st)) (i_subscribers st) (i_supervisor st)
    (i_shutting_down st) (i_started st).
Definition on_supervisor (f : gmap string SupervisorState → gmap string SupervisorState) st
    : Inner Db :=
  MkInner (i_config st) (i_token_store st) (i_routes st) (i_unavailable st) (i_prefixes st)
    (i_extensions st) (i_counters st) (i_failed st) (i_subscribers st) (f (i_supervisor st))
    (i_shutting_down st) (i_started st).
Definition begin_shutdown st : Inner Db :=
  MkInner (i_config st) (i_token_store st) (i_routes st) (i_unavailable st) (i_prefixes st)
    (i_extensions st) (i_counters st) (i_failed st) (i_subscribers st) (i_supervisor st)
    true (i_started st).
End setters.

(** ** Operations *)

Section app_state.
Context {Db : Type} `{HashOrder}.
Implicit Types st : Inner Db.

(** [AppState::new]; [load] is [TokenStore::load_or_empty] and [open] is
    [DeliveryLog::open]. *)
Definition AppState_new (load : string → result string TokenStore)
    (open : DeliveryConfig → result string (Shared Db)) (started : Z) (config : Config)
    : result string (Inner Db) :=
  _ ← validate config;
  token_store ← load (token_store_path config);
  subscribers ← (if delivery_enabled (delivery config)
                 then log ← open (delivery config); Ok (with_delivery log)
                 else Ok SubscriberRegistry_new);
  Ok (MkInner config token_store ∅ ∅ ∅ ∅ ∅ ∅ subscribers ∅ false started).

(** *** Registration *)

(** Some registered extension was started from the candidate. *)
Definition extension_candidate_is_active (cand : string) st : bool :=
  existsb (λ kv : string * ExtHandle, String.eqb (candidate_id kv.2) cand)
    (hash_iter (i_extensions st)).

Definition restart_count (cand : string) st : Z :=
  match i_supervisor st !! cand with Some s => restarts s | None => 0 end.

Definition fresh_counters (cand : string) st : Counters :=
  MkCounters 0 0 0 (restart_count cand st) 0 0.

(** The critical section of [start_extension] under the three write locks. *)
Definition register_extension (handle : ExtHandle) st : result string (Inner Db) :=
  let id := h_id handle in
  if bool_decide (is_Some (i_extensions st !! id))
  then Err ("extension collision: " +:+ id +:+ " is already running")
  else if extension_candidate_is_active (candidate_id handle) st
  then Err ("extension collision: " +:+ candidate_id handle +:+ " is already running")
  else
    _ ← validate_registration_claims id (h_paths handle) (h_channels handle)
          (i_routes st) (i_prefixes st);
    Ok (on_extensions (insert id handle)
       (on_counters (insert (generation handle) (fresh_counters (candidate_id handle) st))
       (on_routes (insert_all id (h_paths handle))
       (on_prefixes (insert_all id (h_channels handle)) st)))).

(** The sections after it: no longer failed, no longer unavailable. *)
Definition clear_failed (handle : ExtHandle) st : Inner Db :=
  on_failed (λ m, delete (h_id handle) (delete (candidate_id handle) m)) st.

(** [for key in keys { map.remove(key) }]. *)
Definition remove_all {V} (keys : list string) (m : gmap string V) : gmap string V :=
  foldl (λ m k, delete k m) m keys.

Definition clear_unavailable (handle : ExtHandle) st : Inner Db :=
  on_unavailable (λ m, remove_all (h_paths handle) (delete (candidate_id handle) m)) st.

(** The handle [start_extension] builds from a registration. *)
Definition handle_of (cand path : string) (gen : Uuid) (pid : option Z)
    (r : ExtensionRegistration) : ExtHandle :=
  MkExtHandle cand (er_id r) gen path (er_id r :: er_paths r) (er_channels r) pid.

(** [start_extension]; [launched] is what [spawn_extension_process] and
    [read_registration] return.  On an error the child is killed. *)
Definition start_extension (gen : Uuid)
    (launched : result string (option Z * ExtensionRegistration)) (cand path : string) st
    : result string () * Inner Db :=
  match launched with
  | Err e => (Err e, st)
  | Ok (pid, registration) =>
      let handle := handle_of cand path gen pid registration in
      match register_extension handle st with
      | Err e => (Err e, st)
      | Ok st' => (Ok (), clear_unavailable handle (clear_failed handle st'))
      end
  end.

(** *** Unrouting and clean-up *)

Definition unroute_extension (handle : ExtHandle) st : Inner Db :=
  clear_unavailable handle
    (on_prefixes (retain_others (h_id handle)) (on_routes (retain_others (h_id handle)) st)).

(** [extension_handle]. *)
Definition extension_handle (id : string) (gen : Uuid) st : option ExtHandle :=
  handle ← i_extensions st !! id;
  if generation handle =? gen then Some handle else None.

Definition extension_is_active (id : string) (gen : Uuid) st : bool :=
  match i_extensions st !! id with Some h => generation h =? gen | None => false end.

(** The first section of [cleanup_extension_generation]. *)
Definition remove_generation (id : string) (gen : Uuid) st : option ExtHandle * Inner Db :=
  match extension_handle id gen st with
  | Some handle => (Some handle, on_extensions (delete id) st)
  | None => (None, st)
  end.

(** [for key in keys { map.insert(key, value) }]. *)
Definition insert_each (value : string) (keys : list string) (m : gmap string string)
    : gmap string string :=
  insert_all value keys m.

(** The last section of [cleanup_extension_generation]. *)
Definition mark_or_clear (handle : ExtHandle) (reason : string) (mark_unavailable : bool) st
    : Inner Db :=
  if mark_unavailable
  then on_unavailable (λ m, insert_each reason (h_paths handle)
                              (<[candidate_id handle := reason]> m)) st
  else clear_unavailable handle st.

(** [cleanup_extension_generation], run without interruption (the dispatch
    window it clears is in DispatchWindow.v). *)
Definition cleanup_extension_generation (id : string) (gen : Uuid) (reason : string)
    (mark_unavailable : bool) st : option ExtHandle * Inner Db :=
  match remove_generation id gen st with
  | (Some handle, st') =>
      (Some handle, mark_or_clear handle reason mark_unavailable (unroute_extension handle st'))
  | (None, st') => (None, st')
  end.

(** *** The supervisor's policy *)

Definition should_respawn (cand : string) st : bool :=
  if i_shutting_down st then false
  else if bool_decide (is_Some (i_failed st !! cand)) then false
  else autostart_all (extensions (i_config st))
       || existsb (λ wanted, String.eqb wanted cand) (enabled (extensions (i_config st))).

(** [while front.is_some_and(|exit| now.duration_since(exit) > window)
    { pop_front() }]; [duration_since] saturates at zero. *)
Definition forget_old_exits (now window : Z) (exits : list Z) : list Z :=
  drop_while (λ exit, window <? Z.max (now - exit) 0) exits.

Definition crashloop_threshold_of (l : LimitsConfig) : Z := Z.max (crashloop_threshold l) 1.
Definition crashloop_window_of (l : LimitsConfig) : Z := ms (Z.max (crashloop_window_ms l) 1).

Definition backoff_ms (restarts : Z) : Z :=
  Z.min (saturating_mul INITIAL_RESPAWN_BACKOFF_MS (Z.shiftl 1 (Z.min restarts 7)))
    MAX_RESPAWN_BACKOFF_MS.

(** [next_respawn_delay] on the supervisor entry of one candidate: the delay, or
    [None] for a crash loop. *)
Definition respawn_policy (limits : LimitsConfig) (now : Z) (s : SupervisorState)
    : option Z * SupervisorState :=
  let threshold := crashloop_threshold_of limits in
  let exits := forget_old_exits now (crashloop_window_of limits) (recent_exits s) ++ [now] in
  if threshold <=? len exits
  then (None, MkSupervisorState (restarts s) exits)
  else (Some (ms (backoff_ms (restarts s))),
        MkSupervisorState (wrap64 (restarts s + 1)) exits).

Definition crashloop_reason (limits : LimitsConfig) : string :=
  "extension entered crashloop: " +:+ pretty (crashloop_threshold_of limits)
    +:+ " exits within " +:+ pretty (Z.max (crashloop_window_ms limits) 1) +:+ "ms".

(** [map.entry(key).or_insert(value)]. *)
Definition or_insert {V} (key : string) (value : V) (m : gmap string V) : gmap string V :=
  match m !! key with Some _ => m | None => <[key := value]> m end.

Definition next_respawn_delay (now : Z) (cand : string) st : option Z * Inner Db :=
  let limits := limits (i_config st) in
  let '(delay, s) :=
    respawn_policy limits now (default SupervisorState_default (i_supervisor st !! cand)) in
  let st1 := on_supervisor (insert cand s) st in
  match delay with
  | Some d => (Some d, st1)
  | None =>
      let reason := crashloop_reason limits in
      (None, on_unavailable (or_insert cand reason) (on_failed (insert cand reason) st1))
  end.

(** *** Dispatch lookup *)

(** The part of [AppState::dispatch] before the handle is called. *)
Definition dispatch_lookup (route_key : string) st : result DispatchError ExtHandle :=
  match i_routes st !! route_key with
  | None =>
      if existsb (λ id, String.eqb id route_key) (enabled (extensions (i_config st)))
         || bool_decide (is_Some (i_unavailable st !! route_key))
         || bool_decide (is_Some (i_failed st !! route_key))
      then Err Starting else Err NotFound
  | Some ext_id => ok_or Starting (i_extensions st !! ext_id)
  end.

(** *** Starting the configured extensions *)

(** [candidate_map.remove(id).map(|path| (id, path))] over [enabled], collected
    into a map. *)
Definition take_enabled (enabled : list string) (candidates : gmap string string)
    : gmap string string :=
  (foldl (λ acc id,
     match acc.2 !! id with
     | Some path => (<[id := path]> acc.1, delete id acc.2)
     | None => acc
     end) (∅, candidates) enabled).1.

Definition desired_extensions (cfg : Config) (candidates : gmap string string)
    : gmap string string :=
  if autostart_all (extensions cfg) then candidates
  else take_enabled (enabled (extensions cfg)) candidates.

(** [stop_removed_extensions]: the handles told to drain (each is sent
    [DrainStop]), and the state with them unrouted. *)
Definition stop_step (desired : gmap string string) (acc : list ExtHandle * Inner Db)
    (kv : string * ExtHandle) : list ExtHandle * Inner Db :=
  if bool_decide (is_Some (desired !! candidate_id kv.2)) then acc
  else (acc.1 ++ [kv.2], unroute_extension kv.2 acc.2).

Definition stop_removed_extensions (desired : gmap string string) st
    : list ExtHandle * Inner Db :=
  foldl (stop_step desired) ([], st) (hash_iter (i_extensions st)).

Definition mark_failed (cand reason : string) st : Inner Db :=
  on_unavailable (insert cand reason) (on_failed (insert cand reason) st).

Definition note_missing (desired : gmap string string) st (wanted : string) : Inner Db :=
  if extension_candidate_is_active wanted st then st
  else if bool_decide (is_Some (desired !! wanted)) then st
  else mark_failed wanted "extension binary not found on PATH" st.

(** The result of a (re)start is recorded. *)
Definition record_start (cand : string) (r : result string () * Inner Db) : Inner Db :=
  match r with
  | (Ok _, st) => on_failed (delete cand) st
  | (Err e, st) => mark_failed cand e st
  end.

(** The environment of the starts: a fresh generation and the launched process
    for each candidate. *)
Record Launcher : Type := MkLauncher {
  new_generation : string → Uuid;
  launch : string → string → result string (option Z * ExtensionRegistration)
}.

Definition start_candidate (l : Launcher) st (kv : string * string) : Inner Db :=
  let '(cand, path) := kv in
  if extension_candidate_is_active cand st then st
  else record_start cand (start_extension (new_generation l cand) (launch l cand path) cand path st).

(** [start_extensions], run without interruption: the handles told to stop and
    the state. *)
Definition start_extensions (l : Launcher) (candidates : gmap string string) st
    : list ExtHandle * Inner Db :=
  let desired := desired_extensions (i_config st) candidates in
  let '(stopped, st1) := stop_removed_extensions desired st in
  let st2 := foldl (note_missing desired) st1 (enabled (extensions (i_config st))) in
  (stopped, foldl (start_candidate l) st2 (hash_iter desired)).

(** [reload_from_path]: [load_cfg] is [Config::load] of the path, [load] is
    [TokenStore::load_or_empty]. *)
Definition reload_from_path (load_cfg : result string Config)
    (load : string → result string TokenStore) (l : Launcher) (candidates : gmap string string)
    st (heap : Heap) : result string (list ExtHandle) * Inner Db * Heap :=
  match load_cfg with
  | Err e => (Err e, st, heap)
  | Ok config =>
      match load (token_store_path config) with
      | Err e => (Err e, st, heap)
      | Ok token_store =>
          let invalidated := invalidated_names (i_token_store st) token_store in
          let st1 := set_config config token_store st in
          let heap1 :=
            foldl (λ h name, close_named name ReasonRevoked (i_subscribers st1) h)
              heap invalidated in
          let '(stopped, st2) := start_extensions l candidates st1 in
          (Ok stopped, st2, heap1)
      end
  end.

(** [send_shutdown_to_extensions]: how long each drain is waited for. *)
Definition shutdown_wait_ms (t : TimeoutsConfig) : Z :=
  Z.max (saturating_add (saturating_add (drain_ms t) (saturating_mul (term_grace_ms t) 2)) 100) 1.
End app_state.

(** ** Specification *)

(** Some section of the state keeps the registry of extensions well formed: a
    handle is filed under its own id, claims its id, and no two come from one
    candidate; routes and prefixes of different owners are kept apart; an owner
    of any route owns the route of its id; and a registered extension's routes
    are among its claims. *)
Record registry_ok {Db} (st : Inner Db) : Prop := {
  filed id h : i_extensions st !! id = Some h → h_id h = id ∧ id ∈ h_paths h;
  one_per_candidate id1 h1 id2 h2 :
    i_extensions st !! id1 = Some h1 → i_extensions st !! id2 = Some h2 →
    candidate_id h1 = candidate_id h2 → id1 = id2;
  kept_apart : namespaces_exclusive (i_routes st) (i_prefixes st);
  owners_hold_their_id claim o :
    i_routes st !! claim = Some o → i_routes st !! o = Some o;
  routes_are_claims claim o h :
    i_routes st !! claim = Some o → i_extensions st !! o = Some h → claim ∈ h_paths h
}.

(** A run of the supervisor's policy over the exits of one candidate. *)
Fixpoint exits_run (limits : LimitsConfig) (exits : list Z) (s : SupervisorState)
    : list (option Z) * SupervisorState :=
  match exits with
  | [] => ([], s)
  | now :: rest =>
      let '(d, s1) := respawn_policy limits now s in
      let '(ds, s2) := exits_run limits rest s1 in
      (d :: ds, s2)
  end.

(** ** Lemmas *)

(** *** Registration *)

Section registry_lemmas.
Context {Db : Type} `{HashOrder}.
Implicit Types st : Inner Db.

Lemma candidate_is_active_true cand st :
  extension_candidate_is_active cand st = true ↔
  ∃ id h, i_extensions st !! id = Some h ∧ candidate_id h = cand.
Proof.
  unfold extension_candidate_is_active. rewrite existsb_exists. split.
  - intros ([id h] & Hin & Heq%String.eqb_eq). exists id, h. split; [|done].
    by rewrite <- elem_of_hash_iter, list_elem_of_In.
  - intros (id & h & Hl & <-). exists (id, h). rewrite String.eqb_eq. split; [|done].
    by rewrite <- list_elem_of_In, elem_of_hash_iter.
Qed.

Lemma candidate_is_active_false cand st :
  extension_candidate_is_active cand st = false ↔
  ∀ id h, i_extensions st !! id = Some h → candidate_id h ≠ cand.
Proof. rewrite <- not_true_iff_false, candidate_is_active_true. naive_solver. Qed.

(** What a successful registration checked and did. *)
Lemma register_extension_Ok handle st st' :
  register_extension handle st = Ok st' ↔
  i_extensions st !! h_id handle = None ∧
  (∀ id h, i_extensions st !! id = Some h → candidate_id h ≠ candidate_id handle) ∧
  registration_ok (h_id handle) (h_paths handle) (h_channels handle)
    (i_routes st) (i_prefixes st) ∧
  st' = on_extensions (insert (h_id handle) handle)
       (on_counters (insert (generation handle) (fresh_counters (candidate_id handle) st))
       (on_routes (insert_all (h_id handle) (h_paths handle))
       (on_prefixes (insert_all (h_id handle) (h_channels handle)) st))).
Proof.
  unfold register_extension. rewrite <- candidate_is_active_false, <- validate_registration_Ok.
  case_bool_decide as Hid.
  { split; [done|]. intros (Hn & _). rewrite Hn in Hid. by destruct Hid. }
  apply eq_None_not_Some in Hid. destruct (extension_candidate_is_active _ _); [by intuition|].
  rewrite result_bind_Ok. split.
  - intros ([] & Hv & [= <-]). auto.
  - intros (_ & _ & Hv & ->). by exists ().
Qed.

Lemma retain_others_lookup id m k o :
  retain_others id m !! k = Some o ↔ m !! k = Some o ∧ o ≠ id.
Proof. unfold retain_others. by rewrite map_lookup_filter_Some. Qed.

Lemma registry_ok_register handle st st' :
  registry_ok st → h_id handle ∈ h_paths handle → register_extension handle st = Ok st' →
  registry_ok st'.
Proof.
  intros Hok Hself (Hid & Hcand & Hreg & ->)%register_extension_Ok.
  assert (i_routes st !! h_id handle = None) as Hfree by by eapply claims_free.
  assert (∀ claim, i_routes st !! claim ≠ Some (h_id handle)) as Hnone.
  { intros claim Hc. apply (owners_hold_their_id _ Hok) in Hc. congruence. }
  split; simpl.
  - intros id h. rewrite lookup_insert_Some. intros [[<- <-]|[_ Hl]]; [done|]. by apply Hok.
  - intros id1 h1 id2 h2. rewrite !lookup_insert_Some.
    intros [[<- <-]|[_ H1]] [[<- <-]|[_ H2]] Heq; [done| | |by eapply Hok].
    + by apply Hcand in H2.
    + by apply Hcand in H1.
  - apply exclusive_insert; [apply Hok|done].
  - intros claim o. rewrite !insert_all_lookup. repeat case_decide; intros Hl; simplify_eq; try done.
    + apply (owners_hold_their_id _ Hok) in Hl. exfalso. by rewrite (claims_free _ _ _ _ _ Hreg) in Hl.
    + by apply (owners_hold_their_id _ Hok) in Hl.
  - intros claim o h. rewrite insert_all_lookup, lookup_insert_Some.
    case_decide; intros Hl [[<- <-]|[Hne Hx]]; simplify_eq; try done.
    + by apply Hnone in Hl.
    + by eapply routes_are_claims.
Qed.

Lemma registry_ok_unroute_routes id st :
  registry_ok st → registry_ok (on_routes (retain_others id) st).
Proof.
  intros Hok. split; simpl; try apply Hok.
  - destruct (kept_apart _ Hok) as [Hp Hc]. split; [done|]. intros ????.
    rewrite retain_others_lookup. intros [? _]. eauto.
  - intros claim o. rewrite !retain_others_lookup. intros [Hl Hne]. split; [|done].
    by eapply owners_hold_their_id.
  - intros claim o h. rewrite retain_others_lookup. intros [Hl _]. by apply routes_are_claims.
Qed.

Lemma registry_ok_unroute_prefixes id st :
  registry_ok st → registry_ok (on_prefixes (retain_others id) st).
Proof.
  intros Hok. split; simpl; try apply Hok.
  destruct (kept_apart _ Hok) as [Hp Hc]. split.
  - intros p1 o1 p2 o2. rewrite !retain_others_lookup. intros [? _] [? _]. eauto.
  - intros claim o1 p o2. rewrite retain_others_lookup. intros ? [? _]. eauto.
Qed.

Lemma registry_ok_delete id st :
  registry_ok st → registry_ok (on_extensions (delete id) st).
Proof.
  intros Hok. split; simpl; try apply Hok.
  - intros id' h. rewrite lookup_delete_Some. intros [_ Hl]. by apply Hok.
  - intros id1 h1 id2 h2. rewrite !lookup_delete_Some. intros [_ H1] [_ H2]. by eapply Hok.
  - intros claim o h. rewrite lookup_delete_Some. intros Hl [_ Hx]. by eapply routes_are_claims.
Qed.

(** The sections that touch none of the four maps of the registry. *)
Definition same_registry st st' : Prop :=
  i_extensions st' = i_extensions st ∧ i_routes st' = i_routes st ∧
  i_prefixes st' = i_prefixes st.

Lemma registry_ok_same st st' : same_registry st st' → registry_ok st → registry_ok st'.
Proof. intros (He & Hr & Hp) Hok. split; rewrite ?He, ?Hr, ?Hp; apply Hok. Qed.

Lemma registry_ok_remove_generation id gen st o st' :
  registry_ok st → remove_generation id gen st = (o, st') → registry_ok st'.
Proof.
  unfold remove_generation. intros Hok. destruct (extension_handle _ _ _); intros [= <- <-];
    [by apply registry_ok_delete|done].
Qed.

Lemma extension_handle_Some id gen st h :
  extension_handle id gen st = Some h ↔ i_extensions st !! id = Some h ∧ generation h = gen.
Proof.
  unfold extension_handle. destruct (i_extensions st !! id) as [h'|]; simpl; [|naive_solver].
  destruct (Z.eqb_spec (generation h') gen); naive_solver.
Qed.

Lemma lookup_remove_all {V} keys (m : gmap string V) k :
  remove_all keys m !! k = if decide (k ∈ keys) then None else m !! k.
Proof.
  unfold remove_all. revert m. induction keys as [|k' keys IH]; intros m; cbn [foldl]; [done|].
  rewrite IH, lookup_delete. repeat case_decide; set_solver.
Qed.
End registry_lemmas.

(** *** Respawn *)

Lemma drop_while_filter {A} (p : A → bool) (R : A → A → Prop) l :
  StronglySorted R l → (∀ x y, R x y → p y → p x) →
  drop_while p l = filter (λ x, ¬ p x) l.
Proof.
  intros Hs Hmono. induction Hs as [|x l _ IH Hall]; [done|]. cbn [drop_while].
  destruct (p x) eqn:Hp.
  - rewrite filter_cons_False by (rewrite Hp; simpl; tauto). done.
  - symmetry. apply filter_all. constructor; [rewrite Hp; simpl; tauto|].
    rewrite Forall_forall in Hall |- *. intros y Hy Hpy. specialize (Hmono x y (Hall y Hy) Hpy).
    by rewrite Hp in Hmono.
Qed.

(** The exits a decision at [now] counts. *)
Definition in_window (limits : LimitsConfig) (now exit : Z) : Prop :=
  now - exit ≤ crashloop_window_of limits.
#[global] Instance in_window_dec limits now exit : Decision (in_window limits now exit).
Proof. unfold in_window. apply _. Defined.

Lemma crashloop_window_pos limits : 0 < crashloop_window_of limits.
Proof. unfold crashloop_window_of, ms. lia. Qed.

Lemma forget_old_exits_spec limits now exits :
  StronglySorted Z.le exits → Forall (λ t, t ≤ now) exits →
  forget_old_exits now (crashloop_window_of limits) exits = filter (in_window limits now) exits.
Proof.
  intros Hs Hle. unfold forget_old_exits. pose proof (crashloop_window_pos limits).
  rewrite (drop_while_filter _ Z.le); [|done|].
  - apply list_filter_iff. intros t. unfold in_window. rewrite Is_true_true, Z.ltb_lt. lia.
  - intros x y Hxy Hy%Is_true_true%Z.ltb_lt. apply Is_true_true, Z.ltb_lt. lia.
Qed.

(** The run's invariant: the queue holds the exits still in the window of the
    last one, the counter is the number of respawns granted. *)
Definition granted (ds : list (option Z)) : Z := len (filter is_Some ds).

Lemma respawn_policy_spec limits now history s :
  StronglySorted Z.le history → Forall (λ t, t ≤ now) history →
  (∃ last, Forall (λ t, t ≤ last) history ∧ last ≤ now ∧
           recent_exits s = filter (in_window limits last) history) →
  respawn_policy limits now s =
    (if crashloop_threshold_of limits <=? len (filter (in_window limits now) (history ++ [now]))
     then None else Some (ms (backoff_ms (restarts s))),
     MkSupervisorState
       (if crashloop_threshold_of limits <=? len (filter (in_window limits now) (history ++ [now]))
        then restarts s else wrap64 (restarts s + 1))
       (filter (in_window limits now) (history ++ [now]))).
Proof.
  intros Hs Hle (last & Hlast & Hnow & Hrec). unfold respawn_policy.
  assert (forget_old_exits now (crashloop_window_of limits) (recent_exits s) ++ [now] =
          filter (in_window limits now) (history ++ [now])) as ->.
  { rewrite Hrec, forget_old_exits_spec, filter_app.
    - rewrite list_filter_filter. f_equal.
      + apply list_filter_iff. intros t. unfold in_window. lia.
      + symmetry. apply filter_all. constructor; [|done]. unfold in_window.
        pose proof (crashloop_window_pos limits). lia.
    - by apply StronglySorted_filter.
    - by apply Forall_filtered. }
  by destruct (_ <=? _).
Qed.

Lemma length_filter_impl {A} (P Q : A → Prop) `{∀ x, Decision (P x)} `{∀ x, Decision (Q x)} l :
  (∀ x, P x → Q x) → len (filter P l) ≤ len (filter Q l).
Proof.
  intros HPQ. induction l as [|x l IH]; [done|]. rewrite !filter_cons.
  repeat case_decide; rewrite ?len_cons; try lia. exfalso. auto.
Qed.

Lemma len_filter_fst {A B} (P : A → Prop) `{∀ x, Decision (P x)} (l : list (A * B)) :
  len (filter (λ p, P p.1) l) = len (filter P l.*1).
Proof.
  induction l as [|[x y] l IH]; [done|]. rewrite fmap_cons, !filter_cons. simpl.
  case_decide; rewrite ?len_cons; lia.
Qed.

(** The grants of a run in a time interval of the window's length. *)
Definition grants_from (limits : LimitsConfig) (a : Z) (pairs : list (Z * option Z))
    : list (Z * option Z) :=
  filter (λ p, is_Some p.2 ∧ a ≤ p.1 ≤ a + crashloop_window_of limits) pairs.

(** The policy's verdict on the exit at [now] after a run of [pairs]. *)
Definition verdict (limits : LimitsConfig) (pairs : list (Z * option Z)) (now : Z) : option Z :=
  if crashloop_threshold_of limits <=? len (filter (in_window limits now) (pairs.*1 ++ [now]))
  then None else Some (ms (backoff_ms (granted pairs.*2))).

Record policy_inv (limits : LimitsConfig) (pairs : list (Z * option Z)) (s : SupervisorState)
    : Prop := {
  pi_sorted : StronglySorted Z.le pairs.*1;
  pi_queue : ∃ last, Forall (λ t, t ≤ last) pairs.*1 ∧ (∀ now, Forall (λ t, t ≤ now) pairs.*1 →
      pairs ≠ [] → last ≤ now) ∧ recent_exits s = filter (in_window limits last) pairs.*1;
  pi_restarts : restarts s = granted pairs.*2;
  pi_rate a : len (grants_from limits a pairs) < crashloop_threshold_of limits
}.

Lemma granted_bound ds : 0 ≤ granted ds ≤ len ds.
Proof.
  unfold granted, len. pose proof (length_filter is_Some ds). lia.
Qed.

Lemma grants_after limits pairs now d a :
  (is_Some d → len (filter (in_window limits now) (pairs.*1 ++ [now])) < crashloop_threshold_of limits) →
  len (grants_from limits a pairs) < crashloop_threshold_of limits →
  Forall (λ t, t ≤ now) pairs.*1 →
  len (grants_from limits a (pairs ++ [(now, d)])) < crashloop_threshold_of limits.
Proof.
  intros Hcount Hrate Hle.
  destruct (decide (is_Some d ∧ a ≤ now ≤ a + crashloop_window_of limits)) as [[Hd Hin]|Hout].
  - eapply Z.le_lt_trans; [|apply (Hcount Hd)].
    transitivity (len (filter (λ p : Z * option Z, in_window limits now p.1) (pairs ++ [(now, d)]))).
    + apply length_filter_impl. intros p [_ Hp]. unfold in_window. lia.
    + by rewrite len_filter_fst, fmap_app.
  - unfold grants_from in *. rewrite filter_app, len_app, (filter_none _ [(now, d)]).
    + change (len []) with 0. lia.
    + constructor; [done|constructor].
Qed.

Lemma policy_inv_step limits pairs s now d s' :
  policy_inv limits pairs s → Forall (λ t, t ≤ now) pairs.*1 → len pairs < 2 ^ 64 - 1 →
  respawn_policy limits now s = (d, s') →
  d = verdict limits pairs now ∧ policy_inv limits (pairs ++ [(now, d)]) s'.
Proof.
  intros [Hs (last & Hlast & Hmin & Hrec) Hr Hrate] Hle Hlen Hstep.
  rewrite (respawn_policy_spec limits now pairs.*1) in Hstep; [|done|done|].
  2:{ destruct (decide (pairs = [])) as [->|Hne].
      - exists now. split; [done|]. split; [lia|]. by rewrite Hrec.
      - exists last. auto. }
  unfold verdict. rewrite Hr in Hstep. set (n := len (filter _ _)) in *.
  assert (Forall (λ t, t ≤ now) (pairs.*1 ++ [now])) as Hall.
  { apply Forall_app. split; [done|]. constructor; [lia|done]. }
  destruct (crashloop_threshold_of limits <=? n) eqn:Hth; injection Hstep as <- <-;
    (split; [done|]); split; rewrite ?fmap_app; simpl.
  1,5: apply StronglySorted_snoc_le; done.
  1,4: exists now; split; [done|]; split; [|done]; intros now' Hn _;
       apply Forall_app in Hn as [_ Hn]; by inversion Hn.
  - unfold granted. by rewrite filter_app, app_nil_r.
  - intros a. apply grants_after; [by intros [? ?]|done..].
  - pose proof (granted_bound pairs.*2) as Hg. unfold granted in *.
    assert (len pairs.*2 = len pairs) as Hlen2 by (unfold len; by rewrite length_fmap).
    rewrite filter_app, len_app, Hlen2 in *. change (len (filter is_Some [Some _])) with 1.
    rewrite wrap64_small by (unfold is_u64; lia). done.
  - intros a. apply grants_after; [|done..]. intros _. apply Z.leb_gt in Hth. done.
Qed.

Lemma policy_inv_nil limits : policy_inv limits [] SupervisorState_default.
Proof.
  split; simpl; [constructor|by exists 0|done|]. intros a. unfold crashloop_threshold_of.
  change (len _) with 0. lia.
Qed.

Lemma exits_run_spec limits exits pairs s ds s' :
  policy_inv limits pairs s → StronglySorted Z.le (pairs.*1 ++ exits) →
  len pairs + len exits < 2 ^ 64 → exits_run limits exits s = (ds, s') →
  length ds = length exits ∧
  policy_inv limits (pairs ++ zip exits ds) s' ∧
  (∀ k now, exits !! k = Some now →
     ds !! k = Some (verdict limits (pairs ++ take k (zip exits ds)) now)).
Proof.
  revert pairs s ds s'. induction exits as [|now exits IH]; intros pairs s ds s' Hinv Hs Hlen Hrun.
  { injection Hrun as <- <-. rewrite app_nil_r. split; [done|]. split; [done|]. intros k now Hk.
    by rewrite lookup_nil in Hk. }
  cbn [exits_run] in Hrun. destruct (respawn_policy limits now s) as [d s1] eqn:Hpol.
  destruct (exits_run limits exits s1) as [ds1 s2] eqn:Hrest. injection Hrun as <- <-.
  rewrite len_cons in Hlen. pose proof (len_nonneg exits).
  apply (policy_inv_step limits pairs) in Hpol as [Hd Hinv1]; [|done| |lia].
  2:{ clear -Hs. induction pairs as [|p pairs IHp]; [constructor|].
      cbn in Hs. apply StronglySorted_inv in Hs as [Hs Hall]. constructor; [|by apply IHp].
      rewrite Forall_app, Forall_cons in Hall. tauto. }
  apply (IH (pairs ++ [(now, d)])) in Hrest as (Hlen1 & Hinv2 & Hv); [|done| |].
  2:{ rewrite fmap_app, <- app_assoc. done. }
  2:{ rewrite len_app, len_cons. change (len []) with 0. lia. }
  rewrite <- app_assoc in Hinv2. split; [by cbn; rewrite Hlen1|]. split; [done|].
  intros [|k] now' Hk.
  - injection Hk as <-. cbn. by rewrite app_nil_r, <- Hd.
  - change (exits !! k = Some now') in Hk. apply Hv in Hk. by rewrite <- app_assoc in Hk.
Qed.

Lemma backoff_bounds r : 0 ≤ r → INITIAL_RESPAWN_BACKOFF_MS ≤ backoff_ms r ≤ MAX_RESPAWN_BACKOFF_MS.
Proof.
  intros Hr. unfold backoff_ms, saturating_mul, INITIAL_RESPAWN_BACKOFF_MS, MAX_RESPAWN_BACKOFF_MS,
    u64_max. rewrite Z.shiftl_1_l.
  assert (1 ≤ 2 ^ Z.min r 7) by (apply (Z.pow_le_mono_r 2 0); lia). lia.
Qed.

(** *** Starting the configured extensions *)

Section start_lemmas.
Context {Db : Type} `{HashOrder}.
Implicit Types st : Inner Db.

(** A candidate is running, recorded as failed, or its id is taken. *)
Definition accounted (cand : string) st : Prop :=
  extension_candidate_is_active cand st = true ∨ is_Some (i_failed st !! cand) ∨
  is_Some (i_extensions st !! cand).

(** The extension of id [id] is registered and owns no route. *)
Definition unrouted (id : string) st : Prop :=
  is_Some (i_extensions st !! id) ∧ ∀ claim, i_routes st !! claim ≠ Some id.

Lemma accounted_mark_failed cand c reason st :
  accounted cand st ∨ cand = c → accounted cand (mark_failed c reason st).
Proof.
  unfold accounted. cbn. rewrite lookup_insert. case_decide; [by right; left|].
  intros [[Ha|[Hf|He]]|Heq]; [by left|by right; left|by right; right|by subst].
Qed.

Lemma accounted_register cand handle st st' :
  accounted cand st ∨ cand = candidate_id handle → register_extension handle st = Ok st' →
  accounted cand (on_failed (delete (candidate_id handle))
                   (clear_unavailable handle (clear_failed handle st'))).
Proof.
  intros Hacc (Hid & Hcand & _ & ->)%register_extension_Ok. unfold accounted.
  rewrite !candidate_is_active_true. simpl. destruct (decide (cand = candidate_id handle)) as [->|Hne].
  { left. exists (h_id handle), handle. by rewrite lookup_insert_eq. }
  destruct (decide (cand = h_id handle)) as [->|Hne'].
  { right; right. by rewrite lookup_insert_eq. }
  rewrite !lookup_delete_ne, lookup_insert_ne by done.
  destruct Hacc as [[Ha|Hother]| ]; [|by right|done]. left.
  apply candidate_is_active_true in Ha as (id & h & Hl & Hc). exists id, h. split; [|done].
  rewrite lookup_insert_ne; [done|]. intros <-. congruence.
Qed.

Lemma start_candidate_accounts l st cand path c :
  accounted c st ∨ c = cand → accounted c (start_candidate l st (cand, path)).
Proof.
  intros Hacc. unfold start_candidate.
  destruct (extension_candidate_is_active cand st) eqn:Hact.
  { destruct Hacc as [ | -> ]; [done|by left]. }
  unfold start_extension. destruct (launch l cand path) as [[pid reg]|e]; simpl.
  2:{ by apply accounted_mark_failed. }
  destruct (register_extension _ _) as [st'|e] eqn:Hreg; simpl; [|by apply accounted_mark_failed].
  by eapply (accounted_register c) in Hreg.
Qed.

Lemma unrouted_mark_failed id cand reason st :
  unrouted id st → unrouted id (mark_failed cand reason st).
Proof. done. Qed.

Lemma start_candidate_unrouted l st kv id :
  unrouted id st → unrouted id (start_candidate l st kv).
Proof.
  destruct kv as [cand path]. intros Hun. unfold start_candidate.
  destruct (extension_candidate_is_active cand st); [done|].
  unfold start_extension. destruct (launch l cand path) as [[pid reg]|e]; simpl; [|done].
  destruct (register_extension _ _) as [st'|e] eqn:Hreg; simpl; [|done].
  apply register_extension_Ok in Hreg as (Hid & _ & _ & ->). destruct Hun as [He Hr].
  assert (id ≠ er_id reg) as Hne by (intros ->; simpl in Hid; rewrite Hid in He; by destruct He).
  split; simpl.
  - by rewrite lookup_insert_ne.
  - intros claim.
    change (insert_all (er_id reg) (er_id reg :: er_paths reg) (i_routes st) !! claim ≠ Some id).
    rewrite insert_all_lookup. case_decide; [congruence|done].
Qed.

(** The fold of [stop_removed_extensions]. *)
Lemma stop_fold_spec desired (es : list (string * ExtHandle)) hs st r :
  foldl (stop_step desired) (hs, st) es = r →
  r.1 = hs ++ filter (λ h, desired !! candidate_id h = None) es.*2 ∧
  i_extensions r.2 = i_extensions st ∧ i_failed r.2 = i_failed st ∧
  i_config r.2 = i_config st ∧
  (∀ claim o, i_routes r.2 !! claim = Some o ↔ i_routes st !! claim = Some o ∧
     ∀ h, h ∈ filter (λ h, desired !! candidate_id h = None) es.*2 → o ≠ h_id h).
Proof.
  revert hs st. induction es as [|[id h] es IH]; intros hs st Hr; cbn [foldl] in Hr.
  { subst r. cbn. rewrite app_nil_r. split_and!; try done. intros claim o. set_solver. }
  unfold stop_step at 2 in Hr. cbn [snd fst] in Hr. rewrite fmap_cons, filter_cons. cbn [snd].
  case_bool_decide as Hd.
  - rewrite decide_False by (intros Hn; rewrite Hn in Hd; by destruct Hd). by apply IH.
  - rewrite decide_True by (by apply eq_None_not_Some).
    apply IH in Hr as (-> & -> & -> & -> & Hr).
    rewrite <- app_assoc. split_and!; try done. intros claim o. rewrite Hr. simpl.
    rewrite retain_others_lookup. set_solver.
Qed.

Lemma stop_removed_spec desired st stopped st1 :
  stop_removed_extensions desired st = (stopped, st1) →
  (∀ h, h ∈ stopped ↔ (∃ id, i_extensions st !! id = Some h) ∧ desired !! candidate_id h = None) ∧
  i_extensions st1 = i_extensions st ∧ i_failed st1 = i_failed st ∧ i_config st1 = i_config st ∧
  (∀ claim o, i_routes st1 !! claim = Some o ↔
     i_routes st !! claim = Some o ∧ ∀ h, h ∈ stopped → o ≠ h_id h).
Proof.
  intros (Hst & ? & ? & ? & Hr)%stop_fold_spec. simpl in *.
  assert (∀ h, h ∈ stopped ↔
    (∃ id, i_extensions st !! id = Some h) ∧ desired !! candidate_id h = None) as Hin;
    [|split_and!; try done; intros claim o; rewrite Hr, Hst; done].
  subst stopped.
  intros h. rewrite list_elem_of_filter, list_elem_of_fmap. split.
  - intros [Hd ([id h'] & -> & Hin)]. split; [|done]. exists id. by apply elem_of_hash_iter.
  - intros [(id & Hl) Hd]. split; [done|]. exists (id, h). split; [done|].
    by apply elem_of_hash_iter.
Qed.

Lemma note_missing_accounts desired st wanted c :
  accounted c st → accounted c (note_missing desired st wanted).
Proof.
  intros Hacc. unfold note_missing. repeat case_match; try done.
  apply accounted_mark_failed. by left.
Qed.

Lemma note_missing_self desired st wanted :
  (desired : gmap string string) !! wanted = None → accounted wanted (note_missing desired st wanted).
Proof.
  intros Hd. unfold note_missing. destruct (extension_candidate_is_active wanted st) eqn:?; [by left|].
  rewrite bool_decide_eq_false_2 by (rewrite Hd; by intros [? ?]). apply accounted_mark_failed. by right.
Qed.

Lemma note_missing_unrouted desired st wanted id :
  unrouted id st → unrouted id (note_missing desired st wanted).
Proof. intros. unfold note_missing. repeat case_match; done. Qed.

(** A property each step of a fold keeps holds at its end, and so does one that
    the step for an element establishes. *)
Lemma foldl_keeps {A B} (P : B → Prop) (f : B → A → B) l b :
  (∀ b a, P b → P (f b a)) → P b → P (foldl f b l).
Proof. intros Hstep. revert b. induction l; simpl; auto. Qed.

Lemma foldl_reaches {A B} (P : B → Prop) (f : B → A → B) l b x :
  (∀ b a, P b → P (f b a)) → (∀ b, P (f b x)) → x ∈ l → P (foldl f b l).
Proof.
  intros Hstep Hx. revert b. induction l as [|a l IH]; intros b; [by intros ?%not_elem_of_nil|].
  intros [->|Hin]%elem_of_cons; simpl; [by apply foldl_keeps|by apply IH].
Qed.
Lemma stop_fold_config desired (es : list (string * ExtHandle)) (acc : list ExtHandle * Inner Db) :
  let r := (foldl (stop_step desired) acc es).2 in
  i_config r = i_config acc.2 ∧ i_token_store r = i_token_store acc.2 ∧
  i_subscribers r = i_subscribers acc.2.
Proof.
  cbv zeta. revert acc. induction es as [|[id h] es IH]; intros acc; cbn [foldl]; [done|].
  destruct (IH (stop_step desired acc (id, h))) as (-> & -> & ->). unfold stop_step.
  by case_bool_decide.
Qed.

(** (Re)starting extensions leaves the configuration, the tokens and the
    subscribers alone. *)
Lemma start_extensions_config l candidates st stopped st' :
  start_extensions l candidates st = (stopped, st') →
  i_config st' = i_config st ∧ i_token_store st' = i_token_store st ∧
  i_subscribers st' = i_subscribers st.
Proof.
  unfold start_extensions. destruct (stop_removed_extensions _ st) as [hs st1] eqn:Hstop.
  intros [= <- <-].
  pose proof (stop_fold_config (desired_extensions (i_config st) candidates)
    (hash_iter (i_extensions st)) ([], st)) as Hs.
  unfold stop_removed_extensions in Hstop. rewrite Hstop in Hs. cbv zeta in Hs. simpl in Hs.
  destruct Hs as (Hs1 & Hs2 & Hs3). rewrite <- Hs1, <- Hs2, <- Hs3. set (P := λ s : Inner Db,
    i_config s = i_config st1 ∧ i_token_store s = i_token_store st1 ∧
    i_subscribers s = i_subscribers st1).
  assert (∀ b a, P b → P (start_candidate l b a)) as Hstart.
  { intros b [cand path] Hb. unfold start_candidate, start_extension. case_match; [done|].
    case_match; [|done]. case_match. simpl. case_match; [|done].
    match goal with Hr : register_extension _ _ = _ |- _ =>
      apply register_extension_Ok in Hr as (_ & _ & _ & ->) end. done. }
  assert (∀ d b a, P b → P (note_missing d b a)) as Hnote.
  { intros d b a Hb. unfold note_missing. by repeat case_match. }
  apply (foldl_keeps P); [done|]. apply (foldl_keeps P); [auto|done].
Qed.

End start_lemmas.

(** *** Reload *)

Lemma close_names_spec {Db : Type} `{HashOrder} names reason (r : Registry Db) h w :
  let h' := foldl (λ h name, close_named name reason r h) h names in
  ((∃ name, name ∈ names ∧ named_watch r name w) →
     watches h' !! w = (λ _, Some reason) <$> watches h !! w) ∧
  ((∀ name, name ∈ names → ¬ named_watch r name w) → watches h' !! w = watches h !! w) ∧
  queues h' = queues h.
Proof.
  cbv zeta. revert h. induction names as [|n names IH]; intros h; cbn [foldl].
  { split_and!; try done. intros (? & ?%not_elem_of_nil & _). done. }
  destruct (close_named_spec n reason r h w) as (Hc & Hnc & Hq).
  destruct (IH (close_named n reason r h)) as (IHc & IHnc & IHq). rewrite <- Hq. split_and!; [| |done].
  - intros (name & Hin & Hw).
    destruct (decide (Exists (λ name, named_watch r name w) names)) as [Hex|Hex].
    + apply Exists_exists in Hex. rewrite IHc by done.
      destruct (decide (named_watch r n w)); [rewrite Hc|rewrite Hnc]; try done.
      by destruct (watches h !! w).
    + assert (∀ name, name ∈ names → ¬ named_watch r name w) as Hno.
      { intros name' Hin' Hw'. apply Hex. apply Exists_exists. eauto. }
      rewrite IHnc by done. apply elem_of_cons in Hin as [<-|Hin]; [by apply Hc|].
      by apply Hno in Hin.
  - intros Hall. rewrite IHnc by set_solver. apply Hnc. set_solver.
Qed.

(** ** Theorems *)


(** C30: a reload either fails and changes nothing, or installs the new
    configuration and token store and then closes, as revoked, exactly the
    connections of the names whose credential changed or vanished. *)
Theorem reload_revokes_changed_credentials {Db : Type} `{HashOrder} load_cfg load l candidates
    (st st' : Inner Db) heap heap' r :
  reload_from_path load_cfg load l candidates st heap = (r, st', heap') →
  match r with
  | Err _ => st' = st ∧ heap' = heap
  | Ok _ =>
      ∃ cfg ts, load_cfg = Ok cfg ∧ load (token_store_path cfg) = Ok ts ∧
      i_config st' = cfg ∧ i_token_store st' = ts ∧ queues heap' = queues heap ∧
      ∀ w,
        let revoked name := ∃ rec, tokens (i_token_store st) !! name = Some rec ∧
                                   tokens ts !! name ≠ Some rec in
        ((∃ name, revoked name ∧ named_watch (i_subscribers st) name w) →
           watches heap' !! w = (λ _, Some ReasonRevoked) <$> watches heap !! w) ∧
        ((∀ name, revoked name → ¬ named_watch (i_subscribers st) name w) →
           watches heap' !! w = watches heap !! w)
  end.
Proof.
  unfold reload_from_path. destruct load_cfg as [cfg|e]; [|by intros [= <- <- <-]].
  destruct (load (token_store_path cfg)) as [ts|e] eqn:Hload; [|by intros [= <- <- <-]].
  destruct (start_extensions _ _ _) as [stopped st2] eqn:Hstart. intros [= <- <- <-].
  apply start_extensions_config in Hstart as (Hcfg & Hts & _). exists cfg, ts.
  pose proof (λ w, close_names_spec (invalidated_names (i_token_store st) ts) ReasonRevoked
    (i_subscribers st) heap w) as Hclose. cbv zeta in Hclose |- *.
  split_and!; try done; [apply (Hclose 0)|]. intros w. destruct (Hclose w) as (Hc & Hnc & _). split.
  - intros (name & Hrev & Hw). apply Hc. exists name. by rewrite invalidated_names_spec.
  - intros Hno. apply Hnc. intros name Hin%invalidated_names_spec. by apply Hno.
Qed.

(** C28: after the extensions are (re)started, every candidate that is wanted runs,
    or is recorded as failed, or its id is taken by a running extension; the
    extensions told to stop are exactly the registered ones no longer wanted,
    and they own no route, whatever was started meanwhile. *)
Theorem start_extensions_accounts_for_all {Db : Type} `{HashOrder} l candidates
    (st st' : Inner Db) stopped :
  registry_ok st → start_extensions l candidates st = (stopped, st') →
  let desired := desired_extensions (i_config st) candidates in
  (∀ cand, is_Some (desired !! cand) ∨ cand ∈ enabled (extensions (i_config st)) →
     accounted cand st') ∧
  (∀ h, h ∈ stopped ↔
     (∃ id, i_extensions st !! id = Some h) ∧ desired !! candidate_id h = None) ∧
  (∀ h claim, h ∈ stopped → i_routes st' !! claim ≠ Some (h_id h)).
Proof.
  intros Hok. unfold start_extensions. set (desired := desired_extensions _ _).
  destruct (stop_removed_extensions desired st) as [hs st1] eqn:Hstop. intros [= <- <-].
  apply stop_removed_spec in Hstop as (Hin & Hext & _ & Hcfg & Hroutes). cbv zeta.
  assert (∀ c (l' : list (string * string)) (s : Inner Db), accounted c s →
    accounted c (foldl (start_candidate l) s l')) as Hkeep.
  { intros. apply foldl_keeps; [|done]. intros ? [] ?. apply start_candidate_accounts. by left. }
  split_and!.
  - intros cand Hwant. destruct (desired !! cand) as [path|] eqn:Hd.
    + apply (foldl_reaches _ _ _ _ (cand, path)).
      * intros ? [] ?. apply start_candidate_accounts. by left.
      * intros s. apply start_candidate_accounts. by right.
      * by apply elem_of_hash_iter.
    + destruct Hwant as [[? [=]]|Hwant]. apply Hkeep. rewrite <- Hcfg in Hwant.
      apply (foldl_reaches _ _ _ _ cand); [|by intros; apply note_missing_self|by rewrite Hcfg in Hwant].
      intros. by apply note_missing_accounts.
  - done.
  - intros h claim Hh. enough (unrouted (h_id h) (foldl (start_candidate l)
      (foldl (note_missing desired) st1 (enabled (extensions (i_config st)))) (hash_iter desired)))
      as [_ Hun] by apply Hun.
    apply foldl_keeps; [intros; by apply start_candidate_unrouted|].
    apply foldl_keeps; [intros; by apply note_missing_unrouted|]. split.
    + apply Hin in Hh as [[id Hid] _]. rewrite Hext. destruct (filed _ Hok _ _ Hid) as [-> _]. by exists h.
    + intros c [_ Hne]%Hroutes. by apply (Hne h).
Qed.

(** C27: when a generation is cleaned up, it alone leaves the registry; requests
    for its claims are no longer sent to it but answered "starting" if it may
    come back (or is configured or failed) and "not found" if it was removed;
    requests for every other key are dispatched as before. *)
Theorem cleanup_redirects_dispatch {Db : Type} `{HashOrder} id gen reason mark h (st st' : Inner Db) :
  registry_ok st → cleanup_extension_generation id gen reason mark st = (Some h, st') →
  i_extensions st' = delete id (i_extensions st) ∧ generation h = gen ∧
  (∀ key, i_routes st !! key = Some id →
     dispatch_lookup key st' =
       Err (if mark || existsb (λ wanted, String.eqb wanted key) (enabled (extensions (i_config st)))
               || bool_decide (is_Some (i_failed st !! key))
            then Starting else NotFound)) ∧
  (∀ key, i_routes st !! key ≠ Some id → key ∉ candidate_id h :: h_paths h →
     dispatch_lookup key st' = dispatch_lookup key st).
Proof.
  intros Hok. unfold cleanup_extension_generation, remove_generation.
  destruct (extension_handle id gen st) as [h'|] eqn:Hh; [|done]. intros [= -> <-].
  apply extension_handle_Some in Hh as [Hh Hgen]. destruct (filed _ Hok _ _ Hh) as [Hid _].
  set (st1 := mark_or_clear _ _ _ _).
  assert (i_extensions st1 = delete id (i_extensions st)) as Hext by (subst st1; by destruct mark).
  assert (∀ key o, i_routes st1 !! key = Some o ↔ i_routes st !! key = Some o ∧ o ≠ id) as Hroutes.
  { intros key o. subst st1. rewrite <- Hid. destruct mark; simpl; apply retain_others_lookup. }
  assert (i_config st1 = i_config st ∧ i_failed st1 = i_failed st) as [Hcfg Hfail]
    by (subst st1; by destruct mark).
  assert (∀ key, key ∈ candidate_id h :: h_paths h → is_Some (i_unavailable st1 !! key) ↔ mark) as Hun.
  { intros key Hkey. subst st1. destruct mark; simpl.
    - unfold insert_each. rewrite insert_all_lookup, lookup_insert, !lookup_remove_all.
      repeat case_decide; split; try done. set_solver.
    - rewrite !lookup_remove_all. repeat case_decide; rewrite ?lookup_delete;
        repeat case_decide; split; try done; try (intros []; done); set_solver. }
  split; [done|]. split; [done|]. split.
  - intros key Hkey. assert (i_routes st1 !! key = None) as Hnone.
    { destruct (i_routes st1 !! key) as [o|] eqn:Ho; [|done]. apply Hroutes in Ho as [Ho Hne].
      congruence. }
    unfold dispatch_lookup. rewrite Hnone, Hcfg, Hfail.
    assert (key ∈ candidate_id h :: h_paths h) as Hin
      by (apply elem_of_cons; right; by eapply routes_are_claims).
    specialize (Hun key Hin). rewrite (orb_comm mark).
    destruct mark; simpl in Hun; [rewrite bool_decide_eq_true_2 by tauto|rewrite bool_decide_eq_false_2 by tauto];
      rewrite ?orb_true_r, ?orb_false_r; by destruct (_ || _).
  - intros key Hkey Hout. assert (i_routes st1 !! key = i_routes st !! key) as Hsame.
    { apply option_eq. intros o. rewrite Hroutes. split; [tauto|]. intros Ho. split; [done|congruence]. }
    assert (i_unavailable st1 !! key = i_unavailable st !! key) as Hunsame.
    { apply not_elem_of_cons in Hout as [Hc Hp]. subst st1. destruct mark; simpl;
        unfold insert_each; rewrite ?insert_all_lookup, ?lookup_remove_all;
        repeat case_decide; rewrite ?lookup_insert_ne, ?lookup_delete_ne by done;
        rewrite ?lookup_remove_all; repeat case_decide; by rewrite ?lookup_delete_ne. }
    unfold dispatch_lookup. rewrite Hsame, Hunsame, Hcfg, Hfail.
    destruct (i_routes st !! key) as [o|] eqn:Ho; [|done]. rewrite Hext, lookup_delete_ne; [done|].
    congruence.
Qed.

(** ** Witnesses *)

Definition demo_config : Config :=
  MkConfig ServerConfig_default SubscribersConfig_default
    (MkExtensionsConfig ["fake"; "gone"] false) LimitsConfig_default TimeoutsConfig_default
    DeliveryConfig_default None ∅.

(** A daemon with one registered extension, [old], no longer configured, and a
    subscriber connection of each of two names. *)
Definition blank_state : Inner (list (Z * string)) :=
  MkInner demo_config demo_store ∅ ∅ ∅ ∅ ∅ ∅ two_subs ∅ false 0.
Definition old_handle : ExtHandle :=
  MkExtHandle "old" "old" 7 "/bin/whdr-ext-old" ["old"; "legacy"] ["past"] (Some 42).
Definition demo_state : Inner (list (Z * string)) :=
  unwrap_or blank_state (register_extension (H := some_order) old_handle blank_state).
Definition demo_candidates : gmap string string := {[ "fake" := "/bin/whdr-ext-fake" ]}.
Definition demo_launcher : Launcher := {|
  new_generation _ := 8;
  launch _ _ := Ok (Some 43, MkExtensionRegistration "fake" ["hook"] ["shared.one"])
|}.

Lemma registry_ok_blank : registry_ok blank_state.
Proof. by repeat split. Qed.

Lemma demo_state_registered :
  register_extension (H := some_order) old_handle blank_state = Ok demo_state.
Proof. vm_compute. reflexivity. Qed.

Lemma registry_ok_demo : registry_ok demo_state.
Proof.
  apply (registry_ok_register (H := some_order) old_handle blank_state).
  - apply registry_ok_blank.
  - simpl; left.
  - apply demo_state_registered.
Qed.

Lemma demo_subscribers : i_subscribers demo_state = two_subs.
Proof.
  pose proof demo_state_registered as (_ & _ & _ & Heq)%register_extension_Ok. by rewrite Heq.
Qed.
Lemma demo_tokens : i_token_store demo_state = demo_store.
Proof.
  pose proof demo_state_registered as (_ & _ & _ & Heq)%register_extension_Ok. by rewrite Heq.
Qed.

(** Four exits, the last three within the window of a threshold of three. *)
Definition flappy_limits : LimitsConfig := MkLimitsConfig 0 0 0 0 0 0 0 3 10.


Lemma start_extensions_accounts_for_all_witness :
  ∃ stopped st',
    start_extensions (H := some_order) demo_launcher demo_candidates demo_state = (stopped, st') ∧
    accounted (H := some_order) "fake" st' ∧ accounted (H := some_order) "gone" st' ∧
    old_handle ∈ stopped ∧ i_routes st' !! "legacy" ≠ Some "old".
Proof.
  destruct (start_extensions (H := some_order) demo_launcher demo_candidates demo_state)
    as [stopped st'] eqn:E.
  exists stopped, st'.
  pose proof (start_extensions_accounts_for_all (H := some_order) _ _ _ _ _ registry_ok_demo E)
    as (Hacc & Hin & Hroutes).
  assert (old_handle ∈ stopped) as Hold.
  { apply Hin. split; [exists "old"|]; vm_compute; reflexivity. }
  split; [done|]. split; [|split; [|split; [done|]]].
  - apply Hacc. left. exists "/bin/whdr-ext-fake". vm_compute. reflexivity.
  - apply Hacc. right. right. apply list_elem_of_here.
  - by apply (Hroutes old_handle).
Defined.

(** [alice]'s credential is gone from the reloaded store: her connection is
    closed, [bob]'s is not. *)
Definition bob_only : TokenStore :=
  MkTokenStore "/etc/whdr/tokens.toml" (delete "alice" (tokens demo_store)).

Lemma reload_revokes_changed_credentials_witness :
  ∃ stopped st' heap',
    reload_from_path (H := some_order) (Ok demo_config) (λ _, Ok bob_only)
      demo_launcher demo_candidates demo_state two_queues = (Ok stopped, st', heap') ∧
    watches heap' !! 20 = Some (Some ReasonRevoked) ∧ watches heap' !! 21 = Some None.
Proof.
  destruct (reload_from_path (H := some_order) (Ok demo_config) (λ _, Ok bob_only)
    demo_launcher demo_candidates demo_state two_queues) as [[[stopped|e] st'] heap'] eqn:E.
  2:{ exfalso. vm_compute in E. discriminate E. }
  exists stopped, st', heap'. split; [done|].
  pose proof (reload_revokes_changed_credentials (H := some_order) _ _ _ _ _ _ _ _ _ E)
    as (cfg & ts & [= <-] & [= <-] & _ & _ & _ & Hw). cbv zeta in Hw.
  clear E. rewrite demo_subscribers, demo_tokens in Hw.
  split; [destruct (Hw 20) as [Hc _]; rewrite Hc|destruct (Hw 21) as [_ Hnc]; rewrite Hnc].
  - vm_compute. reflexivity.
  - exists "alice". split.
    + exists (record_for (λ t, t) "tok_a" "t0"). split; vm_compute; [reflexivity|discriminate].
    + exists 1, sub_a. split; [vm_compute; reflexivity|split; reflexivity].
  - vm_compute. reflexivity.
  - intros name (rec & Hold & Hnew) (i & s & Hs & Hn & Hwatch). apply Hnew.
    apply two_subs_lookup in Hs as [[-> ->]|[-> ->]]; [discriminate Hwatch|]. subst name.
    rewrite <- Hold. vm_compute. reflexivity.
Defined.

Lemma cleanup_redirects_dispatch_witness :
  ∃ st', cleanup_extension_generation "old" 7 "exited" true demo_state = (Some old_handle, st') ∧
    dispatch_lookup "legacy" demo_state = Ok old_handle ∧
    dispatch_lookup "legacy" st' = Err Starting.
Proof.
  destruct (cleanup_extension_generation "old" 7 "exited" true demo_state) as [o st'] eqn:E.
  assert (o = Some old_handle) as -> by (vm_compute in E; injection E as <- _; reflexivity).
  exists st'. split; [reflexivity|]. split; [vm_compute; reflexivity|].
  destruct (cleanup_redirects_dispatch (H := some_order) _ _ _ _ _ _ _ registry_ok_demo E)
    as (_ & _ & Hkey & _). clear E. rewrite Hkey; vm_compute; reflexivity.
Defined.
