(* ===== verification/ExtensionStart.v ===== *)
(** * ExtensionStart: from an executable to a registered extension

    [spawn_extension_process] and [kill_child_wait] of
    [crates/whdr-server/src/extension_process.rs] and the whole of
    [start_extension] in [daemon.rs] with the child process in view: what
    becomes of it on every path.  What the operating system and the child do is
    an input. *)

From S2P Require Import Prelude.
From S2P Require Import Text.
From S2P Require Import Messages.
From S2P Require Import Config.
From S2P Require Import ChannelClaims.
From S2P Require Import Subscribers.
From S2P Require Import TokenStore.
From S2P Require Import ExtensionProcess.
From S2P Require Import AppState.

Local Open Scope Z_scope.

(** ** Definitions *)

(** The answers met by a start: [spawn()] with the process id, whether the pipes
    are there, the first line of the child, and the generation drawn. *)
Record StartWorld : Type := MkStartWorld {
  sw_spawn : result string (option Z);
  sw_stdin : bool;
  sw_stdout : bool;
  sw_first_line : FirstLine;
  sw_generation : Uuid
}.

(** What becomes of the child: there is none; [child.kill().await] was called on
    it; its [Child] was dropped, which kills it ([kill_on_drop]); or a supervisor
    task owns it. *)
Inductive ChildFate : Type := NoChild | KilledAndReaped | KilledOnDrop | Supervised.

Definition spawn_extension_process (w : StartWorld) (path : string)
    : result string (option Z) * ChildFate :=
  match sw_spawn w with
  | Err _ => (Err ("spawn extension " +:+ path), NoChild)
  | Ok pid =>
      if negb (sw_stdin w) then (Err "extension stdin unavailable", KilledAndReaped)
      else if negb (sw_stdout w) then (Err "extension stdout unavailable", KilledAndReaped)
      else (Ok pid, KilledOnDrop)
  end.

Section start.
Context {W : Wire ExtMsg} (debug : ExtMsg → string).
Context {Db : Type} {O : HashOrder}.
Implicit Types st : Inner Db.

(** The start up to the registration: what [start_extension] of AppState.v takes
    as [launched]. *)
Definition launch_process (w : StartWorld) (cand path : string)
    : result string (option Z * ExtensionRegistration) * ChildFate :=
  match spawn_extension_process w path with
  | (Err e, fate) => (Err e, fate)
  | (Ok pid, fate) =>
      match read_registration debug cand (sw_first_line w) with
      | Err e => (Err e, KilledAndReaped)
      | Ok registration => (Ok (pid, registration), fate)
      end
  end.

(** [start_extension]: the registration block leaves the function when it
    refuses, so the child is dropped; past it, the supervisor gets the child. *)
Definition start_process (w : StartWorld) (cand path : string) st
    : result string () * Inner Db * ChildFate :=
  let '(launched, fate) := launch_process w cand path in
  let '(r, st') := start_extension (sw_generation w) launched cand path st in
  (r, st', if is_ok r then Supervised else fate).

(** ** Theorems *)

(** A start that succeeds hands its child to a supervisor and registers its
    generation under the id the child announced; one that fails leaves the
    registry as it was and no child behind. *)
Theorem starts_leave_no_orphans (w : StartWorld) cand path st r st' fate :
  start_process w cand path st = (r, st', fate) →
  match r with
  | Ok _ =>
      fate = Supervised ∧ ∃ pid registration,
        sw_spawn w = Ok pid ∧ read_registration debug cand (sw_first_line w) = Ok registration ∧
        i_extensions st' !! er_id registration =
          Some (handle_of cand path (sw_generation w) pid registration)
  | Err _ => st' = st ∧ fate ≠ Supervised ∧ (fate = NoChild ↔ is_ok (sw_spawn w) = false)
  end.
Proof.
  unfold start_process, launch_process, spawn_extension_process.
  destruct (sw_spawn w) as [pid|e] eqn:Hs; [|by intros [= <- <- <-]].
  destruct (sw_stdin w); cbn [negb]; [|by intros [= <- <- <-]].
  destruct (sw_stdout w); cbn [negb]; [|by intros [= <- <- <-]].
  destruct (read_registration _ _ _) as [registration|e] eqn:Hreg; [|by intros [= <- <- <-]].
  cbn [start_extension]. destruct (register_extension _ st) as [st1|e] eqn:Hr; [|by intros [= <- <- <-]].
  intros [= <- <- <-]. split; [done|]. exists pid, registration. split_and!; [done..|].
  unfold register_extension in Hr. repeat (case_bool; [done|]).
  apply result_bind_Ok in Hr as ([] & _ & [= <-]). cbn. by rewrite lookup_insert_eq.
Qed.
End start.

(** ** Witnesses *)

Section witnesses.
#[local] Existing Instance some_order.

(** The executable is gone by the time it is started. *)
Lemma starts_leave_no_orphans_witness (W : Wire ExtMsg) (debug : ExtMsg → string) :
  (start_process debug (MkStartWorld (Err "no such file") true true LineEof 1) "a" "/bin/a" demo_state).2 =
    NoChild.
Proof.
  destruct (start_process debug (MkStartWorld (Err "no such file") true true LineEof 1) "a" "/bin/a" demo_state)
    as [[r st'] fate] eqn:E.
  pose proof (starts_leave_no_orphans debug _ _ _ _ _ _ _ E) as H.
  assert (r = Err "spawn extension /bin/a") as Hr by (vm_compute in E; injection E as <- _ _; reflexivity).
  subst r. destruct H as (_ & _ & H). by apply H.
Defined.
End witnesses.
