(* ===== verification/Supervision.v ===== *)
(** * Supervision: the life of extensions, one critical section at a time

    [crates/whdr-server/src/daemon.rs].  AppState.v gives each critical section
    as a function; here the tasks that run them ([start_extension] from
    [start_extensions] or from a supervisor, [supervise_extension] after its
    child is gone, [stop_removed_extensions]) are state machines whose every step
    is one section, and a [World] interleaves any number of them. *)

From S2P Require Import Prelude.
From S2P Require Import Text.
From S2P Require Import Messages.
From S2P Require Import Config.
From S2P Require Import ChannelClaims.
From S2P Require Import Subscribers.
From S2P Require Import TokenStore.
From S2P Require Import ExtensionProcess.
From S2P Require Import AppState.

Local Open Scope Z_scope.

(** ** Definitions *)

(** What follows [unroute_extension]: [stop_removed_extensions] sends
    [DrainStop]; the supervisor goes on with its clean-up. *)
Inductive AfterUnroute : Type :=
  | ThenDrain
  | ThenMark (cand path reason : string) (respawn : bool).

(** The next section of a task. *)
Inductive Task : Type :=
  (* start_extensions, supervise_extension: (re)start a candidate *)
  | TCheckActive (cand path : string)
  | TLaunch (cand path : string)
  | TRegister (handle : ExtHandle)
  | TClearFailed (handle : ExtHandle)
  | TClearUnavailable (handle : ExtHandle)
  | TForget (cand : string)
  | TMarkFailed (cand reason : string)
  | TMarkUnavailable (cand reason : string)
  (* supervise_extension, once the child is gone *)
  | TRemove (cand id path : string) (gen : Uuid) (reason : string) (respawn : bool)
  | TUnrouteRoutes (handle : ExtHandle) (k : AfterUnroute)
  | TUnroutePrefixes (handle : ExtHandle) (k : AfterUnroute)
  | TUnrouteUnavailable (handle : ExtHandle) (k : AfterUnroute)
  | TMark (handle : ExtHandle) (cand path reason : string) (respawn : bool)
  | TShouldRespawn (cand path : string)
  | TDelay (cand path : string)
  | TCrashFailed (cand reason : string)
  | TCrashUnavailable (cand reason : string)
  | TSleep (cand path : string) (delay : Z)
  | TRecheck (cand path : string)
  (* the reply of stop_removed_extensions to its extension *)
  | TDrainStop (handle : ExtHandle).

(** What a section takes from outside the shared state. *)
Record Input : Type := MkInput {
  in_now : Z;
  in_generation : Uuid;
  in_launched : result string (option Z * ExtensionRegistration)
}.

(** The supervisor's last check of the candidate before a respawn is that of
    the start loop. *)
Section supervision.
Context {Db : Type} `{HashOrder}.
Implicit Types st : Inner Db.

(** One section: the state after it and the rest of the task, if any. *)
Definition task_step (inp : Input) (t : Task) st : Inner Db * option Task :=
  match t with
  | TCheckActive cand path =>
      (st, if extension_candidate_is_active cand st then None else Some (TLaunch cand path))
  | TLaunch cand path =>
      (st, Some match in_launched inp with
                | Err e => TMarkFailed cand e
                | Ok (pid, registration) =>
                    TRegister (handle_of cand path (in_generation inp) pid registration)
                end)
  | TRegister handle =>
      match register_extension handle st with
      | Err e => (st, Some (TMarkFailed (candidate_id handle) e))
      | Ok st' => (st', Some (TClearFailed handle))
      end
  | TClearFailed handle => (clear_failed handle st, Some (TClearUnavailable handle))
  | TClearUnavailable handle =>
      (clear_unavailable handle st, Some (TForget (candidate_id handle)))
  | TForget cand => (on_failed (delete cand) st, None)
  | TMarkFailed cand reason =>
      (on_failed (insert cand reason) st, Some (TMarkUnavailable cand reason))
  | TMarkUnavailable cand reason => (on_unavailable (insert cand reason) st, None)
  | TRemove cand id path gen reason respawn =>
      match remove_generation id gen st with
      | (Some handle, st') =>
          (st', Some (TUnrouteRoutes handle (ThenMark cand path reason respawn)))
      | (None, st') => (st', None)
      end
  | TUnrouteRoutes handle k =>
      (on_routes (retain_others (h_id handle)) st, Some (TUnroutePrefixes handle k))
  | TUnroutePrefixes handle k =>
      (on_prefixes (retain_others (h_id handle)) st, Some (TUnrouteUnavailable handle k))
  | TUnrouteUnavailable handle k =>
      (clear_unavailable handle st,
       Some match k with
            | ThenDrain => TDrainStop handle
            | ThenMark cand path reason respawn => TMark handle cand path reason respawn
            end)
  | TMark handle cand path reason respawn =>
      (mark_or_clear handle reason respawn st,
       if respawn then Some (TShouldRespawn cand path) else None)
  | TShouldRespawn cand path =>
      (st, if should_respawn cand st then Some (TDelay cand path) else None)
  | TDelay cand path =>
      let limits := limits (i_config st) in
      let '(delay, s) :=
        respawn_policy limits (in_now inp)
          (default SupervisorState_default (i_supervisor st !! cand)) in
      (on_supervisor (insert cand s) st,
       Some match delay with
            | Some d => TSleep cand path d
            | None => TCrashFailed cand (crashloop_reason limits)
            end)
  | TCrashFailed cand reason =>
      (on_failed (insert cand reason) st, Some (TCrashUnavailable cand reason))
  | TCrashUnavailable cand reason => (on_unavailable (or_insert cand reason) st, None)
  | TSleep cand path _ => (st, Some (TRecheck cand path))
  | TRecheck cand path =>
      (st, if negb (should_respawn cand st) || extension_candidate_is_active cand st
           then None else Some (TLaunch cand path))
  | TDrainStop _ => (st, None)
  end.

(** The shared state and the running tasks. *)
Record World : Type := MkWorld { w_state : Inner Db; w_tasks : gmap nat Task }.

(** Tasks that may appear at any time: a start loop reaches a candidate; the
    child of a generation is gone, or its drain is over; a stop loop reaches a
    handle it read from the registry. *)
Definition may_spawn (t : Task) st : bool :=
  match t with
  | TCheckActive _ _ => true
  | TRemove _ _ _ _ _ _ => true
  | TUnrouteRoutes handle ThenDrain => bool_decide (i_extensions st !! h_id handle = Some handle)
  | _ => false
  end.

Inductive Choice : Type :=
  | CRun (i : nat) (inp : Input)
  | CSpawn (i : nat) (t : Task)
  | CReload (cfg : Config) (ts : TokenStore)
  | CShutdown.

Definition world_step (c : Choice) (w : World) : option World :=
  match c with
  | CRun i inp =>
      t ← w_tasks w !! i;
      let '(st, t') := task_step inp t (w_state w) in
      Some (MkWorld st (partial_alter (λ _, t') i (w_tasks w)))
  | CSpawn i t =>
      if bool_decide (w_tasks w !! i = None) && may_spawn t (w_state w)
      then Some (MkWorld (w_state w) (<[i := t]> (w_tasks w))) else None
  | CReload cfg ts => Some (MkWorld (set_config cfg ts (w_state w)) (w_tasks w))
  | CShutdown => Some (MkWorld (begin_shutdown (w_state w)) (w_tasks w))
  end.

Fixpoint world_run (cs : list Choice) (w : World) : option World :=
  match cs with
  | [] => Some w
  | c :: rest => w' ← world_step c w; world_run rest w'
  end.

(** The daemon as [AppState::new] leaves it. *)
Definition initial (w : World) : Prop :=
  w_tasks w = ∅ ∧ i_extensions (w_state w) = ∅ ∧ i_routes (w_state w) = ∅ ∧
  i_prefixes (w_state w) = ∅.

(** A task run with nothing in between, each section with its own input. *)
Fixpoint solo (inps : list Input) (t : Task) st : Inner Db * option Task :=
  match inps with
  | [] => (st, Some t)
  | inp :: rest =>
      match task_step inp t st with
      | (st', Some t') => solo rest t' st'
      | (st', None) => (st', None)
      end
  end.

(** [supervise_extension] after its child is gone, run without interruption: the
    clean-up of the generation, the decision, and the respawn. *)
Definition supervise_exit (inp : Input) (cand id path : string) (gen : Uuid) (reason : string)
    (respawn : bool) st : Inner Db :=
  match cleanup_extension_generation id gen reason respawn st with
  | (None, st1) => st1
  | (Some _, st1) =>
      if negb respawn || negb (should_respawn cand st1) then st1
      else match next_respawn_delay (in_now inp) cand st1 with
           | (None, st2) => st2
           | (Some _, st2) =>
               if negb (should_respawn cand st2) || extension_candidate_is_active cand st2
               then st2
               else record_start cand
                      (start_extension (in_generation inp) (in_launched inp) cand path st2)
           end
  end.

(** ** Specification *)

(** A task that has yet to remove the routes (the prefixes) of an id. *)
Definition will_unroute (id : string) (t : Task) : Prop :=
  match t with TUnrouteRoutes handle _ => h_id handle = id | _ => False end.
Definition will_unprefix (id : string) (t : Task) : Prop :=
  match t with
  | TUnrouteRoutes handle _ | TUnroutePrefixes handle _ => h_id handle = id
  | _ => False
  end.

(** The handle a task is about to register claims its own id. *)
Definition task_ok (t : Task) : Prop :=
  match t with TRegister handle => h_id handle ∈ h_paths handle | _ => True end.

(** A task that may still register a handle of the candidate, whatever is
    decided later. *)
Definition starting (cand : string) (t : Task) : Prop :=
  match t with
  | TCheckActive c _ | TLaunch c _ => c = cand
  | TRegister handle => candidate_id handle = cand
  | _ => False
  end.

(** No start loop reaches a new candidate. *)
Definition no_new_starts (cs : list Choice) : Prop :=
  Forall (λ c, match c with CSpawn _ (TCheckActive _ _) => False | _ => True end) cs.

(** What a shut-down world can still have: the handles of the given world and
    those of tasks that were starting them in it. *)
Record winding_down (w0 w : World) : Prop := {
  wd_flag : i_shutting_down (w_state w) = true;
  wd_tasks i t cand : w_tasks w !! i = Some t → starting cand t →
    ∃ t0, w_tasks w0 !! i = Some t0 ∧ starting cand t0;
  wd_extensions id h : i_extensions (w_state w) !! id = Some h →
    i_extensions (w_state w0) !! id = Some h ∨
    ∃ i t0, w_tasks w0 !! i = Some t0 ∧ starting (candidate_id h) t0
}.

Record world_ok (w : World) : Prop := {
  wo_registry : registry_ok (w_state w);
  wo_tasks i t : w_tasks w !! i = Some t → task_ok t;
  wo_routes claim o : i_routes (w_state w) !! claim = Some o →
    is_Some (i_extensions (w_state w) !! o) ∨
    ∃ i t, w_tasks w !! i = Some t ∧ will_unroute o t;
  wo_prefixes p o : i_prefixes (w_state w) !! p = Some o →
    is_Some (i_extensions (w_state w) !! o) ∨
    ∃ i t, w_tasks w !! i = Some t ∧ will_unprefix o t
}.

(** ** Lemmas *)

(** Maps that only the registration and the unrouting sections change. *)
Lemma task_step_registry inp t st st' t' :
  task_ok t → registry_ok st → task_step inp t st = (st', t') → registry_ok st'.
Proof.
  intros Ht Hok Hstep.
  destruct t; cbn [task_step] in Hstep; try (simplify_eq; exact Hok);
    try (simplify_eq; by apply (registry_ok_same st)).
  - destruct (register_extension handle st) as [s|e] eqn:Hr; simplify_eq; [|done].
    by eapply registry_ok_register.
  - destruct (remove_generation id gen st) as [[h|] s] eqn:Hr; simplify_eq;
      by eapply registry_ok_remove_generation.
  - simplify_eq. by apply registry_ok_unroute_routes.
  - simplify_eq. by apply registry_ok_unroute_prefixes.
  - simplify_eq. apply (registry_ok_same st); [|done]. unfold mark_or_clear. by case_match.
  - destruct (respawn_policy _ _ _). simplify_eq. by apply (registry_ok_same st).
Qed.

Lemma task_step_task_ok inp t st st' t' :
  task_step inp t st = (st', Some t') → task_ok t'.
Proof.
  destruct t; cbn [task_step]; intros Hstep; repeat case_match; simplify_eq; try done.
  simpl. left.
Qed.

(** The sections of a task: registrations add an owner, the removal of a
    generation leaves its unrouting pending, everything else leaves the two
    maps' owners covered as they were. *)
Definition pending (P : string → Task → Prop) (o : string) (t : option Task) : Prop :=
  match t with Some t => P o t | None => False end.

Lemma task_step_extensions inp t st st' t' o :
  registry_ok st → task_step inp t st = (st', t') → is_Some (i_extensions st !! o) →
  is_Some (i_extensions st' !! o) ∨ pending will_unroute o t'.
Proof.
  intros Hok Hstep Ho. destruct t; cbn [task_step] in Hstep; try (simplify_eq; by left).
  - destruct (register_extension handle st) as [s|e] eqn:Hr; simplify_eq; [|by left].
    apply register_extension_Ok in Hr as (_ & _ & _ & ->). left. simpl. rewrite lookup_insert.
    by case_decide.
  - unfold remove_generation in Hstep.
    destruct (extension_handle id gen st) as [h|] eqn:Hh; simplify_eq; [|by left].
    apply extension_handle_Some in Hh as [Hh _]. simpl.
    destruct (filed _ Hok _ _ Hh) as [<- _]. rewrite lookup_delete. case_decide; [by right|by left].
  - simplify_eq. left. unfold mark_or_clear. by case_match.
  - destruct (respawn_policy _ _ _). simplify_eq. by left.
Qed.

Lemma task_step_routes inp t st st' t' claim o :
  task_step inp t st = (st', t') → i_routes st' !! claim = Some o →
  is_Some (i_extensions st' !! o) ∨
  i_routes st !! claim = Some o ∧ (will_unroute o t → pending will_unroute o t').
Proof.
  intros Hstep Hl. destruct t; cbn [task_step] in Hstep; try (simplify_eq; right; done).
  - destruct (register_extension handle st) as [s|e] eqn:Hr; simplify_eq; [|by right].
    apply register_extension_Ok in Hr as (_ & _ & _ & ->). simpl in *.
    rewrite insert_all_lookup in Hl. case_decide; simplify_eq; [left|by right].
    rewrite lookup_insert_eq. by eexists.
  - unfold remove_generation in Hstep.
    destruct (extension_handle id gen st) as [h|] eqn:Hh; simplify_eq; by right.
  - simplify_eq. simpl in Hl. apply retain_others_lookup in Hl as [Hl Hne]. right.
    split; [done|]. simpl. congruence.
  - simplify_eq. right. unfold mark_or_clear in Hl. by case_match.
  - destruct (respawn_policy _ _ _). simplify_eq. by right.
Qed.

Lemma task_step_prefixes inp t st st' t' p o :
  task_step inp t st = (st', t') → i_prefixes st' !! p = Some o →
  is_Some (i_extensions st' !! o) ∨
  i_prefixes st !! p = Some o ∧ (will_unprefix o t → pending will_unprefix o t').
Proof.
  intros Hstep Hl. destruct t; cbn [task_step] in Hstep; try (simplify_eq; right; done).
  - destruct (register_extension handle st) as [s|e] eqn:Hr; simplify_eq; [|by right].
    apply register_extension_Ok in Hr as (_ & _ & _ & ->). simpl in *.
    rewrite insert_all_lookup in Hl. case_decide; simplify_eq; [left|by right].
    rewrite lookup_insert_eq. by eexists.
  - unfold remove_generation in Hstep.
    destruct (extension_handle id gen st) as [h|] eqn:Hh; simplify_eq; by right.
  - simplify_eq. simpl in Hl. apply retain_others_lookup in Hl as [Hl Hne]. right.
    split; [done|]. simpl. congruence.
  - simplify_eq. right. unfold mark_or_clear in Hl. by case_match.
  - destruct (respawn_policy _ _ _). simplify_eq. by right.
Qed.

(** Coverage of an owner survives the step of one task of the world. *)
Definition covered (P : string → Task → Prop) (w : World) (o : string) : Prop :=
  is_Some (i_extensions (w_state w) !! o) ∨ ∃ i t, w_tasks w !! i = Some t ∧ P o t.

Lemma covered_run (P : string → Task → Prop) i inp t st st' t' (tasks : gmap nat Task) o :
  registry_ok st → (∀ o t, will_unroute o t → P o t) →
  tasks !! i = Some t → task_step inp t st = (st', t') →
  (P o t → pending P o t') →
  covered P (MkWorld st tasks) o → covered P (MkWorld st' (partial_alter (λ _, t') i tasks)) o.
Proof.
  intros Hok HP Hi Hstep Hkeep.
  assert (pending P o t' → covered P (MkWorld st' (partial_alter (λ _, t') i tasks)) o) as Hpend.
  { intros Hp. right. exists i. destruct t' as [t'|]; [|done]. exists t'. simpl.
    by rewrite lookup_partial_alter_eq. }
  intros [He|(j & tj & Hj & Hp)]; simpl in *.
  - eapply (task_step_extensions inp t) in He as [He|Hp]; eauto; [by left|].
    apply Hpend. destruct t'; [by apply HP|done].
  - destruct (decide (i = j)) as [<-|Hne]; [simplify_eq; auto|].
    right. exists j, tj. simpl. by rewrite lookup_partial_alter_ne.
Qed.

Lemma covered_spawn (P : string → Task → Prop) i t st (tasks : gmap nat Task) o :
  tasks !! i = None → covered P (MkWorld st tasks) o → covered P (MkWorld st (<[i := t]> tasks)) o.
Proof.
  intros Hi [He|(j & tj & Hj & Hp)]; [by left|]. right. exists j, tj. simpl in *.
  rewrite lookup_insert_ne; [done|congruence].
Qed.

Lemma world_ok_step c w w' : world_ok w → world_step c w = Some w' → world_ok w'.
Proof.
  intros [Hreg Htasks Hr Hp] Hstep. destruct w as [st tasks], c as [i inp|i t|cfg ts|]; simpl in *.
  - destruct (tasks !! i) as [t|] eqn:Hi; simpl in Hstep; [|done].
    destruct (task_step inp t st) as [st' t'] eqn:Ht. injection Hstep as <-. split; simpl.
    + by eapply task_step_registry; eauto.
    + intros j tj. destruct (decide (i = j)) as [<-|Hne].
      * rewrite lookup_partial_alter_eq. intros ->. by eapply task_step_task_ok.
      * rewrite lookup_partial_alter_ne by done. apply Htasks.
    + intros claim o Hl. destruct (task_step_routes _ _ _ _ _ _ _ Ht Hl) as [He|[Hl' Hk]];
        [by left|]. eapply covered_run; eauto. by apply (Hr claim).
    + intros p o Hl. destruct (task_step_prefixes _ _ _ _ _ _ _ Ht Hl) as [He|[Hl' Hk]];
        [by left|]. eapply covered_run; eauto; [|by apply (Hp p)]. intros ? []; done.
  - case_bool_decide as Hi; [|done]. simpl in Hstep. destruct (may_spawn t st) eqn:Hmay; [|done].
    injection Hstep as <-. split; simpl; [done| | |].
    + intros j tj [[<- <-]|[_ Hj]]%lookup_insert_Some; [|by eapply Htasks]. by destruct t.
    + intros claim o Hl. apply covered_spawn; [done|]. by apply (Hr claim).
    + intros p o Hl. apply covered_spawn; [done|]. by apply (Hp p).
  - injection Hstep as <-. split; simpl; try done. by apply (registry_ok_same st).
  - injection Hstep as <-. split; simpl; try done. by apply (registry_ok_same st).
Qed.

Lemma world_ok_run cs w w' : world_ok w → world_run cs w = Some w' → world_ok w'.
Proof.
  revert w. induction cs as [|c cs IH]; intros w Hok Hrun; cbn [world_run] in Hrun.
  { by simplify_eq. }
  destruct (world_step c w) as [w1|] eqn:Hs; simpl in Hrun; [|done].
  eapply IH; [|done]. by eapply world_ok_step.
Qed.

Lemma world_ok_initial w : initial w → world_ok w.
Proof.
  intros (Ht & He & Hr & Hp). split.
  - split; rewrite ?He, ?Hr, ?Hp; try (intros *; by rewrite lookup_empty).
    split; intros *; by rewrite lookup_empty.
  - intros i t. by rewrite Ht, lookup_empty.
  - intros claim o. by rewrite Hr, lookup_empty.
  - intros p o. by rewrite Hp, lookup_empty.
Qed.

(** A run that ends with fuel to spare ends the same with more. *)
(** *** Shutdown *)

Lemma task_step_shutting inp t st st' t' :
  task_step inp t st = (st', t') → i_shutting_down st' = i_shutting_down st.
Proof.
  destruct t; cbn [task_step]; intros Hstep; try (simplify_eq; done).
  - destruct (register_extension handle st) as [s|e] eqn:Hr; simplify_eq; [|done].
    unfold register_extension in Hr. repeat case_match; try done.
    apply result_bind_Ok in Hr as (? & _ & [= <-]). done.
  - unfold remove_generation in Hstep. by repeat case_match; simplify_eq.
  - simplify_eq. unfold mark_or_clear. by case_match.
  - destruct (respawn_policy _ _ _). by simplify_eq.
Qed.

(** Once the daemon is shutting down, only a task that was starting a candidate
    goes on to start one. *)
Lemma task_step_starting inp t st st' t' cand :
  i_shutting_down st = true → task_step inp t st = (st', Some t') → starting cand t' →
  starting cand t.
Proof.
  intros Hdown. assert (∀ c, should_respawn c st = false) as Hno.
  { intros c. unfold should_respawn. by rewrite Hdown. }
  destruct t; cbn [task_step]; rewrite ?Hno; cbn [negb orb]; intros Hstep;
    repeat case_match; simplify_eq; done.
Qed.

Lemma task_step_new_handle inp t st st' t' id h :
  task_step inp t st = (st', t') → i_extensions st' !! id = Some h →
  i_extensions st !! id = Some h ∨ starting (candidate_id h) t.
Proof.
  destruct t; cbn [task_step]; intros Hstep Hl; try (simplify_eq; by left).
  - destruct (register_extension handle st) as [s|e] eqn:Hr; simplify_eq; [|by left].
    unfold register_extension in Hr. repeat case_match; try done.
    apply result_bind_Ok in Hr as (? & _ & [= <-]). simpl in Hl.
    apply lookup_insert_Some in Hl as [[_ <-]|[_ Hl]]; [by right|by left].
  - unfold remove_generation in Hstep. repeat case_match; simplify_eq; [|by left].
    left. simpl in Hl. by apply lookup_delete_Some in Hl as [_ ?].
  - left. simplify_eq. unfold mark_or_clear in Hl. by case_match.
  - destruct (respawn_policy _ _ _). simplify_eq. by left.
Qed.

Lemma winding_down_step c w0 w w' :
  no_new_starts [c] → winding_down w0 w → world_step c w = Some w' → winding_down w0 w'.
Proof.
  intros Hc [Hflag Htasks Hext] Hstep. apply Forall_cons in Hc as [Hc _].
  destruct w as [st tasks], c as [i inp|i t|cfg ts|]; simpl in *.
  - destruct (tasks !! i) as [t|] eqn:Hi; simpl in Hstep; [|done].
    destruct (task_step inp t st) as [st' t'] eqn:Ht. injection Hstep as <-. split; simpl.
    + by rewrite (task_step_shutting _ _ _ _ _ Ht).
    + intros j tj cand. destruct (decide (i = j)) as [<-|Hne].
      * rewrite lookup_partial_alter_eq. intros -> Hst. eapply Htasks; [done|].
        by eapply task_step_starting.
      * rewrite lookup_partial_alter_ne by done. apply Htasks.
    + intros id h Hl. destruct (task_step_new_handle _ _ _ _ _ _ _ Ht Hl) as [Hold|Hst];
        [by apply Hext|]. right. destruct (Htasks i t _ Hi Hst) as (t0 & ? & ?). by exists i, t0.
  - case_bool_decide as Hi; [|done]. simpl in Hstep. destruct (may_spawn t st) eqn:Hmay; [|done].
    injection Hstep as <-. split; simpl; [done| |done].
    intros j tj cand [[<- <-]|[_ Hj]]%lookup_insert_Some Hst; [by destruct t|by eapply Htasks].
  - by injection Hstep as <-.
  - by injection Hstep as <-.
Qed.

Lemma winding_down_run cs w0 w w' :
  no_new_starts cs → winding_down w0 w → world_run cs w = Some w' → winding_down w0 w'.
Proof.
  revert w. induction cs as [|c cs IH]; intros w Hcs Hw; cbn [world_run].
  { by intros [= <-]. }
  apply Forall_cons in Hcs as [Hc Hcs]. intros (w1 & Hs & Hrun)%bind_Some.
  eapply IH; [done| |done]. eapply winding_down_step; [|done..]. by repeat constructor.
Qed.

Lemma solo_more inp n m t st st' :
  solo (repeat inp n) t st = (st', None) → (n ≤ m)%nat → solo (repeat inp m) t st = (st', None).
Proof.
  revert m t st. induction n as [|n IH]; intros m t st Hs Hle; [done|].
  destruct m as [|m]; [lia|]. cbn [repeat solo] in *.
  destruct (task_step inp t st) as [st1 [t1|]]; [|done]. apply IH; [done|lia].
Qed.

Lemma solo_start inp cand path st :
  solo (repeat inp 6) (TLaunch cand path) st =
  (record_start cand (start_extension (in_generation inp) (in_launched inp) cand path st), None).
Proof.
  cbn [repeat solo task_step]. unfold start_extension.
  destruct (in_launched inp) as [[pid reg]|e]; [|done]. cbn [solo task_step].
  destruct (register_extension _ st); reflexivity.
Qed.

Lemma solo_step inp n t st st1 t1 :
  task_step inp t st = (st1, Some t1) → solo (repeat inp (S n)) t st = solo (repeat inp n) t1 st1.
Proof. intros Hs. cbn [repeat solo]. by rewrite Hs. Qed.

Lemma solo_end inp n t st st1 :
  task_step inp t st = (st1, None) → solo (repeat inp (S n)) t st = (st1, None).
Proof. intros Hs. cbn [repeat solo]. by rewrite Hs. Qed.

Lemma solo_decide inp cand path st :
  solo (repeat inp 11) (TShouldRespawn cand path) st =
  (if negb (should_respawn cand st) then st
   else match next_respawn_delay (in_now inp) cand st with
        | (None, st2) => st2
        | (Some _, st2) =>
            if negb (should_respawn cand st2) || extension_candidate_is_active cand st2
            then st2
            else record_start cand
                   (start_extension (in_generation inp) (in_launched inp) cand path st2)
        end, None).
Proof.
  destruct (should_respawn cand st) eqn:Hd; cbn [negb].
  2:{ apply solo_end. cbn [task_step]. by rewrite Hd. }
  erewrite solo_step by (cbn [task_step]; by rewrite Hd). unfold next_respawn_delay.
  destruct (respawn_policy _ _ _) as [[d|] s] eqn:Hp.
  2:{ do 2 (erewrite solo_step by (cbn [task_step]; rewrite ?Hp; reflexivity)).
      by apply solo_end. }
  do 2 (erewrite solo_step by (cbn [task_step]; rewrite ?Hp; reflexivity)).
  set (st2 := on_supervisor _ _).
  destruct (negb (should_respawn cand st2) || extension_candidate_is_active cand st2) eqn:Hr.
  { apply solo_end. cbn [task_step]. by rewrite Hr. }
  erewrite solo_step by (cbn [task_step]; by rewrite Hr).
  eapply solo_more; [apply solo_start|lia].
Qed.

Lemma solo_supervise inp cand id path gen reason respawn st :
  solo (repeat inp 16) (TRemove cand id path gen reason respawn) st =
  (supervise_exit inp cand id path gen reason respawn st, None).
Proof.
  unfold supervise_exit, cleanup_extension_generation.
  destruct (remove_generation id gen st) as [[h|] st1] eqn:Hr.
  2:{ apply solo_end. cbn [task_step]. by rewrite Hr. }
  erewrite solo_step by (cbn [task_step]; by rewrite Hr).
  do 3 (erewrite solo_step by reflexivity).
  destruct respawn; [|by apply solo_end].
  erewrite solo_step by reflexivity. cbn [negb orb].
  rewrite (solo_decide inp cand path). done.
Qed.
End supervision.
Arguments World : clear implicits.

(** ** Theorems *)

(** C4: however the sections of any number of starts, exits, drains and reloads
    interleave, the registry stays well formed: handles are filed under the ids
    they claim, one per candidate, the namespaces of different owners are
    disjoint, and a route leads to an extension that claims it.  When no
    unrouting is in progress, every routed key is dispatched to such an
    extension and every channel prefix belongs to a running extension: nothing
    leaks. *)
Theorem registry_survives_interleaving {Db : Type} `{HashOrder} cs (w0 w : World Db) :
  initial w0 → world_run cs w0 = Some w →
  registry_ok (w_state w) ∧
  ((∀ i t o, w_tasks w !! i = Some t → ¬ will_unprefix o t) →
   (∀ key o, i_routes (w_state w) !! key = Some o →
      ∃ h, dispatch_lookup key (w_state w) = Ok h ∧ h_id h = o ∧ key ∈ h_paths h) ∧
   (∀ p o, i_prefixes (w_state w) !! p = Some o → is_Some (i_extensions (w_state w) !! o))).
Proof.
  intros Hinit%world_ok_initial Hrun. apply (world_ok_run cs) in Hrun as [Hok _ Hr Hp]; [|done].
  split; [done|]. intros Hquiet. split.
  - intros key o Hl. destruct (Hr key o Hl) as [[h He]|(i & t & Hi & Ht)].
    + exists h. unfold dispatch_lookup. rewrite Hl, He. split; [done|].
      split; [by apply (filed _ Hok)|by eapply routes_are_claims].
    + exfalso. apply (Hquiet i t o Hi). by destruct t.
  - intros p o Hl. destruct (Hp p o Hl) as [He|(i & t & Hi & Ht)]; [done|].
    by destruct (Hquiet i t o Hi).
Qed.


(** C13: after a shutdown has begun no supervisor brings an extension back: in any
    further interleaving without a new start loop, every extension that is
    registered was already registered, or was already being started, when the
    shutdown began. *)
Theorem shutdown_stops_respawns {Db : Type} `{HashOrder} cs (w w' : World Db) id h :
  i_shutting_down (w_state w) = true → no_new_starts cs → world_run cs w = Some w' →
  i_extensions (w_state w') !! id = Some h →
  i_extensions (w_state w) !! id = Some h ∨
  ∃ i t, w_tasks w !! i = Some t ∧ starting (candidate_id h) t.
Proof.
  intros Hdown Hcs Hrun. assert (winding_down w w) as Hw.
  { split; [done| |by left]. intros i t cand Hi Ht. by exists t. }
  apply (winding_down_run cs w) in Hrun; [|done..]. apply (wd_extensions _ _ Hrun).
Qed.

(** ** Witnesses *)

#[local] Existing Instance some_order.

Definition demo_input (gen : Uuid) (r : ExtensionRegistration) : Input :=
  MkInput 0 gen (Ok (None, r)).
Definition reg_a : ExtensionRegistration := MkExtensionRegistration "a" [] ["shared"].
Definition reg_b : ExtensionRegistration := MkExtensionRegistration "b" [] ["shared.sub"].

Definition run_times (i n : nat) (inp : Input) : list Choice := repeat (CRun i inp) n.

(** Extension [a] is started from its candidate by task [i]. *)
Definition start_choices (i : nat) (cand : string) (gen : Uuid) (r : ExtensionRegistration)
    : list Choice :=
  CSpawn i (TCheckActive cand "/bin/x") :: run_times i 6 (demo_input gen r).

Definition blank_world : World (list (Z * string)) := MkWorld blank_state ∅.

Lemma registry_survives_interleaving_witness :
  ∃ w h, world_run (start_choices 1 "a" 7 reg_a) blank_world = Some w ∧
    dispatch_lookup "a" (w_state w) = Ok h ∧ h_id h = "a".
Proof.
  destruct (world_run (start_choices 1 "a" 7 reg_a) blank_world) as [w|] eqn:E.
  2:{ exfalso. vm_compute in E. discriminate E. }
  assert (initial blank_world) as Hinit by (repeat split).
  pose proof (registry_survives_interleaving _ _ _ Hinit E) as [_ Hq].
  assert (w_tasks w = ∅) as Ht by (vm_compute in E; injection E as <-; vm_compute; reflexivity).
  assert (i_routes (w_state w) !! "a" = Some "a") as Hr
    by (vm_compute in E; injection E as <-; vm_compute; reflexivity).
  destruct Hq as [Hq _].
  { intros i t o Hi. rewrite Ht, lookup_empty in Hi. discriminate Hi. }
  destruct (Hq "a" "a" Hr) as (h & Hd & Hid & _). exists w, h. clear E.
  split; [reflexivity|split; assumption].
Defined.


(** A supervisor wakes from its back-off, and an exit is reported, after the
    shutdown has begun; the start of [b] was past its check. *)
Definition closing_world : World (list (Z * string)) :=
  MkWorld (begin_shutdown blank_state)
    {[ 1%nat := TSleep "a" "/bin/a" 250; 2%nat := TLaunch "b" "/bin/b" ]}.
Definition closing_choices : list Choice :=
  run_times 1 2 (demo_input 7 reg_a) ++ run_times 2 2 (demo_input 8 reg_b)
  ++ [CSpawn 3 (TRemove "b" "c" "/bin/c" 9 "exited" true)].

Lemma shutdown_stops_respawns_witness :
  match world_run closing_choices closing_world with
  | Some w' =>
      (h_id <$> i_extensions (w_state w') !! "b" = Some "b") ∧
      ∃ i t, w_tasks closing_world !! i = Some t ∧ starting "b" t
  | None => False
  end.
Proof.
  destruct (world_run closing_choices closing_world) as [w'|] eqn:E.
  2:{ vm_compute in E. discriminate E. }
  assert (no_new_starts closing_choices) as Hcs by (repeat constructor).
  assert (∃ h, i_extensions (w_state w') !! "b" = Some h ∧ h_id h = "b" ∧ candidate_id h = "b")
    as (h & Hl & Hid & Hcand)
    by (vm_compute in E; injection E as <-; eexists; split; [vm_compute; reflexivity|];
        split; vm_compute; reflexivity).
  pose proof (shutdown_stops_respawns closing_choices closing_world w' "b" h eq_refl Hcs E Hl)
    as [Hold|(i & t & Hi & Ht)]; [vm_compute in Hold; discriminate Hold|].
  clear E. rewrite Hcand in Ht. rewrite Hl. cbn [fmap option_fmap option_map]. rewrite Hid.
  split; [reflexivity|]. exists i, t. split; assumption.
Defined.

(** *** What the unrouting of a dead generation can do to its successor

    The clean-up of [a]'s first generation is interrupted between its routes
    and its prefixes; a reload starts the second generation, which registers;
    then the clean-up removes the prefix of the second generation, and another
    extension may register one below it.  Both are running, both may emit on
    the same channel. *)
Definition stale_unroute : list Choice :=
  start_choices 1 "a" 7 reg_a
  ++ [CSpawn 2 (TRemove "a" "a" "/bin/x" 7 "exited" true)]
  ++ run_times 2 2 (demo_input 0 reg_a)     (* the generation and its routes are gone *)
  ++ start_choices 3 "a" 8 reg_a            (* SIGHUP starts it again *)
  ++ run_times 2 2 (demo_input 0 reg_a)     (* the rest of the first unrouting *)
  ++ start_choices 4 "b" 9 reg_b.

Lemma stale_unroute_drops_a_live_prefix :
  match world_run stale_unroute blank_world with
  | Some w =>
      i_prefixes (w_state w) !! "shared" = None ∧
      (λ h, is_ok (validate_emitted_channel "shared.sub.x" (h_id h) (h_paths h) (h_channels h)))
        <$> i_extensions (w_state w) !! "a" = Some true ∧
      (λ h, is_ok (validate_emitted_channel "shared.sub.x" (h_id h) (h_paths h) (h_channels h)))
        <$> i_extensions (w_state w) !! "b" = Some true
  | None => False
  end.
Proof. vm_compute. repeat split. Qed.

(** An extension removed by one reload and wanted again by the next, which
    comes before its clean-up has finished unrouting, is left running without
    routes: its requests are answered "starting" for ever. *)
Definition reenabled_while_draining : list Choice :=
  start_choices 1 "fake" 7 (MkExtensionRegistration "fake" [] [])
  ++ [CSpawn 2 (TUnrouteRoutes (handle_of "fake" "/bin/x" 7 None (MkExtensionRegistration "fake" [] [])) ThenDrain)]
  ++ run_times 2 4 (demo_input 0 reg_a)
  ++ [CSpawn 3 (TRemove "fake" "fake" "/bin/x" 7 "removed from config" false)]
  ++ run_times 3 1 (demo_input 0 reg_a)     (* the old generation leaves the registry *)
  ++ start_choices 4 "fake" 8 (MkExtensionRegistration "fake" [] [])
  ++ run_times 3 4 (demo_input 0 reg_a).

Lemma reenabled_extension_loses_its_routes :
  match world_run reenabled_while_draining blank_world with
  | Some w =>
      w_tasks w = ∅ ∧ generation <$> i_extensions (w_state w) !! "fake" = Some 8 ∧
      dispatch_lookup "fake" (w_state w) = Err Starting
  | None => False
  end.
Proof. vm_compute. repeat split. Qed.
