(* ===== verification/Dispatch.v ===== *)
(** * Dispatch: requests to extensions, their replies, and the reader task

    [crates/whdr-server/src/daemon.rs]: [EventStats], [ExtHandle::dispatch],
    [ExtensionReaderTask::run] and [handle_protocol_error].  The dispatch window
    is DispatchWindow.v, used here at the type of results; the atomics are the
    [Counters] of AppState.v; a supervisor's command channel is the list of
    commands sent to it. *)

From S2P Require Import Prelude.
From S2P Require Import Text.
From S2P Require Import Channel.
From S2P Require Import Messages.
From S2P Require Import Config.
From S2P Require Import ChannelClaims.
From S2P Require Import DispatchWindow.
From S2P Require Import ExtensionProcess.
From S2P Require Import AppState.

Local Open Scope Z_scope.

(** ** Definitions *)

Record ExtResult : Type := MkExtResult { er_http : HttpReply; er_events : list Event }.

Inductive SupervisorCommand : Type :=
  | DrainStop (reason : string) (done : bool)
  | KillAndRespawn (reason : string).

(** [supervisor_tx.try_send] on the channel of four. *)
Definition try_send (cmd : SupervisorCommand) (mailbox : list SupervisorCommand)
    : list SupervisorCommand :=
  if len mailbox <? 4 then mailbox ++ [cmd] else mailbox.

(** *** Counters *)

Definition on_violations (v : Z) (c : Counters) : Counters :=
  MkCounters (protocol_errors c) v (consecutive_timeouts c) (c_restarts c) (emitted c)
    (last_event_at c).
Definition on_timeouts (n : Z) (c : Counters) : Counters :=
  MkCounters (protocol_errors c) (namespace_violations c) n (c_restarts c) (emitted c)
    (last_event_at c).
Definition on_protocol_errors (n : Z) (c : Counters) : Counters :=
  MkCounters n (namespace_violations c) (consecutive_timeouts c) (c_restarts c) (emitted c)
    (last_event_at c).

(** [EventStats::record] and [last_event_at_ms]. *)
Definition record_events (count now : Z) (c : Counters) : Counters :=
  if count =? 0 then c
  else MkCounters (protocol_errors c) (namespace_violations c) (consecutive_timeouts c)
         (c_restarts c) (wrap64 (emitted c + count)) now.
Definition last_event_at_ms (c : Counters) : option Z :=
  if last_event_at c =? 0 then None else Some (last_event_at c).

(** The namespace filter of a handle, with its violation counter. *)
Definition filter_handle (handle : ExtHandle) (events : list Event) (c : Counters)
    : list Event * Counters :=
  let '(kept, v) := filter_owned_events (h_id handle) (h_paths handle) (h_channels handle)
    (namespace_violations c) events in
  (kept, on_violations v c).

(** *** [ExtHandle::dispatch] *)

Section dispatch.
(** [STANDARD.encode] of the [base64] crate. *)
Context (b64_encode : string → string).

Record Request : Type := MkRequest {
  rq_method : string;
  rq_path : string;
  rq_query : option string;
  rq_headers : gmap string string;
  rq_body : string
}.

(** The message for a reserved request id. *)
Definition dispatch_msg (cfg : Config) (handle : ExtHandle) (req_id : Uuid) (r : Request)
    : SrvMsg :=
  Dispatch req_id (rq_method r) (rq_path r) (rq_query r) (rq_headers r) (b64_encode (rq_body r))
    (secrets cfg !! h_id handle).

(** What a call leaves behind once its reservation, its send and its wait are
    over: its answer, the events handed to the fan-out, the counters and the
    supervisor's commands. *)
Record Finished : Type := MkFinished {
  f_answer : result DispatchError ExtResult;
  f_fanout : list Event;
  f_counters : Counters;
  f_mailbox : list SupervisorCommand
}.

Definition hang_threshold (cfg : Config) : Z := Z.max (hang_kill_threshold (limits cfg)) 1.

Definition hang_reason (timeouts : Z) : string := pretty timeouts +:+ " consecutive dispatch timeouts".

(** [Cancelled] is a closed [tx]: the writer task is gone and the reservation
    is removed. *)
Definition dispatch_finish (cfg : Config) (handle : ExtHandle) (now : Z)
    (o : Outcome ExtResult) (c : Counters) (mailbox : list SupervisorCommand) : Finished :=
  match o with
  | DispatchWindow.Busy => MkFinished (Err Busy) [] c mailbox
  | DispatchWindow.Result r =>
      let '(events, c1) := filter_handle handle (er_events r) c in
      MkFinished (Ok (MkExtResult (er_http r) events)) events
        (record_events (len events) now c1) mailbox
  | DispatchWindow.Dead | Cancelled => MkFinished (Err Dead) [] c mailbox
  | Timeout =>
      let timeouts := wrap64 (consecutive_timeouts c + 1) in
      MkFinished (Err DispatchTimeout) [] (on_timeouts timeouts c)
        (if timeouts =? hang_threshold cfg
         then try_send (KillAndRespawn (hang_reason timeouts)) mailbox else mailbox)
  end.
End dispatch.

(** *** The reader task *)

Section reader.
Context {W : Wire ExtMsg}.

(** [rd_fanned] is the arguments of the fan-outs so far. *)
Record Reader : Type := MkReader {
  rd_window : @Window ExtResult;
  rd_counters : Counters;
  rd_mailbox : list SupervisorCommand;
  rd_fanned : list (list Event)
}.

Definition protocol_threshold (cfg : Config) : Z := Z.max (max_protocol_errors (limits cfg)) 1.

(** [handle_protocol_error]: whether the reader stops. *)
Definition handle_protocol_error (cfg : Config) (rd : Reader) : Reader * bool :=
  let count := wrap64 (protocol_errors (rd_counters rd) + 1) in
  let c := on_protocol_errors count (rd_counters rd) in
  if protocol_threshold cfg <=? count
  then (MkReader (rd_window rd) c
          (rd_mailbox rd ++ [KillAndRespawn (pretty count +:+ " protocol errors")])
          (rd_fanned rd), true)
  else (MkReader (rd_window rd) c (rd_mailbox rd) (rd_fanned rd), false).

(** [dispatches.remove(&req_id)] and, when a call was waiting, the rest of its
    arm. *)
Definition handle_result (handle : ExtHandle) (req_id : Uuid) (http : HttpReply)
    (events : list Event) (rd : Reader) : Reader :=
  match pending (rd_window rd) !! req_id with
  | None => rd
  | Some _ =>
      let '(kept, c) := filter_handle handle events (on_timeouts 0 (rd_counters rd)) in
      MkReader (default (rd_window rd) (act (ARemove req_id (MkExtResult http kept)) (rd_window rd)))
        c (rd_mailbox rd) (rd_fanned rd)
  end.

Definition handle_event (handle : ExtHandle) (now : Z) (ev : Event) (rd : Reader) : Reader :=
  let '(events, c) := filter_handle handle [ev] (rd_counters rd) in
  MkReader (rd_window rd) (record_events (len events) now c) (rd_mailbox rd)
    (rd_fanned rd ++ [events]).

(** One line; the flag says whether the reader stops. *)
Definition reader_line (cfg : Config) (handle : ExtHandle) (now : Z) (line : string) (rd : Reader)
    : Reader * bool :=
  match decode_line line with
  | Ok (Some (Messages.Result req_id http events)) =>
      (handle_result handle req_id http events rd, false)
  | Ok (Some (ExtEvent ev)) => (handle_event handle now ev rd, false)
  | Ok (Some (Log _ _)) => (rd, false)
  | Ok (Some (Register _ _ _ _ _)) => (rd, false)
  | Ok None => (rd, false)
  | Err _ => handle_protocol_error cfg rd
  end.

(** The loop, over the lines the extension writes; each comes with whether the
    generation is still registered when it is read, and the clock. *)
Fixpoint reader_run (cfg : Config) (handle : ExtHandle) (lines : list (string * bool * Z))
    (rd : Reader) : Reader :=
  match lines with
  | [] => rd
  | (line, active, now) :: rest =>
      if negb active then rd
      else let '(rd', stop) := reader_line cfg handle now line rd in
           if stop then rd' else reader_run cfg handle rest rd'
  end.

(** ** Specification *)

Definition malformed (line : string) : Prop := is_ok (decode_line (A := ExtMsg) line) = false.
#[global] Instance malformed_dec line : Decision (malformed line).
Proof. unfold malformed. apply _. Defined.

(** The lines of a running extension. *)
Definition live (lines : list (string * Z)) : list (string * bool * Z) :=
  (λ l, (l.1, true, l.2)) <$> lines.

(** The events a line publishes. *)
Definition line_events (handle : ExtHandle) (line : string) : list (list Event) :=
  match decode_line line with
  | Ok (Some (ExtEvent ev)) => [filter (λ ev, owned (h_paths handle) (h_channels handle) ev) [ev]]
  | _ => []
  end.

(** ** Lemmas *)

Lemma filter_handle_spec handle events c :
  is_u64 (namespace_violations c) →
  filter_handle handle events c =
    (filter (λ ev, owned (h_paths handle) (h_channels handle) ev) events,
     on_violations (wrap64 (namespace_violations c +
       len (filter (λ ev, ¬ owned (h_paths handle) (h_channels handle) ev) events))) c).
Proof. intros Hv. unfold filter_handle. by rewrite filter_owned_spec. Qed.

(** Filtering what a filter kept. *)
Section filters.
Context {A : Type} (P : A → Prop) `{∀ x, Decision (P x)}.
Lemma filter_kept (l : list A) : filter P (filter P l) = filter P l.
Proof. apply filter_all, Forall_forall. by intros x [? _]%list_elem_of_filter. Qed.
Lemma filter_unkept (l : list A) : filter (λ x, ¬ P x) (filter P l) = [].
Proof.
  apply filter_none, Forall_forall. intros x [? _]%list_elem_of_filter. tauto.
Qed.
Lemma len_filter_not (l : list A) : len (filter (λ x, ¬ P x) l) = len l - len (filter P l).
Proof.
  induction l as [|x l IH]; [done|]. rewrite !filter_cons, len_cons.
  destruct (decide (P x)); [rewrite decide_False by tauto|rewrite decide_True by done];
    rewrite ?len_cons; lia.
Qed.
End filters.

(** The counters stay machine integers. *)
Definition counters_ok (c : Counters) : Prop :=
  is_u64 (namespace_violations c) ∧ is_u64 (protocol_errors c).

Lemma reader_line_ok cfg handle now line rd rd' stop :
  counters_ok (rd_counters rd) → reader_line cfg handle now line rd = (rd', stop) →
  counters_ok (rd_counters rd').
Proof.
  intros Hok. unfold reader_line, handle_result, handle_event, handle_protocol_error.
  pose proof wrap64_range. destruct Hok as [Hv Hp].
  repeat case_match; intros; simplify_eq; try done;
    repeat match goal with Hf : filter_handle _ _ _ = _ |- _ =>
      rewrite filter_handle_spec in Hf by done; simplify_eq end;
    unfold record_events; repeat case_match; split; simpl; auto.
Qed.

Lemma reader_line_fanned cfg handle now line rd rd' stop :
  counters_ok (rd_counters rd) → reader_line cfg handle now line rd = (rd', stop) →
  rd_fanned rd' = rd_fanned rd ++ line_events handle line.
Proof.
  intros [Hv _]. unfold reader_line, line_events, handle_result, handle_event, handle_protocol_error.
  repeat case_match; intros; simplify_eq; rewrite ?app_nil_r; try done.
  match goal with Hf : filter_handle _ _ _ = _ |- _ => by rewrite filter_handle_spec in Hf by done; simplify_eq end.
Qed.

Lemma reader_line_good cfg handle now line rd :
  ¬ malformed line →
  ∃ rd', reader_line cfg handle now line rd = (rd', false) ∧
    protocol_errors (rd_counters rd') = protocol_errors (rd_counters rd) ∧
    rd_mailbox rd' = rd_mailbox rd.
Proof.
  unfold malformed, reader_line, handle_result, handle_event, filter_handle, record_events.
  intros Hg. destruct (decode_line line) as [[[]|]|e]; [..|done]; try (eexists; done).
  - destruct (pending _ !! _); [|eexists; done]. destruct (filter_owned_events _ _ _ _ _).
    by eexists.
  - destruct (filter_owned_events _ _ _ _ _). case_match; by eexists.
Qed.

Lemma reader_line_bad cfg handle now line rd :
  malformed line → reader_line cfg handle now line rd = handle_protocol_error cfg rd.
Proof. unfold malformed, reader_line. by destruct (decode_line line). Qed.

(** Reading below the threshold. *)
Lemma reader_run_below cfg handle lines rd :
  counters_ok (rd_counters rd) →
  protocol_errors (rd_counters rd) + len (filter malformed lines.*1) < protocol_threshold cfg →
  protocol_threshold cfg < 2 ^ 64 →
  ∃ rd', (∀ rest, reader_run cfg handle (live lines ++ rest) rd = reader_run cfg handle rest rd') ∧
    counters_ok (rd_counters rd') ∧
    protocol_errors (rd_counters rd') =
      protocol_errors (rd_counters rd) + len (filter malformed lines.*1) ∧
    rd_mailbox rd' = rd_mailbox rd ∧
    rd_fanned rd' = rd_fanned rd ++ (lines.*1 ≫= line_events handle).
Proof.
  intros Hok Hlt Hth. revert rd Hok Hlt. induction lines as [|[line now] lines IH]; intros rd Hok Hlt.
  { exists rd. simpl. rewrite Z.add_0_r, app_nil_r. done. }
  destruct (reader_line cfg handle now line rd) as [rd1 stop] eqn:Hline.
  pose proof (reader_line_ok _ _ _ _ _ _ _ Hok Hline) as Hok1.
  pose proof (reader_line_fanned _ _ _ _ _ _ _ Hok Hline) as Hfan.
  rewrite fmap_cons, filter_cons in Hlt |- *. cbn [fst] in Hlt |- *.
  pose proof (len_nonneg (filter malformed lines.*1)).
  assert (stop = false ∧ rd_mailbox rd1 = rd_mailbox rd ∧ protocol_errors (rd_counters rd1) =
    protocol_errors (rd_counters rd) + (if decide (malformed line) then 1 else 0)) as (-> & Hmb & Hpe).
  { case_decide as Hm.
    - rewrite reader_line_bad in Hline by done. unfold handle_protocol_error in Hline.
      rewrite len_cons in Hlt. destruct Hok as [_ Hp]. unfold is_u64 in Hp.
      rewrite wrap64_small in Hline by (unfold is_u64; lia).
      rewrite (proj2 (Z.leb_gt _ _)) in Hline by lia. by simplify_eq.
    - destruct (reader_line_good cfg handle now line rd Hm) as (rd2 & Heq & Hp & Hb).
      rewrite Heq in Hline. injection Hline as <- <-. rewrite Z.add_0_r. auto. }
  destruct (IH rd1) as (rd' & Hrun & Hok' & Hpe' & Hmb' & Hfan'); [done| |].
  { rewrite Hpe. case_decide; rewrite ?len_cons in Hlt; lia. }
  exists rd'. split.
  { intros rest. rewrite <- Hrun. cbn [live fmap list_fmap app reader_run negb fst snd]. by rewrite Hline. }
  split; [done|]. rewrite Hpe', Hpe, Hmb', Hfan', Hfan, Hmb. split; [|split; [done|]].
  - case_decide; rewrite ?len_cons; lia.
  - cbn [mbind list_bind]. by rewrite app_assoc.
Qed.

(** The line that reaches the threshold. *)
Lemma reader_run_stops cfg handle bad now post rd :
  malformed bad → protocol_errors (rd_counters rd) = protocol_threshold cfg - 1 →
  protocol_threshold cfg < 2 ^ 64 →
  reader_run cfg handle ((bad, true, now) :: post) rd =
    MkReader (rd_window rd) (on_protocol_errors (protocol_threshold cfg) (rd_counters rd))
      (rd_mailbox rd ++ [KillAndRespawn (pretty (protocol_threshold cfg) +:+ " protocol errors")])
      (rd_fanned rd).
Proof.
  intros Hbad Hpe Hth. cbn [reader_run negb]. rewrite reader_line_bad by done.
  unfold handle_protocol_error. rewrite Hpe, Z.sub_add, wrap64_small.
  - by rewrite (proj2 (Z.leb_le _ _)) by lia.
  - unfold is_u64, protocol_threshold in *. lia.
Qed.
End reader.

(** *** Hangs *)

(** What moves the counter of consecutive timeouts: a dispatch that times out,
    or a result the reader matched to a call. *)
Inductive HangStep : Type := HangTimeout | HangResult.

(** The commands sent, each to a channel with room. *)
Definition hang_step (cfg : Config) (handle : ExtHandle) (s : HangStep)
    (acc : Counters * list SupervisorCommand) : Counters * list SupervisorCommand :=
  match s with
  | HangTimeout =>
      let f := dispatch_finish cfg handle 0 Timeout acc.1 [] in
      (f_counters f, acc.2 ++ f_mailbox f)
  | HangResult => (on_timeouts 0 acc.1, acc.2)
  end.
Definition hang_run (cfg : Config) (handle : ExtHandle) (steps : list HangStep) (c : Counters)
    : Counters * list SupervisorCommand :=
  foldl (λ acc s, hang_step cfg handle s acc) (on_timeouts 0 c, []) steps.

(** The timeouts since the last result. *)
Definition streak (steps : list HangStep) : Z :=
  foldl (λ n s, match s with HangTimeout => n + 1 | HangResult => 0 end) 0 steps.

Lemma streak_bound steps : 0 ≤ streak steps ≤ len steps.
Proof.
  unfold streak. induction steps as [|s steps IH] using rev_ind; [done|].
  rewrite foldl_snoc, len_app. change (len [s]) with 1. destruct s; lia.
Qed.

Lemma hang_run_timeouts cfg handle steps c :
  len steps < 2 ^ 64 → consecutive_timeouts (hang_run cfg handle steps c).1 = streak steps.
Proof.
  unfold hang_run, streak. induction steps as [|s steps IH] using rev_ind; intros Hlen; [done|].
  rewrite len_app in Hlen. change (len [s]) with 1 in Hlen. rewrite !foldl_snoc.
  destruct s; [|done]. cbn [hang_step dispatch_finish f_counters fst on_timeouts consecutive_timeouts].
  rewrite IH by lia. pose proof (streak_bound steps) as Hb. unfold streak in Hb.
  apply wrap64_small. unfold is_u64. lia.
Qed.

(** ** Theorems *)

(** C31: a reader stops at exactly the [max_protocol_errors]-th malformed line (at
    least the first): it asks for one kill, ignores every later line, and has
    published exactly the owned events of the lines before; with fewer
    malformed lines it reads them all and asks for nothing. *)
Theorem reader_stops_at_protocol_threshold {W : Wire ExtMsg} cfg handle rd pre :
  counters_ok (rd_counters rd) → protocol_errors (rd_counters rd) = 0 →
  protocol_threshold cfg < 2 ^ 64 →
  (len (filter malformed pre.*1) < protocol_threshold cfg →
   let rd' := reader_run cfg handle (live pre) rd in
   protocol_errors (rd_counters rd') = len (filter malformed pre.*1) ∧
   rd_mailbox rd' = rd_mailbox rd ∧
   rd_fanned rd' = rd_fanned rd ++ (pre.*1 ≫= line_events handle)) ∧
  (∀ bad now post, malformed bad →
   len (filter malformed pre.*1) = protocol_threshold cfg - 1 →
   let rd' := reader_run cfg handle (live (pre ++ (bad, now) :: post)) rd in
   rd_mailbox rd' =
     rd_mailbox rd ++ [KillAndRespawn (pretty (protocol_threshold cfg) +:+ " protocol errors")] ∧
   rd_fanned rd' = rd_fanned rd ++ (pre.*1 ≫= line_events handle) ∧
   rd' = reader_run cfg handle (live (pre ++ [(bad, now)])) rd).
Proof.
  intros Hok Hz Hth. split.
  - intros Hlt. destruct (reader_run_below cfg handle pre rd) as (rd' & Hrun & _ & Hpe & Hmb & Hf);
      [done|lia|done|]. specialize (Hrun []). rewrite app_nil_r in Hrun. cbv zeta.
    rewrite Hrun. cbn [reader_run]. rewrite Hpe, Hz. done.
  - intros bad now post Hbad Hn. cbv zeta.
    destruct (reader_run_below cfg handle pre rd) as (rd1 & Hrun & _ & Hpe & Hmb & Hf);
      [done|lia|done|].
    assert (∀ tl, reader_run cfg handle (live (pre ++ (bad, now) :: tl)) rd =
      MkReader (rd_window rd1) (on_protocol_errors (protocol_threshold cfg) (rd_counters rd1))
        (rd_mailbox rd1 ++ [KillAndRespawn (pretty (protocol_threshold cfg) +:+ " protocol errors")])
        (rd_fanned rd1)) as Hstop.
    { intros tl. unfold live at 1. rewrite fmap_app. fold (live pre). rewrite Hrun, fmap_cons.
      apply reader_run_stops; [done|lia|done]. }
    rewrite !Hstop. cbn [rd_mailbox rd_fanned]. by rewrite Hmb, Hf.
Qed.

(** A dispatch is filtered twice, by the reader and again when it completes:
    the second pass drops nothing and counts nothing, so what a call returns and
    publishes is exactly the owned events of the result line, each unowned one
    counted once, and the streak of timeouts is over. *)
Theorem result_events_are_filtered_once cfg handle req_id http events rd now mailbox c0 :
  counters_ok (rd_counters rd) → pending (rd_window rd) !! req_id = Some c0 →
  let kept := filter (λ ev, owned (h_paths handle) (h_channels handle) ev) events in
  let rd' := handle_result handle req_id http events rd in
  let f := dispatch_finish cfg handle now (DispatchWindow.Result (MkExtResult http kept))
             (rd_counters rd') mailbox in
  act (ARemove req_id (MkExtResult http kept)) (rd_window rd) = Some (rd_window rd') ∧
  f_answer f = Ok (MkExtResult http kept) ∧ f_fanout f = kept ∧
  namespace_violations (f_counters f) =
    wrap64 (namespace_violations (rd_counters rd) + (len events - len kept)) ∧
  consecutive_timeouts (f_counters f) = 0 ∧ f_mailbox f = mailbox.
Proof.
  intros [Hv _] Hp. cbv zeta. unfold handle_result. rewrite Hp, filter_handle_spec by done.
  cbn [rd_window rd_counters on_timeouts namespace_violations]. unfold act at 1 2. rewrite Hp.
  cbn [default dispatch_finish er_events er_http].
  rewrite filter_handle_spec by apply wrap64_range.
  cbn [on_violations namespace_violations].
  rewrite filter_kept, filter_unkept. change (len []) with 0.
  rewrite Z.add_0_r, (wrap64_small (wrap64 _)) by apply wrap64_range.
  rewrite len_filter_not. unfold record_events. split_and!; try done; by case_match.
Qed.

(** An extension is asked to be killed exactly when its timeouts since the
    last result reach the threshold: once per streak, however long. *)
Theorem hang_kill_fires_once_per_streak cfg handle steps s c :
  len steps < 2 ^ 64 - 1 →
  (hang_run cfg handle (steps ++ [s]) c).2 =
    (hang_run cfg handle steps c).2 ++
    (if bool_decide (streak (steps ++ [s]) = hang_threshold cfg)
     then [KillAndRespawn (hang_reason (hang_threshold cfg))] else []).
Proof.
  intros Hlen. pose proof (hang_run_timeouts cfg handle (steps ++ [s]) c) as Hs1.
  rewrite len_app in Hs1. change (len [s]) with 1 in Hs1. specialize (Hs1 ltac:(lia)).
  unfold hang_run in *. rewrite foldl_snoc in *. destruct s; cbn [hang_step snd fst] in *.
  - cbn [dispatch_finish f_counters f_mailbox on_timeouts consecutive_timeouts] in *.
    rewrite Hs1. case_bool_decide as Heq.
    + by rewrite Heq, Z.eqb_refl.
    + by rewrite (proj2 (Z.eqb_neq _ _)).
  - rewrite <- Hs1. cbn [on_timeouts consecutive_timeouts].
    rewrite bool_decide_eq_false_2, app_nil_r; [done|]. unfold hang_threshold. lia.
Qed.

(** ** Witnesses *)

(** A codec that knows one event line. *)
Definition one_event : Event := MkEvent "old.x" "".
Definition demo_wire : Wire ExtMsg := {|
  to_string _ := Err "not printed";
  from_str s := if String.eqb s "{event}" then Ok (ExtEvent one_event) else Err "expected value"
|}.
Definition demo_reader : Reader :=
  MkReader (DispatchWindow_new (T := ExtResult)) (MkCounters 0 0 2 0 0 0) [] [].

Lemma reader_stops_at_protocol_threshold_witness :
  malformed (W := demo_wire) "oops" ∧
  rd_mailbox (reader_run (W := demo_wire) demo_config old_handle
    (live ([("oops", 1); ("{event}", 2); ("oops", 3)] ++ ("oops", 4) :: [("{event}", 5)]))
    demo_reader) = [KillAndRespawn "3 protocol errors"].
Proof.
  split; [vm_compute; reflexivity|].
  assert (counters_ok (rd_counters demo_reader)) as Hok by (repeat split; vm_compute; congruence).
  assert (protocol_threshold demo_config < 2 ^ 64) as Hth by (vm_compute; reflexivity).
  destruct (reader_stops_at_protocol_threshold (W := demo_wire) demo_config old_handle demo_reader
    [("oops", 1); ("{event}", 2); ("oops", 3)] Hok eq_refl Hth) as [_ Hstop].
  assert (malformed (W := demo_wire) "oops") as Hbad by (vm_compute; reflexivity).
  destruct (Hstop "oops" 4 [("{event}", 5)] Hbad eq_refl) as [Hmb _].
  rewrite Hmb. reflexivity.
Defined.

(** Call 0 waits under request id 5; one of the two events is not [old]'s. *)
Definition waiting_window : @Window ExtResult :=
  default DispatchWindow_new
    (run_actions [ALoad 0 4; ACas 0 false; AInsert 0 5] (DispatchWindow_new (T := ExtResult))).
Definition waiting_reader : Reader := MkReader waiting_window (MkCounters 0 0 2 0 0 0) [] [].
Definition ok_reply : HttpReply := MkHttpReply 200 ∅ "ok".

Lemma result_events_are_filtered_once_witness :
  f_answer (dispatch_finish demo_config old_handle 9
    (DispatchWindow.Result (MkExtResult ok_reply [one_event]))
    (rd_counters (handle_result old_handle 5 ok_reply [one_event; MkEvent "new.x" ""] waiting_reader))
    []) = Ok (MkExtResult ok_reply [one_event]).
Proof.
  assert (counters_ok (rd_counters waiting_reader)) as Hok by (repeat split; vm_compute; congruence).
  assert (pending (rd_window waiting_reader) !! 5 = Some 0%nat) as Hp by (vm_compute; reflexivity).
  destruct (result_events_are_filtered_once demo_config old_handle 5 ok_reply
    [one_event; MkEvent "new.x" ""] waiting_reader 9 [] 0%nat Hok Hp) as (_ & Hans & _).
  assert (filter (λ ev, owned (h_paths old_handle) (h_channels old_handle) ev)
    [one_event; MkEvent "new.x" ""] = [one_event]) as Heq by (vm_compute; reflexivity).
  rewrite Heq in Hans. exact Hans.
Defined.

Lemma hang_kill_fires_once_per_streak_witness :
  (hang_run demo_config old_handle [HangResult; HangTimeout; HangTimeout; HangTimeout; HangTimeout]
    (rd_counters demo_reader)).2 = [KillAndRespawn "3 consecutive dispatch timeouts"].
Proof.
  assert (len [HangResult; HangTimeout; HangTimeout; HangTimeout] < 2 ^ 64 - 1) as Hlen
    by (vm_compute; reflexivity).
  pose proof (hang_kill_fires_once_per_streak demo_config old_handle
    [HangResult; HangTimeout; HangTimeout; HangTimeout] HangTimeout (rd_counters demo_reader) Hlen)
    as Hk.
  cbn [app] in Hk. rewrite Hk. vm_compute. reflexivity.
Defined.
