(* ===== verification/Ingest.v ===== *)
(** * Ingest: the HTTP plane of provider webhooks

    [crates/whdr-server/src/ingest.rs].  The route key of a request path, the
    handler with its server-generated answers, and the passage of an
    extension's reply to the response.  The checks of the [http] crate on status
    codes, header names and header values are parameters. *)

From S2P Require Import Prelude.
From S2P Require Import Text.
From S2P Require Import Messages.
From S2P Require Import Config.
From S2P Require Import AppState.
From S2P Require Import Dispatch.
From Stdlib Require Import Ascii.

Local Open Scope Z_scope.

(** ** Definitions *)

(** [path.trim_start_matches('/').split('/').find(|segment| !segment.is_empty())]. *)
Definition find_segment (segments : list string) : option string :=
  snd <$> list_find (λ segment, is_empty segment = false) segments.

Definition route_key_from_path (path : string) : option string :=
  find_segment (split_on "/" (trim_start_matches "/" path)).

Record Response : Type := MkResponse {
  rs_status : Z;
  rs_headers : gmap string string;
  rs_body : string
}.

(** [StatusCode::X.into_response()]. *)
Definition status_response (code : Z) : Response := MkResponse code ∅ EmptyString.

Section ingest.
(** [HeaderValue::to_str], [StatusCode::from_u16], [HeaderName::from_bytes] and
    [HeaderValue::from_str]; [text_headers] is what [into_response] sets for a
    string body. *)
Context (to_str : string → option string).
Context (from_u16 : Z → option Z).
Context (header_name header_value : string → option string).
Context (text_headers : gmap string string).

(** Later values of a repeated header replace earlier ones. *)
Definition header_map_to_btree (headers : list (string * string)) : gmap string string :=
  foldl (λ m nv,
    match to_str nv.2 with
    | Some value => <[to_ascii_lowercase nv.1 := value]> m
    | None => m
    end) ∅ headers.

(** One header of a reply. *)
Definition insert_header (m : gmap string string) (nv : string * string) : gmap string string :=
  match header_name nv.1, header_value nv.2 with
  | Some name, Some value => <[name := value]> m
  | _, _ => m
  end.

Definition http_reply_to_response (reply : HttpReply) : Response :=
  MkResponse (default 500 (from_u16 (status reply)))
    (foldl insert_header text_headers (btree_iter (headers reply)))
    (body reply).

(** [AppState::dispatch] with the call of the handle as a parameter. *)
Definition app_dispatch {Db} (call : ExtHandle → Request → result DispatchError ExtResult)
    (st : Inner Db) (route_key : string) (r : Request) : result DispatchError ExtResult :=
  handle ← dispatch_lookup route_key st;
  call handle r.

Definition ingest_handler {Db} (call : ExtHandle → Request → result DispatchError ExtResult)
    (st : Inner Db) (uri_path : string) (query : option string) (method : string)
    (headers : list (string * string)) (body : string) : Response :=
  if max_body_bytes (limits (i_config st)) <? slen body then status_response 413 else
  match route_key_from_path uri_path with
  | None => status_response 404
  | Some route_key =>
      let headers := header_map_to_btree headers in
      match app_dispatch call st route_key (MkRequest method uri_path query headers body) with
      | Ok result => http_reply_to_response (er_http result)
      | Err Busy => status_response 429
      | Err Starting =>
          let response := status_response 503 in
          MkResponse (rs_status response) (<["retry-after" := "1"]> (rs_headers response))
            (rs_body response)
      | Err DispatchTimeout => status_response 504
      | Err Dead => status_response 503
      | Err NotFound => status_response 404
      end
  end.
End ingest.

(** ** Lemmas *)

Lemma find_segment_cons s ss :
  find_segment (s :: ss) = if is_empty s then find_segment ss else Some s.
Proof.
  unfold find_segment. cbn [list_find]. destruct (is_empty s); [|by rewrite decide_True].
  rewrite decide_False by done. by destruct (list_find _ ss) as [[]|].
Qed.

Lemma find_segment_Some ss key :
  find_segment ss = Some key ↔
  ∃ pre post, ss = pre ++ key :: post ∧ Forall (λ s, s = EmptyString) pre ∧ key ≠ EmptyString.
Proof.
  induction ss as [|s ss IH].
  { split; [done|]. intros ([|] & ? & ? & _); done. }
  rewrite find_segment_cons. destruct (is_empty s) eqn:He.
  - apply is_empty_true in He as ->. rewrite IH. split.
    + intros (pre & post & -> & Hpre & Hk). exists (EmptyString :: pre), post. auto.
    + intros ([|p pre] & post & Heq & Hpre & Hk); simplify_eq/=; try done.
      apply Forall_cons in Hpre as [_ Hpre]. eauto.
  - apply is_empty_false in He. split.
    + intros [= ->]. by exists [], ss.
    + intros ([|p pre] & post & Heq & Hpre & Hk); simplify_eq/=; try done.
      by apply Forall_cons in Hpre as [-> _].
Qed.

Lemma trim_start_segments path :
  find_segment (split_on "/" (trim_start_matches "/" path)) = find_segment (split_on "/" path).
Proof.
  induction path as [|c path IH]; [done|]. cbn [trim_start_matches].
  destruct (Ascii.eqb_spec c "/") as [->|Hne]; [|done].
  rewrite IH. cbn [split_on]. by rewrite Ascii.eqb_refl, find_segment_cons.
Qed.

Lemma route_key_spec path key :
  route_key_from_path path = Some key ↔
  ∃ pre post, split_on "/" path = pre ++ key :: post ∧
    Forall (λ s, s = EmptyString) pre ∧ key ≠ EmptyString.
Proof. unfold route_key_from_path. by rewrite trim_start_segments, find_segment_Some. Qed.

(** Inserting every entry of a map. *)
Lemma insert_headers_union (header_name header_value : string → option string)
    (m d : gmap string string) :
  (∀ n v, m !! n = Some v → header_name n = Some n ∧ header_value v = Some v) →
  foldl (insert_header header_name header_value) d (btree_iter m) = m ∪ d.
Proof.
  intros Hid. apply map_eq. intros k.
  assert (∀ l : list (string * string), (∀ n v, (n, v) ∈ l → m !! n = Some v) → NoDup l.*1 →
    ∀ d, foldl (insert_header header_name header_value) d l !! k =
      match list_find (λ nv, nv.1 = k) l with Some (_, (_, v)) => Some v | None => d !! k end)
    as Hfold.
  { induction l as [|[n v] l IH]; intros Hin Hnd d'; [done|].
    cbn [foldl fmap list_fmap fst] in *. apply NoDup_cons in Hnd as [Hn Hnd].
    destruct (Hid n v) as [Hname Hvalue]; [apply Hin; left|].
    assert (insert_header header_name header_value d' (n, v) = <[n := v]> d') as ->
      by (unfold insert_header; cbn [fst snd]; by rewrite Hname, Hvalue).
    rewrite IH by (intros; first [done|apply Hin; by right]).
    cbn [list_find fst]. case_decide as Hk.
    - subst. rewrite lookup_insert_eq. destruct (list_find _ l) as [[i [n' v']]|] eqn:Hf; [|done].
      apply list_find_Some in Hf as (Hf & Heq & _). simpl in Heq. subst. exfalso. apply Hn.
      apply list_elem_of_fmap. exists (k, v'). split; [done|]. by eapply list_elem_of_lookup_2.
    - rewrite lookup_insert_ne by done. by destruct (list_find _ l) as [[? []]|]. }
  rewrite Hfold; [|intros n v; apply elem_of_btree_iter|apply NoDup_btree_iter].
  destruct (list_find _ (btree_iter m)) as [[i [n v]]|] eqn:Hf.
  - apply list_find_Some in Hf as (Hf & Heq & _). simpl in Heq. subst n.
    apply list_elem_of_lookup_2, elem_of_btree_iter in Hf. symmetry. by apply lookup_union_Some_l.
  - apply list_find_None in Hf. rewrite lookup_union_r; [done|].
    destruct (m !! k) as [v|] eqn:Hk; [|done]. apply elem_of_btree_iter in Hk.
    rewrite Forall_forall in Hf. by destruct (Hf _ Hk).
Qed.

(** ** Theorems *)


(** ** Witnesses *)

