(* ===== verification/ExtKit.v ===== *)
(** * ExtKit: what every extension process is built from

    [crates/whdr-ext-kit/src/lib.rs], [crates/whdr-ext-dev/src/lib.rs] and
    [exts/whdr-ext-github/src/lib.rs].  A handler turns a dispatch into a reply
    and events, or fails; [run_extension] registers and serves dispatches line
    by line.  The HMAC, hex, base64 and UTF-8 codecs are external: parameters
    whose documented laws are the class [CodecLaws].  Byte vectors are strings. *)

From S2P Require Import Prelude.
From S2P Require Import Text.
From S2P Require Import Channel.
From S2P Require Import Messages.
From S2P Require Import ChannelClaims.
From Stdlib Require Import Ascii.

Local Open Scope Z_scope.

(** ** The external codecs *)

Class Codec : Type := {
  hex_encode : string → string;
  hex_decode : string → option string;
  b64_encode : string → string;
  b64_decode : string → option string
}.

(** Decoding inverts encoding, and encodings are graphic ASCII. *)
Class CodecLaws `{Codec} : Prop := {
  hex_round_trip s : hex_decode (hex_encode s) = Some s;
  b64_round_trip s : b64_decode (b64_encode s) = Some s;
  hex_graphic s : bytes_all is_graphic (hex_encode s) = true;
  b64_graphic s : bytes_all is_graphic (b64_encode s) = true
}.

(** ** Definitions *)

Abbreviation DispatchResult := (result string (HttpReply * list Event)) (only parsing).

Definition text_reply (status : Z) (body : string) : HttpReply := MkHttpReply status ∅ body.

(** The first header whose name matches, in the order of the map. *)
Definition header_value (headers : gmap string string) (name : string) : option string :=
  snd ∘ snd <$> list_find (λ kv, eq_ignore_ascii_case kv.1 name = true) (btree_iter headers).

Definition decode_body_b64 `{Codec} (body_b64 : string) : result string string :=
  ok_or "dispatch body is not valid base64" (b64_decode body_b64).

(** [ct_eq(..).unwrap_u8() == 1] on byte slices: equality, false when the
    lengths differ. *)
Definition ct_eq (a b : string) : bool := String.eqb a b.

(** *** The server loop *)

Section run_extension.
Context {WE : Wire ExtMsg} {WS : Wire SrvMsg}.

Definition register_msg (id : string) (paths channels : list string) (meta : Value) : ExtMsg :=
  Register PROTOCOL_VERSION (Some id) paths channels meta.

(** The loop over the lines of standard input: what is written to standard
    output, and how the process ends. *)
Fixpoint serve_lines (handle : SrvMsg → DispatchResult) (lines : list string)
    : list string * result string () :=
  match lines with
  | [] => ([], Ok ())
  | line :: rest =>
      match decode_line line with
      | Err e => ([], Err (NdjsonError_to_string e))
      | Ok None => serve_lines handle rest
      | Ok (Some Shutdown) => ([], Ok ())
      | Ok (Some (Dispatch req_id _ _ _ _ _ _ as msg)) =>
          match handle msg with
          | Err e => ([], Err e)
          | Ok (http, events) =>
              match encode_line (Messages.Result req_id http events) with
              | Err e => ([], Err (NdjsonError_to_string e))
              | Ok text =>
                  let '(out, end_) := serve_lines handle rest in (text :: out, end_)
              end
          end
      end
  end.

Definition run_extension (id : string) (paths channels : list string) (meta : Value)
    (handle : SrvMsg → DispatchResult) (lines : list string) : list string * result string () :=
  match encode_line (register_msg id paths channels meta) with
  | Err e => ([], Err (NdjsonError_to_string e))
  | Ok text => let '(out, end_) := serve_lines handle lines in (text :: out, end_)
  end.
End run_extension.

(** *** Channel tokens *)

(** The arms of the [match] on a character. *)
Definition token_char (c : string) : ascii :=
  match c with
  | String a EmptyString =>
      if token_byte a then a
      else if is_ascii_uppercase a then byte_to_ascii_lowercase a
      else "-"%char
  | _ => "-"%char
  end.

Definition token_chars (input : string) : string :=
  foldr (λ c out, String (token_char c) out) EmptyString (chars input).

(** [channel_token] of [whdr-ext-hmac]; that of [whdr-ext-github] replaces an
    empty result. *)
Definition channel_token (input : string) : string := trim_matches "-" (token_chars input).

Definition github_channel_token (input : string) : string :=
  let trimmed := channel_token input in
  if is_empty trimmed then "unknown" else trimmed.

(** *** The echo extension *)

Section handlers.
Context `{Codec}.
(** [String::from_utf8_lossy], [hmac_sha256_hex] and [serde_json::from_slice]. *)
Context (from_utf8_lossy : string → string).
Context (hmac_sha256_hex : string → string → string).
Context (parse_json : string → result string Value).

Definition handle_dev_dispatch (msg : SrvMsg) : DispatchResult :=
  match msg with
  | Shutdown => Ok (text_reply 200 "shutdown ignored", [])
  | Dispatch _ _ _ _ _ body_b64 _ =>
      body ← decode_body_b64 body_b64;
      Ok (text_reply 200 (from_utf8_lossy body), [MkEvent "dev.echo" (b64_encode body)])
  end.

(** *** The GitHub extension *)

Definition github_signature (secret body : string) : string :=
  "sha256=" +:+ hmac_sha256_hex secret body.

(** [value.get(key)], [Value::as_str]. *)
Definition json_get (key : string) (v : Value) : option Value :=
  match v with
  | Object fields => snd ∘ snd <$> list_find (λ kv, kv.1 = key) fields
  | _ => None
  end.
Definition as_str (v : Value) : option string :=
  match v with Str s => Some s | _ => None end.

Definition github_channel (github_event : string) (parsed : Value) : string :=
  let channel := "github." +:+ github_channel_token github_event in
  match github_channel_token <$> (json_get "action" parsed ≫= as_str) with
  | Some action => if is_empty action then channel else channel +:+ "." +:+ action
  | None => channel
  end.

Definition handle_github_dispatch (msg : SrvMsg) : DispatchResult :=
  match msg with
  | Shutdown => Ok (text_reply 200 "shutdown ignored", [])
  | Dispatch _ _ _ _ headers body_b64 secret =>
      body ← decode_body_b64 body_b64;
      match secret with
      | None => Ok (text_reply 401 "missing secret", [])
      | Some secret =>
          let expected := github_signature secret body in
          let provided := default EmptyString (header_value headers "x-hub-signature-256") in
          if negb (ct_eq provided expected)
          then Ok (text_reply 401 "invalid signature", [])
          else
            let github_event := default "unknown" (header_value headers "x-github-event") in
            parsed ← map_err (λ _, "parse github webhook json") (parse_json body);
            Ok (text_reply 200 "ok",
                [MkEvent (github_channel github_event parsed) (b64_encode body)])
      end
  end.
End handlers.

(** ** Lemmas *)

Lemma token_char_byte c : token_byte (token_char c) = true.
Proof.
  unfold token_char. destruct c as [|a [|]]; [done| |done].
  destruct (token_byte a) eqn:Ha; [done|]. destruct (is_ascii_uppercase a) eqn:Hu; [|done].
  clear Ha. destruct a as [[] [] [] [] [] [] [] []]; vm_compute in Hu |- *; congruence.
Qed.

Lemma channel_token_bytes input : bytes_all token_byte (channel_token input) = true.
Proof.
  apply bytes_all_trim_matches. unfold token_chars. induction (chars input) as [|c cs IH]; [done|].
  cbn. by rewrite token_char_byte.
Qed.

Lemma channel_token_plain input : channel_token input ≠ EmptyString → plain_token (channel_token input).
Proof.
  intros Hne. unfold plain_token, valid_plain_token. rewrite channel_token_bytes, andb_true_r.
  by apply negb_true_iff, is_empty_false.
Qed.

Lemma github_token_plain input : plain_token (github_channel_token input).
Proof.
  unfold github_channel_token. destruct (is_empty (channel_token input)) eqn:He; [done|].
  apply channel_token_plain. by apply is_empty_false.
Qed.

Lemma channel_grammar_app t s : channel_grammar t → plain_token s → channel_grammar (t +:+ "." +:+ s).
Proof.
  induction 1 as [t Ht|t u Ht _ IH]; intros Hs.
  - apply (cg_cons t s); [done|]. by constructor.
  - rewrite <- string_app_assoc. apply cg_cons; [done|]. by apply IH.
Qed.

Lemma first_segment_app t s :
  contains_byte "." t = false → first_channel_segment (t +:+ String "." s) = t.
Proof. intros Ht. unfold first_channel_segment. by rewrite split_on_app. Qed.

(** *** Serving *)

Section serving.
Context {WE : Wire ExtMsg} {WS : Wire SrvMsg}.

(** A line that carries a dispatch, the result the handler gave it and the
    line written back. *)
Definition answered (handle : SrvMsg → DispatchResult) (line out : string) : Prop :=
  ∃ req_id method path query headers body_b64 secret http events,
    let msg := Dispatch req_id method path query headers body_b64 secret in
    decode_line line = Ok (Some msg) ∧ handle msg = Ok (http, events) ∧
    encode_line (Messages.Result req_id http events) = Ok out.

Lemma serve_lines_app handle lines outs rest :
  Forall2 (answered handle) lines outs →
  serve_lines handle (lines ++ rest) =
    (outs ++ (serve_lines handle rest).1, (serve_lines handle rest).2).
Proof.
  induction 1 as [|line out lines outs Hans _ IH]; [apply surjective_pairing|].
  destruct Hans as (req_id & m & p & q & h & b & s & http & evs & Hdec & Hh & Henc).
  cbn [app serve_lines]. rewrite Hdec. rewrite Hh, Henc, IH. done.
Qed.
End serving.

(** ** Theorems *)

(** An extension answers the dispatches it reads in order, each under its own
    request id; it stops quietly at a shutdown, and the first dispatch its
    handler fails on ends the process: that one and all later ones go
    unanswered. *)
Theorem extension_answers_in_order {WE : Wire ExtMsg} {WS : Wire SrvMsg} handle lines outs :
  Forall2 (answered handle) lines outs →
  (∀ rest, rest = [] ∨ (∃ l ls, rest = l :: ls ∧ decode_line l = Ok (Some Shutdown)) →
     serve_lines handle (lines ++ rest) = (outs, Ok ())) ∧
  (∀ line msg e rest, decode_line line = Ok (Some msg) → msg ≠ Shutdown → handle msg = Err e →
     serve_lines handle (lines ++ line :: rest) = (outs, Err e)).
Proof.
  intros Hans. split.
  - intros rest Hrest. rewrite (serve_lines_app _ _ outs) by done.
    destruct Hrest as [->|(l & ls & -> & Hl)]; cbn [serve_lines]; [|rewrite Hl];
      by rewrite app_nil_r.
  - intros line msg e rest Hdec Hne Hh. rewrite (serve_lines_app _ _ outs) by done.
    cbn [serve_lines]. rewrite Hdec. destruct msg; [|done]. rewrite Hh. by rewrite app_nil_r.
Qed.

(** The GitHub extension turns a delivery into an event exactly when it
    carries the HMAC of its body under the configured secret: anything else is
    answered 401 without an event.  The event's channel is always one the
    server lets the extension emit on. *)
Theorem github_publishes_exactly_signed_bodies `{CodecLaws} hmac_sha256_hex parse_json
    req_id method path query headers body secret :
  handle_github_dispatch hmac_sha256_hex parse_json
    (Dispatch req_id method path query headers (b64_encode body) secret) =
  match secret with
  | None => Ok (text_reply 401 "missing secret", [])
  | Some s =>
      if bool_decide (header_value headers "x-hub-signature-256" =
                      Some (github_signature hmac_sha256_hex s body))
      then match parse_json body with
           | Ok v =>
               Ok (text_reply 200 "ok",
                   [MkEvent (github_channel
                               (default "unknown" (header_value headers "x-github-event")) v)
                            (b64_encode body)])
           | Err _ => Err "parse github webhook json"
           end
      else Ok (text_reply 401 "invalid signature", [])
  end ∧
  (∀ event v, validate_emitted_channel (github_channel event v) "github" ["github"; "gh"] [] = Ok ()).
Proof.
  split.
  - unfold handle_github_dispatch, decode_body_b64. rewrite b64_round_trip. cbn [ok_or mbind result_bind].
    destruct secret as [s|]; [|done]. unfold ct_eq, github_signature.
    destruct (header_value headers "x-hub-signature-256") as [sig|]; cbn [default from_option id].
    + destruct (String.eqb_spec sig ("sha256=" +:+ hmac_sha256_hex s body)) as [->|Hne].
      * rewrite bool_decide_eq_true_2 by done. cbn [negb]. by destruct (parse_json body).
      * rewrite bool_decide_eq_false_2 by congruence. done.
    + by rewrite bool_decide_eq_false_2.
  - intros event v. apply validate_emitted_Ok. unfold github_channel.
    assert (∀ t, plain_token t → channel_grammar ("github." +:+ t)) as Hg.
    { intros t Ht. apply (cg_cons "github" t); [done|]. by constructor. }
    assert (∀ t, first_channel_segment ("github." +:+ t) = "github") as Hseg.
    { intros t. by apply (first_segment_app "github" t). }
    destruct (github_channel_token <$> (json_get "action" v ≫= as_str)) as [action|] eqn:Ha.
    + apply fmap_Some in Ha as (a & _ & ->). case_match.
      * split; [apply Hg, github_token_plain|]. left. rewrite Hseg. left.
      * split; [apply channel_grammar_app; [apply Hg|]; apply github_token_plain|]. left.
        rewrite <- string_app_assoc. rewrite Hseg. left.
    + split; [apply Hg, github_token_plain|]. left. rewrite Hseg. left.
Qed.

(** ** Witnesses *)

(** A concrete codec that satisfies the laws: hexadecimal, for both. *)
Module HexCodec.
Definition digit (n : nat) : ascii := ascii_of_nat (if Nat.ltb n 10 then 48 + n else 87 + n).
Definition undigit (a : ascii) : option nat :=
  if is_ascii_digit a then Some (byte_val a - 48)%nat
  else if byte_between 97 102 a then Some (byte_val a - 87)%nat else None.
Fixpoint to_hex (s : string) : string :=
  match s with
  | EmptyString => EmptyString
  | String a s => String (digit (byte_val a / 16)) (String (digit (byte_val a mod 16)) (to_hex s))
  end.
Fixpoint of_hex (s : string) : option string :=
  match s with
  | EmptyString => Some EmptyString
  | String a (String b s) =>
      hi ← undigit a; lo ← undigit b; rest ← of_hex s;
      Some (String (ascii_of_nat (16 * hi + lo)) rest)
  | _ => None
  end.

Lemma round_trip s : of_hex (to_hex s) = Some s.
Proof.
  induction s as [|a s IH]; [done|]. cbn [to_hex of_hex]. rewrite IH.
  destruct a as [[] [] [] [] [] [] [] []]; vm_compute; reflexivity.
Qed.
Lemma graphic s : bytes_all is_graphic (to_hex s) = true.
Proof.
  induction s as [|a s IH]; [done|]. cbn [to_hex bytes_all]. rewrite IH.
  destruct a as [[] [] [] [] [] [] [] []]; vm_compute; reflexivity.
Qed.

Definition codec : Codec := {|
  hex_encode := to_hex; hex_decode := of_hex; b64_encode := to_hex; b64_decode := of_hex
|}.
Definition laws : @CodecLaws codec :=
  Build_CodecLaws codec round_trip round_trip graphic graphic.
End HexCodec.

(** A keyed "MAC" and a JSON parser that accepts anything, for examples. *)
Definition demo_mac (secret body : string) : string := HexCodec.to_hex (secret +:+ body).

Lemma github_publishes_exactly_signed_bodies_witness :
  handle_github_dispatch (H := HexCodec.codec) demo_mac (λ _, Ok (Object [("action", Str "Opened")]))
    (Dispatch 1 "POST" "/gh" None
      (<["x-github-event" := "Pull_Request"]>
        {[ "x-hub-signature-256" := github_signature demo_mac "k" "{}" ]})
      (HexCodec.to_hex "{}") (Some "k")) =
  Ok (text_reply 200 "ok", [MkEvent "github.pull_request.opened" (HexCodec.to_hex "{}")]).
Proof.
  destruct (@github_publishes_exactly_signed_bodies HexCodec.codec HexCodec.laws demo_mac
    (λ _, Ok (Object [("action", Str "Opened")])) 1 "POST" "/gh" None
    (<["x-github-event" := "Pull_Request"]>
        {[ "x-hub-signature-256" := github_signature demo_mac "k" "{}" ]}) "{}" (Some "k"))
    as [Heq _].
  cbn [b64_encode HexCodec.codec] in Heq. rewrite Heq. vm_compute. reflexivity.
Defined.

(** Wires with one dispatch line and one reply line. *)
Definition one_dispatch : SrvMsg := Dispatch 5 "POST" "/x" None ∅ "" None.
Definition demo_srv_wire : Wire SrvMsg := {|
  to_string _ := Err "unused";
  from_str s := if String.eqb s "d" then Ok one_dispatch
                else if String.eqb s "s" then Ok Shutdown else Err "expected value"
|}.
Definition demo_ext_wire : Wire ExtMsg := {|
  to_string _ := Ok "r";
  from_str _ := Err "unused"
|}.

Lemma extension_answers_in_order_witness :
  serve_lines (WE := demo_ext_wire) (WS := demo_srv_wire)
    (λ _, Ok (text_reply 200 "ok", [])) (["d"; "d"] ++ ["s"; "d"]) =
  ([String "r" (String "010" EmptyString); String "r" (String "010" EmptyString)], Ok ()).
Proof.
  assert (answered (WE := demo_ext_wire) (WS := demo_srv_wire) (λ _, Ok (text_reply 200 "ok", []))
    "d" (String "r" (String "010" EmptyString))) as Hans.
  { exists 5, "POST"%string, "/x"%string, None, ∅, ""%string, None, (text_reply 200 "ok"), [].
    split; [vm_compute; reflexivity|]. split; vm_compute; reflexivity. }
  assert (Forall2 (answered (WE := demo_ext_wire) (WS := demo_srv_wire)
    (λ _, Ok (text_reply 200 "ok", []))) ["d"; "d"]%string
    [String "r" (String "010" EmptyString); String "r" (String "010" EmptyString)]) as Hall
    by (repeat constructor; exact Hans).
  destruct (extension_answers_in_order (WE := demo_ext_wire) (WS := demo_srv_wire) _ _ _ Hall)
    as [Hquiet _].
  apply Hquiet. right. exists "s"%string, ["d"]%string. split; [reflexivity|].
  vm_compute. reflexivity.
Defined.
