(* ===== verification/Session.v ===== *)
(** * Session: the pipes between the daemon and an extension

    [spawn_extension_writer] of [crates/whdr-server/src/daemon.rs] with the
    bounded channel that feeds it, and whole sessions: the messages sent to an
    extension go through the writer task, the extension's serving loop
    (ExtKit.v) and the reader task (Dispatch.v), line by line in both
    directions. *)

From S2P Require Import Prelude.
From S2P Require Import Text.
From S2P Require Import Messages.
From S2P Require Import WireCodecs.
From S2P Require Import Config.
From S2P Require Import ChannelClaims.
From S2P Require Import DispatchWindow.
From S2P Require Import AppState.
From S2P Require Import Dispatch.
From S2P Require Import ExtKit.

Local Open Scope Z_scope.

(** ** The writer task *)

Section writer.
Context {W : Wire SrvMsg}.

(** Where the task is: in [rx.recv()], in the [write_all] or the [flush] of a
    line, or gone after one of them failed. *)
Inductive WriterState : Type :=
  | WReceiving
  | WWriting (line : string)
  | WGone.

(** The channel, its task and the pipe: [ob_stdin] is the bytes the child can
    read, [ob_sent] every message the channel accepted. *)
Record Outbox : Type := MkOutbox {
  ob_cap : Z;
  ob_queue : list SrvMsg;
  ob_writer : WriterState;
  ob_stdin : string;
  ob_sent : list SrvMsg
}.

(** [mpsc::channel(config.limits.max_in_flight.max(1) * 2)]. *)
Definition outbox_capacity (limits : LimitsConfig) : Z := wrap64 (Z.max (max_in_flight limits) 1 * 2).
Definition Outbox_new (limits : LimitsConfig) : Outbox :=
  MkOutbox (outbox_capacity limits) [] WReceiving EmptyString [].

(** What [tx.send(msg).await] does now: it completes, it waits, or it fails. *)
Inductive SendState : Type := SendReady | SendFull | SendClosed.
Definition send_state (b : Outbox) : SendState :=
  match ob_writer b with
  | WGone => SendClosed
  | _ => if len (ob_queue b) <? ob_cap b then SendReady else SendFull
  end.

Inductive OutAction : Type :=
  | OSend (m : SrvMsg)    (* a send completes *)
  | OReceive              (* the task takes a message and encodes it *)
  | OWrote                (* the pipe has taken the whole line *)
  | OBroken (n : nat).    (* a write fails, [n] bytes of the line in the pipe *)

Definition out_step (a : OutAction) (b : Outbox) : option Outbox :=
  match a with
  | OSend m =>
      match send_state b with
      | SendReady =>
          Some (MkOutbox (ob_cap b) (ob_queue b ++ [m]) (ob_writer b) (ob_stdin b) (ob_sent b ++ [m]))
      | _ => None
      end
  | OReceive =>
      match ob_writer b, ob_queue b with
      | WReceiving, m :: rest =>
          Some (MkOutbox (ob_cap b) rest
                  (match encode_line m with Ok line => WWriting line | Err _ => WReceiving end)
                  (ob_stdin b) (ob_sent b))
      | _, _ => None
      end
  | OWrote =>
      match ob_writer b with
      | WWriting line =>
          Some (MkOutbox (ob_cap b) (ob_queue b) WReceiving (ob_stdin b +:+ line) (ob_sent b))
      | _ => None
      end
  | OBroken n =>
      match ob_writer b with
      | WWriting line =>
          Some (MkOutbox (ob_cap b) (ob_queue b) WGone (ob_stdin b +:+ String.substring 0 n line)
                  (ob_sent b))
      | _ => None
      end
  end.

Fixpoint out_run (acts : list OutAction) (b : Outbox) : option Outbox :=
  match acts with
  | [] => Some b
  | a :: rest => b' ← out_step a b; out_run rest b'
  end.

(** ** Specification *)

(** The bytes of a sequence of messages; those that do not encode are only
    logged. *)
Fixpoint encoded (ms : list SrvMsg) : string :=
  match ms with
  | [] => EmptyString
  | m :: rest =>
      match encode_line m with
      | Ok line => line +:+ encoded rest
      | Err _ => encoded rest
      end
  end.

(** What is taken off the channel is in the pipe, up to the line being
    written. *)
Definition outbox_ok (b : Outbox) : Prop :=
  len (ob_queue b) ≤ ob_cap b ∧
  ∃ taken, ob_sent b = taken ++ ob_queue b ∧
    match ob_writer b with
    | WReceiving => ob_stdin b = encoded taken
    | WWriting line => ob_stdin b +:+ line = encoded taken
    | WGone => ∃ lost, ob_stdin b +:+ lost = encoded taken
    end.

(** ** Lemmas *)

Lemma encoded_app ms1 ms2 : encoded (ms1 ++ ms2) = encoded ms1 +:+ encoded ms2.
Proof.
  induction ms1 as [|m ms IH]; [done|]. cbn [app encoded].
  destruct (encode_line m); [by rewrite IH, string_app_assoc|done].
Qed.

Lemma encoded_lines ms stream : encode_lines ms = Ok stream → encoded ms = stream.
Proof.
  revert stream. induction ms as [|m ms IH]; intros stream; cbn [encode_lines encoded].
  { by intros [= <-]. }
  intros (line & -> & (rest & Hrest & [= <-])%result_bind_Ok)%result_bind_Ok.
  by rewrite (IH _ Hrest).
Qed.

Lemma substring_prefix n s : ∃ t, String.substring 0 n s +:+ t = s.
Proof.
  revert n. induction s as [|a s IH]; intros [|n]; try by eexists.
  destruct (IH n) as [t Ht]. exists t. cbn [String.substring]. by rewrite string_app_cons, Ht.
Qed.

Lemma outbox_ok_new limits : 0 ≤ outbox_capacity limits → outbox_ok (Outbox_new limits).
Proof. intros Hc. split; [done|]. by exists []. Qed.

Lemma outbox_ok_step a b b' : outbox_ok b → out_step a b = Some b' → outbox_ok b'.
Proof.
  intros (Hlen & taken & Hsent & Hw). unfold out_step, send_state. destruct a as [m| | |n].
  - destruct (ob_writer b) as [|line|] eqn:Hwr; [..|done]; (destruct (_ <? _) eqn:Hroom; [|done]);
      intros [= <-]; apply Z.ltb_lt in Hroom; (split; [cbn [ob_queue ob_cap]; rewrite len_app; change (len [m]) with 1; lia|]);
      exists taken; cbn; by rewrite Hsent, app_assoc.
  - destruct (ob_writer b) eqn:Hwr; [|done..]. destruct (ob_queue b) as [|m rest] eqn:Hq; [done|].
    intros [= <-]. rewrite len_cons in Hlen. split; [cbn; lia|]. exists (taken ++ [m]). cbn.
    rewrite Hsent, <- app_assoc, encoded_app, Hw. split; [done|]. cbn [encoded].
    destruct (encode_line m); by rewrite ?string_app_nil_r.
  - destruct (ob_writer b) eqn:Hwr; [done| |done]. intros [= <-]. split; [done|]. by exists taken.
  - destruct (ob_writer b) as [|line|] eqn:Hwr; [done| |done]. intros [= <-]. split; [done|].
    exists taken. split; [done|]. cbn. destruct (substring_prefix n line) as [lost Hl].
    exists lost. by rewrite <- string_app_assoc, Hl.
Qed.

Lemma outbox_ok_run acts b b' : outbox_ok b → out_run acts b = Some b' → outbox_ok b'.
Proof.
  revert b. induction acts as [|a acts IH]; intros b Hok; [by intros [= <-]|].
  intros (b1 & Hstep & Hrun)%bind_Some. by eapply IH, Hrun; eapply outbox_ok_step.
Qed.

Lemma out_run_cap acts b b' : out_run acts b = Some b' → ob_cap b' = ob_cap b.
Proof.
  revert b. induction acts as [|a acts IH]; intros b; [by intros [= <-]|].
  intros (b1 & Hstep & Hrun)%bind_Some. rewrite (IH _ Hrun). clear -Hstep.
  unfold out_step in Hstep. by repeat case_match; simplify_eq.
Qed.

(** A task stuck in a write. *)
Definition pipe_moves (a : OutAction) : bool :=
  match a with OWrote | OBroken _ => true | OSend _ | OReceive => false end.

Lemma stuck_writer acts b b' line :
  ob_writer b = WWriting line → Forall (λ a, pipe_moves a = false) acts →
  len (ob_queue b) ≤ ob_cap b → out_run acts b = Some b' →
  ob_writer b' = WWriting line ∧ ob_cap b' = ob_cap b ∧ ob_stdin b' = ob_stdin b ∧
  len (ob_queue b') = len (ob_queue b) + len acts ∧ len (ob_queue b') ≤ ob_cap b.
Proof.
  intros Hw Hall. revert b Hw. induction Hall as [|a acts Ha _ IH]; intros b Hw Hlen.
  { intros [= <-]. change (len []) with 0. split_and!; try done; lia. }
  intros (b1 & Hstep & Hrun)%bind_Some. unfold out_step, send_state in Hstep.
  rewrite Hw in Hstep. destruct a as [m| | |n]; [|done..].
  destruct (_ <? _) eqn:Hroom; [|done]. injection Hstep as <-. apply Z.ltb_lt in Hroom.
  apply IH in Hrun; [|done|]; cbn [ob_queue ob_cap ob_stdin] in *;
    rewrite len_app in *; change (len [m]) with 1 in *; rewrite ?len_cons; [|lia].
  destruct Hrun as (? & ? & ? & ? & ?). split_and!; try done; lia.
Qed.
End writer.

(** ** Sessions *)

Definition req_id_of (m : SrvMsg) : option Uuid :=
  match m with Dispatch req_id _ _ _ _ _ _ => Some req_id | Shutdown => None end.

(** What the handler gives a dispatch, and the line it becomes. *)
Abbreviation Answer := (Uuid * (HttpReply * list Event))%type (only parsing).
Definition served (handler : SrvMsg → DispatchResult) (m : SrvMsg) (a : Answer) : Prop :=
  req_id_of m = Some a.1 ∧ handler m = Ok a.2.
Definition result_msg (a : Answer) : ExtMsg := Messages.Result a.1 a.2.1 a.2.2.

(** What the reader hands to the waiting call. *)
Definition owned_result (handle : ExtHandle) (a : Answer) : ExtResult :=
  MkExtResult a.2.1 (filter (λ ev, owned (h_paths handle) (h_channels handle) ev) a.2.2).

(** No two requests wait in the name of the same call. *)
Definition distinct_calls (w : @Window ExtResult) : Prop :=
  ∀ id1 id2 c, pending w !! id1 = Some c → pending w !! id2 = Some c → id1 = id2.

(** What a reader that matched these answers has done, and nothing else. *)
Record all_answered (handle : ExtHandle) (answers : list Answer) (rd rd' : Reader) : Prop := {
  aa_gone id : id ∈ answers.*1 → pending (rd_window rd') !! id = None;
  aa_others id : id ∉ answers.*1 → pending (rd_window rd') !! id = pending (rd_window rd) !! id;
  aa_sent a c : a ∈ answers → pending (rd_window rd) !! a.1 = Some c →
    oneshots (rd_window rd') !! c = Some (Sent (owned_result handle a));
  aa_quiet c : (∀ a, a ∈ answers → pending (rd_window rd) !! a.1 ≠ Some c) →
    oneshots (rd_window rd') !! c = oneshots (rd_window rd) !! c;
  aa_rest : rd_mailbox rd' = rd_mailbox rd ∧ rd_fanned rd' = rd_fanned rd ∧
    protocol_errors (rd_counters rd') = protocol_errors (rd_counters rd)
}.

Section session.
Context {WS : Wire SrvMsg} {WE : Wire ExtMsg} {LE : WireLaws ExtMsg}.

Lemma served_lines handler msgs lines answers stdout :
  Forall2 (λ m line, decode_line line = Ok (Some m)) msgs lines →
  Forall2 (served handler) msgs answers → encode_lines (result_msg <$> answers) = Ok stdout →
  ∃ outs, Forall2 (answered handler) lines outs ∧ concat_chars outs = stdout.
Proof.
  intros Hdec. revert answers stdout.
  induction Hdec as [|m line msgs lines Hd _ IH]; intros answers stdout Hsv.
  { apply Forall2_nil_inv_l in Hsv as ->. intros [= <-]. by exists []. }
  apply Forall2_cons_inv_l in Hsv as (a & answers' & [Hid Hh] & Hsv & ->).
  intros (out & Hout & (rest & Hrest & [= <-])%result_bind_Ok)%result_bind_Ok.
  destruct (IH _ _ Hsv Hrest) as (outs & Hans & Hcat). exists (out :: outs).
  split; [|by rewrite <- Hcat]. constructor; [|done].
  destruct m as [req_id me p q h b sec|]; [|done]. injection Hid as ->.
  exists a.1, me, p, q, h, b, sec, a.2.1, a.2.2. split; [done|]. split; [|done].
  by rewrite Hh, <- surjective_pairing.
Qed.

(** What the extension writes over a session. *)
Lemma session_outputs {LS : WireLaws SrvMsg} handler sent msgs tail stdin answers stdout :
  sent = msgs ++ tail → tail = [] ∨ tail = [Shutdown] → encode_lines sent = Ok stdin →
  Forall2 (served handler) msgs answers → encode_lines (result_msg <$> answers) = Ok stdout →
  ∃ outs, serve_lines handler (stream_lines stdin) = (outs, Ok ()) ∧ concat_chars outs = stdout.
Proof.
  intros -> Htail Hin Hserved Hout.
  destruct (stream_lines_encoded _ _ Hin) as (lines & -> & Hall).
  apply Forall2_app_inv_l in Hall as (l1 & l2 & Hl1 & Hl2 & ->).
  destruct (served_lines handler msgs l1 answers stdout) as (outs & Hans & Hcat); [|done..|].
  { eapply Forall2_impl; [exact Hl1|]. by intros m line [_ Hdec]. }
  exists outs. split; [|done]. rewrite (serve_lines_app _ _ _ _ Hans).
  destruct Htail as [->| ->].
  - apply Forall2_nil_inv_l in Hl2 as ->. by rewrite app_nil_r.
  - apply Forall2_cons_inv_l in Hl2 as (line & l3 & [_ Hd] & Hl3 & ->).
    cbn [serve_lines]. rewrite Hd. by rewrite app_nil_r.
Qed.

(** What one result line changes. *)
Lemma handle_result_spec handle (a : Answer) rd c :
  counters_ok (rd_counters rd) → pending (rd_window rd) !! a.1 = Some c →
  let rd' := handle_result handle a.1 a.2.1 a.2.2 rd in
  pending (rd_window rd') = delete a.1 (pending (rd_window rd)) ∧
  oneshots (rd_window rd') = <[c := Sent (owned_result handle a)]> (oneshots (rd_window rd)) ∧
  rd_mailbox rd' = rd_mailbox rd ∧ rd_fanned rd' = rd_fanned rd ∧
  protocol_errors (rd_counters rd') = protocol_errors (rd_counters rd) ∧
  consecutive_timeouts (rd_counters rd') = 0 ∧ counters_ok (rd_counters rd').
Proof.
  intros [Hv Hp] Hc. cbv zeta. unfold handle_result. rewrite Hc, filter_handle_spec by done.
  cbn [act rd_window rd_counters rd_mailbox rd_fanned]. rewrite Hc.
  split_and!; try done. split; [apply wrap64_range|done].
Qed.

(** A run of result lines that all have a waiting call. *)
Lemma reader_run_results cfg handle (answers : list Answer) (ls : list (string * Z)) rd :
  Forall2 (λ a line, decode_line line = Ok (Some (result_msg a))) answers ls.*1 →
  counters_ok (rd_counters rd) → distinct_calls (rd_window rd) → NoDup answers.*1 →
  (∀ id, id ∈ answers.*1 → is_Some (pending (rd_window rd) !! id)) →
  all_answered handle answers rd (reader_run cfg handle (live ls) rd).
Proof.
  rewrite Forall2_fmap_r. intros Hdec. revert rd.
  induction Hdec as [|a [line now] answers ls Hd _ IH]; intros rd Hok Hinj Hnd Hwait.
  { split; try done; intros *; set_solver. }
  rewrite fmap_cons in Hnd. apply NoDup_cons in Hnd as [Hna Hnd].
  destruct (Hwait a.1) as [c Hc]; [by left|].
  assert (reader_run cfg handle (live ((line, now) :: ls)) rd =
    reader_run cfg handle (live ls) (handle_result handle a.1 a.2.1 a.2.2 rd)) as ->.
  { change (live ((line, now) :: ls)) with ((line, true, now) :: live ls).
    cbn [reader_run negb]. unfold reader_line. cbn [fst] in Hd. by rewrite Hd. }
  destruct (handle_result_spec handle a rd c Hok Hc) as (Hpe & Hon & Hmb & Hfan & Hpr & _ & Hok1).
  set (rd1 := handle_result handle a.1 a.2.1 a.2.2 rd) in *.
  destruct (IH rd1) as [Hgone Hothers Hsent Hquiet (Hmb' & Hfan' & Hpr')]; [done| | |..].
  { intros id1 id2 c'. rewrite Hpe, !lookup_delete_Some. intros [_ H1] [_ H2]. by eapply Hinj. }
  { done. }
  { intros id Hid. rewrite Hpe, lookup_delete_ne by set_solver. apply Hwait. by right. }
  split.
  - intros id [->|Hid]%elem_of_cons; [|by apply Hgone].
    rewrite Hothers by done. by rewrite Hpe, lookup_delete_eq.
  - intros id Hid. rewrite fmap_cons, not_elem_of_cons in Hid. destruct Hid as [Hne Hid].
    rewrite Hothers by done. by rewrite Hpe, lookup_delete_ne.
  - intros a' c' [->|Ha]%elem_of_cons Hc'.
    + rewrite Hquiet. 2:{ intros a' _. rewrite Hpe. by intros [Hne Hc2]%lookup_delete_Some; eapply Hne, Hinj. }
      rewrite Hon. replace c' with c by congruence. apply lookup_insert_eq.
    + apply Hsent; [done|]. rewrite Hpe, lookup_delete_ne; [done|]. intros Heq.
      apply Hna, list_elem_of_fmap. by exists a'.
  - intros c' Hno. rewrite Hquiet.
    + rewrite Hon, lookup_insert_ne; [done|]. intros ->. by apply (Hno a); [left|].
    + intros a' Ha. rewrite Hpe. intros [_ Hl]%lookup_delete_Some. by apply (Hno a'); [right|].
  - by rewrite Hmb', Hfan', Hpr', Hmb, Hfan, Hpr.
Qed.
End session.

(** ** Theorems *)

(** Whatever the interleaving of senders, writer task and pipe, the channel
    holds at most its capacity, and the bytes the extension can read are a
    prefix of the accepted messages, encoded in order, each once; when the
    channel is drained they are all of them. *)
Theorem writer_writes_in_order {W : Wire SrvMsg} limits acts b :
  out_run acts (Outbox_new limits) = Some b →
  len (ob_queue b) ≤ outbox_capacity limits ∧
  (∃ rest, encoded (ob_sent b) = ob_stdin b +:+ rest) ∧
  (ob_queue b = [] → ob_writer b = WReceiving → ob_stdin b = encoded (ob_sent b)).
Proof.
  intros Hrun. assert (ob_cap b = outbox_capacity limits) as Hcap by by eapply out_run_cap in Hrun.
  apply outbox_ok_run in Hrun as (Hlen & taken & Hsent & Hw).
  2:{ apply outbox_ok_new. apply wrap64_range. }
  split; [by rewrite <- Hcap|]. rewrite Hsent, encoded_app. split.
  - destruct (ob_writer b) as [|line|]; [| |destruct Hw as [lost Hw]].
    + rewrite Hw. by eexists.
    + rewrite <- Hw, <- string_app_assoc. by eexists.
    + rewrite <- Hw, <- string_app_assoc. by eexists.
  - intros Hq Hr. rewrite Hr in Hw. by rewrite Hw, Hq, string_app_nil_r.
Qed.

(** C6: a whole session over the pipes: the dispatches sent to an extension,
    written by the writer task, served by the extension's loop and read back by
    the reader task, all complete: every waiting call finds its own handler
    result, filtered to the events the extension owns, in its channel; nothing
    else changes; the extension ends quietly at a shutdown. *)
Theorem sessions_answer_every_dispatch {WS : Wire SrvMsg} {LS : WireLaws SrvMsg} {WE : Wire ExtMsg}
    {LE : WireLaws ExtMsg} handler cfg handle limits acts b msgs tail stdin answers stdout rd :
  out_run acts (Outbox_new limits) = Some b → ob_queue b = [] → ob_writer b = WReceiving →
  ob_sent b = msgs ++ tail → tail = [] ∨ tail = [Shutdown] → encode_lines (ob_sent b) = Ok stdin →
  Forall2 (served handler) msgs answers → encode_lines (result_msg <$> answers) = Ok stdout →
  counters_ok (rd_counters rd) → distinct_calls (rd_window rd) → NoDup answers.*1 →
  (∀ id, id ∈ answers.*1 → is_Some (pending (rd_window rd) !! id)) →
  ∃ outs, serve_lines handler (stream_lines (ob_stdin b)) = (outs, Ok ()) ∧
    ∀ ls, ls.*1 = stream_lines (concat_chars outs) →
      all_answered handle answers rd (reader_run cfg handle (live ls) rd).
Proof.
  intros Hrun Hq Hr Hsent Htail Hin Hserved Hout Hok Hinj Hnd Hwait.
  apply outbox_ok_run in Hrun as (_ & taken & Htaken & Hw).
  2:{ apply outbox_ok_new. apply wrap64_range. }
  rewrite Hr in Hw. rewrite Hq, app_nil_r in Htaken. subst taken. rewrite Hw, (encoded_lines _ _ Hin).
  destruct (session_outputs handler (ob_sent b) msgs tail stdin answers stdout) as (outs & Hs & Hcat);
    [done..|].
  exists outs. split; [done|]. intros ls Hls. apply reader_run_results; [|done..].
  rewrite Hls, Hcat. destruct (stream_lines_encoded _ _ Hout) as (lines & -> & Hall).
  rewrite Forall2_fmap_l in Hall. eapply Forall2_impl; [exact Hall|]. by intros a line [_ Hdec].
Qed.

(** A child that has stopped reading: the sends that still complete are those
    the channel has room for; after them every send waits, the [Shutdown] of a
    supervisor that drains the extension included, and that wait has no time
    limit. *)
Lemma stuck_extension_never_gets_shutdown {W : Wire SrvMsg} acts b b' line :
  ob_writer b = WWriting line → len (ob_queue b) ≤ ob_cap b →
  Forall (λ a, pipe_moves a = false) acts → out_run acts b = Some b' →
  ob_stdin b' = ob_stdin b ∧ len acts ≤ ob_cap b - len (ob_queue b) ∧
  (len acts = ob_cap b - len (ob_queue b) → send_state b' = SendFull).
Proof.
  intros Hw Hlen Hall Hrun.
  destruct (stuck_writer acts b b' line Hw Hall Hlen Hrun) as (Hw' & Hc & Hin & Hl & Hle).
  split; [done|]. split; [lia|]. intros Heq. unfold send_state.
  by rewrite Hw', Hc, (proj2 (Z.ltb_ge _ _)) by lia.
Qed.

(** ** Witnesses *)

(** Two dispatches and a shutdown for an echo extension; the second message is
    queued while the first is being written. *)
Definition echo (m : SrvMsg) : DispatchResult :=
  handle_dev_dispatch (H := HexCodec.codec) (λ s, s) m.
Definition echo_dispatch (id : Uuid) (b : string) : SrvMsg :=
  Dispatch id "P" "/" None ∅ (HexCodec.to_hex b) None.
Definition echo_acts : list OutAction :=
  [OSend (echo_dispatch 5 "a"); OReceive; OSend (echo_dispatch 6 "b"); OWrote; OReceive;
   OSend Shutdown; OWrote; OReceive; OWrote].
Definition echo_box : Outbox :=
  default (Outbox_new LimitsConfig_default)
    (out_run (W := BitCodec.wire) echo_acts (Outbox_new LimitsConfig_default)).

Lemma writer_writes_in_order_witness :
  ob_sent echo_box = [echo_dispatch 5 "a"; echo_dispatch 6 "b"; Shutdown] ∧
  ob_stdin echo_box = encoded (W := BitCodec.wire) (ob_sent echo_box).
Proof.
  split; [vm_compute; reflexivity|].
  assert (out_run (W := BitCodec.wire) echo_acts (Outbox_new LimitsConfig_default) = Some echo_box)
    as Hrun by (vm_compute; reflexivity).
  destruct (writer_writes_in_order (W := BitCodec.wire) _ _ _ Hrun) as (_ & _ & Hall).
  apply Hall; vm_compute; reflexivity.
Defined.

(** The echo extension owns [dev.]; calls 0 and 1 wait. *)
Definition echo_handle : ExtHandle := MkExtHandle "dev" "dev" 1 "/bin/dev" ["dev"] [] None.
Definition two_waiting : @Window ExtResult :=
  default DispatchWindow_new
    (run_actions [ALoad 0 4; ACas 0 false; AInsert 0 5; ALoad 1 4; ACas 1 false; AInsert 1 6]
      (DispatchWindow_new (T := ExtResult))).
Definition two_waiting_reader : Reader := MkReader two_waiting (MkCounters 0 0 0 0 0 0) [] [].
Definition echo_answer (id : Uuid) (b : string) : Answer :=
  (id, (text_reply 200 b, [MkEvent "dev.echo" (HexCodec.to_hex b)])).

Lemma sessions_answer_every_dispatch_witness :
  ∃ outs, serve_lines (WE := BitCodec.wire) (WS := BitCodec.wire) echo
      (stream_lines (ob_stdin echo_box)) = (outs, Ok ()) ∧
    all_answered echo_handle [echo_answer 5 "a"; echo_answer 6 "b"] two_waiting_reader
      (reader_run (W := BitCodec.wire) demo_config echo_handle
         (live ((λ l, (l, 9)) <$> stream_lines (concat_chars outs))) two_waiting_reader).
Proof.
  assert (∃ stdin, encode_lines (W := BitCodec.wire) (ob_sent echo_box) = Ok stdin) as [stdin Hin]
    by (eexists; vm_compute; reflexivity).
  assert (∃ stdout, encode_lines (W := BitCodec.wire)
    (result_msg <$> [echo_answer 5 "a"; echo_answer 6 "b"]) = Ok stdout) as [stdout Hout]
    by (eexists; vm_compute; reflexivity).
  assert (out_run (W := BitCodec.wire) echo_acts (Outbox_new LimitsConfig_default) = Some echo_box)
    as Hrun by (vm_compute; reflexivity).
  assert (ob_sent echo_box = [echo_dispatch 5 "a"; echo_dispatch 6 "b"] ++ [Shutdown]) as Hsent
    by (vm_compute; reflexivity).
  assert (Forall2 (served echo) [echo_dispatch 5 "a"; echo_dispatch 6 "b"]
    [echo_answer 5 "a"; echo_answer 6 "b"]) as Hserved
    by (repeat constructor; vm_compute; reflexivity).
  assert (counters_ok (rd_counters two_waiting_reader)) as Hok
    by (repeat split; vm_compute; congruence).
  assert (distinct_calls (rd_window two_waiting_reader)) as Hinj.
  { intros id1 id2 c. change (pending (rd_window two_waiting_reader))
      with (<[6 := 1%nat]> ({[5 := 0%nat]} : gmap Z nat)).
    rewrite !lookup_insert_Some, !lookup_singleton_Some. lia. }
  destruct (sessions_answer_every_dispatch (WS := BitCodec.wire) (LS := BitCodec.wire_laws)
    (WE := BitCodec.wire) (LE := BitCodec.wire_laws) echo demo_config echo_handle LimitsConfig_default
    echo_acts echo_box [echo_dispatch 5 "a"; echo_dispatch 6 "b"] [Shutdown] stdin
    [echo_answer 5 "a"; echo_answer 6 "b"] stdout two_waiting_reader Hrun
    ltac:(vm_compute; reflexivity) ltac:(vm_compute; reflexivity) Hsent (or_intror eq_refl) Hin
    Hserved Hout Hok Hinj) as (outs & Hrun' & Hall).
  - repeat constructor; set_solver by lia.
  - intros id. cbn. rewrite !elem_of_cons, elem_of_nil. intros [->|[->|[]]]; by eexists.
  - exists outs. split; [exact Hrun'|]. apply Hall.
    rewrite <- list_fmap_compose. apply list_fmap_id.
Defined.
