(* ===== verification/FakeExt.v ===== *)
(** * FakeExt: the scriptable extension of the system tests

    [crates/whdr-server/examples/whdr-ext-fake.rs]: the behaviour file, what is
    written after the start and the serving loop with each of its misbehaviours.
    Delays are not modelled.  The output is the list of writes to [stdout]. *)

From S2P Require Import Prelude.
From S2P Require Import Text.
From S2P Require Import Messages.
From S2P Require Import WireCodecs.
From S2P Require Import Config.
From S2P Require Import DispatchWindow.
From S2P Require Import AppState.
From S2P Require Import Dispatch.
From S2P Require Import ExtKit.
From S2P Require Import Session.
From Stdlib Require Import Ascii.

Local Open Scope Z_scope.

(** ** Definitions *)

Record Behavior : Type := MkBehavior {
  bh_register : bool;
  bh_register_delay_ms : Z;
  exit_on_start : bool;
  bh_id : option string;
  bh_paths : list string;
  bh_channels : list string;
  bh_protocol : Z;
  garbage_on_start : nat;
  reply_delay_ms : Z;
  out_of_order_pairs : bool;
  stall_after : option nat;
  exit_after : option nat;
  die_mid_line : bool;
  events_per_dispatch : nat;
  event_channel : option string;
  flood_events : nat;
  bh_status : Z
}.

Definition Behavior_default : Behavior :=
  MkBehavior true 0 false None [] [] PROTOCOL_VERSION 0 0 false None None false 1 None 0 200.

(** [Path::file_name]: the last component, unless it is [..]. *)
Definition path_file_name (path : string) : option string :=
  match last (filter (λ c, c ≠ EmptyString ∧ c ≠ ".") (split_on "/" path)) with
  | Some name => if String.eqb name ".." then None else Some name
  | None => None
  end.

(** [load_behavior]; [read] is [read_to_string] and [parse] the TOML codec. *)
Definition load_behavior (read : string → option string) (parse : string → option Behavior)
    (argv0 : option string) : string * Behavior :=
  let argv0 := default EmptyString argv0 in
  (default "fake" (path_file_name argv0 ≫= strip_prefix "whdr-ext-"),
   default Behavior_default (read (argv0 +:+ ".toml") ≫= parse)).

(** Half a result: an object that stops after its second key. *)
Definition quoted (s : string) : string := String "034" (s +:+ String "034" EmptyString).
Definition half_result : string :=
  "{" +:+ quoted "type" +:+ ":" +:+ quoted "result" +:+ "," +:+ quoted "req_id" +:+ ":".

(** How the process ends: a plain return, or [exit(1)]. *)
Inductive FakeEnd : Type := Returned | Exited1.

Section fake.
Context {WS : Wire SrvMsg} {WE : Wire ExtMsg}.
Context (base64_encode : string → string).
Context (b : Behavior) (ext_id : string).

Definition write_msg (msg : ExtMsg) : list string :=
  match encode_line msg with Ok line => [line] | Err _ => [] end.

Definition fake_channel : string := default (ext_id +:+ ".echo") (event_channel b).

(** What is written before the first request is read. *)
Definition fake_start : list string :=
  write_msg (Register (bh_protocol b) (bh_id b) (bh_paths b) (bh_channels b)
               (Object [("fake", Bool true)])) ++
  ((λ n, "this is not json " +:+ pretty n +:+ String "010" EmptyString) <$> seq 0 (garbage_on_start b)) ++
  (seq 0 (flood_events b) ≫= λ n,
     write_msg (ExtEvent (MkEvent fake_channel (base64_encode ("flood-" +:+ pretty n))))).

Definition result_of (req_id : Uuid) (body : string) : ExtMsg :=
  Messages.Result req_id (MkHttpReply (bh_status b) ∅ body)
    (replicate (events_per_dispatch b) (MkEvent fake_channel body)).

(** The results written, in order: [reply] for each. *)
Definition reply_all (requests : list (Uuid * string)) : list string :=
  requests ≫= λ r, write_msg (result_of r.1 r.2).

(** The loop's variables. *)
Record FakeState : Type := MkFakeState { replies_sent : nat; held : list (Uuid * string) }.

Definition reached (o : option nat) (n : nat) : bool :=
  match o with Some k => Nat.leb k n | None => false end.

(** A [Dispatch]: what is written, and whether the process exits. *)
Definition fake_dispatch (req_id : Uuid) (body : string) (s : FakeState)
    : list string * FakeState * bool :=
  if reached (stall_after b) (replies_sent s) then ([], s, false)
  else
    let pending := if out_of_order_pairs b then held s ++ [(req_id, body)] else [(req_id, body)] in
    if out_of_order_pairs b && Nat.ltb (length pending) 2
    then ([], MkFakeState (replies_sent s) pending, false)
    else
      let n := (replies_sent s + length pending)%nat in
      let out := reply_all (rev pending) in
      if reached (exit_after b) n
      then (out ++ (if die_mid_line b then [half_result] else []),
            MkFakeState n [], true)
      else (out, MkFakeState n [], false).

(** The serving loop, over the lines of [stdin]. *)
Fixpoint fake_loop (lines : list string) (s : FakeState) : list string * FakeEnd :=
  match lines with
  | [] => ([], Returned)
  | line :: rest =>
      match decode_line line with
      | Ok (Some Shutdown) => ([], Returned)
      | Ok (Some (Dispatch req_id _ _ _ _ body_b64 _)) =>
          match fake_dispatch req_id body_b64 s with
          | (out, _, true) => (out, Exited1)
          | (out, s', false) => let '(outs, e) := fake_loop rest s' in (out ++ outs, e)
          end
      | Ok None | Err _ => fake_loop rest s
      end
  end.

Definition fake_main (lines : list string) : list string * FakeEnd :=
  if exit_on_start b then ([], Exited1)
  else if negb (bh_register b) then ([], Returned)
  else let '(outs, e) := fake_loop lines (MkFakeState 0 []) in (fake_start ++ outs, e).

(** ** Specification *)

(** The order of the answers under [out_of_order_pairs]; a last request without a
    partner is never answered. *)
Fixpoint swap_pairs {A} (l : list A) : list A :=
  match l with
  | x :: y :: rest => y :: x :: swap_pairs rest
  | _ => []
  end.

Definition answer_order {A} (l : list A) : list A := if out_of_order_pairs b then swap_pairs l else l.

(** The line asks for a request to be served. *)
Definition asks (r : Uuid * string) (line : string) : Prop :=
  ∃ method path query headers secret,
    decode_line line = Ok (Some (Dispatch r.1 method path query headers r.2 secret)).

(** ** Lemmas *)

Lemma pair_induction {A} (P : list A → Prop) :
  P [] → (∀ x, P [x]) → (∀ x y l, P l → P (x :: y :: l)) → ∀ l, P l.
Proof.
  intros H0 H1 H2. fix IH 1. intros [|x [|y l]]; [done|apply H1|apply H2, IH].
Qed.

Lemma swap_pairs_perm {A} (l : list A) : Nat.even (length l) = true → swap_pairs l ≡ₚ l.
Proof.
  induction l as [|x|x y l IH] using pair_induction; [done|done|].
  intros He. cbn [swap_pairs]. rewrite IH by done. apply perm_swap.
Qed.

Lemma reply_all_app l1 l2 : reply_all (l1 ++ l2) = reply_all l1 ++ reply_all l2.
Proof. apply bind_app. Qed.

Lemma asks_step r line rest s :
  asks r line →
  fake_loop (line :: rest) s =
    match fake_dispatch r.1 r.2 s with
    | (out, _, true) => (out, Exited1)
    | (out, s', false) => let '(outs, e) := fake_loop rest s' in (out ++ outs, e)
    end.
Proof. intros (method & path & query & headers & secret & Hd). cbn [fake_loop]. by rewrite Hd. Qed.

Section well_behaved.
Context (no_stall : stall_after b = None) (no_exit : exit_after b = None).

Lemma dispatch_now req_id body n :
  out_of_order_pairs b = false →
  fake_dispatch req_id body (MkFakeState n []) =
    (reply_all [(req_id, body)], MkFakeState (n + 1) [], false).
Proof. intros Ho. unfold fake_dispatch. by rewrite no_stall, no_exit, Ho. Qed.

Lemma dispatch_pair id1 body1 id2 body2 n :
  out_of_order_pairs b = true →
  fake_dispatch id1 body1 (MkFakeState n []) = ([], MkFakeState n [(id1, body1)], false) ∧
  fake_dispatch id2 body2 (MkFakeState n [(id1, body1)]) =
    (reply_all [(id2, body2); (id1, body1)], MkFakeState (n + 2) [], false).
Proof. intros Ho. unfold fake_dispatch. by rewrite no_stall, no_exit, Ho. Qed.

Lemma fake_loop_in_order reqs lines n :
  out_of_order_pairs b = false → Forall2 asks reqs lines →
  fake_loop lines (MkFakeState n []) = (reply_all reqs, Returned).
Proof.
  intros Ho Hall. revert n. induction Hall as [|[id body] line reqs lines Hask _ IH]; intros n; [done|].
  rewrite (asks_step _ _ _ _ Hask), dispatch_now by done. cbn [fst snd]. rewrite IH.
  by rewrite <- (reply_all_app [(id, body)]).
Qed.

Lemma fake_loop_pairs reqs lines n :
  out_of_order_pairs b = true → Forall2 asks reqs lines →
  fake_loop lines (MkFakeState n []) = (reply_all (swap_pairs reqs), Returned).
Proof.
  intros Ho. revert lines n.
  induction reqs as [|[id body]|[id1 body1] [id2 body2] reqs IH] using pair_induction;
    intros lines n Hall.
  - by apply Forall2_nil_inv_l in Hall as ->.
  - apply Forall2_cons_inv_l in Hall as (line & rest & Hask & ->%Forall2_nil_inv_l & ->).
    rewrite (asks_step _ _ _ _ Hask). cbn [fst snd]. by rewrite (proj1 (dispatch_pair id body id body n Ho)).
  - apply Forall2_cons_inv_l in Hall as (l1 & rest & Ha1 & Hall & ->).
    apply Forall2_cons_inv_l in Hall as (l2 & rest' & Ha2 & Hall & ->).
    destruct (dispatch_pair id1 body1 id2 body2 n Ho) as [Hd1 Hd2].
    rewrite (asks_step _ _ _ _ Ha1). cbn [fst snd]. rewrite Hd1.
    rewrite (asks_step _ _ _ _ Ha2). cbn [fst snd]. rewrite Hd2, (IH _ _ Hall).
    cbn [app swap_pairs].
    by rewrite <- (reply_all_app [(id2, body2); (id1, body1)]).
Qed.
End well_behaved.

Lemma fake_answers (Hs : stall_after b = None) (He : exit_after b = None)
    (Hx : exit_on_start b = false) (Hr : bh_register b = true) reqs lines :
  Forall2 asks reqs lines →
  fake_main lines = (fake_start ++ reply_all (answer_order reqs), Returned) ∧
  (Nat.even (length reqs) = true → answer_order reqs ≡ₚ reqs).
Proof.
  intros Hall. unfold fake_main, answer_order. rewrite Hx, Hr. cbn [negb].
  destruct (out_of_order_pairs b) eqn:Ho.
  - rewrite (fake_loop_pairs Hs He reqs) by done. split; [done|]. apply swap_pairs_perm.
  - by rewrite (fake_loop_in_order Hs He reqs).
Qed.

(** What is answered is asked; at most one request is left. *)
Lemma answer_order_sublist {A} (l : list A) : ∃ rest, answer_order l ++ rest ≡ₚ l.
Proof.
  unfold answer_order. destruct (out_of_order_pairs b); [|exists []; by rewrite app_nil_r].
  induction l as [|x|x y l [rest IH]] using pair_induction; [by exists []|by exists [x]|].
  exists rest. cbn [swap_pairs app]. rewrite IH. apply perm_swap.
Qed.

(** ** Theorems *)

(** The answer to a request, as the daemon reads it. *)
Definition answer_of (r : Uuid * string) : Answer :=
  (r.1, (MkHttpReply (bh_status b) ∅ r.2, replicate (events_per_dispatch b) (MkEvent fake_channel r.2))).

Definition results_encode : Prop :=
  ∀ id http events, is_ok (to_string (Messages.Result id http events)) = true.

Lemma reply_all_encodes reqs :
  results_encode → encode_lines (result_msg <$> (answer_of <$> reqs)) = Ok (concat_chars (reply_all reqs)).
Proof.
  intros Hok. induction reqs as [|r reqs IH]; [done|].
  assert (is_ok (to_string (result_of r.1 r.2)) = true) as Hr by apply Hok.
  cbn [fmap list_fmap] in IH |- *. cbn [encode_lines]. unfold reply_all. cbn [mbind list_bind].
  change (result_msg (answer_of r)) with (result_of r.1 r.2).
  unfold write_msg, encode_line in *. destruct (to_string (result_of r.1 r.2)) as [t|e]; [|done].
  cbn [map_err mbind result_bind]. unfold encode_line in IH. by rewrite IH.
Qed.

(** C40: the fake extension's [out_of_order_pairs] through the daemon's reader: told
    neither to stall nor to exit, it answers the requests as they come or each
    second one before the first; when their number is even, all of them; and
    read back line by line, every answer completes the call that waits for its
    request with that request's own body, and nothing else changes. *)
Theorem out_of_order_answers_reach_their_calls {LE : WireLaws ExtMsg} cfg handle reqs lines rd :
  exit_on_start b = false → bh_register b = true → stall_after b = None → exit_after b = None →
  results_encode → Forall2 asks reqs lines →
  counters_ok (rd_counters rd) → distinct_calls (rd_window rd) → NoDup reqs.*1 →
  (∀ id, id ∈ reqs.*1 → is_Some (pending (rd_window rd) !! id)) →
  ∃ replies, fake_main lines = (fake_start ++ replies, Returned) ∧
    (Nat.even (length reqs) = true → answer_order reqs ≡ₚ reqs) ∧
    ∀ ls, ls.*1 = stream_lines (concat_chars replies) →
      all_answered handle (answer_of <$> answer_order reqs) rd (reader_run cfg handle (live ls) rd).
Proof.
  intros Hx Hr Hs He Htotal Hall Hok Hinj Hnd Hwait. exists (reply_all (answer_order reqs)).
  destruct (fake_answers Hs He Hx Hr reqs lines Hall) as [Hmain Hperm].
  split; [done|]. split; [done|]. intros ls Hls.
  assert ((answer_of <$> answer_order reqs).*1 = (answer_order reqs).*1) as Hids.
  { rewrite <- list_fmap_compose. by apply list_fmap_ext. }
  destruct (answer_order_sublist reqs) as (rest & Hsub).
  assert ((answer_order reqs).*1 ++ rest.*1 ≡ₚ reqs.*1) as Hsub' by (by rewrite <- fmap_app, Hsub).
  apply reader_run_results; [|done|done|..].
  - rewrite Hls.
    destruct (stream_lines_encoded _ _ (reply_all_encodes (answer_order reqs) Htotal)) as (out & -> & Hout).
    rewrite Forall2_fmap_l in Hout. eapply Forall2_impl; [exact Hout|]. by intros a line [_ Hd].
  - rewrite Hids. rewrite <- Hsub' in Hnd. by apply NoDup_app in Hnd as [? _].
  - rewrite Hids. intros id Hid. apply Hwait. rewrite <- Hsub'. apply elem_of_app. by left.
Qed.
End fake.

(** ** Witness *)

(** Two requests wait; the extension holds the first until the second comes. *)
Definition pairs_behavior : Behavior :=
  MkBehavior true 0 false None ["/dev"] ["dev.>"] PROTOCOL_VERSION 1 0 true None None false 1 None 2 200.
Definition two_requests : list (Uuid * string) := [(5, "YQ=="); (6, "Yg==")].
Definition request_line (r : Uuid * string) : string :=
  match to_string (Wire := BitCodec.wire) (Dispatch r.1 "POST" "/dev" None ∅ r.2 None) with
  | Ok s => s
  | Err _ => EmptyString
  end.

Lemma out_of_order_answers_reach_their_calls_witness :
  ∃ replies,
    fake_main (WS := BitCodec.wire) (WE := BitCodec.wire) HexCodec.to_hex pairs_behavior "dev"
      (request_line <$> two_requests) =
      (fake_start (WE := BitCodec.wire) HexCodec.to_hex pairs_behavior "dev" ++ replies, Returned) ∧
    all_answered echo_handle (answer_of pairs_behavior "dev" <$> [(6, "Yg=="); (5, "YQ==")])
      two_waiting_reader
      (reader_run (W := BitCodec.wire) demo_config echo_handle
         (live ((λ l, (l, 9)) <$> stream_lines (concat_chars replies))) two_waiting_reader).
Proof.
  assert (results_encode (WE := BitCodec.wire)) as Htotal by (intros id [st hs bd] evs; reflexivity).
  assert (Forall2 (asks (WS := BitCodec.wire)) two_requests (request_line <$> two_requests)) as Hasks.
  { repeat constructor; exists "POST", "/dev", None, ∅, None; vm_compute; reflexivity. }
  assert (counters_ok (rd_counters two_waiting_reader)) as Hok
    by (repeat split; vm_compute; congruence).
  assert (distinct_calls (rd_window two_waiting_reader)) as Hinj.
  { intros id1 id2 c. change (pending (rd_window two_waiting_reader))
      with (<[6 := 1%nat]> ({[5 := 0%nat]} : gmap Z nat)).
    rewrite !lookup_insert_Some, !lookup_singleton_Some. lia. }
  assert (NoDup two_requests.*1) as Hnd by (apply (bool_decide_unpack _); vm_compute; exact I).
  assert (∀ id, id ∈ two_requests.*1 → is_Some (pending (rd_window two_waiting_reader) !! id)) as Hwait.
  { intros id Hid. cbn [two_requests fmap list_fmap fst] in Hid.
    apply elem_of_cons in Hid as [->|Hid]; [by eexists|].
    apply list_elem_of_singleton in Hid as ->. by eexists. }
  destruct (out_of_order_answers_reach_their_calls (WS := BitCodec.wire) (WE := BitCodec.wire)
    (LE := BitCodec.wire_laws) HexCodec.to_hex pairs_behavior "dev" demo_config echo_handle
    two_requests (request_line <$> two_requests) two_waiting_reader
    eq_refl eq_refl eq_refl eq_refl Htotal Hasks Hok Hinj Hnd Hwait) as (replies & Hrun & _ & Hall).
  exists replies. split; [exact Hrun|]. apply Hall.
  rewrite <- list_fmap_compose. apply list_fmap_id.
Defined.
