(* ===== verification/Lifecycle.v ===== *)
(** * Lifecycle: how an extension is stopped, and the daemon with it

    [wait_for_extension_drain], [supervise_extension], [send_shutdown_to_extensions],
    [shutdown_state] and the signal handling of [run_with_signals], all of
    [crates/whdr-server/src/daemon.rs].  Times are milliseconds; what the child,
    the timers and the pipes do is an input. *)

From S2P Require Import Prelude.
From S2P Require Import Text.
From S2P Require Import Messages.
From S2P Require Import OutboundQueue.
From S2P Require Import Config.
From S2P Require Import Subscribers.
From S2P Require Import TokenStore.
From S2P Require Import DispatchWindow.
From S2P Require Import ExtensionProcess.
From S2P Require Import AppState.
From S2P Require Import Supervision.
From S2P Require Import Dispatch.

Local Open Scope Z_scope.

(** ** Definitions *)

(** *** Draining *)

(** One round of the loop: when it looks, in milliseconds since the loop began,
    and the window of the handle it finds, if the generation is registered. *)
Record DrainPoll : Type := MkDrainPoll {
  dp_at : Z;
  dp_window : option (@Window ExtResult)
}.

Definition drain_interval_ms : Z := 5.

(** Whether the drain is over before the time-out, and how long it took; the
    timer fires between the last round and the next. *)
Fixpoint wait_for_extension_drain (timeout : Z) (polls : list DrainPoll) : bool * Z :=
  match polls with
  | [] => (false, timeout)
  | p :: rest =>
      if timeout <? dp_at p then (false, timeout)
      else match dp_window p with
           | None => (true, dp_at p)
           | Some w => if is_idle w then (true, dp_at p) else wait_for_extension_drain timeout rest
           end
  end.

(** *** The supervisor *)

(** What its [select!] finds first: the child is gone, or a command ([None]: the
    channel is closed). *)
Inductive Wake : Type :=
  | ChildGone (status : result string string)
  | Commanded (command : option SupervisorCommand).

(** What the drain meets: the rounds of the wait; whether the handle is still
    registered after it and, then, how long the send of [Shutdown] takes ([None]:
    it never completes); and the two waits for the child with the pid and the
    return code of [kill]. *)
Record StopEnv : Type := MkStopEnv {
  se_polls : list DrainPoll;
  se_registered : bool;
  se_send : option Z;
  se_has_pid : bool;
  se_kill_ok : bool;
  se_first : Waited;
  se_second : Waited
}.

Inductive SupAction : Type :=
  | SendShutdown
  | Signal (a : ChildAction).

(** The end of the [select!]: the tuple, whether a [done] sender is held, what
    was done to the child, and a bound on the time it took. *)
Record Woken : Type := MkWoken {
  wk_reason : string;
  wk_respawn : bool;
  wk_done : bool;
  wk_actions : list SupAction;
  wk_elapsed : Z
}.

Definition send_shutdown (env : StopEnv) : option (list SupAction * Z) :=
  if se_registered env then (λ t, ([SendShutdown], t)) <$> se_send env else Some ([], 0).

Definition supervise_wake (timeouts : TimeoutsConfig) (env : StopEnv) (wake : Wake)
    : option Woken :=
  match wake with
  | ChildGone (Ok status) =>
      Some (MkWoken ("extension exited with " +:+ status) true false [] 0)
  | ChildGone (Err err) => Some (MkWoken ("extension wait failed: " +:+ err) true false [] 0)
  | Commanded (Some (DrainStop reason done)) =>
      let '(_, waited) := wait_for_extension_drain (drain_ms timeouts) (se_polls env) in
      '(sent, send_time) ← send_shutdown env;
      let '(signals, grace) :=
        wait_for_child_shutdown (term_grace_ms timeouts) (se_has_pid env) (se_kill_ok env)
          (se_first env) (se_second env) in
      Some (MkWoken reason false done (sent ++ (Signal <$> signals)) (waited + send_time + grace))
  | Commanded (Some (KillAndRespawn reason)) =>
      Some (MkWoken reason true false [Signal SigKill; Signal Reap] 0)
  | Commanded None =>
      Some (MkWoken "extension supervisor command channel closed" false false
              [Signal SigKill; Signal Reap] 0)
  end.

Section lifecycle.
Context {Db : Type} `{HashOrder}.
Implicit Types st : Inner Db.

(** The whole task; [st] is the state its clean-up begins in. *)
Definition supervise_extension (inp : Input) (timeouts : TimeoutsConfig) (env : StopEnv)
    (wake : Wake) (cand id path : string) (gen : Uuid) st : option (Woken * Inner Db) :=
  wk ← supervise_wake timeouts env wake;
  Some (wk, supervise_exit inp cand id path gen (wk_reason wk) (wk_respawn wk) st).

(** *** The daemon's main task *)

(** The shared state, the subscribers' queues and close cells, and the command
    channels of the running supervisors, by generation. *)
Record Daemon : Type := MkDaemon {
  d_state : Inner Db;
  d_heap : Heap;
  d_mailboxes : gmap Uuid (list SupervisorCommand)
}.

(** [supervisor_tx.send(cmd).await] with its result ignored: nothing when the
    supervisor is gone, and no completion ([None]) while its channel of four is
    full. *)
Definition send_command (gen : Uuid) (cmd : SupervisorCommand)
    (m : gmap Uuid (list SupervisorCommand)) : option (gmap Uuid (list SupervisorCommand)) :=
  match m !! gen with
  | None => Some m
  | Some mailbox => if len mailbox <? 4 then Some (<[gen := mailbox ++ [cmd]]> m) else None
  end.

Fixpoint send_commands (cmd : SupervisorCommand) (handles : list ExtHandle)
    (m : gmap Uuid (list SupervisorCommand)) : option (gmap Uuid (list SupervisorCommand)) :=
  match handles with
  | [] => Some m
  | handle :: rest => m' ← send_command (generation handle) cmd m; send_commands cmd rest m'
  end.

Definition server_shutdown : SupervisorCommand := DrainStop "server shutdown" true.
Definition removed_from_config : SupervisorCommand := DrainStop "removed from config" false.

(** Its sends, and how long each of the replies is waited for. *)
Definition send_shutdown_to_extensions (d : Daemon) : option (Daemon * list Z) :=
  let handles := snd <$> hash_iter (i_extensions (d_state d)) in
  let wait_ms := shutdown_wait_ms (timeouts (i_config (d_state d))) in
  m ← send_commands server_shutdown handles (d_mailboxes d);
  Some (MkDaemon (d_state d) (d_heap d) m, (λ _, wait_ms) <$> handles).

Definition send_shutdown_to_subscribers (d : Daemon) : Daemon :=
  MkDaemon (d_state d) (close_all ReasonShutdown (i_subscribers (d_state d)) (d_heap d))
    (d_mailboxes d).

(** [shutdown_state], up to the aborts of the server tasks. *)
Definition shutdown_state (d : Daemon) : option (Daemon * list Z) :=
  send_shutdown_to_extensions
    (send_shutdown_to_subscribers
       (MkDaemon (begin_shutdown (d_state d)) (d_heap d) (d_mailboxes d))).

(** Every start comes with a new command channel; the supervisor of a registered
    generation has one. *)
Definition open_mailbox (m : gmap Uuid (list SupervisorCommand)) (handle : ExtHandle)
    : gmap Uuid (list SupervisorCommand) :=
  match m !! generation handle with
  | None => <[generation handle := []]> m
  | Some _ => m
  end.

Definition open_mailboxes (st : Inner Db) (m : gmap Uuid (list SupervisorCommand))
    : gmap Uuid (list SupervisorCommand) :=
  foldl open_mailbox m (snd <$> hash_iter (i_extensions st)).

(** One round of the signal loop: a hang-up reloads and the loop goes on,
    whatever the reload's result; the other two end it. *)
Inductive SignalReceived : Type :=
  | Terminate
  | Interrupt
  | Hangup (load_cfg : result string Config) (load : string → result string TokenStore)
      (launcher : Launcher) (candidates : gmap string string).

Definition signal_round (s : SignalReceived) (d : Daemon) : option (Daemon * bool) :=
  match s with
  | Terminate | Interrupt => '(d', _) ← shutdown_state d; Some (d', false)
  | Hangup load_cfg load launcher candidates =>
      match reload_from_path load_cfg load launcher candidates (d_state d) (d_heap d) with
      | (Err _, st, h) => Some (MkDaemon st h (d_mailboxes d), true)
      | (Ok stopped, st, h) =>
          m ← send_commands removed_from_config stopped (d_mailboxes d);
          Some (MkDaemon st h (open_mailboxes st m), true)
      end
  end.
End lifecycle.
Arguments Daemon : clear implicits.

(** ** Specification *)

(** The rounds of a wait, each at least an interval after the one before. *)
Fixpoint well_timed (from : Z) (polls : list DrainPoll) : Prop :=
  match polls with
  | [] => True
  | p :: rest => from ≤ dp_at p ∧ well_timed (dp_at p + drain_interval_ms) rest
  end.

(** What a round can end the wait with. *)
Definition drained (p : DrainPoll) : bool :=
  match dp_window p with None => true | Some w => is_idle w end.

(** No two registered handles are of one generation. *)
Definition distinct_generations {Db} (st : Inner Db) : Prop :=
  ∀ id1 h1 id2 h2, i_extensions st !! id1 = Some h1 → i_extensions st !! id2 = Some h2 →
    generation h1 = generation h2 → id1 = id2.

(** Some running extension's supervisor has a full channel. *)
Definition some_full_mailbox {Db} (d : Daemon Db) : Prop :=
  ∃ id h mailbox, i_extensions (d_state d) !! id = Some h ∧
    d_mailboxes d !! generation h = Some mailbox ∧ 4 ≤ len mailbox.

(** ** Lemmas *)

(** *** Draining *)

Lemma well_timed_from from polls : well_timed from polls → Forall (λ p, from ≤ dp_at p) polls.
Proof.
  revert from. induction polls as [|p polls IH]; intros from; [constructor|].
  intros [Hle Hrest]. constructor; [done|]. eapply Forall_impl; [by apply IH|].
  unfold drain_interval_ms. simpl. lia.
Qed.

Lemma wait_drain_cons timeout p polls :
  wait_for_extension_drain timeout (p :: polls) =
  if timeout <? dp_at p then (false, timeout)
  else if drained p then (true, dp_at p) else wait_for_extension_drain timeout polls.
Proof. cbn [wait_for_extension_drain]. unfold drained. by destruct (dp_window p). Qed.

(** The wait ends with the first round that finds the extension drained, if
    that one is in time. *)
Lemma wait_drain_spec timeout from polls :
  well_timed from polls →
  wait_for_extension_drain timeout polls =
  match list_find (λ p, drained p = true) polls with
  | Some (_, p) => if dp_at p <=? timeout then (true, dp_at p) else (false, timeout)
  | None => (false, timeout)
  end.
Proof.
  revert from. induction polls as [|p polls IH]; intros from Hw; [done|].
  pose proof (well_timed_from _ _ Hw) as Hall. destruct Hw as [Hle Hw].
  rewrite wait_drain_cons, (IH _ Hw). cbn [list_find]. pose proof (well_timed_from _ _ Hw) as Hlater.
  destruct (drained p) eqn:Hd.
  - rewrite decide_True by done. destruct (Z.ltb_spec timeout (dp_at p)); case_bool; done || lia.
  - rewrite decide_False by done.
    destruct (list_find _ polls) as [[i q]|] eqn:Hf; cbn [fmap option_fmap option_map prod_map].
    + apply list_find_Some in Hf as (Hq & _). apply list_elem_of_lookup_2 in Hq.
      rewrite Forall_forall in Hlater. specialize (Hlater q Hq). simpl in Hlater.
      unfold drain_interval_ms in Hlater.
      destruct (Z.ltb_spec timeout (dp_at p)); [|done]. simpl. by rewrite (proj2 (Z.leb_gt _ _)) by lia.
    + by case_bool.
Qed.

Lemma wait_drain_time timeout from polls :
  0 ≤ from → 0 ≤ timeout → well_timed from polls →
  0 ≤ (wait_for_extension_drain timeout polls).2 ≤ timeout.
Proof.
  intros Hfrom Ht Hw. rewrite (wait_drain_spec _ _ _ Hw). apply well_timed_from in Hw.
  destruct (list_find _ polls) as [[i q]|] eqn:Hf; [|simpl; lia].
  apply list_find_Some in Hf as (Hq & _). apply list_elem_of_lookup_2 in Hq.
  rewrite Forall_forall in Hw. specialize (Hw q Hq). case_match eqn:Hle; simpl; [|lia].
  apply Z.leb_le in Hle. simpl in Hw. lia.
Qed.

(** The timer leaves room for so many rounds. *)
Lemma wait_drain_rounds timeout from polls n :
  well_timed from polls → timeout < from + drain_interval_ms * Z.of_nat n →
  wait_for_extension_drain timeout polls = wait_for_extension_drain timeout (take n polls).
Proof.
  unfold drain_interval_ms. revert from n. induction polls as [|p polls IH]; intros from n Hw Hn.
  { by rewrite take_nil. }
  destruct Hw as [Hle Hw], n as [|n]; cbn [take]; rewrite !wait_drain_cons.
  - by rewrite (proj2 (Z.ltb_lt _ _)) by lia.
  - rewrite (IH _ n Hw); [done|]. unfold drain_interval_ms. lia.
Qed.

Lemma well_timed_take n from polls : well_timed from polls → well_timed from (take n polls).
Proof.
  revert n from. induction polls as [|p polls IH]; intros [|n] from; try done.
  intros [? ?]. split; [done|]. by apply IH.
Qed.

(** *** Sending commands *)

Section sending.
Context {Db : Type} `{HashOrder}.

Lemma send_commands_spec cmd handles (m : gmap Uuid (list SupervisorCommand)) :
  NoDup (generation <$> handles) →
  (∀ h mailbox, h ∈ handles → m !! generation h = Some mailbox → len mailbox < 4) →
  ∃ m', send_commands cmd handles m = Some m' ∧
    (∀ h, h ∈ handles → m' !! generation h = (λ mb, mb ++ [cmd]) <$> m !! generation h) ∧
    (∀ g, g ∉ generation <$> handles → m' !! g = m !! g).
Proof.
  revert m. induction handles as [|h handles IH]; intros m Hnd Hroom; cbn [send_commands].
  { exists m. split; [done|]. split; [set_solver|done]. }
  rewrite fmap_cons in Hnd. apply NoDup_cons in Hnd as [Hno Hnd].
  assert (∀ h', h' ∈ handles → generation h' ≠ generation h) as Hdiff.
  { intros h' Hin Heq. apply Hno, list_elem_of_fmap. by exists h'. }
  assert (∃ m1, send_command (generation h) cmd m = Some m1 ∧
    m1 !! generation h = (λ mb, mb ++ [cmd]) <$> m !! generation h ∧
    ∀ g, g ≠ generation h → m1 !! g = m !! g) as (m1 & -> & Hown & Hothers).
  { unfold send_command. destruct (m !! generation h) as [mb|] eqn:Hmb; [|by exists m].
    rewrite (proj2 (Z.ltb_lt _ _)) by (eapply Hroom; [by left|done]).
    eexists. split; [done|]. rewrite lookup_insert_eq. split; [done|].
    intros g Hg. by rewrite lookup_insert_ne. }
  destruct (IH m1 Hnd) as (m' & Hsend & Hin & Hout).
  { intros h' mb Hh'. rewrite Hothers by auto. apply Hroom. by right. }
  exists m'. split; [done|]. split.
  - intros h' [->|Hh']%elem_of_cons; [by rewrite Hout|]. rewrite Hin, Hothers by auto. done.
  - intros g [Hg Hgs]%not_elem_of_cons. rewrite Hout, Hothers by done. done.
Qed.

Lemma send_commands_full cmd handles (m : gmap Uuid (list SupervisorCommand)) h mailbox :
  h ∈ handles → m !! generation h = Some mailbox → 4 ≤ len mailbox →
  send_commands cmd handles m = None.
Proof.
  revert m. induction handles as [|h' handles IH]; intros m Hin Hmb Hfull; [by apply elem_of_nil in Hin|].
  cbn [send_commands]. apply elem_of_cons in Hin as [<-|Hin].
  - unfold send_command. rewrite Hmb. by rewrite (proj2 (Z.ltb_ge _ _)).
  - destruct (send_command (generation h') cmd m) as [m1|] eqn:Hs; [|done].
    cbn [mbind option_bind]. assert (m1 !! generation h = Some mailbox) as Hm1; [|by eapply IH].
    unfold send_command in Hs. destruct (m !! generation h') as [mb|] eqn:Hmb'; [|congruence].
    destruct (len mb <? 4) eqn:Hlt; [|done]. injection Hs as <-. apply Z.ltb_lt in Hlt.
    rewrite lookup_insert_ne; [done|]. intros Heq. rewrite Heq, Hmb in Hmb'. injection Hmb' as ->. lia.
Qed.

(** The sends hang exactly on a full channel. *)
Lemma send_commands_None cmd handles (m : gmap Uuid (list SupervisorCommand)) :
  NoDup (generation <$> handles) →
  send_commands cmd handles m = None ↔
  ∃ h mailbox, h ∈ handles ∧ m !! generation h = Some mailbox ∧ 4 ≤ len mailbox.
Proof.
  intros Hnd. split; [|intros (h & mb & ? & ? & ?); by eapply send_commands_full].
  intros Hnone.
  destruct (decide (Exists (λ h, 4 ≤ len (default [] (m !! generation h))) handles)) as [Hex|Hno].
  - apply Exists_exists in Hex as (h & Hh & Hfull). destruct (m !! generation h) as [mb|] eqn:Hmb.
    + by exists h, mb.
    + simpl in Hfull. by change (len []) with 0 in Hfull.
  - exfalso. destruct (send_commands_spec cmd handles m Hnd) as (m' & Hs & _); [|congruence].
    intros h mb Hh Hmb. apply Z.nle_gt. intros Hfull. apply Hno, Exists_exists. exists h.
    by rewrite Hmb.
Qed.

Lemma distinct_generations_NoDup (st : Inner Db) :
  distinct_generations st → NoDup (generation <$> (snd <$> hash_iter (i_extensions st))).
Proof.
  intros Hd. rewrite <- list_fmap_compose. apply NoDup_fmap_2_strong.
  - intros [id1 h1] [id2 h2] H1%elem_of_hash_iter H2%elem_of_hash_iter Heq. simpl in *.
    assert (id1 = id2) as -> by by eapply Hd. congruence.
  - eapply NoDup_fmap_1, NoDup_hash_iter.
Qed.
End sending.

(** *** Clean-up without a respawn *)

Lemma supervise_exit_stop {Db : Type} `{HashOrder} inp cand id path gen reason (st : Inner Db) :
  let st' := supervise_exit inp cand id path gen reason false st in
  extension_handle id gen st' = None ∧
  (∀ o, extension_handle id gen st = None ∨ o ≠ id → i_extensions st' !! o = i_extensions st !! o) ∧
  i_supervisor st' = i_supervisor st ∧ i_failed st' = i_failed st.
Proof.
  cbv zeta. unfold supervise_exit, cleanup_extension_generation, remove_generation.
  destruct (extension_handle id gen st) as [h|] eqn:Hh; cbn [negb orb]; [|by rewrite Hh].
  split_and!; try done.
  - unfold extension_handle. simpl. by rewrite lookup_delete_eq.
  - intros o [|Ho]; [done|]. simpl. by rewrite lookup_delete_ne.
Qed.

(** ** Theorems *)



(** ** Witnesses *)

#[local] Existing Instance some_order.

Definition demo_timeouts : TimeoutsConfig := MkTimeoutsConfig 500 20 50.

(** A dispatch is still waiting when the drain begins and is over at the second
    look; the child then ignores the shutdown and leaves on [SIGTERM]. *)
Definition demo_env : StopEnv :=
  MkStopEnv [MkDrainPoll 0 (Some waiting_window); MkDrainPoll 6 (Some DispatchWindow_new)]
    true (Some 1) true true WaitElapsed WaitExited.


Definition demo_daemon : Daemon (list (Z * string)) :=
  MkDaemon demo_state two_queues {[ 7 := [KillAndRespawn "hang"] ]}.

Lemma demo_generations : distinct_generations demo_state.
Proof.
  intros id1 h1 id2 h2. replace (i_extensions demo_state) with ({["old" := old_handle]} : gmap string ExtHandle)
    by (vm_compute; reflexivity).
  rewrite !lookup_singleton_Some. intros [<- _] [<- _] _. done.
Qed.


(** A supervisor reads one command only.  When the [Shutdown] it sends hangs
    (Session.v: the child no longer reads and its channel is full), the commands
    of later reloads stay in its channel; four of them, and the next reload, or
    the shutdown, never ends. *)
Lemma unread_commands_block_the_daemon :
  let stuck := MkDaemon demo_state two_queues {[ 7 := repeat removed_from_config 4 ]} in
  let unread := MkStopEnv [] true None true true WaitElapsed WaitElapsed in
  supervise_extension (demo_input 9 reg_b) demo_timeouts unread
    (Commanded (Some removed_from_config)) "old" "old" "/bin/whdr-ext-old" 7 demo_state = None ∧
  shutdown_state stuck = None ∧
  signal_round (Hangup (Ok demo_config) (λ _, Ok demo_store) demo_launcher demo_candidates) stuck = None.
Proof. split; [|split]; vm_compute; reflexivity. Qed.
