(* ===== verification/Startup.v ===== *)
(** * Startup: the daemon from its configuration file to its last signal

    [run_with_signals], [run_until_shutdown] and [start_servers] of
    [crates/whdr-server/src/daemon.rs] and [main] of [crates/whdr-server/src/main.rs],
    around the rounds of Lifecycle.v.  The answers of the system are inputs; a
    server task is the address it serves.  What the other tasks do to the daemon
    between two signals is a function given with the signal. *)

From S2P Require Import Prelude.
From S2P Require Import Text.
From S2P Require Import Messages.
From S2P Require Import Config.
From S2P Require Import OutboundQueue.
From S2P Require Import DeliveryLog.
From S2P Require Import Subscribers.
From S2P Require Import SubscriberWs.
From S2P Require Import TokenStore.
From S2P Require Import AppState.
From S2P Require Import Dispatch.
From S2P Require Import Lifecycle.

Local Open Scope Z_scope.

(** ** Definitions *)

(** The tasks of the servers, by what they serve; [rs_prune] is the interval of
    the prune task, in seconds. *)
Record RunningServers : Type := MkRunningServers {
  ingest_task : SocketAddr;
  sub_task : SocketAddr;
  metrics_task : option SocketAddr;
  control_task : string;
  prune_task : option Z
}.

(** What the system answers while the daemon starts: the [bind] of an address. *)
Definition BindEnv : Type := SocketAddr → result string ().

Section startup.
Context {Db Table : Type} {R : Redb Db Table} {W : Wire StoredEvent}.
Context {O : HashOrder}.
Context (parse_config : string → option RawConfig) (parse_secrets : string → option (gmap string string)).
Context (load_tokens : FsView → string → result string TokenStore).
Context (config_path : string).

(** [start_servers]: listeners are bound first; nothing is served before all
    of them are. *)
Definition start_servers (bind : BindEnv) (st : Inner Db) : result string RunningServers :=
  let config := i_config st in
  _ ← bind (listen_addr (server config));
  _ ← bind (sub_addr (server config));
  _ ← match metrics_addr (server config) with
      | Some addr => bind addr
      | None => Ok ()
      end;
  Ok (MkRunningServers (listen_addr (server config)) (sub_addr (server config))
        (metrics_addr (server config)) (control_socket (server config))
        ((λ _, Z.max (prune_interval_secs (delivery config)) 1) <$> log (i_subscribers st))).

(** A tick of the prune task: a failure is only logged. *)
Definition prune_tick (now_ms : Z) (st : Inner Db) : Inner Db :=
  let r := i_subscribers st in
  match log r with
  | None => st
  | Some l =>
      MkInner (i_config st) (i_token_store st) (i_routes st) (i_unavailable st) (i_prefixes st)
        (i_extensions st) (i_counters st) (i_failed st)
        (MkRegistry (subs r) (next_id r) (mem_seq r) (Some (prune_blocking now_ms l).2)
           (persist_errors r))
        (i_supervisor st) (i_shutting_down st) (i_started st)
  end.

(** What the system answers at the start: the file system, the steps of opening
    the log, the binds; and the extensions found and what launching them gives. *)
Record StartEnv : Type := MkStartEnv {
  se_fs : FsView;
  se_create_parent : string → result string ();
  se_chmod : string → result string ();
  se_database : string → result string Db;
  se_now_ms : Z;
  se_started : Z;
  se_launcher : Launcher;
  se_candidates : gmap string string;
  se_bind : BindEnv
}.

(** The state, the extensions and the servers of a configuration. *)
Definition daemon_up (e : StartEnv) (config : Config) : result string (Daemon Db * RunningServers) :=
  st ← AppState_new (load_tokens (se_fs e))
         (λ cfg, DeliveryLog_open (se_fs e) (se_create_parent e) (se_chmod e) (se_database e) cfg
                   (se_now_ms e)) (se_started e) config;
  let st1 := (start_extensions (se_launcher e) (se_candidates e) st).2 in
  servers ← start_servers (se_bind e) st1;
  Ok (MkDaemon st1 (MkHeap ∅ ∅) (open_mailboxes st1 ∅), servers).

(** [run_with_signals] up to its loop. *)
Definition daemon_start (e : StartEnv) : result string (Daemon Db * RunningServers) :=
  config ← Config_load parse_config parse_secrets (se_fs e) config_path;
  daemon_up e config.

(** [run_until_shutdown], where [others] is what the tasks do until the shutdown
    is asked for; [None] when it hangs. *)
Definition run_until_shutdown (e : StartEnv) (config : Config) (others : Daemon Db → Daemon Db)
    : result string (option (Daemon Db)) :=
  '(d, _) ← daemon_up e config;
  Ok (fst <$> shutdown_state (others d)).

(** A signal, with the file system a reload then sees. *)
Inductive DaemonSignal : Type :=
  | SIGTERM
  | SIGINT
  | SIGHUP (fs : FsView) (launcher : Launcher) (candidates : gmap string string).

Definition received (s : DaemonSignal) : SignalReceived :=
  match s with
  | SIGTERM => Terminate
  | SIGINT => Interrupt
  | SIGHUP fs launcher candidates =>
      Hangup (Config_load parse_config parse_secrets fs config_path) (load_tokens fs) launcher candidates
  end.

(** The loop, over what the other tasks do until the next signal and that
    signal: [true] when it still runs at the end, [None] when it hangs. *)
Fixpoint daemon_loop (rounds : list ((Daemon Db → Daemon Db) * DaemonSignal)) (d : Daemon Db)
    : option (Daemon Db * bool) :=
  match rounds with
  | [] => Some (d, true)
  | (others, s) :: rest =>
      '(d', go_on) ← signal_round (received s) (others d);
      match go_on with
      | true => daemon_loop rest d'
      | false => Some (d', false)
      end
  end.

(** The whole run: where the servers were, and the daemon at the end. *)
Definition run_with_signals (e : StartEnv) (rounds : list ((Daemon Db → Daemon Db) * DaemonSignal))
    : result string (RunningServers * option (Daemon Db * bool)) :=
  '(d, servers) ← daemon_start e;
  Ok (servers, daemon_loop rounds d).

(** ** Specification *)

(** The limits the log was opened with. *)
Definition log_settings (st : Inner Db) : option (Z * Z * Z) :=
  (λ l, (sh_retention_secs l, sh_max_bytes l, sh_max_events l)) <$> log (i_subscribers st).

(** Only a reload changes the configuration, and nothing the limits of the
    log. *)
Definition keeps_settings (others : Daemon Db → Daemon Db) : Prop :=
  ∀ d, i_config (d_state (others d)) = i_config (d_state d) ∧
       log_settings (d_state (others d)) = log_settings (d_state d).

(** A configuration that was read, in full, from one of the file systems. *)
Definition loaded_from (fss : list FsView) (c : Config) : Prop :=
  ∃ fs, fs ∈ fss ∧ Config_load parse_config parse_secrets fs config_path = Ok c.

Definition reload_fs (s : DaemonSignal) : list FsView :=
  match s with SIGHUP fs _ _ => [fs] | _ => [] end.

Definition ends_it (s : DaemonSignal) : bool :=
  match s with SIGHUP _ _ _ => false | _ => true end.

(** ** Lemmas *)

(** *** What keeps the settings *)

Lemma AppState_new_log load open started config (st : Inner Db) :
  AppState_new load open started config = Ok st →
  i_config st = config ∧
  (if delivery_enabled (delivery config)
   then ∃ l, log (i_subscribers st) = Some l ∧ open (delivery config) = Ok l
   else log (i_subscribers st) = None).
Proof.
  unfold AppState_new. intros (? & _ & H)%result_bind_Ok. apply result_bind_Ok in H as (ts & _ & H).
  apply result_bind_Ok in H as (r & Hr & [= <-]). cbn [i_config i_subscribers]. split; [done|].
  destruct (delivery_enabled _); [|by injection Hr as <-].
  apply result_bind_Ok in Hr as (l & Hl & [= <-]). by exists l.
Qed.

Lemma shutdown_state_settings (d d' : Daemon Db) ws :
  shutdown_state d = Some (d', ws) →
  i_subscribers (d_state d') = i_subscribers (d_state d) ∧
  i_config (d_state d') = i_config (d_state d) ∧ i_shutting_down (d_state d') = true.
Proof. unfold shutdown_state, send_shutdown_to_extensions. by intros (m & _ & [= <- _])%bind_Some. Qed.

Lemma reload_settings load_cfg load l candidates (st st' : Inner Db) h h' stopped :
  reload_from_path load_cfg load l candidates st h = (Ok stopped, st', h') →
  ∃ c, load_cfg = Ok c ∧ i_config st' = c ∧ i_subscribers st' = i_subscribers st.
Proof.
  unfold reload_from_path. destruct load_cfg as [c|]; [|done]. destruct (load _) as [ts|]; [|done].
  destruct (start_extensions _ _ _) as [hs st2] eqn:Hs. intros [= <- <- <-].
  apply start_extensions_config in Hs as (Hc & _ & Hsub). by exists c.
Qed.

Lemma reload_failed load_cfg load l candidates (st st' : Inner Db) h h' e :
  reload_from_path load_cfg load l candidates st h = (Err e, st', h') → st' = st.
Proof.
  unfold reload_from_path. destruct load_cfg as [c|]; [|by intros [= _ <- _]].
  destruct (load _) as [ts|]; [|by intros [= _ <- _]]. by destruct (start_extensions _ _ _).
Qed.

(** *** The life of the daemon *)

Lemma prune_tick_keeps now : keeps_settings (λ d, MkDaemon (prune_tick now (d_state d)) (d_heap d) (d_mailboxes d)).
Proof.
  intros d. cbn [d_state]. unfold prune_tick, log_settings. destruct (log (i_subscribers (d_state d))) as [l|] eqn:Hl;
    [|by rewrite Hl]. cbn [i_config i_subscribers log]. split; [done|].
  cbn. f_equal. apply prune_keeps_settings.
Qed.

Lemma start_settings e d servers :
  daemon_start e = Ok (d, servers) →
  ∃ c, Config_load parse_config parse_secrets (se_fs e) config_path = Ok c ∧
    i_config (d_state d) = c ∧
    log_settings (d_state d) =
      (if delivery_enabled (delivery c)
       then Some (retention_secs (delivery c), max_bytes (delivery c), dc_max_events (delivery c))
       else None) ∧
    ingest_task servers = listen_addr (server c) ∧ sub_task servers = sub_addr (server c) ∧
    metrics_task servers = metrics_addr (server c).
Proof.
  unfold daemon_start. intros (c & Hc & H)%result_bind_Ok. exists c. split; [done|].
  unfold daemon_up in H. apply result_bind_Ok in H as (st & Hst & H). cbv zeta in H.
  destruct (start_extensions _ _ st) as [stopped st1] eqn:Hext.
  apply start_extensions_config in Hext as (Hcfg & _ & Hsub). cbn [snd] in H.
  apply result_bind_Ok in H as (sv & Hsv & [= <- <-]). cbn [d_state].
  apply AppState_new_log in Hst as [Hcfg0 Hlog].
  unfold start_servers in Hsv. rewrite Hcfg, Hcfg0 in Hsv.
  apply result_bind_Ok in Hsv as ([] & _ & Hsv). apply result_bind_Ok in Hsv as ([] & _ & Hsv).
  apply result_bind_Ok in Hsv as ([] & _ & [= <-]). split; [congruence|].
  unfold log_settings. rewrite Hsub. split; [|done].
  destruct (delivery_enabled (delivery c)); [|by rewrite Hlog].
  destruct Hlog as (l & -> & Hopen). apply open_settings in Hopen. cbn. by rewrite Hopen.
Qed.

Lemma signal_round_settings s d d' go_on :
  signal_round (received s) d = Some (d', go_on) →
  log_settings (d_state d') = log_settings (d_state d) ∧
  (i_config (d_state d') = i_config (d_state d) ∨ loaded_from (reload_fs s) (i_config (d_state d'))) ∧
  go_on = negb (ends_it s) ∧ (go_on = false → i_shutting_down (d_state d') = true).
Proof.
  destruct s as [| |fs launcher candidates]; cbn [received signal_round].
  1,2: intros ([d1 ws] & Hs & [= <- <-])%bind_Some; apply shutdown_state_settings in Hs as (H1 & H2 & H3);
    unfold log_settings; rewrite H1, H2; by intuition.
  destruct (reload_from_path _ _ _ _ _ _) as [[[stopped|e] st] h] eqn:Hr.
  - intros (m & _ & [= <- <-])%bind_Some. cbn [d_state]. apply reload_settings in Hr as (c & Hc & H1 & H2).
    unfold log_settings. rewrite H2. split; [done|]. split; [|done]. right. exists fs.
    rewrite H1. split; [by apply list_elem_of_singleton|done].
  - intros [= <- <-]. cbn [d_state]. apply reload_failed in Hr as ->. by intuition.
Qed.

Lemma daemon_loop_settings rounds d d' running fss :
  Forall (λ r, keeps_settings r.1) rounds → loaded_from fss (i_config (d_state d)) →
  daemon_loop rounds d = Some (d', running) →
  log_settings (d_state d') = log_settings (d_state d) ∧
  loaded_from (fss ++ (rounds ≫= λ r, reload_fs r.2)) (i_config (d_state d')) ∧
  running = negb (existsb (λ r, ends_it r.2) rounds) ∧
  (running = false → i_shutting_down (d_state d') = true).
Proof.
  revert d fss. induction rounds as [|[others s] rounds IH]; intros d fss Hk Hload; cbn [daemon_loop].
  { intros [= <- <-]. rewrite app_nil_r. by intuition. }
  apply Forall_cons in Hk as [Hothers Hk]. destruct (Hothers d) as [Hc Hlog]. cbn [fst] in *.
  intros ([d1 go_on] & Hs & Hrest)%bind_Some.
  apply signal_round_settings in Hs as (Hlog1 & Hcfg1 & Hgo & Hdown).
  assert (loaded_from (fss ++ reload_fs s) (i_config (d_state d1))) as Hload1.
  { destruct Hcfg1 as [Heq|(fs & Hin & Hfs)].
    - destruct Hload as (fs & Hin & Hfs). exists fs. rewrite elem_of_app. split; [by left|]. congruence.
    - exists fs. rewrite elem_of_app. split; [by right|done]. }
  cbn [mbind list_bind existsb fst snd]. destruct (ends_it s); cbn in Hgo; subst go_on.
  - injection Hrest as <- <-. split; [congruence|]. split; [|by intuition].
    destruct Hload1 as (fs & Hin & Hfs). exists fs. split; [|done]. rewrite app_assoc. apply elem_of_app. by left.
  - destruct (IH _ _ Hk Hload1 Hrest) as (H1 & H2 & H3 & H4). rewrite app_assoc. by split_and!; [congruence|..].
Qed.

(** What [run_until_shutdown] does on a configuration is what the daemon does on
    a file with it, terminated at that moment. *)
Lemma run_until_shutdown_is_terminated e config others :
  Config_load parse_config parse_secrets (se_fs e) config_path = Ok config →
  run_until_shutdown e config others =
  match run_with_signals e [(others, SIGTERM)] with
  | Ok (_, outcome) => Ok (fst <$> outcome)
  | Err err => Err err
  end.
Proof.
  intros Hc. unfold run_until_shutdown, run_with_signals, daemon_start. rewrite Hc.
  cbn [mbind result_bind]. destruct (daemon_up e config) as [[d servers]|err]; [|done].
  cbn. by destruct (shutdown_state (others d)) as [[d' ws]|].
Qed.
End startup.

(** [main] of [crates/whdr-server/src/main.rs], with the [--config] it was given. *)
Definition whdr_server_main {Db Table : Type} {R : Redb Db Table} {W : Wire StoredEvent} {O : HashOrder}
    parse_config parse_secrets load_tokens (config : option string) (e : StartEnv)
    (rounds : list ((Daemon Db → Daemon Db) * DaemonSignal))
    : result string (RunningServers * option (Daemon Db * bool)) :=
  run_with_signals parse_config parse_secrets load_tokens (default "/etc/whdr/config.toml" config)
    e rounds.

(** ** Theorems *)


(** ** Witnesses *)

Section witnesses.
#[local] Existing Instance MemDb.mem_redb.
#[local] Existing Instance BitCodec.wire.
#[local] Existing Instance some_order.

(** A host whose every file reads [text] and has the mode 0600. *)
Definition host (text : string) : FsView := MkFsView (λ _, true) (λ _, Some 33152) (λ _, Some text).

Definition raw_with (delivery : DeliveryConfig) : RawConfig :=
  MkRawConfig ServerConfig_default SubscribersConfig_default ExtensionsConfig_default
    LimitsConfig_default TimeoutsConfig_default delivery None.
Definition first_delivery : DeliveryConfig := MkDeliveryConfig true "/var/lib/whdr/log" 60 1000 10 300.
Definition second_delivery : DeliveryConfig := MkDeliveryConfig true "/var/lib/whdr/log" 7200 9000 99 1.

(** The two configuration files. *)
Definition demo_parse (text : string) : option RawConfig :=
  if String.eqb text "first" then Some (raw_with first_delivery)
  else if String.eqb text "second" then Some (raw_with second_delivery) else None.
Definition demo_load (fs : FsView) : string → result string TokenStore := load_or_empty (λ _, Ok ∅) fs.

Definition demo_start : StartEnv (Db := list (Z * string)) :=
  MkStartEnv (host "first") (λ _, Ok ()) (λ _, Ok ()) (λ _, Ok []) 1000 0 demo_launcher demo_candidates
    (λ _, Ok ()).

(** Pruned, reloaded from the second file, hung up over a broken file,
    terminated. *)
Definition demo_life : list ((Daemon (list (Z * string)) → Daemon (list (Z * string))) * DaemonSignal) :=
  [(λ d, MkDaemon (prune_tick 2000 (d_state d)) (d_heap d) (d_mailboxes d),
    SIGHUP (host "second") demo_launcher demo_candidates);
   (λ d, d, SIGHUP (host "broken") demo_launcher demo_candidates);
   (λ d, d, SIGTERM)].


(** What a reload does not do.  The second file asks for two hours of events;
    the log still keeps one minute (and its prune task its first interval). *)
Lemma reload_ignores_delivery_limits :
  ∃ d0 servers d,
    daemon_start demo_parse (λ _, None) demo_load "/etc/whdr/config.toml" demo_start = Ok (d0, servers) ∧
    daemon_loop demo_parse (λ _, None) demo_load "/etc/whdr/config.toml" (take 1 demo_life) d0 =
      Some (d, true) ∧
    retention_secs (delivery (i_config (d_state d))) = 7200 ∧
    log_settings (d_state d) = Some (60, 1000, 10) ∧ prune_task servers = Some 300.
Proof. do 3 eexists. split; [vm_compute; reflexivity|]. split; vm_compute; repeat split. Qed.

(** A reload reads the token store before it looks at the one in memory, and
    holds no lock meanwhile: a credential revoked in between is not among the
    invalidated names and is valid again afterwards. *)
Lemma reload_restores_a_revoked_token :
  let read := load_or_empty DemoToml.parse (fs_of demo_disk) "/etc/whdr/tokens.toml" in
  let '(r, c) := tc_revoke DemoToml.print all_succeed "alice" demo_control in
  let st := set_config demo_config (tc_store c) demo_state in
  let '(r', st', _) :=
    reload_from_path (Ok demo_config) (λ _, read) demo_launcher demo_candidates st (tc_heap c) in
  r = Res_Ok ∧ authenticate (λ t, t) (i_token_store st) "tok_a" = None ∧ is_ok r' = true ∧
  authenticate (λ t, t) (i_token_store st') "tok_a" = Some "alice".
Proof. vm_compute. repeat split. Qed.
End witnesses.
