(* ===== verification/ExtHmac.v ===== *)
(** * ExtHmac: the generic HMAC extension

    [exts/whdr-ext-hmac/src/lib.rs].  Its configuration from the environment,
    signing and verification, and the channel it derives from the request path.
    The three HMACs are a parameter [mac]; hex and base64 are the class [Codec]
    of ExtKit.v. *)

From S2P Require Import Prelude.
From S2P Require Import Text.
From S2P Require Import Channel.
From S2P Require Import Messages.
From S2P Require Import ChannelClaims.
From S2P Require Import ExtKit.
From Stdlib Require Import Ascii.

Local Open Scope Z_scope.

(** ** Definitions *)

Inductive Algorithm : Type := Sha1 | Sha256 | Sha512.
Inductive Encoding : Type := Hex | Base64.

(** The [debug] rendering of the offending text is a parameter. *)
Definition Algorithm_parse (debug : string → string) (input : string) : result string Algorithm :=
  let s := to_ascii_lowercase (trim input) in
  if String.eqb s "sha1" then Ok Sha1
  else if String.eqb s "sha256" then Ok Sha256
  else if String.eqb s "sha512" then Ok Sha512
  else Err ("unsupported HMAC algorithm " +:+ debug s +:+ " (expected sha1, sha256, or sha512)").

Definition Encoding_parse (debug : string → string) (input : string) : result string Encoding :=
  let s := to_ascii_lowercase (trim input) in
  if String.eqb s "hex" then Ok Hex
  else if String.eqb s "base64" || String.eqb s "b64" then Ok Base64
  else Err ("unsupported signature encoding " +:+ debug s +:+ " (expected hex or base64)").

Record HmacConfig : Type := MkHmacConfig {
  header : string;
  algorithm : Algorithm;
  encoding : Encoding;
  prefix : option string;
  channel_prefix : string
}.
Definition HmacConfig_default : HmacConfig :=
  MkHmacConfig "X-Signature" Sha256 Hex None "hmac".

(** [non_empty_env]; the environment is what [std::env::var] answers. *)
Definition non_empty_env (env : string → option string) (key : string) : option string :=
  match env key with
  | Some value => if is_empty (trim value) then None else Some value
  | None => None
  end.

Definition HmacConfig_from_env (debug : string → string) (env : string → option string)
    : result string HmacConfig :=
  let d := HmacConfig_default in
  let hdr := default (header d) (non_empty_env env "WHDR_HMAC_HEADER") in
  alg ← match non_empty_env env "WHDR_HMAC_ALGORITHM" with
        | Some value => Algorithm_parse debug value
        | None => Ok (algorithm d)
        end;
  enc ← match non_empty_env env "WHDR_HMAC_ENCODING" with
        | Some value => Encoding_parse debug value
        | None => Ok (encoding d)
        end;
  let pre := non_empty_env env "WHDR_HMAC_PREFIX" in
  let chan := default (channel_prefix d)
                (channel_token <$> non_empty_env env "WHDR_HMAC_CHANNEL_PREFIX") in
  Ok (MkHmacConfig hdr alg enc pre chan).

(** The body of the loop of [derive_channel]. *)
Definition push_segment (channel segment : string) : string :=
  let token := channel_token segment in
  if is_empty token then channel else channel +:+ "." +:+ token.

Definition derive_channel (channel_prefix path : string) : string :=
  foldl push_segment channel_prefix (drop 2 (split_on "/" path)).

Section hmac.
Context `{Codec}.
(** [Algorithm::mac]: the algorithm's HMAC of a body under a secret. *)
Context (mac : Algorithm → string → string → string).

Definition Encoding_encode (e : Encoding) (bytes : string) : string :=
  match e with Hex => hex_encode bytes | Base64 => b64_encode bytes end.
Definition Encoding_decode (e : Encoding) (value : string) : option string :=
  match e with Hex => hex_decode value | Base64 => b64_decode value end.

Definition sign (config : HmacConfig) (secret body : string) : string :=
  let encoded := Encoding_encode (encoding config) (mac (algorithm config) secret body) in
  match prefix config with
  | Some prefix => prefix +:+ encoded
  | None => encoded
  end.

(** The header value without the configured prefix; [None] when it is missing. *)
Definition strip_signature (config : HmacConfig) (hdr : string) : option string :=
  match prefix config with
  | Some prefix => strip_prefix prefix hdr
  | None => Some hdr
  end.

Definition handle_hmac_dispatch (config : HmacConfig) (msg : SrvMsg)
    : result string (HttpReply * list Event) :=
  match msg with
  | Shutdown => Ok (text_reply 200 "shutdown ignored", [])
  | Dispatch _ _ path _ headers body_b64 secret =>
      body ← decode_body_b64 body_b64;
      match secret with
      | None => Ok (text_reply 401 "missing secret", [])
      | Some secret =>
      match header_value headers (header config) with
      | None => Ok (text_reply 401 "missing signature header", [])
      | Some hdr =>
      match strip_signature config hdr with
      | None => Ok (text_reply 401 "malformed signature", [])
      | Some signature =>
      match Encoding_decode (encoding config) (trim signature) with
      | None => Ok (text_reply 401 "malformed signature", [])
      | Some provided =>
          let expected := mac (algorithm config) secret body in
          let matches := (slen provided =? slen expected) && ct_eq provided expected in
          if negb matches then Ok (text_reply 401 "invalid signature", [])
          else
            Ok (text_reply 200 "ok",
                [MkEvent (derive_channel (channel_prefix config) path) (b64_encode body)])
      end end end end
  end.

(** ** Specification *)

(** The header of a request carries the MAC of a body under a secret. *)
Definition signed (config : HmacConfig) (headers : gmap string string) (secret body : string)
    : Prop :=
  ∃ hdr signature, header_value headers (header config) = Some hdr ∧
    strip_signature config hdr = Some signature ∧
    Encoding_decode (encoding config) (trim signature) = Some (mac (algorithm config) secret body).

(** ** Lemmas *)

Lemma encoding_round_trip `{!CodecLaws} e bytes :
  Encoding_decode e (trim (Encoding_encode e bytes)) = Some bytes.
Proof.
  destruct e; simpl; rewrite trim_graphic; auto using hex_round_trip, b64_round_trip, hex_graphic,
    b64_graphic.
Qed.

Lemma sign_signed `{!CodecLaws} config headers secret body :
  header_value headers (header config) = Some (sign config secret body) →
  signed config headers secret body.
Proof.
  intros Hh. exists (sign config secret body),
    (Encoding_encode (encoding config) (mac (algorithm config) secret body)).
  split; [done|]. split; [|apply encoding_round_trip]. unfold strip_signature, sign.
  destruct (prefix config); [by apply strip_prefix_Some|done].
Qed.
End hmac.

(** The two outcomes of a dispatch. *)
Lemma handle_hmac_signed `{CodecLaws} mac config req_id method path query headers body s :
  signed mac config headers s body →
  handle_hmac_dispatch mac config
    (Dispatch req_id method path query headers (b64_encode body) (Some s)) =
  Ok (text_reply 200 "ok",
      [MkEvent (derive_channel (channel_prefix config) path) (b64_encode body)]).
Proof.
  intros (hdr & sig & Hh & Hst & Hd). unfold handle_hmac_dispatch, decode_body_b64, ct_eq.
  rewrite b64_round_trip. cbn [ok_or mbind result_bind].
  by rewrite Hh, Hst, Hd, Z.eqb_refl, String.eqb_refl.
Qed.

Lemma handle_hmac_unsigned `{CodecLaws} mac config req_id method path query headers body secret :
  (¬ ∃ s, secret = Some s ∧ signed mac config headers s body) →
  ∃ reply, handle_hmac_dispatch mac config
      (Dispatch req_id method path query headers (b64_encode body) secret) = Ok (reply, []) ∧
    status reply = 401.
Proof.
  intros Hno. unfold handle_hmac_dispatch, decode_body_b64, ct_eq. rewrite b64_round_trip.
  cbn [ok_or mbind result_bind]. destruct secret as [s|]; [|by eexists].
  destruct (header_value _ _) as [hdr|] eqn:Hh; [|by eexists].
  destruct (strip_signature config hdr) as [sig|] eqn:Hst; [|by eexists].
  destruct (Encoding_decode _ _) as [provided|] eqn:Hd; [|by eexists].
  destruct (String.eqb_spec provided (mac (algorithm config) s body)) as [->|Hne].
  - exfalso. apply Hno. exists s. split; [done|]. by exists hdr, sig.
  - rewrite andb_false_r. by eexists.
Qed.

Lemma push_segment_extends c s :
  channel_grammar c →
  channel_grammar (push_segment c s) ∧ tokens c `prefix_of` tokens (push_segment c s).
Proof.
  intros Hc. unfold push_segment. destruct (is_empty (channel_token s)) eqn:He; [done|].
  apply is_empty_false in He. split.
  - apply channel_grammar_app; [done|]. by apply channel_token_plain.
  - unfold tokens. change ("." +:+ channel_token s) with (String "." (channel_token s)).
    rewrite split_on_app_gen. by apply prefix_app_r.
Qed.

Lemma derive_channel_extends p path :
  channel_grammar p →
  channel_grammar (derive_channel p path) ∧ tokens p `prefix_of` tokens (derive_channel p path).
Proof.
  unfold derive_channel. generalize (drop 2 (split_on "/" path)). intros segs.
  induction segs as [|s segs IH] using rev_ind; intros Hp; [done|].
  rewrite foldl_snoc. destruct (IH Hp) as [Hg Hpre].
  destruct (push_segment_extends (foldl push_segment p segs) s Hg) as [Hg' Hpre'].
  split; [done|]. by transitivity (tokens (foldl push_segment p segs)).
Qed.

Lemma from_env_prefix debug env config :
  HmacConfig_from_env debug env = Ok config →
  bytes_all token_byte (channel_prefix config) = true ∧
  (channel_prefix config ≠ EmptyString → plain_token (channel_prefix config)).
Proof.
  intros Hcfg. assert (bytes_all token_byte (channel_prefix config) = true) as Hbytes.
  { unfold HmacConfig_from_env in Hcfg. apply result_bind_Ok in Hcfg as (alg & _ & Hcfg).
    apply result_bind_Ok in Hcfg as (enc & _ & [= <-]). cbn [channel_prefix].
    destruct (non_empty_env env "WHDR_HMAC_CHANNEL_PREFIX"); [apply channel_token_bytes|done]. }
  split; [done|]. intros Hne. unfold plain_token, valid_plain_token. rewrite Hbytes, andb_true_r.
  by apply negb_true_iff, is_empty_false.
Qed.

(** ** Theorems *)

(** The HMAC extension publishes a body exactly when the configured header
    carries, after the configured prefix, the MAC of that body under the
    request's secret; what [sign] produces is such a header; every other request
    is answered 401 without an event. *)
Theorem hmac_publishes_exactly_signed_bodies `{CodecLaws} mac config req_id method path query
    headers body secret :
  let handle := handle_hmac_dispatch mac config
    (Dispatch req_id method path query headers (b64_encode body) secret) in
  let event := MkEvent (derive_channel (channel_prefix config) path) (b64_encode body) in
  (∀ s, secret = Some s →
     header_value headers (header config) = Some (sign mac config s body) →
     signed mac config headers s body) ∧
  ((∃ s, secret = Some s ∧ signed mac config headers s body) →
     handle = Ok (text_reply 200 "ok", [event])) ∧
  ((¬ ∃ s, secret = Some s ∧ signed mac config headers s body) →
     ∃ reply, handle = Ok (reply, []) ∧ status reply = 401).
Proof.
  cbv zeta. split; [intros s _; by apply sign_signed|]. split.
  - intros (s & -> & Hs). by apply handle_hmac_signed.
  - apply handle_hmac_unsigned.
Qed.

(** C34: whatever the request path, the channel the HMAC extension derives is a
    valid channel at or below its configured prefix, so the server, which the
    prefix is registered with, never drops its events; a prefix read from the
    environment is a single valid token unless it normalises to nothing. *)
Theorem hmac_channels_are_owned debug env config path :
  HmacConfig_from_env debug env = Ok config →
  bytes_all token_byte (channel_prefix config) = true ∧
  (channel_prefix config ≠ EmptyString →
   channel_grammar (derive_channel (channel_prefix config) path) ∧
   validate_emitted_channel (derive_channel (channel_prefix config) path) "hmac" ["hmac"]
     [channel_prefix config] = Ok ()).
Proof.
  intros Hcfg. destruct (from_env_prefix _ _ _ Hcfg) as [Hbytes Hplain].
  split; [done|]. intros Hne.
  destruct (derive_channel_extends (channel_prefix config) path) as [Hg Hpre].
  { constructor. by apply Hplain. }
  split; [done|]. apply validate_emitted_Ok. split; [done|]. right.
  exists (channel_prefix config). split; [by left|done].
Qed.

(** ** Witnesses *)

Lemma hmac_publishes_exactly_signed_bodies_witness :
  handle_hmac_dispatch (H := HexCodec.codec) (λ _, demo_mac) HmacConfig_default
    (Dispatch 1 "POST" "/hmac/Stripe/Foo" None
      {[ "x-signature" := sign (H := HexCodec.codec) (λ _, demo_mac) HmacConfig_default "k" "{}" ]}
      (HexCodec.to_hex "{}") (Some "k")) =
  Ok (text_reply 200 "ok", [MkEvent "hmac.stripe.foo" (HexCodec.to_hex "{}")]).
Proof.
  destruct (@hmac_publishes_exactly_signed_bodies HexCodec.codec HexCodec.laws (λ _, demo_mac)
    HmacConfig_default 1 "POST" "/hmac/Stripe/Foo" None
    {[ "x-signature" := sign (H := HexCodec.codec) (λ _, demo_mac) HmacConfig_default "k" "{}" ]}
    "{}" (Some "k")) as (Hsign & Hok & _).
  cbn [b64_encode HexCodec.codec] in Hok. rewrite Hok.
  - vm_compute. reflexivity.
  - exists "k"%string. split; [reflexivity|]. apply (Hsign "k"%string); [reflexivity|].
    vm_compute. reflexivity.
Defined.

Lemma hmac_channels_are_owned_witness :
  validate_emitted_channel (derive_channel "pay-ments" "/hmac//A b/") "hmac" ["hmac"] ["pay-ments"]
    = Ok ().
Proof.
  assert (HmacConfig_from_env (λ s, s)
    (λ k, if String.eqb k "WHDR_HMAC_CHANNEL_PREFIX" then Some " Pay.Ments " else None) =
    Ok (MkHmacConfig "X-Signature" Sha256 Hex None "pay-ments")) as Hcfg
    by (vm_compute; reflexivity).
  destruct (hmac_channels_are_owned _ _ _ "/hmac//A b/" Hcfg) as [_ Hown].
  apply Hown. discriminate.
Defined.

(** A prefix of symbols normalises to nothing, and the daemon refuses to register
    such an extension. *)
Lemma symbolic_prefix_is_refused :
  channel_prefix <$> to_option (HmacConfig_from_env (λ s, s)
    (λ k, if String.eqb k "WHDR_HMAC_CHANNEL_PREFIX" then Some "***" else None)) = Some EmptyString ∧
  validate_registration_claims (H := some_order) "hmac" ["hmac"] [EmptyString] ∅ ∅ =
    Err "invalid channel prefix: ".
Proof. vm_compute. split; reflexivity. Qed.
