(* ===== verification/ExtTeams.v ===== *)
(** * ExtTeams: the Microsoft Teams extension

    [exts/whdr-ext-teams/src/lib.rs].  The validation handshake with its percent
    decoding, the check of every notification's client state, and the channel
    of a resource.  [&str] slicing panics outside character boundaries: decoding
    returns [None] there. *)

From S2P Require Import Prelude.
From S2P Require Import Text.
From S2P Require Import Channel.
From S2P Require Import Messages.
From S2P Require Import ChannelClaims.
From S2P Require Import ExtKit.
From Stdlib Require Import Ascii.

Local Open Scope Z_scope.

(** ** Percent decoding *)

(** [u8 as char], pushed on a string: U+0080 to U+00FF take two bytes. *)
Definition push_latin1 (n : nat) (out : string) : string :=
  if Nat.ltb n 128 then String (ascii_of_nat n) out
  else String (ascii_of_nat (192 + n / 64)) (String (ascii_of_nat (128 + n mod 64)) out).

Definition hex_digit (a : ascii) : option nat :=
  let n := byte_val a in
  if byte_between 48 57 a then Some (n - 48)%nat
  else if byte_between 97 102 a then Some (n - 87)%nat
  else if byte_between 65 70 a then Some (n - 55)%nat
  else None.

(** [u8::from_str_radix(.., 16)] on two bytes: a leading plus sign is allowed. *)
Definition from_str_radix_16 (a b : ascii) : option nat :=
  if Ascii.eqb a "+" then hex_digit b
  else hi ← hex_digit a; lo ← hex_digit b; Some (16 * hi + lo)%nat.

(** The start of a string of bytes is a character boundary. *)
Definition at_boundary (s : string) : bool :=
  match s with String a _ => negb (is_continuation a) | EmptyString => true end.

(** The loop; [None] is the panic of the slice [value[i + 1..i + 3]].  The
    condition [i + 2 < bytes.len()] is that two bytes follow. *)
Fixpoint percent_decode (value : string) : option string :=
  match value with
  | EmptyString => Some EmptyString
  | String a rest =>
      if Ascii.eqb a "+" then out ← percent_decode rest; Some (String " " out)
      else
        match rest with
        | String b (String c rest') =>
            if Ascii.eqb a "%" then
              if negb (at_boundary rest) || negb (at_boundary rest') then None else
              match from_str_radix_16 b c with
              | Some n => out ← percent_decode rest'; Some (push_latin1 n out)
              | None => out ← percent_decode rest; Some (String "%" out)
              end
            else out ← percent_decode rest; Some (push_latin1 (byte_val a) out)
        | _ => out ← percent_decode rest; Some (push_latin1 (byte_val a) out)
        end
  end.

(** ** The handler *)

(** A reply and events, an error, or a panic. *)
Inductive Handled : Type :=
  | Replied (reply : HttpReply) (events : list Event)
  | Failed (err : string)
  | Panicked.

(** The loop over the pairs of a query. *)
Fixpoint find_validation (pairs : list string) : option string :=
  match pairs with
  | [] => None
  | kv :: rest =>
      let '(key, value) := default (kv, EmptyString) (split_once "=" kv) in
      if String.eqb key "validationToken" then Some value else find_validation rest
  end.

(** [validation_token], before its decoding. *)
Definition validation_token (query : option string) : option string :=
  q ← query; find_validation (split_on "&" q).

Definition resource_char (c : string) : ascii :=
  match c with
  | String a EmptyString =>
      if token_byte a then a
      else if is_ascii_uppercase a then byte_to_ascii_lowercase a
      else if Ascii.eqb a "/" || Ascii.eqb a "." || Ascii.eqb a ":" then "."%char
      else "-"%char
  | _ => "-"%char
  end.

Definition resource_to_channel (resource : string) : string :=
  replace ".." "."
    (trim_matches "." (foldr (λ c out, String (resource_char c) out) EmptyString (chars resource))).

Section teams.
Context `{Codec}.
Context (parse_json : string → result string Value).

Definition as_array (v : Value) : option (list Value) :=
  match v with Array l => Some l | _ => None end.

Definition client_state (item : Value) : string :=
  default EmptyString (json_get "clientState" item ≫= as_str).
Definition resource_of (item : Value) : option string := json_get "resource" item ≫= as_str.

Definition resource_event (body resource : string) : Event :=
  MkEvent ("teams." +:+ resource_to_channel resource) (b64_encode body).

(** The loop over the notifications; [None] is the early return. *)
Fixpoint check_items (secret body : string) (items : list Value) (events : list Event)
    : option (list Event) :=
  match items with
  | [] => Some events
  | item :: rest =>
      if negb (ct_eq (client_state item) secret) then None
      else check_items secret body rest
             (match resource_of item with
              | Some resource => events ++ [resource_event body resource]
              | None => events
              end)
  end.

Definition handle_teams_dispatch (msg : SrvMsg) : Handled :=
  match msg with
  | Shutdown => Replied (text_reply 200 "shutdown ignored") []
  | Dispatch _ method _ query _ body_b64 secret =>
      let continue :=
        match decode_body_b64 body_b64 with
        | Err e => Failed e
        | Ok body =>
            match parse_json body with
            | Err _ => Failed "parse teams notification json"
            | Ok parsed =>
                match secret with
                | None => Replied (text_reply 401 "missing clientState secret") []
                | Some secret =>
                    match json_get "value" parsed ≫= as_array with
                    | None => Replied (text_reply 202 "accepted") []
                    | Some values =>
                        match check_items secret body values [] with
                        | None => Replied (text_reply 401 "invalid clientState") []
                        | Some events => Replied (text_reply 202 "accepted") events
                        end
                    end
                end
            end
        end in
      if eq_ignore_ascii_case method "GET" || eq_ignore_ascii_case method "POST" then
        match validation_token query with
        | Some value =>
            match percent_decode value with
            | Some token =>
                Replied (MkHttpReply 200 {[ "content-type" := "text/plain" ]} token) []
            | None => Panicked
            end
        | None => continue
        end
      else continue
  end.
End teams.

(** ** Specification *)

(** The reference encoder: unreserved bytes as they are, every other as [%XX]. *)
Definition unreserved (a : ascii) : bool :=
  is_ascii_alphanumeric a || Ascii.eqb a "-" || Ascii.eqb a "." || Ascii.eqb a "_" || Ascii.eqb a "~".
Fixpoint percent_encode (s : string) : string :=
  match s with
  | EmptyString => EmptyString
  | String a s =>
      if unreserved a then String a (percent_encode s)
      else String "%" (HexCodec.to_hex (String a EmptyString) +:+ percent_encode s)
  end.

Definition is_ascii (a : ascii) : bool := Nat.ltb (byte_val a) 128.

(** ** Lemmas *)

Lemma percent_encode_boundary s : at_boundary (percent_encode s) = true.
Proof.
  destruct s as [|a s]; [done|]. cbn [percent_encode]. destruct (unreserved a) eqn:Hu; [|done].
  destruct a as [[] [] [] [] [] [] [] []]; vm_compute in Hu |- *; congruence.
Qed.

(** The escape branch, and the branch of a byte that is neither [+] nor [%]. *)
Lemma percent_decode_escape b c n rest :
  is_continuation b = false → at_boundary rest = true → from_str_radix_16 b c = Some n →
  percent_decode (String "%" (String b (String c rest))) =
    (out ← percent_decode rest; Some (push_latin1 n out)).
Proof.
  intros Hb Hrest Hn.
  change (percent_decode (String "%" (String b (String c rest)))) with
    (if negb (at_boundary (String b (String c rest))) || negb (at_boundary rest) then None else
     match from_str_radix_16 b c with
     | Some n => out ← percent_decode rest; Some (push_latin1 n out)
     | None => out ← percent_decode (String b (String c rest)); Some (String "%" out)
     end).
  unfold at_boundary at 1. by rewrite Hb, Hrest, Hn.
Qed.

Lemma percent_decode_plain a rest :
  Ascii.eqb a "+" = false → Ascii.eqb a "%" = false →
  percent_decode (String a rest) =
    (out ← percent_decode rest; Some (push_latin1 (byte_val a) out)).
Proof. intros H1 H2. cbn [percent_decode]. rewrite H1, H2. by destruct rest as [|b [|c rest]]. Qed.

Lemma push_latin1_ascii a out : is_ascii a = true → push_latin1 (byte_val a) out = String a out.
Proof. intros Ha. unfold push_latin1. unfold is_ascii in Ha. by rewrite Ha, ascii_nat_embedding. Qed.

Lemma decode_encoded_byte a rest :
  is_ascii a = true → at_boundary rest = true →
  percent_decode (String "%" (HexCodec.to_hex (String a EmptyString) +:+ rest)) =
    (out ← percent_decode rest; Some (String a out)).
Proof.
  intros Ha Hrest. cbn [HexCodec.to_hex]. rewrite !string_app_cons, string_app_nil_l.
  rewrite (percent_decode_escape _ _ (byte_val a)); [|..|done|].
  - destruct (percent_decode rest); [|done]. cbn. by rewrite push_latin1_ascii.
  - destruct a as [[] [] [] [] [] [] [] []]; vm_compute; reflexivity.
  - destruct a as [[] [] [] [] [] [] [] []]; vm_compute; reflexivity.
Qed.

Lemma decode_unreserved a rest :
  unreserved a = true →
  percent_decode (String a rest) = (out ← percent_decode rest; Some (String a out)).
Proof.
  intros Hu. assert (is_ascii a = true ∧ Ascii.eqb a "+" = false ∧ Ascii.eqb a "%" = false)
    as (Ha & Hp & Hc).
  { destruct a as [[] [] [] [] [] [] [] []]; vm_compute in Hu |- *; auto; discriminate Hu. }
  rewrite percent_decode_plain by done. destruct (percent_decode rest); [|done]. cbn.
  by rewrite push_latin1_ascii.
Qed.

(** *** Notifications *)

Lemma check_items_spec `{Codec} secret body items events :
  check_items secret body items events =
    if decide (Forall (λ item, client_state item = secret) items)
    then Some (events ++ (resource_event body <$> omap resource_of items)) else None.
Proof.
  revert events. induction items as [|item items IH]; intros events; cbn [check_items].
  { by rewrite decide_True, app_nil_r by constructor. }
  unfold ct_eq. destruct (String.eqb_spec (client_state item) secret) as [Heq|Hne]; cbn [negb].
  - rewrite IH. destruct (decide (Forall _ items)) as [Hall|Hno].
    + rewrite decide_True by by constructor. cbn [omap list_omap].
      destruct (resource_of item); cbn; [by rewrite <- app_assoc|done].
    + rewrite decide_False; [done|]. intros Hf%Forall_cons. tauto.
  - rewrite decide_False; [done|]. intros Hf%Forall_cons. tauto.
Qed.

(** ** Theorems *)

(** The validation token a client percent-encodes comes back as it was, for
    any ASCII text: the decoder inverts the reference encoder and does not
    panic on its output. *)
Theorem percent_decoding_inverts_encoding s :
  bytes_all is_ascii s = true → percent_decode (percent_encode s) = Some s.
Proof.
  induction s as [|a s IH]; [done|]. cbn [bytes_all percent_encode].
  intros [Ha Hs]%andb_true_iff. specialize (IH Hs). destruct (unreserved a) eqn:Hu.
  - rewrite decode_unreserved by done. by rewrite IH.
  - rewrite decode_encoded_byte by (done || apply percent_encode_boundary). by rewrite IH.
Qed.

(** C35: notifications are published all or none: when every item of the batch
    carries the configured client state, one event per item with a resource,
    in order, each with the whole body; when any item does not, none, and 401. *)
Theorem teams_publishes_all_or_nothing `{CodecLaws} parse_json req_id method path query headers
    body secret parsed items :
  validation_token query = None → parse_json body = Ok parsed →
  json_get "value" parsed ≫= as_array = Some items →
  handle_teams_dispatch parse_json
    (Dispatch req_id method path query headers (b64_encode body) (Some secret)) =
  if decide (Forall (λ item, client_state item = secret) items)
  then Replied (text_reply 202 "accepted") (resource_event body <$> omap resource_of items)
  else Replied (text_reply 401 "invalid clientState") [].
Proof.
  intros Hq Hparse Hitems. unfold handle_teams_dispatch, decode_body_b64. rewrite b64_round_trip.
  cbn [ok_or]. rewrite Hparse, Hitems, Hq, check_items_spec, app_nil_l. 
  destruct (eq_ignore_ascii_case method "GET" || _); by case_decide.
Qed.

(** ** Witnesses *)

Lemma percent_decoding_inverts_encoding_witness :
  percent_decode (percent_encode "a b+%/~") = Some "a b+%/~"%string ∧
  percent_encode "a b+%/~" = "a%20b%2b%25%2f~"%string.
Proof.
  split; [|vm_compute; reflexivity].
  apply percent_decoding_inverts_encoding. vm_compute. reflexivity.
Defined.

Definition notification (state : string) (resource : string) : Value :=
  Object [("clientState", Str state); ("resource", Str resource)].

Lemma teams_publishes_all_or_nothing_witness :
  handle_teams_dispatch (H := HexCodec.codec)
    (λ _, Ok (Object [("value", Array [notification "k" "/Users/1"; notification "k" "chats"])]))
    (Dispatch 1 "POST" "/teams" None ∅ (HexCodec.to_hex "{}") (Some "k")) =
  Replied (text_reply 202 "accepted")
    [MkEvent "teams.users.1" (HexCodec.to_hex "{}"); MkEvent "teams.chats" (HexCodec.to_hex "{}")].
Proof.
  pose proof (@teams_publishes_all_or_nothing HexCodec.codec HexCodec.laws
    (λ _, Ok (Object [("value", Array [notification "k" "/Users/1"; notification "k" "chats"])]))
    1 "POST" "/teams" None ∅ "{}" "k"
    (Object [("value", Array [notification "k" "/Users/1"; notification "k" "chats"])])
    [notification "k" "/Users/1"; notification "k" "chats"] eq_refl eq_refl eq_refl) as Heq.
  cbn [b64_encode HexCodec.codec] in Heq. rewrite Heq. vm_compute. reflexivity.
Defined.

(** *** What the handler does with other inputs *)

(** A body that is not JSON fails before the secret is looked at, and a failed
    dispatch ends the extension's process (ExtKit.v). *)
Lemma malformed_body_fails_unauthenticated :
  handle_teams_dispatch (H := HexCodec.codec) (λ _, Err "expected value")
    (Dispatch 1 "POST" "/teams" None ∅ (HexCodec.to_hex "x") None) =
  Failed "parse teams notification json".
Proof. reflexivity. Qed.

(** A percent sign two bytes before the middle of a character panics. *)
Lemma split_character_panics :
  handle_teams_dispatch (H := HexCodec.codec) (λ _, Err "unused")
    (Dispatch 1 "GET" "/teams" (Some ("validationToken=%a" +:+ of_bytes [195; 169]%nat)) ∅ "" None) =
  Panicked.
Proof. vm_compute. reflexivity. Qed.

(** Two-byte escapes are decoded byte by byte, as Latin-1. *)
Lemma escaped_utf8_is_garbled :
  percent_decode "%c3%a9" = Some (of_bytes [195; 131; 194; 169]%nat).
Proof. vm_compute. reflexivity. Qed.

(** Three separators in a row, or none but separators, leave an empty token: the
    notification is answered "accepted" and its event is dropped by the server. *)
Lemma some_resources_are_dropped :
  is_ok (validate_emitted_channel ("teams." +:+ resource_to_channel "a///b") "teams" ["teams"] [])
    = false ∧
  is_ok (validate_emitted_channel ("teams." +:+ resource_to_channel "/") "teams" ["teams"] []) = false.
Proof. vm_compute. split; reflexivity. Qed.
