(* ===== verification/ShippedExts.v ===== *)
(** * ShippedExts: the extension programs and the daemon that starts them

    The [main] of [crates/whdr-ext-dev], [exts/whdr-ext-github],
    [exts/whdr-ext-hmac] and [exts/whdr-ext-teams], and a start pass of the daemon
    over the executables, each announcing what its [main] writes. *)

From S2P Require Import Prelude.
From S2P Require Import Text.
From S2P Require Import Channel.
From S2P Require Import Messages.
From S2P Require Import WireCodecs.
From S2P Require Import Config.
From S2P Require Import ChannelClaims.
From S2P Require Import Subscribers.
From S2P Require Import TokenStore.
From S2P Require Import ExtensionProcess.
From S2P Require Import AppState.
From S2P Require Import ExtensionStart.
From S2P Require Import ExtKit.
From S2P Require Import ExtHmac.
From S2P Require Import ExtTeams.
From Stdlib Require Import Ascii.

Local Open Scope Z_scope.

(** ** Definitions *)

Section programs.
Context {WE : Wire ExtMsg} {WS : Wire SrvMsg}.
Context `{Codec}.
Context (from_utf8_lossy : string → string) (hmac_sha256_hex : string → string → string).
Context (parse_json : string → result string Value).
Context (mac : Algorithm → string → string → string).
Context (debug_str : string → string) (env : string → option string).

Definition description (text : string) : Value := Object [("description", Str text)].

(** What a program writes, line by line, and how it ends, given the lines of its
    standard input. *)
Definition dev_main (stdin : list string) : list string * result string () :=
  run_extension "dev" [] [] (description "development echo extension")
    (handle_dev_dispatch from_utf8_lossy) stdin.

Definition github_main (stdin : list string) : list string * result string () :=
  run_extension "github" ["gh"] [] (description "GitHub webhook extension")
    (handle_github_dispatch hmac_sha256_hex parse_json) stdin.

(** A panic of the handler ends the process as an error does. *)
Definition result_of_handled (h : Handled) : result string (HttpReply * list Event) :=
  match h with
  | Replied http events => Ok (http, events)
  | Failed e => Err e
  | Panicked => Err "panicked"
  end.

Definition teams_main (stdin : list string) : list string * result string () :=
  run_extension "teams" [] [] (description "Microsoft Teams webhook extension")
    (result_of_handled ∘ handle_teams_dispatch parse_json) stdin.

Definition hmac_main (stdin : list string) : list string * result string () :=
  match HmacConfig_from_env debug_str env with
  | Err e => ([], Err e)
  | Ok config =>
      run_extension "hmac" [] [channel_prefix config]
        (description "Generic HMAC signature-verification webhook extension")
        (handle_hmac_dispatch mac config) stdin
  end.

Definition shipped (id : string) : option (list string → list string * result string ()) :=
  if String.eqb id "dev" then Some dev_main
  else if String.eqb id "github" then Some github_main
  else if String.eqb id "hmac" then Some hmac_main
  else if String.eqb id "teams" then Some teams_main
  else None.

(** The first line of the pipe a program writes to. *)
Definition first_line (out : list string) : FirstLine :=
  match stream_lines (concat_chars out) with
  | line :: _ => LineText line
  | [] => LineEof
  end.

(** Launching the executable of a shipped program succeeds, with pipes; [other]
    is what launching any other does. *)
Context (debug : ExtMsg → string).
Context (pids : string → option Z) (generations : string → Uuid).
Context (stdin : string → list string).
Context (other : string → string → result string (option Z * ExtensionRegistration)).

Definition shipped_launcher : Launcher := {|
  new_generation := generations;
  launch cand path :=
    match shipped cand with
    | Some main =>
        (launch_process debug
           (MkStartWorld (Ok (pids cand)) true true (first_line (main (stdin cand)).1)
              (generations cand)) cand path).1
    | None => other cand path
    end
|}.

(** *** What they announce *)

Definition announcement (id : string) : result string ExtensionRegistration :=
  if String.eqb id "github" then Ok (MkExtensionRegistration "github" ["gh"] [])
  else if String.eqb id "hmac" then
    match HmacConfig_from_env debug_str env with
    | Ok config => Ok (MkExtensionRegistration "hmac" [] [channel_prefix config])
    | Err _ => Err "extension exited before register"
    end
  else Ok (MkExtensionRegistration id [] []).
End programs.

(** ** Specification *)

(** What the candidates of a start pass announce: each under its own name, valid
    on its own, and no two with a path or a channel namespace in common. *)
Record compatible (announces : string → ExtensionRegistration → Prop) : Prop := {
  announces_one cand r r' : announces cand r → announces cand r' → r = r';
  own_id cand r : announces cand r → er_id r = cand;
  valid_alone cand r : announces cand r → registration_ok cand (cand :: er_paths r) (er_channels r) ∅ ∅;
  apart c r c' r' : announces c r → announces c' r' → c ≠ c' →
    (∀ claim, claim ∈ c :: er_paths r → claim ∉ c' :: er_paths r') ∧
    (∀ p q, p ∈ er_channels r → q ∈ er_channels r' → incomparable p q) ∧
    (∀ p, p ∈ er_channels r → first_channel_segment p ∉ c' :: er_paths r')
}.

Section start_pass.
Context {Db : Type} `{HashOrder}.
Implicit Types st : Inner Db.

Definition announced (l : Launcher) (cands : list (string * string)) (cand : string)
    (r : ExtensionRegistration) : Prop :=
  ∃ path pid, (cand, path) ∈ cands ∧ launch l cand path = Ok (pid, r).

(** The registry after the candidates of a list were started: exactly those that
    announced themselves. *)
Record started (l : Launcher) (cands : list (string * string)) st : Prop := {
  sd_extensions id h : i_extensions st !! id = Some h ↔
    ∃ path pid r, (id, path) ∈ cands ∧ launch l id path = Ok (pid, r) ∧
      h = handle_of id path (new_generation l id) pid r;
  sd_routes claim o : i_routes st !! claim = Some o ↔
    ∃ r, announced l cands o r ∧ claim ∈ o :: er_paths r;
  sd_prefixes p o : i_prefixes st !! p = Some o ↔ ∃ r, announced l cands o r ∧ p ∈ er_channels r;
  sd_failed cand path : (cand, path) ∈ cands →
    i_failed st !! cand = match launch l cand path with Ok _ => None | Err e => Some e end
}.

(** ** Lemmas *)

Lemma announced_snoc l cands cand path c r :
  announced l (cands ++ [(cand, path)]) c r ↔
  announced l cands c r ∨ c = cand ∧ ∃ pid, launch l cand path = Ok (pid, r).
Proof.
  unfold announced. split.
  - intros (p & pid & [Hin|Hin%list_elem_of_singleton]%elem_of_app & Hl); [left; eauto|].
    injection Hin as -> ->. right. eauto.
  - intros [(p & pid & Hin & Hl)|(-> & pid & Hl)]; [exists p, pid|exists path, pid];
      rewrite elem_of_app, list_elem_of_singleton; auto.
Qed.

Lemma compatible_sub (A B : string → ExtensionRegistration → Prop) :
  (∀ c r, A c r → B c r) → compatible B → compatible A.
Proof.
  intros Hsub [H1 H2 H3 H4]. split.
  - eauto.
  - eauto.
  - eauto.
  - intros c r c' r' HA HA'. eapply H4; eauto.
Qed.

(** The next compatible candidate is registered. *)
Lemma compatible_registration l cands cand path pid r st :
  started l cands st → compatible (announced l (cands ++ [(cand, path)])) →
  launch l cand path = Ok (pid, r) → cand ∉ cands.*1 →
  registration_ok cand (cand :: er_paths r) (er_channels r) (i_routes st) (i_prefixes st).
Proof.
  intros [Hext Hrt Hpf _] Hc Hl Hnew.
  assert (announced l (cands ++ [(cand, path)]) cand r) as Hself
    by (apply announced_snoc; eauto).
  assert (∀ o r', announced l cands o r' → announced l (cands ++ [(cand, path)]) o r' ∧ cand ≠ o) as Hold.
  { intros o r' Ha. split; [by apply announced_snoc; left|]. intros <-.
    destruct Ha as (p & pid' & Hin & _). apply Hnew. apply list_elem_of_fmap. by exists (cand, p). }
  destruct (valid_alone _ Hc _ _ Hself) as [Hv Hnd _ _ Hpv Hpa _ _].
  split; [exact Hv|exact Hnd| | |exact Hpv|exact Hpa| |].
  - intros claim Hin. apply eq_None_not_Some. intros [o (r' & Ha & Hin')%Hrt].
    destruct (Hold _ _ Ha) as [Ha' Hne]. by apply (proj1 (apart _ Hc _ _ _ _ Hself Ha' Hne) claim).
  - intros claim p o Hin (r' & Ha & Hp)%Hpf Hne <-. destruct (Hold _ _ Ha) as [Ha' Hne'].
    by apply (apart _ Hc _ _ _ _ Ha' Hself (not_eq_sym Hne')) in Hp.
  - intros p o Hp (r' & Ha & Hin)%Hrt. destruct (Hold _ _ Ha) as [Ha' Hne].
    by apply (apart _ Hc _ _ _ _ Hself Ha' Hne) in Hp.
  - intros p q o Hp (r' & Ha & Hq)%Hpf _. destruct (Hold _ _ Ha) as [Ha' Hne].
    by apply (apart _ Hc _ _ _ _ Hself Ha' Hne).
Qed.

Lemma inactive_candidate l cands cand st :
  started l cands st → cand ∉ cands.*1 → extension_candidate_is_active cand st = false.
Proof.
  intros Hs Hnew. apply candidate_is_active_false. intros id h (path & pid & r & Hin & _ & ->)%Hs.
  cbn. intros ->. apply Hnew, list_elem_of_fmap. by exists (cand, path).
Qed.

Lemma started_failed l cands cand path e st :
  started l cands st → launch l cand path = Err e → cand ∉ cands.*1 →
  started l (cands ++ [(cand, path)]) (mark_failed cand e st).
Proof.
  intros [Hext Hrt Hpf Hfl] Hl Hnew.
  assert (∀ c r, announced l (cands ++ [(cand, path)]) c r ↔ announced l cands c r) as Hann.
  { intros c r. rewrite announced_snoc. split; [|by left].
    intros [Ha|(_ & pid & Hl')]; [done|]. by rewrite Hl in Hl'. }
  split; cbn.
  - intros id h. rewrite Hext. split; intros (p & pid & r & Hin & Hp & ->); exists p, pid, r.
    + split; [apply elem_of_app; by left|done].
    + apply elem_of_app in Hin as [Hin|Hin%list_elem_of_singleton]; [done|].
      injection Hin as -> ->. by rewrite Hl in Hp.
  - intros claim o. rewrite Hrt. by setoid_rewrite Hann.
  - intros p o. rewrite Hpf. by setoid_rewrite Hann.
  - intros c p [Hin|Hin%list_elem_of_singleton]%elem_of_app.
    + rewrite lookup_insert_ne; [by apply Hfl|]. intros <-. apply Hnew, list_elem_of_fmap.
      by exists (cand, p).
    + injection Hin as -> ->. by rewrite lookup_insert_eq, Hl.
Qed.

Lemma insert_all_owner id keys (m : gmap string string) k o :
  (∀ k, k ∈ keys → m !! k = None) →
  insert_all id keys m !! k = Some o ↔ m !! k = Some o ∨ o = id ∧ k ∈ keys.
Proof.
  intros Hfree. rewrite insert_all_lookup. case_decide as Hk.
  - rewrite (Hfree k Hk). split; [intros [= <-]; by right|]. by intros [?|[-> _]].
  - split; [by left|]. by intros [?|[_ ?]].
Qed.

(** Who owns what after one more candidate. *)
Lemma owners_snoc l cands cand path pid r (keys : string → ExtensionRegistration → list string)
    (m : gmap string string) k o :
  launch l cand path = Ok (pid, r) → (∀ k, k ∈ keys cand r → m !! k = None) →
  (m !! k = Some o ↔ ∃ r, announced l cands o r ∧ k ∈ keys o r) →
  insert_all cand (keys cand r) m !! k = Some o ↔
  ∃ r, announced l (cands ++ [(cand, path)]) o r ∧ k ∈ keys o r.
Proof.
  intros Hl Hfree Hm. rewrite insert_all_owner, Hm by done. setoid_rewrite announced_snoc. split.
  - intros [(r' & Ha & Hk)|[-> Hk]]; [by eauto|]. exists r. split; [right; eauto|done].
  - intros (r' & [Ha|(-> & pid' & Hl')] & Hk); [left; eauto|]. right.
    rewrite Hl in Hl'. by injection Hl' as _ <-.
Qed.

Lemma started_registered l cands cand path pid r st :
  started l cands st → launch l cand path = Ok (pid, r) → cand ∉ cands.*1 → er_id r = cand →
  registration_ok cand (cand :: er_paths r) (er_channels r) (i_routes st) (i_prefixes st) →
  let handle := handle_of cand path (new_generation l cand) pid r in
  started l (cands ++ [(cand, path)])
    (on_failed (delete cand) (clear_unavailable handle (clear_failed handle
      (on_extensions (insert (h_id handle) handle)
       (on_counters (insert (generation handle) (fresh_counters (candidate_id handle) st))
       (on_routes (insert_all (h_id handle) (h_paths handle))
       (on_prefixes (insert_all (h_id handle) (h_channels handle)) st))))))).
Proof.
  intros [Hext Hrt Hpf Hfl] Hl Hnew Hid Hreg handle.
  assert (∀ c p, (c, p) ∈ cands → cand ≠ c) as Hne.
  { intros c p Hin <-. apply Hnew, list_elem_of_fmap. by exists (cand, p). }
  split.
  - intros id h. cbn. rewrite Hid, lookup_insert_Some, Hext. split.
    + intros [[<- <-]|[_ (p & pid' & r' & Hin & Hp & ->)]].
      * exists path, pid, r. by rewrite elem_of_app, list_elem_of_singleton; auto.
      * exists p, pid', r'. rewrite elem_of_app. by auto.
    + intros (p & pid' & r' & [Hin|Hin%list_elem_of_singleton]%elem_of_app & Hp & ->).
      * right. split; [by eapply Hne|]. by exists p, pid', r'.
      * injection Hin as -> ->. rewrite Hl in Hp. injection Hp as <- <-. by left.
  - intros claim o. subst handle. cbn [i_routes on_failed clear_unavailable clear_failed on_unavailable
      on_extensions on_counters on_routes on_prefixes h_id h_paths handle_of]. rewrite Hid.
    apply (owners_snoc _ _ _ _ pid r (λ o r, o :: er_paths r)); [done|apply Hreg|done].
  - intros p o. subst handle. cbn [i_prefixes on_failed clear_unavailable clear_failed on_unavailable
      on_extensions on_counters on_routes on_prefixes h_id h_channels handle_of]. rewrite Hid.
    apply (owners_snoc _ _ _ _ pid r (λ _ r, er_channels r)); [done| |done].
    intros q Hq. apply eq_None_not_Some. intros [o' Ho'].
    apply (prefixes_off_prefixes _ _ _ _ _ Hreg q q o' Hq) in Ho' as Hinc; [by destruct Hinc|].
    intros ->. apply Hpf in Ho' as (r' & (p' & ? & Hin & _) & _). by apply (Hne cand p').
  - intros c p [Hin|Hin%list_elem_of_singleton]%elem_of_app; cbn; rewrite Hid.
    + pose proof (Hne _ _ Hin). rewrite !lookup_delete_ne by done. by apply Hfl.
    + injection Hin as -> ->. by rewrite lookup_delete_eq, Hl.
Qed.

Lemma start_candidate_started l cands cand path st :
  started l cands st → compatible (announced l (cands ++ [(cand, path)])) → cand ∉ cands.*1 →
  started l (cands ++ [(cand, path)]) (start_candidate l st (cand, path)).
Proof.
  intros Hs Hc Hnew. unfold start_candidate. rewrite (inactive_candidate l cands) by done.
  unfold start_extension. destruct (launch l cand path) as [[pid r]|e] eqn:Hl;
    [|by apply started_failed].
  assert (er_id r = cand) as Hid by (apply (own_id _ Hc), announced_snoc; eauto).
  pose proof (compatible_registration _ _ _ _ _ _ _ Hs Hc Hl Hnew) as Hreg.
  set (handle := handle_of cand path (new_generation l cand) pid r).
  edestruct (register_extension_Ok handle st) as [_ Hr]. rewrite Hr; [by apply started_registered|].
  cbn. rewrite Hid. split_and!; [| |done|done].
  - apply eq_None_not_Some. intros [h (p & ? & ? & Hin & _)%Hs].
    apply Hnew, list_elem_of_fmap. by exists (cand, p).
  - by apply candidate_is_active_false, (inactive_candidate l cands).
Qed.

Lemma start_candidates_started l cands more st :
  started l cands st → compatible (announced l (cands ++ more)) → NoDup (cands ++ more).*1 →
  started l (cands ++ more) (foldl (start_candidate l) st more).
Proof.
  revert cands st. induction more as [|[cand path] more IH]; intros cands st Hs Hc Hnd.
  { by rewrite app_nil_r. }
  rewrite cons_middle, app_assoc in Hc, Hnd |- *. cbn [foldl]. apply IH; [|done..].
  apply start_candidate_started; [done| |].
  - eapply compatible_sub; [|exact Hc]. intros c r (p & pid & Hin & Hl). exists p, pid.
    rewrite elem_of_app. auto.
  - rewrite !fmap_app in Hnd. apply NoDup_app in Hnd as (Hnd & _ & _).
    apply NoDup_app in Hnd as (_ & Hd & _). intros Hin. apply (Hd cand Hin). by left.
Qed.

(** Before the first start: nothing is registered. *)
Definition fresh st : Prop := i_extensions st = ∅ ∧ i_routes st = ∅ ∧ i_prefixes st = ∅.

Lemma fresh_stopped desired st : fresh st → stop_removed_extensions desired st = ([], st).
Proof.
  intros [He _]. unfold stop_removed_extensions. rewrite He.
  pose proof (hash_iter_perm (∅ : gmap string ExtHandle)) as Hp. rewrite map_to_list_empty in Hp.
  by apply Permutation_nil_r in Hp as ->.
Qed.

Lemma fresh_note_missing desired wanted st : fresh st → fresh (note_missing desired st wanted).
Proof. intros Hf. unfold note_missing. by repeat case_match. Qed.

Lemma fresh_started l st : fresh st → started l [] st.
Proof.
  intros (He & Hr & Hp). unfold announced.
  split; [intros id h; rewrite He|intros claim o; rewrite Hr|intros p o; rewrite Hp
    |by intros c p ?%not_elem_of_nil]; rewrite lookup_empty; (split; [done|]);
    [intros (? & ? & ? & ?%not_elem_of_nil & _)|intros (? & (? & ? & ?%not_elem_of_nil & _) & _)
    |intros (? & (? & ? & ?%not_elem_of_nil & _) & _)]; done.
Qed.

(** A start pass over compatible candidates registers every one that announces
    itself, whatever the order. *)
Lemma compatible_start_pass l candidates st stopped st' :
  fresh st →
  let desired := desired_extensions (i_config st) candidates in
  compatible (announced l (map_to_list desired)) →
  start_extensions l candidates st = (stopped, st') → stopped = [] ∧ started l (hash_iter desired) st'.
Proof.
  intros Hf desired Hc. unfold start_extensions. fold desired. rewrite fresh_stopped by done.
  intros [= <- <-]. split; [done|]. apply (start_candidates_started l []).
  - apply fresh_started, foldl_keeps; [|done]. intros. by apply fresh_note_missing.
  - eapply compatible_sub; [|exact Hc]. intros c r (p & pid & Hin & Hl). exists p, pid.
    by rewrite <- (hash_iter_perm desired).
  - cbn [app]. apply NoDup_hash_iter.
Qed.
End start_pass.

(** ** The shipped programs *)

Section theorems.
Context {WE : Wire ExtMsg} {WEL : WireLaws ExtMsg} {WS : Wire SrvMsg}.
Context `{Codec}.
Context (from_utf8_lossy : string → string) (hmac_sha256_hex : string → string → string).
Context (parse_json : string → result string Value).
Context (mac : Algorithm → string → string → string).
Context (debug_str : string → string) (env : string → option string).
Context (debug : ExtMsg → string).
Local Notation program :=
  (shipped from_utf8_lossy hmac_sha256_hex parse_json mac debug_str env) (only parsing).
Local Notation launcher :=
  (shipped_launcher from_utf8_lossy hmac_sha256_hex parse_json mac debug_str env debug)
  (only parsing).

Lemma register_line id paths channels meta handle stdin w gen cand path :
  is_ok (to_string (register_msg id paths channels meta)) = true →
  (launch_process debug
     (MkStartWorld (Ok w) true true
        (first_line (run_extension id paths channels meta handle stdin).1) gen) cand path).1 =
  Ok (w, MkExtensionRegistration id paths channels).
Proof.
  intros Hok. unfold run_extension.
  destruct (encode_line (register_msg id paths channels meta)) as [text|e] eqn:He;
    [|unfold encode_line in He; by destruct (to_string _)].
  destruct (serve_lines handle stdin) as [out end_]. cbn [fst].
  destruct (stream_lines_message _ _ (concat_chars out) He) as (line & _ & Hd & Hl).
  unfold first_line. change (concat_chars (text :: out)) with (text +:+ concat_chars out).
  rewrite Hl. unfold launch_process, spawn_extension_process.
  cbn [sw_spawn sw_stdin sw_stdout sw_first_line negb]. unfold read_registration.
  cbn [mbind result_bind]. by rewrite Hd.
Qed.

(** Every registration encodes. *)
Definition registrations_encode : Prop :=
  ∀ id paths channels meta, is_ok (to_string (register_msg id paths channels meta)) = true.

Lemma shipped_launch pids generations stdin other cand path :
  registrations_encode → is_Some (program cand) →
  launch (launcher pids generations stdin other) cand path =
    match announcement debug_str env cand with Ok r => Ok (pids cand, r) | Err e => Err e end.
Proof.
  intros Hok [main Hm]. cbn [launch shipped_launcher]. rewrite Hm. unfold shipped, announcement in *.
  destruct (String.eqb_spec cand "dev") as [->|Hdev]; [injection Hm as <-; by apply register_line|].
  destruct (String.eqb_spec cand "github") as [->|Hgit]; [injection Hm as <-; by apply register_line|].
  destruct (String.eqb_spec cand "hmac") as [->|Hmac]; [injection Hm as <-|].
  - unfold hmac_main. destruct (HmacConfig_from_env debug_str env); [by apply register_line|done].
  - destruct (String.eqb_spec cand "teams") as [->|]; [|done]. injection Hm as <-. by apply register_line.
Qed.

(** The prefix the operator chose for the HMAC extension is usable: it is not
    empty, and no other shipped extension goes by it. *)
Definition usable_prefix : Prop :=
  ∀ config, HmacConfig_from_env debug_str env = Ok config →
  channel_prefix config ≠ EmptyString ∧
  channel_prefix config ∉ ["dev"; "github"; "gh"; "teams"]%string.

Lemma shipped_names cand :
  is_Some (program cand) → cand ∈ ["dev"; "github"; "hmac"; "teams"]%string.
Proof.
  unfold shipped. intros [m Hm]. repeat case_match; try done;
    match goal with Hc : String.eqb _ _ = true |- _ => apply String.eqb_eq in Hc as -> end; set_solver.
Qed.

(** The claims and channel prefixes a program announces. *)
Lemma announcement_spec cand r :
  cand ∈ ["dev"; "github"; "hmac"; "teams"]%string → announcement debug_str env cand = Ok r →
  er_id r = cand ∧
  (er_paths r = if String.eqb cand "github" then ["gh"]%string else []) ∧
  (er_channels r = [] ∨ cand = "hmac"%string ∧ ∃ config, HmacConfig_from_env debug_str env = Ok config ∧
     er_channels r = [channel_prefix config]).
Proof.
  unfold announcement. intros Hin Hr.
  destruct (String.eqb_spec cand "github") as [->|Hg]; [injection Hr as <-; by auto|].
  destruct (String.eqb_spec cand "hmac") as [->|Hh]; [|injection Hr as <-; by auto].
  destruct (HmacConfig_from_env debug_str env) as [config|e]; [|done]. injection Hr as <-.
  cbn. split_and!; [done|done|]. right. by eauto.
Qed.

Lemma plain_prefix_spec p :
  plain_token p → channel_grammar p ∧ first_channel_segment p = p.
Proof.
  intros Hp. split; [by constructor|]. apply plain_token_inv in Hp as (_ & _ & _ & Hdot).
  unfold first_channel_segment. by rewrite split_on_single.
Qed.

Lemma shipped_compatible :
  usable_prefix →
  compatible (λ cand r, cand ∈ ["dev"; "github"; "hmac"; "teams"]%string ∧
                        announcement debug_str env cand = Ok r).
Proof.
  intros Husable.
  assert (∀ config, HmacConfig_from_env debug_str env = Ok config →
    let p := channel_prefix config in channel_grammar p ∧ first_channel_segment p = p ∧
    p ∉ ["dev"; "github"; "gh"; "teams"]%string) as Hprefix.
  { intros config Hc. destruct (Husable _ Hc) as [Hne Hout].
    destruct (from_env_prefix _ _ _ Hc) as [_ Hplain].
    by destruct (plain_prefix_spec _ (Hplain Hne)). }
  split.
  - intros cand r r' [_ Ha] [_ Ha']. congruence.
  - intros cand r [Hin Ha]. by apply (announcement_spec _ _ Hin Ha).
  - intros cand r [Hin Ha]. destruct (announcement_spec _ _ Hin Ha) as (_ & -> & Hch).
    split.
    + intros claim Hc. assert (claim ∈ ["dev"; "github"; "hmac"; "teams"; "gh"]%string) as Hall
        by (destruct (String.eqb cand "github"); set_solver).
      clear Hc. revert claim Hall. apply Forall_forall. by repeat constructor.
    + destruct (String.eqb_spec cand "github") as [->|]; [by apply (bool_decide_unpack _)|].
      repeat constructor. apply not_elem_of_nil.
    + intros claim _. apply lookup_empty.
    + intros claim p o _. by rewrite lookup_empty.
    + intros p Hp. destruct Hch as [Hch|(-> & config & Hc & Hch)]; rewrite Hch in Hp;
        [by apply not_elem_of_nil in Hp|]. apply list_elem_of_singleton in Hp as ->. by apply Hprefix.
    + destruct Hch as [->|(-> & config & Hc & ->)]; repeat constructor.
    + intros p o _. by rewrite lookup_empty.
    + intros p q o _. by rewrite lookup_empty.
  - intros c r c' r' [Hin Ha] [Hin' Ha'] Hne.
    destruct (announcement_spec _ _ Hin Ha) as (_ & -> & Hch).
    destruct (announcement_spec _ _ Hin' Ha') as (_ & -> & Hch'). split_and!.
    + intros claim. destruct (String.eqb_spec c "github"), (String.eqb_spec c' "github"); set_solver.
    + intros p q Hp Hq. destruct Hch as [Hch|(-> & _)]; [rewrite Hch in Hp; by apply not_elem_of_nil in Hp|].
      destruct Hch' as [Hch'|(-> & _)]; [rewrite Hch' in Hq; by apply not_elem_of_nil in Hq|done].
    + intros p Hp. destruct Hch as [Hch|(-> & config & Hc & Hch)]; rewrite Hch in Hp;
        [by apply not_elem_of_nil in Hp|]. apply list_elem_of_singleton in Hp as ->.
      destruct (Hprefix _ Hc) as (_ & -> & Hout). destruct (String.eqb_spec c' "github"); set_solver.
Qed.

(** A name an extension is claimed under that is no other's claims is its own. *)
Lemma unannounced_claim_is_free o r cand e :
  o ∈ ["dev"; "github"; "hmac"; "teams"]%string → announcement debug_str env o = Ok r →
  cand ∈ ["dev"; "github"; "hmac"; "teams"]%string → announcement debug_str env cand = Err e →
  cand ∉ o :: er_paths r.
Proof.
  intros Hin Ha Hin' He. destruct (announcement_spec _ _ Hin Ha) as (_ & -> & _).
  assert (o ≠ cand) by congruence. destruct (String.eqb_spec o "github"); [|set_solver].
  intros [<-|Hg]%elem_of_cons; [done|]. apply list_elem_of_singleton in Hg as ->. set_solver.
Qed.

(** ** Theorems *)

End theorems.

(** ** Witness *)

Section witnesses.
#[local] Existing Instance BitCodec.wire.
#[local] Existing Instance BitCodec.wire_laws.
#[local] Existing Instance HexCodec.codec.
#[local] Existing Instance some_order.

(** All four are on PATH and started; the HMAC extension publishes under
    [pay-ments]. *)
Definition all_started : Config :=
  MkConfig ServerConfig_default SubscribersConfig_default (MkExtensionsConfig [] true)
    LimitsConfig_default TimeoutsConfig_default DeliveryConfig_default None ∅.
Definition four_executables : gmap string string :=
  {[ "dev" := "/bin/whdr-ext-dev"; "github" := "/bin/whdr-ext-github";
     "hmac" := "/bin/whdr-ext-hmac"; "teams" := "/bin/whdr-ext-teams" ]}.
Definition prefix_env (key : string) : option string :=
  if String.eqb key "WHDR_HMAC_CHANNEL_PREFIX" then Some "Pay.Ments" else None.
Definition no_log (_ : DeliveryConfig) : result string (DeliveryLog.Shared (list (Z * string))) :=
  Err "no database".
Definition four_programs : Launcher :=
  shipped_launcher (λ s, s) (λ s t, s) (λ _, Ok Null) (λ _ s _, s) (λ s, s) prefix_env (λ _, EmptyString)
    (λ _, Some 42) (λ _, 7) (λ _, []) (λ _ _, Err EmptyString).

End witnesses.
