(* ===== verification/Metrics.v ===== *)
(** * Metrics: the status document and its Prometheus rendering

    [AppState::status_json] of [crates/whdr-server/src/daemon.rs] and
    [crates/whdr-server/src/metrics.rs].  Both admin surfaces render the one
    document.  The fields of an object are listed in the order of the [json!]
    macro; nothing looks at their order. *)

From S2P Require Import Prelude.
From S2P Require Import Text.
From S2P Require Import Channel.
From S2P Require Import Messages.
From S2P Require Import OutboundQueue.
From S2P Require Import Config.
From S2P Require Import DeliveryLog.
From S2P Require Import Subscribers.
From S2P Require Import ExtensionProcess.
From S2P Require Import AppState.
From S2P Require Import Dispatch.
From S2P Require Import Ingest.
From Stdlib Require Import Ascii.

Local Open Scope Z_scope.

(** ** Reading a document *)

(** [value[key]]: [Null] when there is no such field. *)
Definition field (key : string) (v : Value) : Value :=
  match v with
  | Object fields => from_option (snd ∘ snd) Null (list_find (λ kv, kv.1 = key) fields)
  | _ => Null
  end.
(** [value.as_object().and_then(|o| o.get(key))]. *)
Definition get_field (key : string) (v : Value) : option Value :=
  match v with
  | Object fields => snd ∘ snd <$> list_find (λ kv, kv.1 = key) fields
  | _ => None
  end.
Definition val_str (v : Value) : option string := match v with Str s => Some s | _ => None end.
Definition val_array (v : Value) : option (list Value) :=
  match v with Array l => Some l | _ => None end.
Definition val_u64 (v : Value) : option Z :=
  match v with Number n => if (0 <=? n) && (n <? 2 ^ 64) then Some n else None | _ => None end.
Definition is_null (v : Value) : bool := match v with Null => true | _ => false end.
Definition is_object (v : Value) : bool := match v with Object _ => true | _ => false end.
Definition val_bool (v : Value) : option bool := match v with Bool b => Some b | _ => None end.

Definition opt_number (o : option Z) : Value := match o with Some n => Number n | None => Null end.
Definition opt_str (o : option string) : Value := match o with Some s => Str s | None => Null end.

(** ** [AppState::status_json] *)

Section status.
Context {Db : Type} `{HashOrder}.
Implicit Types st : Inner Db.

Definition no_counters : Counters := MkCounters 0 0 0 0 0 0.

(** [in_flight] is [DispatchWindow::in_flight] of a generation. *)
Definition ext_row (in_flight : Uuid → Z) st (h : ExtHandle) : Value :=
  let c := default no_counters (i_counters st !! generation h) in
  Object [
    ("candidate_id", Str (candidate_id h));
    ("id", Str (h_id h));
    ("state", Str "Ready");
    ("pid", opt_number (h_pid h));
    ("path", Str (h_path h));
    ("restarts", Number (c_restarts c));
    ("paths", Array (Str <$> h_paths h));
    ("channels", Array (Str <$> h_channels h));
    ("in_flight", Number (in_flight (generation h)));
    ("protocol_errors", Number (AppState.protocol_errors c));
    ("namespace_violations", Number (namespace_violations c));
    ("consecutive_timeouts", Number (consecutive_timeouts c));
    ("events_emitted", Number (emitted c));
    ("last_event_at_ms", opt_number (last_event_at_ms c))].

Definition failed_row (id reason : string) : Value :=
  Object [("id", Str id); ("state", Str "Failed"); ("reason", Str reason)].

Definition sub_row (s : SubscriberSnapshot) : Value :=
  Object [
    ("name", Str (snap_name s));
    ("remote_addr", opt_str (snap_remote_addr s));
    ("patterns", Array (Str <$> snap_patterns s));
    ("delivered", Number (snap_delivered s));
    ("dropped", Number (snap_dropped s))].

Definition delivery_json (r : Registry Db) : Value :=
  match log r with
  | Some l =>
      Object [
        ("enabled", Bool true);
        ("head_seq", Number (head l));
        ("floor_seq", Number (floor l));
        ("retained_events", Number (retained_count l));
        ("retained_bytes", Number (retained_bytes l));
        ("persist_errors", Number (persist_errors r))]
  | None => Object [("enabled", Bool false)]
  end.

Definition map_size {V} (m : gmap string V) : Z := Z.of_nat (size m).

Definition status_json (in_flight : Uuid → Z) (heap : Heap) (now : Z) st : Value :=
  let ext_rows :=
    ((λ kv : string * ExtHandle, ext_row in_flight st kv.2) <$> hash_iter (i_extensions st))
    ++ ((λ kv : string * string, failed_row kv.1 kv.2) <$> hash_iter (i_failed st)) in
  let sub_rows := sub_row <$> snapshots (i_subscribers st) heap in
  Object [
    ("uptime_ms", Number ((now - i_started st) / 1000000));
    ("extensions", Array ext_rows);
    ("subscribers", Array sub_rows);
    ("global", Object [
      ("routes", Number (map_size (i_routes st)));
      ("unavailable_routes", Number (map_size (i_unavailable st)));
      ("channel_prefixes", Number (map_size (i_prefixes st)));
      ("subscriber_count", Number (len sub_rows))]);
    ("delivery", delivery_json (i_subscribers st))].
End status.

(** ** Rendering *)

Definition backslash : ascii := "092".
Definition dquote : ascii := "034".
Definition newline : ascii := "010".
Definition str1 (a : ascii) : string := String a EmptyString.

Definition escape_label (value : string) : string :=
  replace (str1 newline) (String backslash "n")
    (replace (str1 dquote) (String backslash (str1 dquote))
      (replace (str1 backslash) (String backslash (str1 backslash)) value)).

(** The labels between braces. *)
Fixpoint render_labels (first : bool) (labels : list (string * string)) : string :=
  match labels with
  | [] => EmptyString
  | (key, label_value) :: rest =>
      (if first then EmptyString else ",") +:+ key +:+ "=" +:+ str1 dquote
        +:+ escape_label label_value +:+ str1 dquote +:+ render_labels false rest
  end.

(** [gauge]: the text it appends. *)
Definition gauge (name : string) (labels : list (string * string)) (value : Value) : string :=
  let line rendered :=
    name +:+ (match labels with [] => EmptyString | _ => "{" +:+ render_labels true labels +:+ "}" end)
      +:+ " " +:+ rendered +:+ str1 newline in
  match value with
  | Number n => line (pretty n)
  | Float text => line text
  | Null => EmptyString
  | other => match val_str other with Some text => line text | None => EmptyString end
  end.

Definition concat_texts (l : list string) : string := foldr String.append EmptyString l.

Definition ext_fields : list (string * string) := [
  ("whdr_ext_restarts", "restarts");
  ("whdr_ext_in_flight", "in_flight");
  ("whdr_ext_protocol_errors", "protocol_errors");
  ("whdr_ext_namespace_violations", "namespace_violations");
  ("whdr_ext_consecutive_timeouts", "consecutive_timeouts");
  ("whdr_ext_events_emitted", "events_emitted");
  ("whdr_ext_last_event_at_ms", "last_event_at_ms")]%string.

Definition render_ext (ext : Value) : string :=
  match val_str (field "id" ext) with
  | None => EmptyString
  | Some id =>
      let labels := [("ext", id)]%string in
      let up := if bool_decide (val_str (field "state" ext) = Some "Ready") then Number 1 else Number 0 in
      gauge "whdr_ext_up" labels up
        +:+ concat_texts ((λ mf, if is_null (field mf.2 ext) then EmptyString
                                 else gauge mf.1 labels (field mf.2 ext)) <$> ext_fields)
  end.

(** A row of [by_name]: name, delivered, dropped, connections. *)
Record NameRow : Type := MkNameRow {
  nr_name : string;
  nr_delivered : Z;
  nr_dropped : Z;
  nr_connections : Z
}.

(** [by_name.iter_mut().find(..)], then the update or the push. *)
Fixpoint add_row (name : string) (delivered dropped : Z) (rows : list NameRow) : list NameRow :=
  match rows with
  | [] => [MkNameRow name delivered dropped 1]
  | row :: rest =>
      if String.eqb (nr_name row) name
      then MkNameRow (nr_name row) (wrap64 (nr_delivered row + delivered))
             (wrap64 (nr_dropped row + dropped)) (wrap64 (nr_connections row + 1)) :: rest
      else row :: add_row name delivered dropped rest
  end.

Definition add_subscriber (rows : list NameRow) (subscriber : Value) : list NameRow :=
  match val_str (field "name" subscriber) with
  | None => rows
  | Some name =>
      add_row name (default 0 (val_u64 (field "delivered" subscriber)))
        (default 0 (val_u64 (field "dropped" subscriber))) rows
  end.

Definition by_name (subscribers : list Value) : list NameRow := foldl add_subscriber [] subscribers.

Definition render_name (row : NameRow) : string :=
  let labels := [("name", nr_name row)]%string in
  gauge "whdr_subscriber_delivered" labels (Number (nr_delivered row))
    +:+ gauge "whdr_subscriber_dropped" labels (Number (nr_dropped row))
    +:+ gauge "whdr_subscriber_connections" labels (Number (nr_connections row)).

Definition global_fields : list (string * string) := [
  ("whdr_routes", "routes");
  ("whdr_unavailable_routes", "unavailable_routes");
  ("whdr_channel_prefixes", "channel_prefixes");
  ("whdr_subscriber_count", "subscriber_count")]%string.

Definition delivery_fields : list (string * string) := [
  ("whdr_delivery_head_seq", "head_seq");
  ("whdr_delivery_floor_seq", "floor_seq");
  ("whdr_delivery_retained_events", "retained_events");
  ("whdr_delivery_retained_bytes", "retained_bytes");
  ("whdr_delivery_persist_errors", "persist_errors")]%string.

Definition render_delivery (delivery : Value) : string :=
  if is_object delivery then
    let enabled := if bool_decide ((get_field "enabled" delivery ≫= val_bool) = Some true)
                   then Number 1 else Number 0 in
    gauge "whdr_delivery_enabled" [] enabled
      +:+ concat_texts ((λ mf, match get_field mf.2 delivery with
                               | Some value => gauge mf.1 [] value
                               | None => EmptyString
                               end) <$> delivery_fields)
  else EmptyString.

Definition render_prometheus (status : Value) : string :=
  gauge "whdr_uptime_ms" [] (field "uptime_ms" status)
  +:+ concat_texts (render_ext <$> default [] (val_array (field "extensions" status)))
  +:+ concat_texts (render_name <$> by_name (default [] (val_array (field "subscribers" status))))
  +:+ concat_texts ((λ mf, gauge mf.1 [] (field mf.2 (field "global" status))) <$> global_fields)
  +:+ render_delivery (field "delivery" status).

(** [text_headers] is what [into_response] sets for a string body. *)
Definition metrics_handler {Db : Type} `{HashOrder} (text_headers : gmap string string)
    (in_flight : Uuid → Z) (heap : Heap) (now : Z) (st : Inner Db) : Response :=
  MkResponse 200 (<["content-type" := "text/plain; version=0.0.4"]> text_headers)
    (render_prometheus (status_json in_flight heap now st)).

(** ** Specification *)

(** A reader of label values: the text up to the closing quote, and the rest. *)
Fixpoint read_label (s : string) : option (string * string) :=
  match s with
  | EmptyString => None
  | String a s1 =>
      if Ascii.eqb a dquote then Some (EmptyString, s1)
      else if Ascii.eqb a newline then None
      else if Ascii.eqb a backslash then
        match s1 with
        | EmptyString => None
        | String b s2 =>
            c ← (if Ascii.eqb b "n" then Some newline
                 else if Ascii.eqb b dquote || Ascii.eqb b backslash then Some b else None);
            vr ← read_label s2;
            Some (String c vr.1, vr.2)
        end
      else vr ← read_label s1; Some (String a vr.1, vr.2)
  end.

(** ** Lemmas *)

(** Replacing one byte. *)
Fixpoint subst (a : ascii) (rep s : string) : string :=
  match s with
  | EmptyString => EmptyString
  | String b s => (if Ascii.eqb b a then rep else str1 b) +:+ subst a rep s
  end.

Lemma replace_subst a rep s : replace (str1 a) rep s = subst a rep s.
Proof.
  unfold replace. change (str1 a) with (String a EmptyString).
  induction s as [|b s IH]; [done|]. cbn [replace_go subst]. unfold starts_with. cbn [strip_prefix]. rewrite (Ascii.eqb_sym a b).
  destruct (Ascii.eqb b a); cbn [String.length Nat.sub]; by rewrite IH.
Qed.

Lemma subst_app a rep s t : subst a rep (s +:+ t) = subst a rep s +:+ subst a rep t.
Proof.
  induction s as [|b s IH]; [done|]. rewrite string_app_cons. cbn [subst].
  by rewrite IH, string_app_assoc.
Qed.

(** Escaping byte by byte. *)
Definition escape_byte (b : ascii) : string :=
  if Ascii.eqb b backslash then String backslash (str1 backslash)
  else if Ascii.eqb b dquote then String backslash (str1 dquote)
  else if Ascii.eqb b newline then String backslash "n"
  else str1 b.

Lemma escape_label_cons b s : escape_label (String b s) = escape_byte b +:+ escape_label s.
Proof.
  unfold escape_label. rewrite !replace_subst. cbn [subst]. rewrite !subst_app. f_equal.
  unfold escape_byte.
  destruct (Ascii.eqb_spec b backslash) as [->|H1]; [done|].
  destruct (Ascii.eqb_spec b dquote) as [->|H2]; [done|].
  destruct (Ascii.eqb_spec b newline) as [->|H3]; [done|].
  apply Ascii.eqb_neq in H1, H2, H3. unfold str1. cbn [subst]. rewrite H2, string_app_nil_r.
  unfold str1. cbn [subst]. by rewrite H3.
Qed.

Lemma read_escaped_byte b s :
  read_label (escape_byte b +:+ s) = (vr ← read_label s; Some (String b vr.1, vr.2)).
Proof.
  unfold escape_byte.
  destruct (Ascii.eqb_spec b backslash) as [->|H1]; [done|].
  destruct (Ascii.eqb_spec b dquote) as [->|H2]; [done|].
  destruct (Ascii.eqb_spec b newline) as [->|H3]; [done|].
  apply Ascii.eqb_neq in H1, H2, H3. change (str1 b +:+ s) with (String b s). cbn [read_label].
  by rewrite H1, H2, H3.
Qed.

(** *** Rows *)

Definition row_named (name : string) (rows : list NameRow) : option NameRow :=
  snd <$> list_find (λ row, nr_name row = name) rows.

Lemma row_named_cons name row rows :
  row_named name (row :: rows) = if decide (nr_name row = name) then Some row else row_named name rows.
Proof.
  unfold row_named. cbn [list_find]. case_decide; [done|]. by destruct (list_find _ rows) as [[]|].
Qed.

Lemma add_row_named n d k rows name :
  row_named name (add_row n d k rows) =
    if decide (n = name) then
      Some match row_named name rows with
           | Some row => MkNameRow name (wrap64 (nr_delivered row + d)) (wrap64 (nr_dropped row + k))
                           (wrap64 (nr_connections row + 1))
           | None => MkNameRow n d k 1
           end
    else row_named name rows.
Proof.
  induction rows as [|row rows IH]; cbn [add_row].
  { rewrite row_named_cons. cbn. by case_decide. }
  destruct (String.eqb_spec (nr_name row) n) as [Heq|Hne]; rewrite !row_named_cons; cbn [nr_name].
  - rewrite Heq. case_decide; [|done]. by subst.
  - rewrite IH. repeat case_decide; congruence.
Qed.

Lemma add_row_names n d k rows x :
  x ∈ nr_name <$> add_row n d k rows → x = n ∨ x ∈ nr_name <$> rows.
Proof.
  induction rows as [|row rows IH]; cbn [add_row].
  - intros ->%list_elem_of_singleton. by left.
  - case_match; cbn; rewrite !elem_of_cons; [tauto|]. intros [->|Hx]; [tauto|].
    apply IH in Hx. tauto.
Qed.

Lemma add_row_NoDup n d k rows :
  NoDup (nr_name <$> rows) → NoDup (nr_name <$> add_row n d k rows).
Proof.
  induction rows as [|row rows IH]; cbn [add_row]; intros Hnd.
  { apply NoDup_singleton. }
  apply NoDup_cons in Hnd as [Hn Hnd].
  destruct (String.eqb_spec (nr_name row) n) as [Heq|Hne]; cbn; [by apply NoDup_cons|].
  apply NoDup_cons. split; [|by apply IH]. by intros [?|?]%add_row_names.
Qed.

Definition total {A} (f : A → Z) (l : list A) : Z := foldr (λ a n, f a + n) 0 l.
Lemma total_snoc {A} (f : A → Z) l a : total f (l ++ [a]) = total f l + f a.
Proof. induction l as [|b l IH]; cbn; [lia|]. unfold total in *. rewrite IH. lia. Qed.

Lemma val_u64_Number n : is_u64 n → val_u64 (Number n) = Some n.
Proof.
  intros Hn. unfold is_u64, val_u64 in *.
  by rewrite (proj2 (Z.leb_le _ _)), (proj2 (Z.ltb_lt _ _)) by lia.
Qed.

Definition snap_ok (s : SubscriberSnapshot) : Prop :=
  is_u64 (snap_delivered s) ∧ is_u64 (snap_dropped s).

Definition counters_u64 (heap : Heap) : Prop :=
  ∀ q oq, queues heap !! q = Some oq → is_u64 (delivered oq) ∧ is_u64 (dropped oq).

Lemma snapshots_ok {Db : Type} `{HashOrder} heap (r : Registry Db) :
  counters_u64 heap → Forall snap_ok (snapshots r heap).
Proof.
  intros Hq. apply Forall_forall. intros s Hs. apply list_elem_of_fmap in Hs as ([i sub] & -> & _).
  unfold snap_ok, snapshot. cbn. destruct (queues heap !! sub_queue sub) as [oq|] eqn:Hoq; cbn.
  - by apply (Hq _ _ Hoq).
  - unfold is_u64. lia.
Qed.

Definition snaps_named (name : string) (l : list SubscriberSnapshot) : list SubscriberSnapshot :=
  filter (λ s, snap_name s = name) l.

(** The row of a name after all its snapshots. *)
Definition name_row (name : string) (l : list SubscriberSnapshot) : option NameRow :=
  match snaps_named name l with
  | [] => None
  | mine => Some (MkNameRow name (wrap64 (total snap_delivered mine))
                    (wrap64 (total snap_dropped mine)) (wrap64 (len mine)))
  end.

Lemma name_row_snoc name l s :
  snap_ok s →
  name_row name (l ++ [s]) =
    if decide (snap_name s = name) then
      Some match name_row name l with
           | Some row => MkNameRow name (wrap64 (nr_delivered row + snap_delivered s))
                           (wrap64 (nr_dropped row + snap_dropped s))
                           (wrap64 (nr_connections row + 1))
           | None => MkNameRow (snap_name s) (snap_delivered s) (snap_dropped s) 1
           end
    else name_row name l.
Proof.
  intros [Hd Hk]. unfold name_row, snaps_named. rewrite filter_app, filter_cons, filter_nil.
  case_decide as Hn; [|by rewrite app_nil_r].
  destruct (filter _ l) as [|s0 mine] eqn:Hf; cbn [app].
  - cbn [total foldr]. rewrite !Z.add_0_r, !wrap64_small by done. by rewrite Hn.
  - change (s0 :: mine ++ [s]) with ((s0 :: mine) ++ [s]).
    cbn [nr_delivered nr_dropped nr_connections]. rewrite !total_snoc, len_app, !wrap64_add_l. done.
Qed.

Lemma by_name_spec l name :
  Forall snap_ok l →
  row_named name (by_name (sub_row <$> l)) = name_row name l ∧
  NoDup (nr_name <$> by_name (sub_row <$> l)).
Proof.
  unfold by_name. induction l as [|s l IH] using rev_ind; intros Hok.
  { split; [reflexivity|constructor]. }
  apply Forall_app in Hok as [Hok Hs]. rewrite Forall_singleton in Hs. destruct (IH Hok) as [IHr IHn].
  rewrite fmap_app, foldl_app. cbn [fmap list_fmap foldl].
  assert (add_subscriber (foldl add_subscriber [] (sub_row <$> l)) (sub_row s) =
    add_row (snap_name s) (snap_delivered s) (snap_dropped s)
      (foldl add_subscriber [] (sub_row <$> l))) as ->.
  { destruct Hs as [Hd Hk]. unfold add_subscriber.
    change (field "name" (sub_row s)) with (Str (snap_name s)).
    change (field "delivered" (sub_row s)) with (Number (snap_delivered s)).
    change (field "dropped" (sub_row s)) with (Number (snap_dropped s)).
    by rewrite !val_u64_Number. }
  split; [|by apply add_row_NoDup]. by rewrite add_row_named, name_row_snoc, IHr.
Qed.

(** ** Theorems *)

(** The label escaping loses nothing and cannot be broken out of: a reader
    that undoes it finds, before the closing quote, exactly the value escaped,
    whatever it holds and whatever follows. *)
Theorem escaped_labels_read_back value rest :
  read_label (escape_label value +:+ String dquote rest) = Some (value, rest).
Proof.
  induction value as [|b value IH]; [done|].
  by rewrite escape_label_cons, <- string_app_assoc, read_escaped_byte, IH.
Qed.

(** The exported subscriber series are the status document's rows summed by
    name: one series per name with a live connection, none twice, delivered and
    dropped summed over its connections, and their number the one the token
    listing reports. *)
Theorem exported_series_sum_connections {Db : Type} `{HashOrder} in_flight heap now (st : Inner Db) name :
  counters_u64 heap →
  Z.of_nat (size (subs (i_subscribers st))) < 2 ^ 64 →
  let rows := by_name (default [] (val_array (field "subscribers" (status_json in_flight heap now st)))) in
  let mine := snaps_named name (snapshots (i_subscribers st) heap) in
  NoDup (nr_name <$> rows) ∧
  row_named name rows =
    (n ← active_connection_counts (i_subscribers st) !! name;
     Some (MkNameRow name (wrap64 (total snap_delivered mine)) (wrap64 (total snap_dropped mine)) n)).
Proof.
  intros Hq Hsize. cbv zeta.
  change (default [] (val_array (field "subscribers" (status_json in_flight heap now st)))) with
    (sub_row <$> snapshots (i_subscribers st) heap).
  pose proof (snapshots_ok heap (i_subscribers st) Hq) as Hok.
  destruct (by_name_spec _ name Hok) as [-> Hnd]. split; [done|].
  rewrite active_connection_counts_exact. cbv zeta. unfold name_row.
  set (mine := snaps_named name (snapshots (i_subscribers st) heap)).
  assert (len mine = Z.of_nat (size (filter (λ kv : Z * Subscriber, sub_name kv.2 = name)
    (subs (i_subscribers st))))) as Hlen.
  { unfold len. f_equal.
    pose proof (length_filter_hash_iter (λ s, sub_name s = name) (subs (i_subscribers st))) as Hl.
    cbn beta in Hl. rewrite <- Hl. unfold mine, snaps_named, snapshots. clear.
    induction (hash_iter (subs (i_subscribers st))) as [|kv l IH]; [done|].
    rewrite fmap_cons, !filter_cons. change (snap_name (snapshot heap kv.2)) with (sub_name kv.2).
    case_decide; cbn [length]; by rewrite IH. }
  rewrite <- Hlen. destruct mine as [|s mine]; [done|].
  rewrite decide_False by (rewrite len_cons; pose proof (len_nonneg mine); lia). cbn [mbind option_bind].
  rewrite (wrap64_small (len _)); [done|]. unfold is_u64. split; [apply len_nonneg|].
  rewrite Hlen. eapply Z.le_lt_trans; [|exact Hsize]. apply inj_le, map_size_filter.
Qed.

(** ** Witnesses *)

Lemma two_queues_u64 : counters_u64 two_queues.
Proof.
  intros q oq Hl. cbn [queues two_queues] in Hl. rewrite !lookup_insert, lookup_empty in Hl.
  repeat case_decide; simplify_eq; repeat split; vm_compute; congruence.
Qed.

Lemma exported_series_sum_connections_witness :
  row_named "alice" (by_name (default [] (val_array (field "subscribers"
    (status_json (H := some_order) (λ _, 0) two_queues 0 demo_state))))) =
  Some (MkNameRow "alice" 0 0 1).
Proof.
  assert (Z.of_nat (size (subs (i_subscribers demo_state))) < 2 ^ 64) as Hs
    by (rewrite demo_subscribers; vm_compute; reflexivity).
  destruct (exported_series_sum_connections (H := some_order) (λ _, 0) two_queues 0 demo_state
    "alice" two_queues_u64 Hs) as [_ Heq].
  rewrite Heq. vm_compute. reflexivity.
Defined.

(** The document of the sample daemon, rendered. *)
Example render_sample :
  render_prometheus (Object [
    ("uptime_ms", Number 5);
    ("extensions", Array [Object [("id", Str "a"); ("state", Str "Ready"); ("restarts", Number 2)]]);
    ("subscribers", Array []); ("global", Object [("routes", Number 1)]);
    ("delivery", Object [("enabled", Bool false)])]) =
  concat_texts ((λ l, l +:+ str1 newline) <$> [
    "whdr_uptime_ms 5";
    "whdr_ext_up{ext=" +:+ str1 dquote +:+ "a" +:+ str1 dquote +:+ "} 1";
    "whdr_ext_restarts{ext=" +:+ str1 dquote +:+ "a" +:+ str1 dquote +:+ "} 2";
    "whdr_routes 1";
    "whdr_delivery_enabled 0"])%string.
Proof. vm_compute. reflexivity. Qed.
