(* ===== verification/Scrape.v ===== *)
(** * Scrape: what a reader of the metrics endpoint learns

    The text [metrics_handler] serves ([crates/whdr-server/src/metrics.rs]) read
    by the grammar of the exposition format: a line is a metric name, labels
    between braces with quoted and escaped values, a value, a line end.  What is
    read is compared with the state of the daemon, not with the document between
    the two. *)

From S2P Require Import Prelude.
From S2P Require Import Text.
From S2P Require Import Channel.
From S2P Require Import Messages.
From S2P Require Import OutboundQueue.
From S2P Require Import Config.
From S2P Require Import DeliveryLog.
From S2P Require Import Subscribers.
From S2P Require Import ExtensionProcess.
From S2P Require Import AppState.
From S2P Require Import Dispatch.
From S2P Require Import Ingest.
From S2P Require Import Metrics.
From Stdlib Require Import Ascii.

Local Open Scope Z_scope.

(** ** A reader of the format *)

Record Sample : Type := MkSample {
  s_metric : string;
  s_labels : list (string * string);
  s_value : string
}.

#[global] Instance Sample_eq_dec : EqDecision Sample.
Proof. solve_decision. Defined.

(** The text before the first byte that stops, that byte, the rest. *)
Fixpoint read_until (stop : ascii → bool) (s : string) : option (string * ascii * string) :=
  match s with
  | EmptyString => None
  | String a rest =>
      if stop a then Some (EmptyString, a, rest)
      else '(text, b, rest) ← read_until stop rest; Some (String a text, b, rest)
  end.

Definition read_value : string → option (string * ascii * string) := read_until (Ascii.eqb newline).

(** After an opening brace or a comma. *)
Fixpoint read_labels (fuel : nat) (s : string) : option (list (string * string) * string) :=
  match fuel with
  | O => None
  | S fuel =>
      '(key, _, s1) ← read_until (Ascii.eqb "=") s;
      s2 ← strip_prefix (str1 dquote) s1;
      '(value, s3) ← read_label s2;
      match s3 with
      | String a s4 =>
          if Ascii.eqb a "}" then Some ([(key, value)], s4)
          else if Ascii.eqb a "," then
            '(labels, s5) ← read_labels fuel s4; Some ((key, value) :: labels, s5)
          else None
      | EmptyString => None
      end
  end.

Definition read_sample (s : string) : option (Sample * string) :=
  '(name, a, s1) ← read_until (λ a, Ascii.eqb a "{" || Ascii.eqb a " ") s;
  '(labels, s3) ←
    (if Ascii.eqb a "{"
     then '(labels, s2) ← read_labels (String.length s1) s1;
          s3 ← strip_prefix " " s2; Some (labels, s3)
     else Some ([], s1));
  '(value, _, rest) ← read_value s3;
  Some (MkSample name labels value, rest).

Fixpoint read_samples (fuel : nat) (s : string) : option (list Sample) :=
  if is_empty s then Some []
  else match fuel with
       | O => None
       | S fuel =>
           '(x, rest) ← read_sample s;
           l ← read_samples fuel rest;
           Some (x :: l)
       end.

(** Every line takes a byte, so the length of the text is fuel enough. *)
Definition scrape (body : string) : option (list Sample) := read_samples (String.length body) body.

(** ** What the daemon exports *)

(** The samples of some labels, from values of which some may be missing. *)
Definition gauges (labels : list (string * string)) (series : list (string * option Z)) : list Sample :=
  omap (λ mv, (λ n, MkSample mv.1 labels (pretty n)) <$> mv.2) series.

Section exported.
Context {Db : Type} `{HashOrder}.
Context (in_flight : Uuid → Z) (heap : Heap) (now : Z).
Implicit Types st : Inner Db.

Definition ext_series st (h : ExtHandle) : list (string * option Z) :=
  let c := default no_counters (i_counters st !! generation h) in
  [("whdr_ext_up", Some 1);
   ("whdr_ext_restarts", Some (c_restarts c));
   ("whdr_ext_in_flight", Some (in_flight (generation h)));
   ("whdr_ext_protocol_errors", Some (AppState.protocol_errors c));
   ("whdr_ext_namespace_violations", Some (namespace_violations c));
   ("whdr_ext_consecutive_timeouts", Some (consecutive_timeouts c));
   ("whdr_ext_events_emitted", Some (emitted c));
   ("whdr_ext_last_event_at_ms", last_event_at_ms c)]%string.

Definition failed_series : list (string * option Z) := [("whdr_ext_up"%string, Some 0)].

(** Over the connections of one name. *)
Definition name_series (mine : list SubscriberSnapshot) : list (string * option Z) :=
  [("whdr_subscriber_delivered", Some (wrap64 (total snap_delivered mine)));
   ("whdr_subscriber_dropped", Some (wrap64 (total snap_dropped mine)));
   ("whdr_subscriber_connections", Some (wrap64 (len mine)))]%string.

Definition uptime_series st : list (string * option Z) :=
  [("whdr_uptime_ms"%string, Some ((now - i_started st) / 1000000))].

Definition global_series st : list (string * option Z) :=
  [("whdr_routes", Some (map_size (i_routes st)));
   ("whdr_unavailable_routes", Some (map_size (i_unavailable st)));
   ("whdr_channel_prefixes", Some (map_size (i_prefixes st)));
   ("whdr_subscriber_count", Some (Z.of_nat (size (subs (i_subscribers st)))))]%string.

Definition delivery_series st : list (string * option Z) :=
  let r := i_subscribers st in
  let of_log (f : Shared Db → Z) := f <$> log r in
  [("whdr_delivery_enabled", Some (if log r then 1 else 0));
   ("whdr_delivery_head_seq", of_log head);
   ("whdr_delivery_floor_seq", of_log floor);
   ("whdr_delivery_retained_events", of_log retained_count);
   ("whdr_delivery_retained_bytes", of_log retained_bytes);
   ("whdr_delivery_persist_errors", of_log (λ _, persist_errors r))]%string.

(** What has series: the daemon, each extension, each failed candidate, each
    name with a connection. *)
Inductive exports st : list (string * string) → list (string * option Z) → Prop :=
  | exports_daemon :
      exports st [] (uptime_series st ++ global_series st ++ delivery_series st)
  | exports_extension id h :
      i_extensions st !! id = Some h → exports st [("ext"%string, h_id h)] (ext_series st h)
  | exports_failed id reason :
      i_failed st !! id = Some reason → exports st [("ext"%string, id)] failed_series
  | exports_name name :
      let mine := snaps_named name (snapshots (i_subscribers st) heap) in
      mine ≠ [] → exports st [("name"%string, name)] (name_series mine).

Definition exported st (x : Sample) : Prop :=
  ∃ labels series, exports st labels series ∧ x ∈ gauges labels series.

(** The lines of the body, in order. *)
Definition samples st : list Sample :=
  gauges [] (uptime_series st)
  ++ (hash_iter (i_extensions st) ≫= λ kv, gauges [("ext"%string, h_id kv.2)] (ext_series st kv.2))
  ++ (hash_iter (i_failed st) ≫= λ kv, gauges [("ext"%string, kv.1)] failed_series)
  ++ (by_name (sub_row <$> snapshots (i_subscribers st) heap) ≫= λ row,
        gauges [("name"%string, nr_name row)]
          [("whdr_subscriber_delivered", Some (nr_delivered row));
           ("whdr_subscriber_dropped", Some (nr_dropped row));
           ("whdr_subscriber_connections", Some (nr_connections row))]%string)
  ++ gauges [] (global_series st) ++ gauges [] (delivery_series st).

(** ** Lemmas *)

(** *** The document as lines *)

Definition line_of (x : Sample) : string :=
  s_metric x +:+ (match s_labels x with
                  | [] => EmptyString
                  | _ => "{" +:+ render_labels true (s_labels x) +:+ "}"
                  end) +:+ " " +:+ s_value x +:+ str1 newline.

Definition lines_of (l : list Sample) : string := concat_texts (line_of <$> l).

Lemma concat_texts_cons s l : concat_texts (s :: l) = s +:+ concat_texts l.
Proof. done. Qed.

Lemma concat_texts_app l k : concat_texts (l ++ k) = concat_texts l +:+ concat_texts k.
Proof.
  induction l as [|s l IH]; [done|]. cbn [app]. by rewrite !concat_texts_cons, IH, string_app_assoc.
Qed.

Lemma lines_of_app l k : lines_of (l ++ k) = lines_of l +:+ lines_of k.
Proof. unfold lines_of. by rewrite fmap_app, concat_texts_app. Qed.

Lemma lines_of_bind {A} (f : A → string) (g : A → list Sample) l :
  (∀ x, x ∈ l → f x = lines_of (g x)) → concat_texts (f <$> l) = lines_of (l ≫= g).
Proof.
  induction l as [|x l IH]; intros Hf; [done|]. rewrite fmap_cons, concat_texts_cons.
  change ((x :: l) ≫= g) with (g x ++ (l ≫= g)). rewrite lines_of_app, <- Hf by left.
  f_equal. apply IH. intros y Hy. apply Hf. by right.
Qed.

(** A missing value has no line. *)
Lemma gauges_cons labels metric o series :
  lines_of (gauges labels ((metric, o) :: series)) =
  gauge metric labels (opt_number o) +:+ lines_of (gauges labels series).
Proof. destruct o as [n|]; done. Qed.

Lemma lines_of_nil : lines_of [] = EmptyString.
Proof. done. Qed.

Lemma render_ext_row st h :
  render_ext (ext_row in_flight st h) = lines_of (gauges [("ext"%string, h_id h)] (ext_series st h)).
Proof.
  unfold ext_series, ext_row, render_ext, ext_fields.
  set (c := default no_counters (i_counters st !! generation h)).
  rewrite !gauges_cons. change (gauges _ []) with (@nil Sample). rewrite lines_of_nil.
  destruct (last_event_at_ms c); reflexivity.
Qed.

Lemma render_failed_row id reason :
  render_ext (failed_row id reason) = lines_of (gauges [("ext"%string, id)] failed_series).
Proof. unfold failed_series. by rewrite gauges_cons. Qed.

Lemma render_delivery_series st :
  render_delivery (delivery_json (i_subscribers st)) = lines_of (gauges [] (delivery_series st)).
Proof.
  unfold delivery_series, delivery_json. rewrite !gauges_cons.
  change (gauges _ []) with (@nil Sample). rewrite lines_of_nil.
  destruct (log (i_subscribers st)); reflexivity.
Qed.

(** The rendered document is the lines of the samples. *)
Lemma render_samples st :
  render_prometheus (status_json in_flight heap now st) = lines_of (samples st).
Proof.
  unfold render_prometheus, samples. rewrite !lines_of_app.
  change (default [] (val_array (field "extensions" (status_json in_flight heap now st)))) with
    (((λ kv : string * ExtHandle, ext_row in_flight st kv.2) <$> hash_iter (i_extensions st))
     ++ ((λ kv : string * string, failed_row kv.1 kv.2) <$> hash_iter (i_failed st))).
  change (default [] (val_array (field "subscribers" (status_json in_flight heap now st)))) with
    (sub_row <$> snapshots (i_subscribers st) heap).
  change (field "delivery" (status_json in_flight heap now st)) with (delivery_json (i_subscribers st)).
  rewrite fmap_app, concat_texts_app, <- !list_fmap_compose, render_delivery_series, <- string_app_assoc.
  f_equal; [unfold uptime_series; by rewrite gauges_cons, string_app_nil_r|].
  f_equal; [apply lines_of_bind; intros [id h] _; apply render_ext_row|].
  f_equal; [apply lines_of_bind; intros [id reason] _; apply render_failed_row|].
  f_equal; [apply lines_of_bind; intros row _; by rewrite !gauges_cons, string_app_nil_r|].
  f_equal. unfold global_series. rewrite !gauges_cons.
  assert (len (sub_row <$> snapshots (i_subscribers st) heap) =
    Z.of_nat (size (subs (i_subscribers st)))) as <-; [|reflexivity].
  unfold len, snapshots. by rewrite !length_fmap, length_hash_iter.
Qed.
End exported.

(** *** Reading lines *)

Lemma read_until_app stop s a rest :
  bytes_all (λ b, negb (stop b)) s = true → stop a = true →
  read_until stop (s +:+ String a rest) = Some (s, a, rest).
Proof.
  intros Hs Ha. induction s as [|b s IH]; cbn [read_until]; rewrite ?string_app_nil_l, ?string_app_cons.
  - cbn [read_until]. by rewrite Ha.
  - cbn [bytes_all] in Hs. apply andb_true_iff in Hs as [Hb Hs]. apply negb_true_iff in Hb.
    cbn [read_until]. by rewrite Hb, IH.
Qed.

(** No byte with a meaning of its own. *)
Definition plain (s : string) : bool :=
  bytes_all (λ a, negb (Ascii.eqb a "{" || Ascii.eqb a " " || Ascii.eqb "=" a)) s.
Definition one_line (s : string) : bool := bytes_all (λ a, negb (Ascii.eqb newline a)) s.

Record readable (x : Sample) : Prop := {
  plain_metric : plain (s_metric x) = true;
  plain_keys : Forall (λ kv, plain kv.1 = true) (s_labels x);
  value_one_line : one_line (s_value x) = true
}.

Lemma read_name s a rest :
  plain s = true → Ascii.eqb a "{" || Ascii.eqb a " " = true →
  read_until (λ a, Ascii.eqb a "{" || Ascii.eqb a " ") (s +:+ String a rest) = Some (s, a, rest).
Proof.
  intros Hs Ha. apply read_until_app; [|done]. revert Hs. apply bytes_all_impl. intros b.
  rewrite !negb_true_iff. by intros [? _]%orb_false_iff.
Qed.

Lemma read_key s rest :
  plain s = true → read_until (Ascii.eqb "=") (s +:+ "=" +:+ rest) = Some (s, "="%char, rest).
Proof.
  intros Hs. apply read_until_app; [|done]. revert Hs. apply bytes_all_impl. intros b.
  rewrite !negb_true_iff. by intros [_ ?]%orb_false_iff.
Qed.

Lemma read_labels_render fuel labels rest :
  labels ≠ [] → Forall (λ kv, plain kv.1 = true) labels → (length labels ≤ fuel)%nat →
  read_labels fuel (render_labels true labels +:+ "}" +:+ rest) = Some (labels, rest).
Proof.
  revert fuel. induction labels as [|[key value] labels IH]; intros fuel Hne Hk Hfuel; [done|].
  apply Forall_cons in Hk as [Hkey Hk]. destruct fuel as [|fuel]; [cbn in Hfuel; lia|].
  cbn [render_labels read_labels]. rewrite string_app_nil_l, <- !string_app_assoc, read_key by done.
  cbn [mbind option_bind].
  rewrite (proj2 (strip_prefix_Some (str1 dquote) _ _) eq_refl). cbn [mbind option_bind].
  change (str1 dquote +:+ ?s) with (String dquote s). rewrite escaped_labels_read_back. cbn [mbind option_bind]. destruct labels as [|kv labels]; [done|].
  specialize (IH fuel ltac:(done) Hk ltac:(cbn in *; lia)). destruct kv as [key' value'].
  cbn [render_labels] in IH |- *. rewrite string_app_nil_l, <- !string_app_assoc in IH.
  rewrite <- !string_app_assoc. change ("," +:+ ?s) with (String "," s). cbv iota beta.
  change (Ascii.eqb "," "}") with false. change (Ascii.eqb "," ",") with true. cbv iota.
  by rewrite IH.
Qed.

Lemma render_labels_length first labels : (length labels ≤ String.length (render_labels first labels))%nat.
Proof.
  revert first. induction labels as [|[key value] labels IH]; intros first; cbn [length render_labels]; [lia|].
  rewrite !slength_app. specialize (IH false). cbn. lia.
Qed.

Lemma read_value_line value rest :
  one_line value = true → read_value (value +:+ str1 newline +:+ rest) = Some (value, newline, rest).
Proof. intros Hv. by apply read_until_app. Qed.

Lemma read_sample_line x rest :
  readable x → read_sample (line_of x +:+ rest) = Some (x, rest).
Proof.
  intros [Hm Hk Hv]. destruct x as [metric labels value]. unfold line_of, read_sample. cbn [s_metric s_labels s_value] in *.
  destruct labels as [|kv labels].
  { rewrite string_app_nil_l, <- !string_app_assoc. change (" " +:+ ?s) with (String " " s).
    rewrite read_name by done. cbn [mbind option_bind]. cbn [Ascii.eqb Bool.eqb andb].
    cbn [mbind option_bind]. by rewrite read_value_line. }
  set (l := kv :: labels) in *. rewrite <- !string_app_assoc. change ("{" +:+ ?s) with (String "{" s).
  rewrite read_name by done. cbn [mbind option_bind Ascii.eqb Bool.eqb].
  rewrite read_labels_render; [|done|done|].
  2:{ rewrite slength_app. pose proof (render_labels_length true l). lia. }
  cbn [mbind option_bind]. rewrite (proj2 (strip_prefix_Some " " _ _) eq_refl). cbn [mbind option_bind].
  by rewrite read_value_line.
Qed.

Lemma read_samples_lines fuel l :
  Forall readable l → (String.length (lines_of l) ≤ fuel)%nat → read_samples fuel (lines_of l) = Some l.
Proof.
  revert fuel. induction l as [|x l IH]; intros fuel Hl Hfuel; [by destruct fuel|].
  apply Forall_cons in Hl as [Hx Hl]. change (lines_of (x :: l)) with (line_of x +:+ lines_of l) in *.
  rewrite slength_app in Hfuel.
  assert (1 ≤ String.length (line_of x))%nat as Hlen.
  { unfold line_of. rewrite !slength_app. cbn. lia. }
  destruct fuel as [|fuel]; [lia|]. cbn [read_samples].
  rewrite (proj2 (is_empty_false _)).
  2:{ intros He. apply (f_equal String.length) in He. rewrite slength_app in He. cbn in He. lia. }
  rewrite read_sample_line by done. cbn [mbind option_bind]. rewrite IH; [done|done|lia].
Qed.

(** The decimal digits of a number. *)
Lemma pretty_N_go_one_line n s : one_line s = true → one_line (pretty_N_go n s) = true.
Proof.
  revert s. induction (N.lt_wf_0 n) as [n _ IH]; intros s Hs.
  destruct (decide (0 < n)%N) as [Hn|Hn].
  - rewrite pretty_N_go_step by done. apply IH; [by apply N.div_lt|].
    unfold one_line in *. cbn [bytes_all]. rewrite Hs, andb_true_r.
    unfold pretty_N_char. by repeat case_match.
  - replace n with 0%N by lia. done.
Qed.

Lemma pretty_one_line (n : Z) : one_line (pretty n) = true.
Proof.
  assert (∀ n : N, one_line (pretty n) = true) as Hp.
  { intros k. unfold pretty, pretty_N. destruct (decide _); [done|]. by apply pretty_N_go_one_line. }
  destruct n as [|p|p]; [done|apply (Hp (Npos p))|].
  change (one_line ("-" +:+ pretty (Npos p)) = true). unfold one_line. rewrite bytes_all_app.
  apply andb_true_iff. split; [done|apply Hp].
Qed.

Lemma gauges_elem labels series x :
  x ∈ gauges labels series ↔
  ∃ metric n, (metric, Some n) ∈ series ∧ x = MkSample metric labels (pretty n).
Proof.
  unfold gauges. rewrite list_elem_of_omap. split.
  - intros ([metric [n|]] & Hin & Heq); [|done]. injection Heq as <-. by exists metric, n.
  - intros (metric & n & Hin & ->). by exists (metric, Some n).
Qed.

Definition plain_series (series : list (string * option Z)) : bool := forallb (λ mv, plain mv.1) series.

Lemma gauges_readable labels series :
  Forall (λ kv, plain kv.1 = true) labels → plain_series series = true →
  Forall readable (gauges labels series).
Proof.
  intros Hl Hs. apply Forall_forall. intros x (metric & n & Hin & ->)%gauges_elem.
  unfold plain_series in Hs. rewrite forallb_forall in Hs.
  split; cbn; [|done|apply pretty_one_line]. apply (Hs (metric, Some n)). by apply list_elem_of_In.
Qed.

(** *** Which samples there are *)

Lemma row_named_elem rows row :
  NoDup (nr_name <$> rows) → row ∈ rows ↔ row_named (nr_name row) rows = Some row.
Proof.
  induction rows as [|r rows IH]; intros Hnd; [by split; [intros ?%elem_of_nil|]|].
  apply NoDup_cons in Hnd as [Hr Hnd]. rewrite elem_of_cons, row_named_cons, IH by done.
  case_decide as Hn; [|split; [intros [->|?]; done|by right]].
  split; [|intros [= ->]; by left]. intros [->|Hrow]; [done|]. destruct Hr. rewrite Hn.
  apply list_elem_of_fmap. exists row. split; [done|]. by apply IH.
Qed.

Section samples.
Context {Db : Type} `{HashOrder}.
Context (in_flight : Uuid → Z) (heap : Heap) (now : Z).
Implicit Types st : Inner Db.

Lemma by_name_elem st row :
  counters_u64 heap →
  let snaps := snapshots (i_subscribers st) heap in
  let mine := snaps_named (nr_name row) snaps in
  row ∈ by_name (sub_row <$> snaps) ↔
  mine ≠ [] ∧ row = MkNameRow (nr_name row) (wrap64 (total snap_delivered mine))
                      (wrap64 (total snap_dropped mine)) (wrap64 (len mine)).
Proof.
  intros Hq snaps mine. pose proof (snapshots_ok heap (i_subscribers st) Hq) as Hok. fold snaps in Hok.
  destruct (by_name_spec snaps (nr_name row) Hok) as [Hrow Hnd].
  rewrite row_named_elem, Hrow by done. unfold name_row. fold mine.
  destruct mine as [|s l]; [by split; [|intros []]|].
  split; [intros [= Heq]; split; [done|by symmetry]|]. intros [_ Heq]. f_equal. by symmetry.
Qed.

Lemma samples_elem st x :
  counters_u64 heap → x ∈ samples in_flight heap now st ↔ exported in_flight heap now st x.
Proof.
  intros Hq. unfold samples. rewrite !elem_of_app, !list_elem_of_bind. split.
  - intros [Hx|[([id h] & Hx & Hin)|[([id r] & Hx & Hin)|[(row & Hx & Hin)|[Hx|Hx]]]]].
    + eexists _, _. split; [apply exports_daemon|]. unfold gauges. rewrite omap_app. apply elem_of_app. by left.
    + eexists _, _. split; [|exact Hx]. apply elem_of_hash_iter in Hin. by eapply exports_extension.
    + eexists _, _. split; [|exact Hx]. apply elem_of_hash_iter in Hin. by eapply exports_failed.
    + apply by_name_elem in Hin as [Hne Hrow]; [|done]. rewrite Hrow in Hx.
      eexists _, _. split; [by apply exports_name|exact Hx].
    + eexists _, _. split; [apply exports_daemon|]. unfold gauges. rewrite !omap_app, !elem_of_app. by right; left.
    + eexists _, _. split; [apply exports_daemon|]. unfold gauges. rewrite !omap_app, !elem_of_app. by right; right.
  - intros (labels & series & Hex & Hx). destruct Hex as [|id h Hh|id r Hr|name mine Hne].
    + unfold gauges in Hx. rewrite !omap_app, !elem_of_app in Hx. unfold gauges. tauto.
    + right; left. exists (id, h). by rewrite elem_of_hash_iter.
    + right; right; left. exists (id, r). by rewrite elem_of_hash_iter.
    + right; right; right; left. eexists (MkNameRow name _ _ _). split; [exact Hx|].
      by apply by_name_elem.
Qed.

Lemma samples_readable st : Forall readable (samples in_flight heap now st).
Proof.
  unfold samples. rewrite !Forall_app, !Forall_bind.
  split_and!; first [apply gauges_readable | apply Forall_forall; intros ? _; apply gauges_readable];
    solve [reflexivity | by repeat constructor].
Qed.

(** *** No series twice *)

Definition key (x : Sample) : string * list (string * string) := (s_metric x, s_labels x).

Lemma key_gauges labels series k :
  k ∈ key <$> gauges labels series → k.2 = labels ∧ k.1 ∈ series.*1.
Proof.
  intros (x & -> & (metric & n & Hin & ->)%gauges_elem)%list_elem_of_fmap. split; [done|].
  apply list_elem_of_fmap. by exists (metric, Some n).
Qed.

Lemma NoDup_key_gauges labels series : NoDup series.*1 → NoDup (key <$> gauges labels series).
Proof.
  induction series as [|[metric [n|]] series IH]; intros Hnd; [constructor|..];
    apply NoDup_cons in Hnd as [Hm Hnd]; [|by apply IH].
  change (NoDup ((metric, labels) :: (key <$> gauges labels series))). apply NoDup_cons.
  split; [|by apply IH]. by intros [_ Hin]%key_gauges.
Qed.

Lemma fmap_bind_keys {A} (g : A → list Sample) l : key <$> (l ≫= g) = l ≫= (λ a, key <$> g a).
Proof. induction l as [|a l IH]; [done|]. cbn. by rewrite fmap_app, IH. Qed.

(** Keys of some lists, kept apart by a number. *)
Lemma NoDup_parts {A} (part : A → Z) n l k :
  NoDup l → NoDup k → (∀ x, x ∈ l → part x = n) → (∀ x, x ∈ k → n < part x) → NoDup (l ++ k).
Proof.
  intros Hl Hk Hln Hkn. apply NoDup_app. split; [done|]. split; [|done].
  intros x Hx Hx'. specialize (Hln x Hx). specialize (Hkn x Hx'). lia.
Qed.

Lemma NoDup_key_bind {A} (f : A → string) tag series l :
  NoDup (f <$> l) → (∀ a, NoDup (series a).*1) →
  NoDup (key <$> (l ≫= λ a, gauges [(tag, f a)] (series a))).
Proof.
  intros Hl Hs. rewrite fmap_bind_keys. apply NoDup_bind.
  - intros a b k Ha Hb [Hka _]%key_gauges [Hkb _]%key_gauges. rewrite Hka in Hkb. injection Hkb as Heq.
    apply list_elem_of_lookup in Ha as [i Hi]. apply list_elem_of_lookup in Hb as [j Hj].
    assert (i = j) as -> by (eapply (NoDup_lookup (f <$> l)); [done|by rewrite list_lookup_fmap, Hi|];
      rewrite list_lookup_fmap, Hj; cbn; by rewrite Heq). congruence.
  - intros a _. by apply NoDup_key_gauges.
  - by apply NoDup_fmap_1 in Hl.
Qed.

Lemma key_bind_elem {A} (f : A → string) tag series (l : list A) k :
  k ∈ key <$> (l ≫= λ a, gauges [(tag, f a)] (series a)) → ∃ a, a ∈ l ∧ k.2 = [(tag, f a)].
Proof.
  rewrite fmap_bind_keys, list_elem_of_bind. intros (a & [Hk _]%key_gauges & Ha). by exists a.
Qed.

Definition part (k : string * list (string * string)) : Z :=
  match k.2 with
  | [] => if String.eqb k.1 "whdr_uptime_ms" then 0 else 3
  | (tag, _) :: _ => if String.eqb tag "ext" then 1 else 2
  end.

Lemma NoDup_names (l : list string) : bool_decide (NoDup l) = true → NoDup l.
Proof. apply bool_decide_eq_true_1. Qed.

Lemma ext_keys_NoDup st :
  registry_ok st → (∀ id, is_Some (i_failed st !! id) → i_extensions st !! id = None) →
  NoDup (key <$> ((hash_iter (i_extensions st) ≫= λ kv,
                     gauges [("ext"%string, h_id kv.2)] (ext_series in_flight st kv.2))
                  ++ (hash_iter (i_failed st) ≫= λ kv, gauges [("ext"%string, kv.1)] failed_series))).
Proof.
  intros Hok Hdis. rewrite fmap_app. apply NoDup_app.
  assert ((λ kv : string * ExtHandle, h_id kv.2) <$> hash_iter (i_extensions st) =
    (hash_iter (i_extensions st)).*1) as Hids.
  { apply list_fmap_ext. intros i [id h] Hi%list_elem_of_lookup_2.
    apply elem_of_hash_iter in Hi. by apply (filed _ Hok) in Hi as [<- _]. }
  split; [|split].
  - apply NoDup_key_bind; [rewrite Hids; apply NoDup_hash_iter|]. intros [id h]. by apply NoDup_names.
  - intros k ([id h] & Hin & Hk)%key_bind_elem ([id' r] & Hin' & Hk')%key_bind_elem.
    apply elem_of_hash_iter in Hin, Hin'. rewrite Hk in Hk'. injection Hk' as Heq. cbn in Heq.
    assert (id = id') as -> by (apply (filed _ Hok) in Hin as [<- _]; done).
    rewrite Hdis in Hin; [done|by eexists].
  - apply NoDup_key_bind; [apply NoDup_hash_iter|]. intros [id r]. by apply NoDup_names.
Qed.

Lemma daemon_part st k :
  k ∈ key <$> gauges [] (global_series st ++ delivery_series st) → part k = 3.
Proof.
  intros [Hk Hin]%key_gauges. unfold part. rewrite Hk.
  assert (Forall (λ m, String.eqb m "whdr_uptime_ms" = false)
    (global_series st ++ delivery_series st).*1) as Hall by (by repeat constructor).
  rewrite Forall_forall in Hall. by rewrite Hall.
Qed.

Lemma samples_NoDup st :
  counters_u64 heap → registry_ok st →
  (∀ id, is_Some (i_failed st !! id) → i_extensions st !! id = None) →
  NoDup (key <$> samples in_flight heap now st).
Proof.
  intros Hq Hok Hdis. pose proof (ext_keys_NoDup st Hok Hdis) as Hext. unfold samples.
  rewrite (app_assoc (hash_iter (i_extensions st) ≫= _)), !(fmap_app key (gauges [] (uptime_series now st))).
  set (exts := _ ++ (hash_iter (i_failed st) ≫= _)) in Hext |- *. set (names := by_name _ ≫= _).
  unfold gauges at 2 3. rewrite <- omap_app. fold (gauges [] (global_series st ++ delivery_series st)).
  set (daemon := gauges [] (global_series st ++ _)).
  assert (∀ k, k ∈ key <$> daemon → part k = 3) as H3 by (intros k; apply daemon_part).
  assert (∀ k, k ∈ key <$> names → part k = 2) as H2.
  { intros k (row & _ & Hk)%key_bind_elem. unfold part. by rewrite Hk. }
  assert (∀ k, k ∈ key <$> exts → part k = 1) as H1.
  { intros k. unfold exts. rewrite fmap_app, elem_of_app.
    intros [(kv & _ & Hk)%key_bind_elem|(kv & _ & Hk)%key_bind_elem]; unfold part; by rewrite Hk. }
  rewrite !fmap_app. apply (NoDup_parts part 0); [by apply NoDup_key_gauges, NoDup_names| | |].
  2:{ intros k [Hk Hin]%key_gauges. unfold part. rewrite Hk. by apply list_elem_of_singleton in Hin as ->. }
  2:{ intros k. rewrite !elem_of_app. intros [Hk|[Hk|Hk]]; [rewrite (H1 k Hk)|rewrite (H2 k Hk)|rewrite (H3 k Hk)]; lia. }
  apply (NoDup_parts part 1); [done| |done|].
  2:{ intros k. rewrite elem_of_app. intros [Hk|Hk]; [rewrite (H2 k Hk)|rewrite (H3 k Hk)]; lia. }
  apply (NoDup_parts part 2); [|by apply NoDup_key_gauges, NoDup_names|done|].
  2:{ intros k Hk. rewrite (H3 k Hk). lia. }
  apply NoDup_key_bind; [|intros row; by apply NoDup_names].
  apply (by_name_spec _ EmptyString), snapshots_ok, Hq.
Qed.
End samples.

(** ** Theorems *)

(** C33: what a scraper of the metrics endpoint reads is the state of the daemon:
    the body parses, whatever the extensions and subscribers are called, into
    exactly the samples the state exports: uptime, sizes, the counters of the
    log, of each extension and failed candidate, and per subscriber name the
    sums over its connections and their number.  No sample can be forged by a
    name, none is lost, and no series appears twice as long as no failed
    candidate has the id of a registered extension. *)
Theorem scrape_reads_state {Db : Type} `{HashOrder} text_headers in_flight heap now (st : Inner Db) :
  counters_u64 heap →
  ∃ l, scrape (rs_body (metrics_handler text_headers in_flight heap now st)) = Some l ∧
    (∀ x, x ∈ l ↔ exported in_flight heap now st x) ∧
    (registry_ok st → (∀ id, is_Some (i_failed st !! id) → i_extensions st !! id = None) →
     NoDup (key <$> l)).
Proof.
  intros Hq. exists (samples in_flight heap now st). cbn [metrics_handler rs_body].
  rewrite render_samples. split; [apply read_samples_lines; [apply samples_readable|done]|].
  split; [intros x; by apply samples_elem|]. by apply samples_NoDup.
Qed.

(** ** Witnesses *)

Section witnesses.
#[local] Existing Instance some_order.

(** A subscriber named to close its label, end the line and start another. *)
Definition forger : string :=
  "x" +:+ str1 dquote +:+ "} 1" +:+ str1 newline +:+ "whdr_routes 99" +:+ str1 newline.
Definition forged_subs : Registry (list (Z * string)) :=
  MkRegistry (<[1 := MkSubscriber forger None [] 10 20]> ∅) 2 0 None 0.
Definition forged_state : Inner (list (Z * string)) :=
  MkInner demo_config (i_token_store demo_state) ∅ ∅ ∅ ∅ ∅ ∅ forged_subs ∅ false 0.

Lemma scrape_reads_state_witness :
  ∃ l, scrape (rs_body (metrics_handler ∅ (λ _, 0) two_queues 0 forged_state)) = Some l ∧
    MkSample "whdr_subscriber_connections" [("name"%string, forger)] "1" ∈ l ∧
    MkSample "whdr_routes" [] "99" ∉ l ∧ NoDup (key <$> l).
Proof.
  destruct (scrape_reads_state ∅ (λ _, 0) two_queues 0 forged_state two_queues_u64) as (l & Hl & Hx & Hnd).
  exists l. split; [exact Hl|]. split; [|split].
  - apply Hx. eexists _, _. split; [apply (exports_name _ _ _ _ forger); vm_compute; discriminate|].
    apply gauges_elem. exists "whdr_subscriber_connections"%string, 1.
    split; [|reflexivity]. right; right; left.
  - vm_compute in Hl. injection Hl as <-. refine (bool_decide_eq_true_1 _ _). vm_compute. reflexivity.
  - apply Hnd; [by repeat split|]. intros id [r Hr]. cbn in Hr. by rewrite lookup_empty in Hr.
Defined.

(** The activity of a wanted extension is looked up by its candidate id, its row
    in the document is named by the id it registered: when another candidate
    registers under the id of one that is missing, the next start pass notes
    that one as failed, and the document and the metrics say the same extension
    is up and down. *)
Lemma reload_exports_a_series_twice :
  let l := {| new_generation _ := 8;
              launch _ _ := Ok (Some 43, MkExtensionRegistration "gone" [] ["shared.one"%string]) |} in
  let pass st := (start_extensions l demo_candidates st).2 in
  let up v := MkSample "whdr_ext_up" [("ext", "gone")]%string v in
  ∃ xs, scrape (rs_body (metrics_handler ∅ (λ _, 0) two_queues 0 (pass (pass demo_state)))) = Some xs ∧
    up "1"%string ∈ xs ∧ up "0"%string ∈ xs.
Proof.
  cbv zeta. eexists. split; [vm_compute; reflexivity|].
  split; refine (bool_decide_eq_true_1 _ _); vm_compute; reflexivity.
Qed.
End witnesses.
