(* ===== verification/Cli.v ===== *)
(** * Cli: the operator's command line

    [crates/whdr-cli/src/main.rs].  The request of a command, what is printed for
    its response, and the duration format of the status listing.  A whole run of
    the program, over the socket, is in ControlPlane.v; the arguments are parsed
    by a library. *)

From S2P Require Import Prelude.
From S2P Require Import Text.
From S2P Require Import Messages.
From S2P Require Import Metrics.
From Stdlib Require Import Ascii.

Local Open Scope Z_scope.

(** ** Definitions *)

Inductive TokenCommand : Type :=
  | CmdAdd (name : string)
  | CmdRotate (name : string)
  | CmdRevoke (name : string)
  | CmdList.
Inductive Command : Type :=
  | CmdStatus (json : bool)
  | CmdToken (command : TokenCommand).

(** The request [main] builds. *)
Definition request_of (c : Command) : ControlRequest :=
  match c with
  | CmdStatus _ => Req_Status
  | CmdToken (CmdAdd name) => Req_TokenAdd name
  | CmdToken (CmdRotate name) => Req_TokenRotate name
  | CmdToken (CmdRevoke name) => Req_TokenRevoke name
  | CmdToken CmdList => Req_TokenList
  end.

(** [send_request] past the connection: the line it writes, and what it makes of
    the first line of the answer ([None] is the panic of [expect]). *)
Definition send_request `{Wire ControlRequest} `{Wire ControlResponse}
    (request : ControlRequest) (answer : option string)
    : result string (string * option ControlResponse) :=
  text ← map_err NdjsonError_to_string (encode_line request);
  line ← ok_or "daemon closed control socket without a response" answer;
  response ← map_err NdjsonError_to_string (decode_line line);
  Ok (text, response).

Definition humanize_ms (ms : Z) : string :=
  let total_secs := ms / 1000 in
  let days := total_secs / 86400 in
  let hours := total_secs mod 86400 / 3600 in
  let mins := total_secs mod 3600 / 60 in
  let secs := total_secs mod 60 in
  if 0 <? days then pretty days +:+ "d " +:+ pretty hours +:+ "h"
  else if 0 <? hours then pretty hours +:+ "h " +:+ pretty mins +:+ "m"
  else if 0 <? mins then pretty mins +:+ "m " +:+ pretty secs +:+ "s"
  else pretty secs +:+ "s".

Definition tab : string := String "009" EmptyString.

Section printing.
(** [Display] of a JSON value (compact JSON) and [to_string_pretty]; the derived
    [Debug] of a response. *)
Context (display : Value → string).
Context (to_string_pretty : Value → result string string).
Context (debug : ControlResponse → string).

Definition print_ext (ext : Value) : string :=
  "  " +:+ default "?" (val_str (field "id" ext))
  +:+ tab +:+ default "?" (val_str (field "state" ext))
  +:+ tab +:+ "pid=" +:+ display (field "pid" ext)
  +:+ tab +:+ "events=" +:+ display (field "events_emitted" ext)
  +:+ tab +:+ "last_event_at_ms=" +:+ display (field "last_event_at_ms" ext).

Definition print_sub (sub : Value) : string :=
  "  " +:+ default "?" (val_str (field "name" sub))
  +:+ tab +:+ "patterns=" +:+ display (field "patterns" sub)
  +:+ tab +:+ "delivered=" +:+ display (field "delivered" sub)
  +:+ tab +:+ "dropped=" +:+ display (field "dropped" sub).

(** The lines printed. *)
Definition print_status (status : Value) : list string :=
  let uptime_ms := default 0 (val_u64 (field "uptime_ms" status)) in
  ["uptime_ms: " +:+ pretty uptime_ms +:+ " (" +:+ humanize_ms uptime_ms +:+ ")"; "extensions:"]%string
  ++ (print_ext <$> default [] (val_array (field "extensions" status)))
  ++ ["subscribers:"]%string
  ++ (print_sub <$> default [] (val_array (field "subscribers" status))).

Definition print_token (t : TokenSummary) : string :=
  ts_name t +:+ tab +:+ ts_fingerprint t +:+ tab +:+ ts_created t +:+ tab +:+ pretty (ts_active_conns t).

(** The [match] on the command and the response. *)
Definition print_response (c : Command) (r : ControlResponse) : result string (list string) :=
  match c, r with
  | CmdStatus true, Res_Status status => text ← to_string_pretty status; Ok [text]
  | CmdStatus false, Res_Status status => Ok (print_status status)
  | _, Res_Token name token => Ok [name +:+ ": " +:+ token]
  | _, Res_Tokens tokens =>
      Ok (("NAME" +:+ tab +:+ "FINGERPRINT" +:+ tab +:+ "CREATED" +:+ tab +:+ "ACTIVE")
          :: (print_token <$> tokens))
  | _, Res_Ok => Ok ["ok"]%string
  | _, Res_Error msg => Err msg
  | _, other => Err ("unexpected response: " +:+ debug other)
  end.
End printing.

(** ** Theorems *)

(** The two units [humanize_ms] shows, as a number of milliseconds. *)
Definition shown_ms (ms : Z) : Z * Z :=
  let total_secs := ms / 1000 in
  if 0 <? total_secs / 86400
  then (total_secs / 86400 * 86400000 + total_secs mod 86400 / 3600 * 3600000, 3600000)
  else if 0 <? total_secs mod 86400 / 3600
  then (total_secs mod 86400 / 3600 * 3600000 + total_secs mod 3600 / 60 * 60000, 60000)
  else if 0 <? total_secs mod 3600 / 60
  then (total_secs mod 3600 / 60 * 60000 + total_secs mod 60 * 1000, 1000)
  else (total_secs mod 60 * 1000, 1000).

(** The listing rounds a duration down, by less than the smaller unit shown. *)
Theorem humanize_ms_rounds_down ms :
  0 ≤ ms → (shown_ms ms).1 ≤ ms < (shown_ms ms).1 + (shown_ms ms).2.
Proof.
  intros Hms. unfold shown_ms. cbv zeta.
  repeat match goal with |- context [if ?b then _ else _] => destruct b eqn:? end; bool_to_prop;
    cbn [fst snd]; Z.div_mod_to_equations; lia.
Qed.
