(* ===== verification/ControlPlane.v ===== *)
(** * ControlPlane: the administration socket and the command line on it

    [control_loop] of [crates/whdr-server/src/control_plane.rs], and one run of
    the command line ([main] and [send_request] of [crates/whdr-cli/src/main.rs],
    in Cli.v) over a connection to it: the request line goes through
    [handle_control_stream] (TokenStore.v), the response line comes back. *)

From S2P Require Import Prelude.
From S2P Require Import Text.
From S2P Require Import Messages.
From S2P Require Import WireCodecs.
From S2P Require Import Subscribers.
From S2P Require Import TokenStore.
From S2P Require Import Metrics.
From S2P Require Import Cli.
From Stdlib Require Import Ascii.

Local Open Scope Z_scope.

(** ** Definitions *)

(** *** The socket *)

Inductive SocketStep : Type := RemoveOld | CreateParent | BindSocket | ChmodSocket.

(** The file system at the start of the loop: whether the path exists and has a
    parent, the errors of the four operations, and the mode [bind] gives. *)
Record SocketEnv : Type := MkSocketEnv {
  so_exists : bool;
  so_parent : option string;
  so_step : SocketStep → result string ();
  so_bind_mode : Z
}.

(** The steps before the loop; the modes the listening socket has had. *)
Definition control_setup (env : SocketEnv) (path : string) : result string (list Z) :=
  _ ← (if so_exists env then map_err (λ _, "remove old " +:+ path) (so_step env RemoveOld) else Ok ());
  _ ← match so_parent env with
      | Some parent => map_err (λ _, "create " +:+ parent) (so_step env CreateParent)
      | None => Ok ()
      end;
  _ ← map_err (λ _, "bind " +:+ path) (so_step env BindSocket);
  _ ← map_err (λ _, "chmod " +:+ path) (so_step env ChmodSocket);
  Ok [so_bind_mode env; 432].

(** The accept loop: the streams it spawned a handler for, and the error that
    ended it, if one did. *)
Fixpoint accept_loop {Stream} (accepts : list (result string Stream)) : list Stream * option string :=
  match accepts with
  | [] => ([], None)
  | Err e :: _ => ([], Some e)
  | Ok stream :: rest => let '(served, e) := accept_loop rest in (stream :: served, e)
  end.

Definition control_loop {Stream} (env : SocketEnv) (path : string)
    (accepts : list (result string Stream)) : list Stream * option string :=
  match control_setup env path with
  | Err e => ([], Some e)
  | Ok _ => accept_loop accepts
  end.

(** *** One run of the command line *)

(** What the operator sees: the lines printed; the error of a non-zero exit; or a
    panic. *)
Inductive CliOutcome : Type :=
  | Printed (lines : list string)
  | Failed (msg : string)
  | CliPanicked.

Section command_line.
Context {RQ : Wire ControlRequest} {RS : Wire ControlResponse}.
Context (sha256_hex base64_url : string → string).
Context (toml_to_string : gmap string TokenRecord → result string string).
Context {Db : Type} {O : HashOrder}.
Context (status : Control Db → Value).
Context (display : Value → string) (to_string_pretty : Value → result string string).
Context (debug : ControlResponse → string).
Local Notation stream := (handle_control_stream sha256_hex base64_url toml_to_string status).
Local Notation request_handler := (handle_control_request sha256_hex base64_url toml_to_string status).

(** What the daemon answers to what a client wrote before it closed its side;
    every line of it meets the same environment. *)
Definition serve_client (text : string) (inp : Env * string * string) (c : Control Db)
    : string * Control Db :=
  let '(out, c') := stream ((λ line, (line, inp)) <$> stream_lines text) c in (concat_chars out, c').

Definition whdr (command : Command) (inp : Env * string * string) (c : Control Db)
    : CliOutcome * Control Db :=
  let request := request_of command in
  match encode_line request with
  | Err e => (Failed (NdjsonError_to_string e), c)
  | Ok text =>
      let '(reply, c') := serve_client text inp c in
      (match send_request request (head (stream_lines reply)) with
       | Err e => Failed e
       | Ok (_, None) => CliPanicked
       | Ok (_, Some response) =>
           match print_response display to_string_pretty debug command response with
           | Ok lines => Printed lines
           | Err e => Failed e
           end
       end, c')
  end.

(** ** Lemmas *)

Context {RQL : WireLaws ControlRequest} {RSL : WireLaws ControlResponse}.
(** Every message encodes. *)
Context (requests_encode : ∀ r : ControlRequest, is_ok (to_string r) = true).
Context (responses_encode : ∀ r : ControlResponse, is_ok (to_string r) = true).

Lemma encoded_line {A} `{WireLaws A} (a : A) :
  is_ok (to_string a) = true →
  ∃ line, encode_line a = Ok (line +:+ String "010" EmptyString) ∧ decode_line line = Ok (Some a) ∧
    stream_lines (line +:+ String "010" EmptyString) = [line].
Proof.
  intros Hok. destruct (to_string a) as [t|e] eqn:Ht; [|done].
  assert (encode_lines [a] = Ok ((t +:+ String "010" EmptyString) +:+ EmptyString)) as Henc
    by (cbn; unfold encode_line; by rewrite Ht).
  destruct (stream_lines_encoded _ _ Henc) as (lines & Hl & Hall).
  apply Forall2_cons_inv_l in Hall as (line & rest & [He Hd] & ->%Forall2_nil_inv_l & ->).
  exists line. split_and!; [done..|]. unfold encode_line in He. rewrite Ht in He. injection He as <-.
  by rewrite string_app_nil_r in Hl.
Qed.

(** The socket is transparent: a run of the command line is a call of the
    handler, and it never panics. *)
Lemma whdr_spec command env random now c :
  whdr command (env, random, now) c =
    (let '(response, c') := request_handler env random now (request_of command) c in
     (match print_response display to_string_pretty debug command response with
      | Ok lines => Printed lines
      | Err e => Failed e
      end, c')).
Proof.
  destruct (encoded_line (request_of command) (requests_encode _)) as (line & He & Hd & Hs).
  unfold whdr. rewrite He. unfold serve_client. rewrite Hs. cbn [fmap list_fmap handle_control_stream].
  rewrite Hd. destruct (request_handler _ _ _ _ _) as [response c'].
  destruct (encoded_line response (responses_encode _)) as (rline & Hre & Hrd & Hrs).
  rewrite Hre. cbn [concat_chars foldr]. rewrite string_app_nil_r, Hrs. cbn [head].
  unfold send_request. rewrite He. simpl. rewrite Hrd. done.
Qed.
End command_line.

(** ** Theorems *)

Section theorems.
Context {RQ : Wire ControlRequest} {RS : Wire ControlResponse}.
Context {RQL : WireLaws ControlRequest} {RSL : WireLaws ControlResponse}.
Context (sha256_hex base64_url : string → string).
Context (toml_to_string : gmap string TokenRecord → result string string).
Context (toml_from_str : string → result string (gmap string TokenRecord)).
Context {Db : Type} {O : HashOrder}.
Context (status : Control Db → Value).
Context (display : Value → string) (to_string_pretty : Value → result string string).
Context (debug : ControlResponse → string).
Implicit Types c : Control Db.

(** A revocation that is reported done: what it did to the store, its file and the
    connections. *)
Lemma revoked_by_command name env random now c lines c' :
  (∀ r : ControlRequest, is_ok (to_string r) = true) →
  (∀ r : ControlResponse, is_ok (to_string r) = true) →
  toml_laws toml_to_string toml_from_str → is_file_path (ts_path (tc_store c)) →
  distinct_hashes (tc_store c) →
  whdr sha256_hex base64_url toml_to_string status display to_string_pretty debug
    (CmdToken (CmdRevoke name)) (env, random, now) c = (Printed lines, c') →
  lines = ["ok"]%string ∧ tc_subs c' = tc_subs c ∧
  tc_heap c' = close_named name ReasonRevoked (tc_subs c) (tc_heap c) ∧
  (∀ t, authenticate sha256_hex (tc_store c') t ≠ Some name) ∧
  (∀ t, authenticate sha256_hex (tc_store c') t =
     if decide (authenticate sha256_hex (tc_store c) t = Some name) then None
     else authenticate sha256_hex (tc_store c) t) ∧
  load_or_empty toml_from_str (fs_of (tc_disk c')) (ts_path (tc_store c')) = Ok (tc_store c').
Proof.
  intros Hrq Hrs Htoml Hpath Hd. rewrite whdr_spec by done.
  cbn [request_of handle_control_request]. unfold tc_revoke.
  destruct (revoke _ _ _ _ _) as [[[[]|e] s] d] eqn:Hr; intros [= <- <-].
  by apply (revoke_Ok sha256_hex _ _ Htoml) in Hr as (Hnone & Hothers & Hload).
Qed.

(** C12: a token command takes effect exactly as it reports.  When it prints its
    result and exits with success: [add] and [rotate] print the name with a token
    that authenticates as it and is the only one that does, [revoke] leaves none
    that does, every other token is untouched, the file reloads to the store in
    memory, and rotated and revoked connections are told to close; [list]
    changes nothing and prints a row for every name.  When it fails, no
    connection is told anything; it never panics. *)
Theorem token_commands_take_effect command env random now c outcome c' :
  (∀ r : ControlRequest, is_ok (to_string r) = true) →
  (∀ r : ControlResponse, is_ok (to_string r) = true) →
  toml_laws toml_to_string toml_from_str → is_file_path (ts_path (tc_store c)) →
  distinct_hashes (tc_store c) → fresh_token sha256_hex (mint_token base64_url random) (tc_store c) →
  whdr sha256_hex base64_url toml_to_string status display to_string_pretty debug
    (CmdToken command) (env, random, now) c = (outcome, c') →
  let auth := λ c, authenticate sha256_hex (tc_store c) in
  let durable := load_or_empty toml_from_str (fs_of (tc_disk c')) (ts_path (tc_store c')) =
                 Ok (tc_store c') in
  let closes := λ name, ∀ w, named_watch (tc_subs c) name w →
    watches (tc_heap c') !! w = (λ _, Some ReasonRevoked) <$> watches (tc_heap c) !! w in
  let issued := λ name lines, ∃ token, lines = [name +:+ ": " +:+ token] ∧ auth c' token = Some name ∧
    durable ∧ ∀ t, hash_token sha256_hex t ≠ hash_token sha256_hex token →
      auth c' t = if decide (auth c t = Some name) then None else auth c t in
  match outcome, command with
  | Printed lines, CmdAdd name => issued name lines ∧ tc_heap c' = tc_heap c
  | Printed lines, CmdRotate name => issued name lines ∧ closes name
  | Printed lines, CmdRevoke name =>
      lines = ["ok"]%string ∧ durable ∧ closes name ∧ (∀ t, auth c' t ≠ Some name) ∧
      ∀ t, auth c' t = if decide (auth c t = Some name) then None else auth c t
  | Printed lines, CmdList =>
      c' = c ∧ length lines = S (length (btree_iter (tokens (tc_store c))))
  | Failed _, _ => tc_heap c' = tc_heap c ∧ tc_subs c' = tc_subs c
  | CliPanicked, _ => False
  end.
Proof.
  intros Hrq Hrs Htoml Hpath Hd Hfr. rewrite whdr_spec by done.
  destruct command as [name|name|name|]; cbn [request_of handle_control_request];
    [unfold tc_add, add|unfold tc_rotate, rotate|unfold tc_revoke|].
  - destruct (validate_name name) as [[]|e]; [|by intros [= <- <-]].
    case_bool; [by intros [= <- <-]|].
    destruct (insert_and_persist _ _ _ _ _ _ _ _) as [[[t|e] s] d] eqn:Hi; intros [= <- <-]; [|done].
    apply (insert_and_persist_Ok _ _ _ Htoml) in Hi as (-> & Hauth & Hothers & Hload); [|done..].
    split; [|done]. by eexists.
  - destruct (validate_name name) as [[]|e]; [|by intros [= <- <-]].
    case_bool; [by intros [= <- <-]|].
    destruct (insert_and_persist _ _ _ _ _ _ _ _) as [[[t|e] s] d] eqn:Hi; intros [= <- <-]; [|done].
    apply (insert_and_persist_Ok _ _ _ Htoml) in Hi as (-> & Hauth & Hothers & Hload); [|done..].
    split; [by eexists|]. intros w Hw. by apply close_named_spec.
  - destruct (revoke _ _ _ _ _) as [[[[]|e] s] d] eqn:Hr; intros Heq; [|by injection Heq as <- <-].
    pose proof Heq as [= <- _]. destruct (revoked_by_command name env random now c ["ok"]%string c')
      as (_ & _ & -> & Hnone & Hothers & Hload); [done..| |].
    { rewrite whdr_spec by done. cbn [request_of handle_control_request]. unfold tc_revoke. by rewrite Hr. }
    split_and!; [done|done| |done|done]. intros w Hw. by apply close_named_spec.
  - intros [= <- <-]. split; [done|]. cbn [length]. unfold list_tokens. by rewrite !length_fmap.
Qed.
End theorems.

(** ** Witnesses *)

Section witnesses.
#[local] Existing Instance BitCodec.wire.
#[local] Existing Instance BitCodec.wire_laws.
#[local] Existing Instance some_order.

(** [whdr token rotate alice] on the daemon of TokenStore.v. *)
Lemma token_commands_take_effect_witness :
  let '(outcome, c') := whdr (λ t, t) (λ t, t) DemoToml.print (λ _, Null) (λ _, EmptyString)
    (λ _, Err EmptyString) (λ _, EmptyString) (CmdToken (CmdRotate "alice")) (all_succeed, "new", "t1")
    demo_control in
  outcome = Printed ["alice: tok_new"] ∧
  authenticate (λ t, t) (tc_store c') "tok_a" = None ∧
  watches (tc_heap c') !! 20 = Some (Some ReasonRevoked).
Proof.
  destruct (whdr (λ t, t) (λ t, t) DemoToml.print (λ _, Null) (λ _, EmptyString)
    (λ _, Err EmptyString) (λ _, EmptyString) (CmdToken (CmdRotate "alice")) (all_succeed, "new", "t1")
    demo_control) as [outcome c'] eqn:Hrun.
  pose proof (token_commands_take_effect (λ t, t) (λ t, t) DemoToml.print DemoToml.parse
    (λ _, Null) (λ _, EmptyString) (λ _, Err EmptyString) (λ _, EmptyString) (CmdRotate "alice")
    all_succeed "new" "t1" demo_control outcome c' (λ _, eq_refl) (λ _, eq_refl) DemoToml.laws demo_path
    demo_distinct demo_fresh Hrun) as Hth.
  assert (outcome = Printed ["alice: tok_new"]) as Ho
    by (change outcome with (outcome, c').1; rewrite <- Hrun; vm_compute; reflexivity).
  clear Hrun. subst outcome. cbv zeta in Hth.
  destruct Hth as [(token & Hline & Hauth & Hdur & Hothers) Hcloses].
  assert (token = "tok_new") as -> by (vm_compute in Hline; by injection Hline as <-).
  split; [reflexivity|]. split.
  - rewrite Hothers; [vm_compute; reflexivity|vm_compute; discriminate].
  - rewrite Hcloses; [vm_compute; reflexivity|]. exists 1, sub_a. repeat split.
Defined.
End witnesses.

(** One failed [accept] ends the loop, and a failed set-up skips it; the daemon
    does not look at the task's result and runs on without administration. *)
Lemma failed_accept_ends_the_control_plane {Stream} env path (served rest : list Stream) e :
  (∃ modes, control_setup env path = Ok modes) →
  control_loop env path ((Ok <$> served) ++ Err e :: (Ok <$> rest)) = (served, Some e).
Proof.
  intros [modes Hset]. unfold control_loop. rewrite Hset. induction served as [|x served IH]; [done|].
  cbn. by rewrite IH.
Qed.
