(* ===== verification/TestSupport.v ===== *)
(** * TestSupport: the harness of the system tests

    [crates/whdr-test-support/src/lib.rs]: the configuration it writes for a
    daemon and the rewriting of its list of extensions, the HTTP client with its
    reading of chunked answers, the requests on the control socket, the waiting
    loops, the subscriber client.  What is observed (an answer, a poll, a
    frame, the clock) is an input. *)

From S2P Require Import Prelude.
From S2P Require Import Text.
From S2P Require Import Messages.
From S2P Require Import Config.
From S2P Require Import Subscribers.
From S2P Require Import SubscriberWs.
From S2P Require Import SubKit.
From S2P Require Import Client.
From S2P Require Import TokenStore.
From S2P Require Import Metrics.
From S2P Require Import FakeExt.
From S2P Require Import ControlPlane.
From Stdlib Require Import Ascii.

Local Open Scope Z_scope.

(** ** Definitions *)

Definition crlf : string := String "013" (String "010" EmptyString).
Definition line_feed : string := String "010" EmptyString.

(** *** The configuration *)

(** The lines, each with its line feed. *)
Definition lines_text (lines : list string) : string :=
  foldr (λ l text, l +:+ line_feed +:+ text) EmptyString lines.

(** [Vec<String>::join]. *)
Fixpoint join_str (sep : string) (l : list string) : string :=
  match l with
  | [] => EmptyString
  | [s] => s
  | s :: rest => s +:+ sep +:+ join_str sep rest
  end.

Record WriteConfig : Type := MkWriteConfig {
  wc_ingest : string;
  wc_sub : string;
  wc_metrics : string;
  wc_control_socket : string;
  wc_token_store : string;
  wc_enabled : list string;
  wc_secrets : string;
  wc_limits : string;
  wc_timeouts : string;
  wc_delivery : option string
}.

Definition enabled_list (ids : list string) : string := join_str ", " (quoted <$> ids).

Definition enabled_line (ids : list string) : string := "enabled = [" +:+ enabled_list ids +:+ "]".

(** The text [write_config] writes. *)
Definition write_config (cfg : WriteConfig) : string :=
  lines_text
    ["[server]";
     "listen_addr = " +:+ quoted (wc_ingest cfg);
     "sub_addr = " +:+ quoted (wc_sub cfg);
     "metrics_addr = " +:+ quoted (wc_metrics cfg);
     "control_socket = " +:+ quoted (wc_control_socket cfg);
     EmptyString;
     "[subscribers]";
     "token_store = " +:+ quoted (wc_token_store cfg);
     EmptyString;
     "[extensions]";
     enabled_line (wc_enabled cfg);
     EmptyString;
     "[limits]";
     wc_limits cfg;
     EmptyString;
     "[timeouts]";
     wc_timeouts cfg;
     EmptyString] +:+
  default EmptyString (wc_delivery cfg) +:+
  lines_text ["[secrets]"; "file = " +:+ quoted (wc_secrets cfg)].

(** The [[delivery]] section of [ServerBuilder::start]. *)
Definition delivery_section (store_path extra : string) : string :=
  lines_text ["[delivery]"; "enabled = true"; "store_path = " +:+ quoted store_path; extra].

(** The text [ServerHandle::set_enabled] writes over [text]. *)
Definition set_enabled (ids : list string) (text : string) : string :=
  lines_text
    ((λ line, if starts_with "enabled = " line then enabled_line ids else line) <$> stream_lines text).

(** *** The builder and the child *)

(** The files under the temporary directory, by their path in it. *)
Record ServerBuilder : Type := MkServerBuilder {
  sb_enabled : list string;
  sb_limits : string;
  sb_timeouts : string;
  sb_delivery : option string;
  sb_files : gmap string string
}.

Definition ServerBuilder_new : ServerBuilder := MkServerBuilder [] EmptyString EmptyString None ∅.

(** [install_fake_ext] and the files of [with_fake_ext]. *)
Definition install_fake_ext (fake_ext_bin id behavior : string) (files : gmap string string)
    : gmap string string :=
  <["exts/whdr-ext-" +:+ id +:+ ".toml" := behavior]>
    (<["exts/whdr-ext-" +:+ id := fake_ext_bin]> files).

Definition with_fake_ext (fake_ext_bin id behavior : string) (b : ServerBuilder) : ServerBuilder :=
  MkServerBuilder (sb_enabled b ++ [id]) (sb_limits b) (sb_timeouts b) (sb_delivery b)
    (install_fake_ext fake_ext_bin id behavior (sb_files b)).

Definition with_limits (lines : string) (b : ServerBuilder) : ServerBuilder :=
  MkServerBuilder (sb_enabled b) lines (sb_timeouts b) (sb_delivery b) (sb_files b).

Definition with_timeouts (lines : string) (b : ServerBuilder) : ServerBuilder :=
  MkServerBuilder (sb_enabled b) (sb_limits b) lines (sb_delivery b) (sb_files b).

Definition with_delivery (extra_lines : string) (b : ServerBuilder) : ServerBuilder :=
  MkServerBuilder (sb_enabled b) (sb_limits b) (sb_timeouts b) (Some extra_lines) (sb_files b).

(** The files [start] has written when it spawns the daemon, for three free
    addresses and the path of the temporary directory. *)
Definition start_files (ingest sub metrics root : string) (b : ServerBuilder)
    : result string (gmap string string) :=
  let control_socket := root +:+ "/ctl.sock" in
  if 100 <? slen control_socket then
    Err ("temp dir yields a control socket path too long for a UDS: " +:+ control_socket)
  else
    let secrets := concat_chars
      ((λ id, id +:+ " = " +:+ quoted ("secret-" +:+ id) +:+ line_feed) <$> sb_enabled b) in
    let config := MkWriteConfig ingest sub metrics control_socket (root +:+ "/tokens.toml")
      (sb_enabled b) (root +:+ "/secrets.toml") (sb_limits b) (sb_timeouts b)
      (delivery_section (root +:+ "/delivery.redb") <$> sb_delivery b) in
    Ok (<["config.toml" := write_config config]> (<["secrets.toml" := secrets]> (sb_files b))).

(** The PATH of the child: the fakes come first. *)
Definition child_path (ext_dir : string) (orig_path : option string) : string :=
  ext_dir +:+ ":" +:+ default EmptyString orig_path.

(** *** The HTTP client *)

(** [str::split_once] and [str::contains] with a text. *)
Fixpoint split_once_str (pat s : string) : option (string * string) :=
  match strip_prefix pat s with
  | Some rest => Some (EmptyString, rest)
  | None =>
      match s with
      | EmptyString => None
      | String a s' =>
          match split_once_str pat s' with
          | Some (l, r) => Some (String a l, r)
          | None => None
          end
      end
  end.

Definition contains_str (pat s : string) : bool :=
  match split_once_str pat s with Some _ => true | None => false end.

(** [char::to_digit]. *)
Definition to_digit (radix : Z) (a : ascii) : option Z :=
  let n := Z.of_nat (byte_val a) in
  let d := if is_ascii_digit a then n - 48
           else if is_ascii_lowercase a then n - 87
           else if is_ascii_uppercase a then n - 55 else radix in
  if d <? radix then Some d else None.

Fixpoint read_digits (radix max acc : Z) (s : string) : option Z :=
  match s with
  | EmptyString => Some acc
  | String a s' =>
      d ← to_digit radix a;
      let acc' := acc * radix + d in
      if max <? acc' then None else read_digits radix max acc' s'
  end.

(** [from_str_radix] of an unsigned type with the maximum [max]. *)
Definition from_str_radix (radix max : Z) (s : string) : option Z :=
  match s with
  | EmptyString => None
  | String a s' =>
      if Ascii.eqb a "+" then if is_empty s' then None else read_digits radix max 0 s'
      else read_digits radix max 0 s
  end.

(** [str::split_whitespace]. *)
Definition push_char (c : string) (words : list string) : list string :=
  if is_whitespace c then EmptyString :: words
  else match words with w :: ws => (c +:+ w) :: ws | [] => [c] end.

Definition split_whitespace (s : string) : list string :=
  filter (λ w, w ≠ EmptyString) (foldr push_char [EmptyString] (chars s)).

Fixpoint split_bytes (n : nat) (s : string) : string * string :=
  match n, s with
  | S n', String a s' => let '(l, r) := split_bytes n' s' in (String a l, r)
  | _, _ => (EmptyString, s)
  end.

Definition is_char_boundary (n : nat) (s : string) : bool :=
  Nat.eqb n 0 || match (split_bytes n s).2 with
                 | String a _ => negb (is_continuation a)
                 | EmptyString => Nat.eqb n (String.length s)
                 end.

(** The loop of [decode_chunked_if_needed]; [None] is a panic, of a slice that
    cuts a character or of [size + 2] (tests are built with overflow checks).
    Every round takes at least a line end from [rest], whose length is the
    fuel. *)
Fixpoint decode_chunks (fuel : nat) (out rest : string) : option string :=
  match fuel with
  | O => Some out
  | S fuel' =>
      match split_once_str crlf rest with
      | None => Some out
      | Some (size_line, tail) =>
          match from_str_radix 16 u64_max (trim size_line) with
          | None => Some out
          | Some size =>
              if size =? 0 then Some out
              else
                let n := Z.to_nat (Z.min size (slen tail)) in
                if negb (is_char_boundary n tail) then None
                else if u64_max <? size + 2 then None
                else
                  let out' := out +:+ (split_bytes n tail).1 in
                  if size + 2 <=? slen tail then
                    let m := Z.to_nat (size + 2) in
                    decode_chunks fuel' out'
                      (if is_char_boundary m tail then (split_bytes m tail).2 else EmptyString)
                  else decode_chunks fuel' out' EmptyString
          end
      end
  end.

Definition decode_chunked_if_needed (full body : string) : option string :=
  if negb (contains_str "transfer-encoding: chunked" (to_ascii_lowercase full)) then Some body
  else decode_chunks (String.length body) EmptyString body.

(** What [http_request] sends, and what it makes of all it reads. *)
Definition request_head (method path : string) (body_len : Z) : string :=
  method +:+ " " +:+ path +:+ " HTTP/1.1" +:+ crlf +:+ "Host: whdr-test" +:+ crlf +:+
  "Content-Length: " +:+ pretty body_len +:+ crlf +:+ "Connection: close" +:+ crlf +:+ crlf.

Definition read_response (debug : string → string) (response : string)
    : option (result string (Z * string)) :=
  match split_whitespace response !! 1%nat ≫= from_str_radix 10 65535 with
  | None => Some (Err ("malformed http response: " +:+ debug response))
  | Some status =>
      let body := match split_once_str (crlf +:+ crlf) response with
                  | Some (_, tail) => tail
                  | None => EmptyString
                  end in
      (λ text, Ok (status, text)) <$> decode_chunked_if_needed response body
  end.

(** [http_request]: [connect] is the failure to connect, or the server. *)
Definition http_request (debug : string → string) (connect : result string (string → result string string))
    (method path body : string) : option (result string (Z * string)) :=
  match connect with
  | Err e => Some (Err e)
  | Ok server =>
      match server (request_head method path (slen body) +:+ body) with
      | Err e => Some (Err e)
      | Ok response => read_response debug response
      end
  end.

(** *** The control socket *)

Section control_client.
Context {RQ : Wire ControlRequest} {RS : Wire ControlResponse}.
Context (display : Value → string) (debug : ControlResponse → string).

(** [ServerHandle::control]: [connect] is the failure to connect, or what the
    daemon answers to a text. *)
Definition control (connect : result string (string → string)) (request : ControlRequest)
    : result string ControlResponse :=
  daemon ← connect;
  text ← map_err NdjsonError_to_string (encode_line request);
  line ← ok_or "control socket closed without response" (head (stream_lines (daemon text)));
  response ← map_err NdjsonError_to_string (decode_line line);
  ok_or "blank control response" response.

Definition unexpected {A} (other : ControlResponse) : result string A :=
  Err ("unexpected control response: " +:+ debug other).

Definition status (connect : result string (string → string)) : result string Value :=
  response ← control connect Req_Status;
  match response with Res_Status v => Ok v | other => unexpected other end.

Definition token_add (name : string) (connect : result string (string → string))
    : result string string :=
  response ← control connect (Req_TokenAdd name);
  match response with Res_Token _ token => Ok token | other => unexpected other end.

(** *** Waiting

    A poll is what the request met and whether the deadline had passed after it;
    [None] is still waiting when the polls granted are over. *)

Definition Poll : Type := result string (string → string) * bool.

Fixpoint wait_control_ready (logs : string) (polls : list Poll) : option (result string ()) :=
  match polls with
  | [] => None
  | (connect, late) :: rest =>
      match control connect Req_Status with
      | Ok (Res_Status _) => Some (Ok ())
      | _ =>
          if late : bool then Some (Err ("server did not become ready; log:" +:+ line_feed +:+ logs))
          else wait_control_ready logs rest
      end
  end.

(** The loop of [wait_status] and [wait_ext_state]: [pick] is the result of a
    document that satisfies the wait. *)
Fixpoint wait_picked (pick : Value → option Value) (msg : Value → string) (polls : list Poll)
    : option (result string Value) :=
  match polls with
  | [] => None
  | (connect, late) :: rest =>
      match status connect with
      | Err e => Some (Err e)
      | Ok v =>
          match pick v with
          | Some found => Some (Ok found)
          | None => if late : bool then Some (Err (msg v)) else wait_picked pick msg rest
          end
      end
  end.

Definition row_of (list_key key name : string) (v : Value) : option Value :=
  rows ← val_array (field list_key v);
  snd <$> list_find (λ row, val_str (field key row) = Some name) rows.

Definition ext_row (v : Value) (id : string) : option Value := row_of "extensions" "id" id v.
Definition subscriber_row (v : Value) (name : string) : option Value :=
  row_of "subscribers" "name" name v.

Definition wait_ext_state (id state : string) (polls : list Poll) : option (result string Value) :=
  wait_picked
    (λ v, ext ← ext_row v id;
          if bool_decide (val_str (field "state" ext) = Some state) then Some ext else None)
    (λ v, "ext " +:+ id +:+ " never reached state " +:+ state +:+ "; last status: " +:+ display v)
    polls.

Definition wait_status (predicate : Value → bool) (polls : list Poll) : option (result string Value) :=
  wait_picked (λ v, if predicate v then Some v else None)
    (λ v, "status predicate never satisfied; last status: " +:+ display v) polls.
End control_client.

(** *** The child process *)

(** What [spawn] answers to the start of the daemon, and the polls that follow;
    what [kill -TERM] and the wait for the exit answer. *)
Record SpawnEnv : Type := MkSpawnEnv {
  se_spawn : result string Z;
  se_polls : list Poll;
  se_logs : string
}.

Section child.
Context {RQ : Wire ControlRequest} {RS : Wire ControlResponse}.

(** [spawn_and_wait]: the pid of the child of the handle, which is dropped, and
    killed, when the wait fails. *)
Definition spawn_and_wait (env : SpawnEnv) : option (result string (option Z)) :=
  match se_spawn env with
  | Err e => Some (Err e)
  | Ok pid =>
      (λ r, match r with Ok _ => Ok (Some pid) | Err e => Err e end)
        <$> wait_control_ready (se_logs env) (se_polls env)
  end.

Definition kill_and_restart (child : option Z) (env : SpawnEnv) : option (result string (option Z)) :=
  spawn_and_wait env.

(** [signal]: [kill] is whether the command ran and its success. *)
Definition signal (sig : string) (child : option Z) (kill : string → result string bool)
    : result string () :=
  pid ← ok_or "server not running" child;
  success ← kill ("kill -" +:+ sig +:+ " " +:+ pretty pid);
  if success : bool then Ok () else Err ("kill -" +:+ sig +:+ " " +:+ pretty pid +:+ " failed").

Definition sighup : option Z → (string → result string bool) → result string () := signal "HUP".

(** [stop]: the child after it, and whether it was killed. *)
Definition stop (child : option Z) (kill : string → result string bool) (exits_in_time : bool)
    (logs : string) : result string () * option Z * bool :=
  match child with
  | None => (Ok (), None, false)
  | Some pid =>
      match kill ("kill -TERM " +:+ pretty pid) with
      | Err e => (Err e, None, true)
      | Ok _ =>
          if exits_in_time then (Ok (), None, false)
          else (Err ("server did not exit on SIGTERM; killed. log:" +:+ line_feed +:+ logs), None, true)
      end
  end.
End child.

(** *** The subscriber client *)

(** What a wait for the next message ends with. *)
Inductive NextMessage : Type :=
  | NextTimedOut
  | NextClosed
  | NextFailed (e : string)
  | NextIs (m : Message).

Section ws_subscriber.
Context {V : Wire Value}.
Context (display : Value → string).
(** The error of a failed send or upgrade. *)
Context (send_error : string).

(** [WsSubscriber::recv]: the result, the messages left and the write half; [None]
    is still waiting. *)
Fixpoint ws_recv (msgs : list NextMessage) (k : Sink)
    : option (result string Value * list NextMessage * Sink) :=
  match msgs with
  | [] => None
  | NextTimedOut :: rest => Some (Err "timed out waiting for frame", rest, k)
  | NextClosed :: rest => Some (Err "websocket closed", rest, k)
  | NextFailed e :: rest => Some (Err e, rest, k)
  | NextIs (MText text) :: rest => Some (from_str text, rest, k)
  | NextIs (MPing payload) :: rest =>
      let '(failed, k') := send (MPong payload) k in
      if failed then Some (Err send_error, rest, k') else ws_recv rest k'
  | NextIs MClose :: rest => Some (Err "websocket closed", rest, k)
  | NextIs _ :: rest => ws_recv rest k
  end.

(** [recv_event]; every round takes a message, and their number is the fuel. *)
Fixpoint recv_event (fuel : nat) (msgs : list NextMessage) (k : Sink)
    : option (result string Value * list NextMessage * Sink) :=
  match fuel with
  | O => None
  | S fuel' =>
      '(r, rest, k') ← ws_recv msgs k;
      match r with
      | Err e => Some (Err e, rest, k')
      | Ok frame =>
          if bool_decide (val_str (field "type" frame) = Some "event"%string) then Some (Ok frame, rest, k')
          else recv_event fuel' rest k'
      end
  end.

Definition expect_silence (msgs : list NextMessage) (k : Sink) : option (result string ()) :=
  '(r, _, _) ← recv_event (length msgs) msgs k;
  match r with
  | Ok frame => Some (Err ("expected silence, got " +:+ display frame))
  | Err _ => Some (Ok ())
  end.

(** [send_json] and [subscribe]. *)
Definition send_json (value : Value) (k : Sink) : result string () * Sink :=
  let '(failed, k') := send (MText (display value)) k in
  (if failed then Err send_error else Ok (), k').

Definition subscribe_json (patterns : list string) : Value :=
  Object [("type", Str "subscribe"); ("patterns", Array (Str <$> patterns))].

Definition ws_subscribe (patterns : list string) (msgs : list NextMessage) (k : Sink)
    : option (result string Value * list NextMessage * Sink) :=
  match send_json (subscribe_json patterns) k with
  | (Err e, k') => Some (Err e, msgs, k')
  | (Ok _, k') => ws_recv msgs k'
  end.

(** [connect] and [connect_expect_reject]: [network] is what becomes of the
    upgrade request. *)
Context (into_client_request : string → result string ClientRequest).
Context (parse_header : string → option string).

Definition upgrade_request (sub_addr token : string) : result string ClientRequest :=
  request ← into_client_request ("ws://" +:+ sub_addr +:+ "/subscribe");
  value ← ok_or "token header" (parse_header ("Bearer " +:+ token));
  Ok (MkClientRequest (cr_uri request) (<["authorization" := value]> (cr_headers request))).

Definition ws_connect (network : ClientRequest → result string (list NextMessage * Sink))
    (sub_addr token : string) : option (result string Value * list NextMessage * Sink) :=
  match upgrade_request sub_addr token ≫= network with
  | Err e => Some (Err e, [], MkSink false [])
  | Ok (msgs, k) => ws_recv msgs k
  end.

Definition connect_expect_reject (network : ClientRequest → Upgrade) (sub_addr token : string)
    : result string Z :=
  request ← upgrade_request sub_addr token;
  match network request with
  | Upgraded _ _ => Err "connection unexpectedly accepted"
  | HttpStatus code => Ok code
  | UpgradeFailed => Err send_error
  end.
End ws_subscriber.

(** ** Specification *)

(** A line of a response head. *)
Definition head_line (l : string) : Prop := l ≠ EmptyString ∧ contains_byte "013" l = false.

Definition head_text (lines : list string) : string :=
  foldr (λ l text, l +:+ crlf +:+ text) EmptyString lines.

(** A size in hexadecimal. *)
Definition size_line (sz : string) (n : Z) : Prop :=
  bytes_all is_graphic sz = true ∧ from_str_radix 16 u64_max sz = Some n.

(** [body] is a chunked encoding of [text]. *)
Inductive chunked : string → string → Prop :=
  | chunked_end sz trailer : size_line sz 0 → chunked (sz +:+ crlf +:+ trailer) EmptyString
  | chunked_more sz chunk body text :
      size_line sz (slen chunk) → chunk ≠ EmptyString → slen chunk + 2 < 2 ^ 64 → chunked body text →
      chunked (sz +:+ crlf +:+ chunk +:+ crlf +:+ body) (chunk +:+ text).

(** A text [set_enabled] leaves alone. *)
Definition kept (s : string) : Prop :=
  contains_byte "013" s = false ∧
  Forall (λ l, starts_with "enabled = " l = false) (split_on "010" s).

(** A text without line ends. *)
Definition plain (s : string) : Prop := contains_byte "013" s = false ∧ contains_byte "010" s = false.

(** ** Lemmas *)

(** *** Chunks *)

Lemma split_once_str_skip c pat s t :
  contains_byte c s = false →
  split_once_str (String c pat) (s +:+ t) =
    (λ p, (s +:+ p.1, p.2)) <$> split_once_str (String c pat) t.
Proof.
  induction s as [|a s IH]; intros Hs.
  - rewrite string_app_nil_l. by destruct (split_once_str _ t) as [[]|].
  - rewrite contains_byte_cons in Hs. apply orb_false_iff in Hs as [Ha Hs].
    rewrite string_app_cons. cbn [split_once_str strip_prefix].
    assert (Ascii.eqb c a = false) as -> by (by rewrite Ascii.eqb_sym).
    rewrite IH by done. by destruct (split_once_str _ t) as [[]|].
Qed.

Lemma split_once_str_here pat t : split_once_str pat (pat +:+ t) = Some (EmptyString, t).
Proof.
  assert (strip_prefix pat (pat +:+ t) = Some t) as Hp by by apply strip_prefix_Some.
  destruct (pat +:+ t) eqn:Heq; cbn [split_once_str]; by rewrite Hp.
Qed.

Lemma split_once_str_first c pat s t :
  contains_byte c s = false →
  split_once_str (String c pat) (s +:+ String c pat +:+ t) = Some (s, t).
Proof.
  intros Hs. rewrite split_once_str_skip, split_once_str_here by done. cbn.
  by rewrite string_app_nil_r.
Qed.

Lemma split_bytes_app s t : split_bytes (String.length s) (s +:+ t) = (s, t).
Proof.
  induction s as [|a s IH]; [by destruct t|]. cbn [String.length split_bytes].
  rewrite string_app_cons. by rewrite IH.
Qed.

Lemma slen_length s : Z.to_nat (slen s) = String.length s.
Proof. unfold slen. lia. Qed.

Lemma size_line_no_cr sz n : size_line sz n → contains_byte "013" sz = false.
Proof. intros [Hg _]. by apply (bytes_all_not_contains is_graphic). Qed.

Lemma graphic_boundary a : is_graphic a = true → is_continuation a = false.
Proof. destruct a as [[] [] [] [] [] [] [] []]; vm_compute; congruence. Qed.

(** An encoding starts a character. *)
Lemma chunked_boundary s body text :
  chunked body text → is_char_boundary (String.length s) (s +:+ body) = true.
Proof.
  intros Hc. unfold is_char_boundary. rewrite split_bytes_app. cbn [snd].
  assert (∃ a rest, body = String a rest ∧ is_graphic a = true) as (a & rest & -> & Ha).
  { destruct Hc as [[|a sz] trailer [Hg Hr]|[|a sz] chunk body text [Hg Hr] _ _ _]; try done;
      cbn [bytes_all] in Hg; apply andb_true_iff in Hg as [Ha _]; rewrite string_app_cons; by eexists _, _. }
  rewrite (graphic_boundary a Ha). by rewrite orb_true_r.
Qed.

Lemma decode_chunks_chunked body text :
  chunked body text → ∀ fuel acc, (String.length body ≤ fuel)%nat →
  decode_chunks fuel acc body = Some (acc +:+ text).
Proof.
  induction 1 as [sz trailer Hsz|sz chunk body text Hsz Hne Hlt Hc IH]; intros fuel acc Hfuel.
  - rewrite !slength_app in Hfuel. cbn in Hfuel. destruct fuel as [|fuel]; [lia|].
    cbn [decode_chunks]. change crlf with (String "013" line_feed) at 1. rewrite split_once_str_first by by eapply size_line_no_cr.
    destruct Hsz as [Hg Hr]. rewrite (trim_graphic sz Hg), Hr. cbn. by rewrite string_app_nil_r.
  - rewrite !slength_app in Hfuel. cbn in Hfuel. destruct fuel as [|fuel]; [lia|].
    cbn [decode_chunks]. change crlf with (String "013" line_feed) at 1.
    rewrite split_once_str_first by by eapply size_line_no_cr.
    destruct Hsz as [Hg Hr]. rewrite (trim_graphic sz Hg), Hr.
    assert (0 < slen chunk) by (destruct chunk; [done|unfold slen; cbn; lia]).
    rewrite (proj2 (Z.eqb_neq _ _)) by lia.
    assert (slen (chunk +:+ crlf +:+ body) = slen chunk + (2 + slen body)) as Hlen
      by (by rewrite !slen_app).
    pose proof (slen_nonneg body).
    rewrite Hlen, Z.min_l, slen_length by lia.
    rewrite split_bytes_app. cbn [fst].
    assert (is_char_boundary (String.length chunk) (chunk +:+ crlf +:+ body) = true) as ->
      by (unfold is_char_boundary; rewrite split_bytes_app; by rewrite orb_true_r).
    cbn [negb]. rewrite (proj2 (Z.ltb_ge _ _)) by (unfold u64_max; lia).
    rewrite (proj2 (Z.leb_le _ _)) by lia.
    assert (Z.to_nat (slen chunk + 2) = String.length (chunk +:+ crlf)) as ->
      by (rewrite slength_app; unfold slen; cbn; lia).
    rewrite (string_app_assoc chunk crlf body), (chunked_boundary _ body text Hc), split_bytes_app.
    cbn [snd]. rewrite IH by lia. by rewrite string_app_assoc.
Qed.

(** The fuel is enough for any text: more of it changes nothing. *)
Lemma split_once_str_shorter pat s l r :
  split_once_str pat s = Some (l, r) → (String.length r + String.length pat ≤ String.length s)%nat.
Proof.
  revert l. induction s as [|a s IH]; intros l; cbn [split_once_str];
    destruct (strip_prefix pat _) as [rest|] eqn:Hp.
  1, 3: intros [= <- <-]; apply strip_prefix_Some in Hp; rewrite Hp, slength_app; lia.
  - done.
  - destruct (split_once_str pat s) as [[l' r']|] eqn:Hs; [|done].
    intros [= <- <-]. specialize (IH l' eq_refl). cbn [String.length]. lia.
Qed.

Lemma split_bytes_shorter n s : (String.length (split_bytes n s).2 ≤ String.length s)%nat.
Proof.
  revert s. induction n as [|n IH]; intros [|a s]; cbn [split_bytes]; [done..|].
  specialize (IH s). destruct (split_bytes n s) as [l r]. cbn in *. lia.
Qed.

Lemma decode_chunks_fuel fuel fuel' out rest :
  (String.length rest ≤ fuel)%nat → (String.length rest ≤ fuel')%nat →
  decode_chunks fuel out rest = decode_chunks fuel' out rest.
Proof.
  revert fuel' out rest. assert (∀ f out, decode_chunks f out EmptyString = Some out) as Hnil
    by (intros []; done).
  induction fuel as [|fuel IH]; intros [|fuel'] out rest Hf Hf'; try done.
  1, 2: destruct rest; [by rewrite !Hnil|cbn in *; lia].
  cbn [decode_chunks]. destruct (split_once_str crlf rest) as [[l tail]|] eqn:Hs; [|done].
  apply split_once_str_shorter in Hs. change (String.length crlf) with 2%nat in Hs.
  destruct (from_str_radix _ _ _) as [size|]; [|done].
  destruct (size =? 0); [done|]. destruct (negb _); [done|]. destruct (u64_max <? _); [done|].
  destruct (size + 2 <=? slen tail); [|by rewrite !Hnil].
  destruct (is_char_boundary _ tail); [|by rewrite !Hnil].
  pose proof (split_bytes_shorter (Z.to_nat (size + 2)) tail). apply IH; lia.
Qed.

(** *** Heads *)

Lemma head_body lines body :
  lines ≠ [] → Forall head_line lines →
  ∃ pre, split_once_str (crlf +:+ crlf) (head_text lines +:+ crlf +:+ body) = Some (pre, body).
Proof.
  intros Hne Hall. induction Hall as [|l lines [Hl Hcr] Hall IH]; [done|].
  cbn [head_text foldr]. rewrite <- !string_app_assoc.
  change (crlf +:+ crlf) with (String "013" (line_feed +:+ crlf)).
  rewrite split_once_str_skip by done. destruct lines as [|l' lines].
  - cbn [head_text foldr]. rewrite string_app_nil_l.
    change (crlf +:+ crlf +:+ body) with (String "013" (line_feed +:+ crlf) +:+ body).
    rewrite split_once_str_here. by eexists.
  - destruct IH as [pre IH]; [done|]. fold (head_text (l' :: lines)).
    change (String "013" (line_feed +:+ crlf)) with (crlf +:+ crlf).
    apply Forall_cons in Hall as [[Hl' Hcr'] _].
    set (t := head_text (l' :: lines) +:+ crlf +:+ body) in *.
    assert (strip_prefix crlf t = None) as Ht.
    { subst t. destruct l' as [|a l']; [done|]. rewrite contains_byte_cons in Hcr'.
      apply orb_false_iff in Hcr' as [Ha _]. cbn [head_text foldr]. rewrite !string_app_cons.
      unfold crlf at 1. cbn [strip_prefix]. rewrite (Ascii.eqb_sym "013"), Ha. done. }
    change (crlf +:+ t) with (String "013" (String "010" t)).
    change (crlf +:+ crlf) with (String "013" (String "010" crlf)) in *.
    cbn [split_once_str strip_prefix]. rewrite !Ascii.eqb_refl, Ht.
    change (Ascii.eqb "013" "010") with false. cbn iota. rewrite IH. by eexists.
Qed.

Definition starts_char (s : string) : bool :=
  match s with String a _ => negb (is_continuation a) | EmptyString => true end.

Lemma chars_space t :
  starts_char t = true → chars (String " " t) = " "%string :: chars t.
Proof.
  intros Ht. rewrite chars_cons. destruct t as [|a t]; [done|].
  destruct (chars_cons_head a t) as (c & cs & ->). cbn [push_byte].
  cbn in Ht. by rewrite (proj1 (negb_true_iff _) Ht).
Qed.

Lemma push_chars cs w ws :
  Forall (λ c, is_whitespace c = false) cs →
  foldr push_char (w :: ws) cs = (concat_chars cs +:+ w) :: ws.
Proof.
  induction 1 as [|c cs Hc _ IH]; [done|]. cbn [foldr concat_chars]. rewrite IH.
  unfold push_char. rewrite Hc. fold (concat_chars cs). by rewrite string_app_assoc.
Qed.

Lemma words_cons w t :
  bytes_all is_graphic w = true → starts_char t = true →
  foldr push_char [EmptyString] (chars (w +:+ String " " t)) =
    w :: foldr push_char [EmptyString] (chars t).
Proof.
  intros Hw Ht. rewrite chars_app by done. rewrite (chars_space t Ht), foldr_app. cbn [foldr].
  change (push_char " " (foldr push_char [EmptyString] (chars t)))
    with (EmptyString :: foldr push_char [EmptyString] (chars t)).
  rewrite push_chars by by apply chars_graphic. by rewrite concat_chars_chars, string_app_nil_r.
Qed.

Lemma second_word v code t :
  bytes_all is_graphic v = true → v ≠ EmptyString →
  bytes_all is_graphic code = true → code ≠ EmptyString → starts_char t = true →
  split_whitespace (v +:+ " " +:+ code +:+ " " +:+ t) !! 1%nat = Some code.
Proof.
  intros Hv Hvn Hc Hcn Ht. unfold split_whitespace.
  change (" " +:+ t) with (String " " t). change (" " +:+ code +:+ String " " t) with (String " " (code +:+ String " " t)).
  assert (starts_char (code +:+ String " " t) = true) as Hstart.
  { destruct code as [|a code]; [done|]. cbn [bytes_all] in Hc. apply andb_true_iff in Hc as [Ha _].
    rewrite string_app_cons. unfold starts_char. by rewrite (graphic_boundary a Ha). }
  rewrite (words_cons v), (words_cons code) by done. by rewrite !filter_cons, !decide_True.
Qed.

(** *** Configurations *)

Lemma string_snoc s : s = EmptyString ∨ ∃ t a, s = t +:+ String a EmptyString.
Proof.
  induction s as [|a s [->|(t & b & ->)]]; [by left|right..].
  - by exists EmptyString, a.
  - by exists (String a t), b.
Qed.

Lemma strip_cr_none l : contains_byte "013" l = false → strip_cr l = l.
Proof.
  destruct (string_snoc l) as [->|(t & a & ->)]; [done|].
  rewrite contains_byte_app. intros [_ Ha]%orb_false_iff. unfold strip_cr. rewrite string_rev_app.
  rewrite contains_byte_cons in Ha. apply orb_false_iff in Ha as [Ha _].
  destruct a as [[] [] [] [] [] [] [] []]; done.
Qed.

Lemma split_on_without c d s :
  contains_byte d s = false → Forall (λ l, contains_byte d l = false) (split_on c s).
Proof.
  induction s as [|a s IH]; [by repeat constructor|]. rewrite contains_byte_cons.
  intros [Ha Hs]%orb_false_iff. specialize (IH Hs). cbn [split_on]. destruct (Ascii.eqb a c).
  - by constructor.
  - destruct (split_on c s) as [|l ls]; (apply Forall_cons in IH as [Hl IH] || clear IH);
      constructor; try done; by rewrite contains_byte_cons, Ha.
Qed.

Lemma stream_lines_app s t :
  contains_byte "013" s = false →
  stream_lines (s +:+ line_feed +:+ t) = split_on "010" s ++ stream_lines t.
Proof.
  intros Hs%(split_on_without "010"). unfold stream_lines.
  change (line_feed +:+ t) with (String "010" t). rewrite split_on_app_gen.
  pose proof (split_on_not_nil "010" t) as Ht. induction Hs as [|l ls Hl _ IH]; [done|].
  cbn [app]. rewrite lines_of_pieces_cons, IH, strip_cr_none; [done|done|by destruct ls].
Qed.

Lemma lines_text_app ls ls' : lines_text (ls ++ ls') = lines_text ls +:+ lines_text ls'.
Proof.
  induction ls as [|l ls IH]; [done|]. cbn [lines_text app foldr]. fold (lines_text (ls ++ ls')).
  rewrite IH. by rewrite !string_app_assoc.
Qed.

Lemma lines_text_split s : lines_text (split_on "010" s) = s +:+ line_feed.
Proof.
  rewrite <- (join_split "010" s) at 2. pose proof (split_on_not_nil "010" s) as Hne.
  induction (split_on "010" s) as [|l ls IH]; [done|]. destruct ls as [|l' ls]; [done|].
  rewrite join_cons by done. cbn [lines_text foldr] in *. rewrite IH by done.
  change (String "010" (join "010" (l' :: ls))) with (line_feed +:+ join "010" (l' :: ls)).
  by rewrite !string_app_assoc.
Qed.

Lemma set_enabled_kept ids s t :
  kept s → set_enabled ids (s +:+ line_feed +:+ t) = s +:+ line_feed +:+ set_enabled ids t.
Proof.
  intros [Hcr Hs]. unfold set_enabled. rewrite stream_lines_app, fmap_app, lines_text_app by done.
  rewrite (string_app_assoc s line_feed), <- lines_text_split. f_equal. f_equal.
  induction Hs as [|l ls Hl _ IH]; [done|]. csimpl. by rewrite Hl, IH.
Qed.

Lemma set_enabled_hit ids s t :
  plain s →
  set_enabled ids (("enabled = " +:+ s) +:+ line_feed +:+ t) =
    enabled_line ids +:+ line_feed +:+ set_enabled ids t.
Proof.
  intros [Hcr Hlf]. unfold set_enabled.
  rewrite stream_lines_app by (by rewrite contains_byte_app, Hcr).
  rewrite split_on_single by (by rewrite contains_byte_app, Hlf).
  assert (starts_with "enabled = " ("enabled = " +:+ s) = true) as Hst.
  { unfold starts_with. by rewrite (proj2 (strip_prefix_Some _ _ s) eq_refl). }
  cbn [app fmap list_fmap]. by rewrite Hst.
Qed.

Lemma kept_line s : plain s → starts_with "enabled = " s = false → kept s.
Proof. intros [Hcr Hlf] Hs. split; [done|]. rewrite split_on_single by done. by repeat constructor. Qed.

Lemma plain_app s t : plain s → plain t → plain (s +:+ t).
Proof. intros [H1 H2] [H3 H4]. split; by rewrite contains_byte_app, ?H1, ?H2, ?H3, ?H4. Qed.

Lemma plain_quoted s : plain s → plain (quoted s).
Proof.
  intros Hs. unfold quoted. apply (plain_app (String "034" EmptyString)); [done|].
  by apply plain_app.
Qed.

Lemma plain_enabled_list ids : Forall plain ids → plain (enabled_list ids).
Proof.
  unfold enabled_list. induction 1 as [|id ids Hid _ IH]; [done|]. csimpl.
  destruct ids as [|id' ids]; [by apply plain_quoted|]. csimpl in *.
  change (join_str ", " (quoted id :: quoted id' :: (quoted <$> ids)))
    with (quoted id +:+ ", " +:+ join_str ", " (quoted id' :: (quoted <$> ids))).
  apply plain_app; [by apply plain_quoted|]. by apply plain_app.
Qed.

Lemma set_enabled_line ids l ls t :
  kept l → set_enabled ids (lines_text (l :: ls) +:+ t) =
    l +:+ line_feed +:+ set_enabled ids (lines_text ls +:+ t).
Proof.
  intros Hl. cbn [lines_text foldr]. fold (lines_text ls). rewrite <- !string_app_assoc.
  by apply set_enabled_kept.
Qed.

(** ** Theorems *)

(** What the harness reads is what the server answered: for a response with
    any status line and header lines, it returns the status and the text of the
    body, decoded when the response says it is chunked. *)
Theorem http_response_read_back debug server method path request_body version code reason headers n
    body text :
  bytes_all is_graphic version = true → version ≠ EmptyString →
  bytes_all is_graphic code = true → from_str_radix 10 65535 code = Some n →
  contains_byte "013" reason = false → starts_char reason = true → Forall head_line headers →
  let response :=
    head_text ((version +:+ " " +:+ code +:+ " " +:+ reason) :: headers) +:+ crlf +:+ body in
  server (request_head method path (slen request_body) +:+ request_body) = Ok response →
  (if contains_str "transfer-encoding: chunked" (to_ascii_lowercase response)
   then chunked body text else text = body) →
  http_request debug (Ok server) method path request_body = Some (Ok (n, text)).
Proof.
  intros Hv Hvn Hc Hcode Hr Hrs Hheaders response Hserver Hbody. unfold http_request. rewrite Hserver.
  unfold read_response. assert (code ≠ EmptyString) as Hcn by by intros ->.
  assert (split_whitespace response !! 1%nat = Some code) as ->.
  { unfold response. cbn [head_text foldr]. rewrite <- !string_app_assoc. apply second_word; try done.
    destruct reason as [|a reason]; [done|exact Hrs]. }
  cbn [mbind option_bind]. rewrite Hcode.
  destruct (head_body ((version +:+ " " +:+ code +:+ " " +:+ reason) :: headers) body) as [pre Hsplit].
  { done. }
  { apply Forall_cons. split; [|done]. split; [by destruct version|].
    rewrite !contains_byte_app, (bytes_all_not_contains is_graphic "013" version),
      (bytes_all_not_contains is_graphic "013" code), Hr by done. done. }
  fold response in Hsplit. rewrite Hsplit. unfold decode_chunked_if_needed.
  destruct (contains_str _ _); cbn [negb]; [|by rewrite Hbody].
  by rewrite (decode_chunks_chunked body text Hbody) by done.
Qed.

Definition set_wc_enabled (ids : list string) (cfg : WriteConfig) : WriteConfig :=
  MkWriteConfig (wc_ingest cfg) (wc_sub cfg) (wc_metrics cfg) (wc_control_socket cfg)
    (wc_token_store cfg) ids (wc_secrets cfg) (wc_limits cfg) (wc_timeouts cfg) (wc_delivery cfg).

(** Rewriting the list of a written configuration is writing it with the other
    list, for a daemon without durable delivery. *)
Theorem set_enabled_is_write_config cfg ids :
  Forall plain [wc_ingest cfg; wc_sub cfg; wc_metrics cfg; wc_control_socket cfg; wc_token_store cfg;
    wc_secrets cfg] →
  Forall plain (wc_enabled cfg) → kept (wc_limits cfg) → kept (wc_timeouts cfg) →
  wc_delivery cfg = None →
  set_enabled ids (write_config cfg) = write_config (set_wc_enabled ids cfg).
Proof.
  intros Hplain Hids Hlimits Htimeouts Hdel. destruct cfg as [i s m c t e f l o d].
  cbn [wc_ingest wc_sub wc_metrics wc_control_socket wc_token_store wc_enabled wc_secrets wc_limits
    wc_timeouts wc_delivery] in *. subst d.
  repeat (apply Forall_cons in Hplain as [? Hplain]).
  assert (∀ key v, plain key → plain v →
    (∀ x, starts_with "enabled = " (key +:+ x) = false) → kept (key +:+ quoted v)) as Hkey.
  { intros key v Hk Hv Hst. apply kept_line; [|done]. apply plain_app; [done|by apply plain_quoted]. }
  unfold write_config, set_wc_enabled. cbn [wc_ingest wc_sub wc_metrics wc_control_socket wc_token_store
    wc_enabled wc_secrets wc_limits wc_timeouts wc_delivery default].
  rewrite !string_app_nil_l.
  do 10 (rewrite set_enabled_line by (first [done|by apply kept_line|by apply Hkey])).
  assert (plain ("[" +:+ enabled_list e +:+ "]")) as He.
  { apply (plain_app "["); [done|]. apply plain_app; [by apply plain_enabled_list|done]. }
  assert (∀ ls u, set_enabled ids (lines_text (enabled_line e :: ls) +:+ u) =
    enabled_line ids +:+ line_feed +:+ set_enabled ids (lines_text ls +:+ u)) as Hhit.
  { intros ls u. cbn [lines_text foldr]. fold (lines_text ls). rewrite <- !string_app_assoc.
    by rewrite <- (set_enabled_hit ids _ _ He). }
  rewrite Hhit.
  do 7 (rewrite set_enabled_line by (first [done|by apply kept_line|by apply Hkey])).
  cbn [lines_text foldr]. rewrite !string_app_nil_l.
  rewrite !set_enabled_kept by (first [by apply kept_line|by apply Hkey]).
  by rewrite <- !string_app_assoc.
Qed.

(** *** Tokens *)

Section tokens.
Context {RQ : Wire ControlRequest} {RS : Wire ControlResponse}.
Context {RQL : WireLaws ControlRequest} {RSL : WireLaws ControlResponse}.
Context {M : Wire SubServerMsg}.
Context (sha256_hex base64_url : string → string).
Context (toml_to_string : gmap string TokenRecord → result string string).
Context (toml_from_str : string → result string (gmap string TokenRecord)).
Context {Db : Type} {O : HashOrder}.
Context (json : Control Db → Value) (debug : ControlResponse → string) (send_error : string).
Context (into_client_request : string → result string ClientRequest).
Context (parse_header to_str : string → option string).
Implicit Types c : Control Db.
Local Notation handler :=
  (handle_control_request sha256_hex base64_url toml_to_string json).

(** The daemon on the other side of the control socket. *)
Definition daemon (inp : Env * string * string) c : result string (string → string) :=
  Ok (λ text, (serve_client sha256_hex base64_url toml_to_string json text inp c).1).

(** A token a header carries as it is. *)
Definition token_header (token : string) : Prop :=
  ∃ w, parse_header ("Bearer " +:+ token) = Some w ∧ to_str w = Some ("Bearer " +:+ token).

Lemma control_transparent env random now c request :
  (∀ r : ControlRequest, is_ok (to_string r) = true) →
  (∀ r : ControlResponse, is_ok (to_string r) = true) →
  control (daemon (env, random, now) c) request = Ok (handler env random now request c).1.
Proof.
  intros Hrq Hrs. destruct (encoded_line request (Hrq request)) as (line & He & Hd & Hs).
  unfold control, daemon. cbn [mbind result_bind]. rewrite He. cbn [map_err mbind result_bind].
  unfold serve_client. rewrite Hs. cbn [fmap list_fmap handle_control_stream]. rewrite Hd.
  destruct (handler env random now request c) as [response c'].
  destruct (encoded_line response (Hrs response)) as (rline & Hre & Hrd & Hrs').
  rewrite Hre. cbn [concat_chars foldr fst]. rewrite string_app_nil_r, Hrs'. cbn [head].
  cbn [ok_or mbind result_bind]. by rewrite Hrd.
Qed.

(** The token the harness is given lets a subscriber in under its name, and a
    token of nobody is answered 401. *)
Theorem harness_tokens_open_connections env random now name c token c' addr r frames k :
  (∀ r : ControlRequest, is_ok (to_string r) = true) →
  (∀ r : ControlResponse, is_ok (to_string r) = true) →
  toml_laws toml_to_string toml_from_str → is_file_path (ts_path (tc_store c)) →
  distinct_hashes (tc_store c) → fresh_token sha256_hex (mint_token base64_url random) (tc_store c) →
  token_header token →
  into_client_request ("ws://" +:+ addr +:+ "/subscribe") = Ok r →
  token_add debug name (daemon (env, random, now) c) = Ok token →
  (handler env random now (Req_TokenAdd name) c).2 = c' →
  let answer := server_answer to_str (authenticate sha256_hex (tc_store c')) frames k in
  (∃ request, upgrade_request into_client_request parse_header addr token = Ok request ∧
     answer request = Upgraded (text_items (Sub_Welcome name :: frames)) k) ∧
  ∀ other, authenticate sha256_hex (tc_store c') other = None → token_header other →
    connect_expect_reject send_error into_client_request parse_header answer addr other = Ok 401.
Proof.
  intros Hrq Hrs Htoml Hpath Hd Hfr Hheader Hr. unfold token_add.
  rewrite control_transparent by done. cbn [mbind result_bind handle_control_request].
  unfold tc_add, add. destruct (validate_name name) as [[]|e]; [|done]. case_bool; [done|].
  destruct (insert_and_persist _ _ _ _ _ _ _ _) as [[[t|e] s] d] eqn:Hi; [|done].
  cbn [fst snd]. intros [= ->] <-. cbn [tc_store]. set (answer := server_answer _ _ _ _).
  apply (insert_and_persist_Ok _ _ _ Htoml) in Hi as (Htok & Hauth & _); [|done..].
  rewrite <- Htok in Hauth.
  assert (∀ tok, token_header tok → ∃ request, upgrade_request into_client_request parse_header addr tok = Ok request ∧
    answer request = match authenticate sha256_hex s tok with
                     | Some n => Upgraded (text_items (Sub_Welcome n :: frames)) k
                     | None => HttpStatus 401
                     end) as Hany.
  { intros tok (w & Hw & Hstr).
    eexists. split; [unfold upgrade_request; rewrite Hr; cbn [mbind result_bind]; rewrite Hw; done|].
    unfold answer, server_answer, subscribe_handler, bearer. cbn [cr_headers tc_store].
    rewrite lookup_insert_eq. cbn [mbind option_bind]. rewrite Hstr. cbn [mbind option_bind].
    by rewrite (proj2 (strip_prefix_Some "Bearer " _ tok) eq_refl). }
  split.
  - destruct (Hany token Hheader) as (request & Hreq & Hans). exists request. by rewrite Hans, Hauth.
  - intros other Hother Hvalue. destruct (Hany other Hvalue) as (request & Hreq & Hans).
    unfold connect_expect_reject. rewrite Hreq. cbn [mbind result_bind]. by rewrite Hans, Hother.
Qed.
End tokens.

(** ** Witnesses *)

Section witnesses.
#[local] Existing Instance BitCodec.wire.
#[local] Existing Instance BitCodec.wire_laws.
#[local] Existing Instance some_order.

(** Two chunks, the second with a line end in it. *)
Definition chunked_body : string :=
  "5" +:+ crlf +:+ "hello" +:+ crlf +:+ "4" +:+ crlf +:+ ("a" +:+ crlf +:+ "b") +:+ crlf +:+
  "0" +:+ crlf +:+ crlf.
Definition chunked_headers : list string := ["Content-Type: text/plain"; "Transfer-Encoding: chunked"].
Definition chunked_response : string :=
  head_text (("HTTP/1.1" +:+ " " +:+ "200" +:+ " " +:+ "OK") :: chunked_headers) +:+ crlf +:+
  chunked_body.

Lemma http_response_read_back_witness :
  http_request (λ s, s) (Ok (λ _, Ok chunked_response)) "POST" "/alpha" "payload" =
    Some (Ok (200, "hello" +:+ "a" +:+ crlf +:+ "b")).
Proof.
  apply (http_response_read_back (λ s, s) (λ _, Ok chunked_response) "POST" "/alpha" "payload" "HTTP/1.1"
    "200" "OK" chunked_headers 200 chunked_body ("hello" +:+ ("a" +:+ crlf +:+ "b") +:+ EmptyString));
    try reflexivity; try discriminate.
  - repeat constructor; discriminate.
  - change (chunked chunked_body ("hello" +:+ ("a" +:+ crlf +:+ "b") +:+ EmptyString)).
    apply (chunked_more "5" "hello"); [split; reflexivity|discriminate|reflexivity|].
    apply (chunked_more "4" ("a" +:+ crlf +:+ "b")); [split; reflexivity|discriminate|reflexivity|].
    apply (chunked_end "0" crlf). split; reflexivity.
Defined.

Definition demo_config : WriteConfig :=
  MkWriteConfig "127.0.0.1:1" "127.0.0.1:2" "127.0.0.1:3" "/t/ctl.sock" "/t/tokens.toml" ["alpha"]
    "/t/secrets.toml" ("max_in_flight = 1" +:+ line_feed +:+ "sub_queue_len = 4") EmptyString None.

Lemma set_enabled_is_write_config_witness :
  set_enabled ["alpha"; "beta"] (write_config demo_config) =
    write_config (set_wc_enabled ["alpha"; "beta"] demo_config).
Proof.
  assert (∀ s, negb (contains_byte "013" s) && negb (contains_byte "010" s) = true → plain s) as Hplain.
  { intros s Hs. apply andb_true_iff in Hs as [H1 H2]. by apply negb_true_iff in H1, H2. }
  apply (set_enabled_is_write_config demo_config ["alpha"; "beta"]).
  - repeat (apply Forall_cons; split; [apply Hplain; vm_compute; reflexivity|]). by apply Forall_nil.
  - apply Forall_cons; split; [apply Hplain; vm_compute; reflexivity|]. by apply Forall_nil.
  - split; [|refine (bool_decide_eq_true_1 _ _)]; vm_compute; reflexivity.
  - split; [|refine (bool_decide_eq_true_1 _ _)]; vm_compute; reflexivity.
  - reflexivity.
Defined.

Lemma harness_tokens_open_connections_witness :
  connect_expect_reject "e" (λ _, Ok (MkClientRequest EmptyString ∅)) Some
    (server_answer Some (authenticate (λ t, t)
      (tc_store (handle_control_request (λ t, t) (λ t, t) DemoToml.print (λ _, Null) all_succeed "new" "t1"
        (Req_TokenAdd "carol") demo_control).2)) [] (MkSink true [])) "127.0.0.1:2" "tok_wrong" = Ok 401.
Proof.
  apply (harness_tokens_open_connections (λ t, t) (λ t, t) DemoToml.print DemoToml.parse (λ _, Null)
    (λ _, EmptyString) "e" (λ _, Ok (MkClientRequest EmptyString ∅)) Some Some all_succeed "new" "t1"
    "carol" demo_control "tok_new" _ "127.0.0.1:2" (MkClientRequest EmptyString ∅) [] (MkSink true [])).
  - reflexivity.
  - reflexivity.
  - exact DemoToml.laws.
  - exact demo_path.
  - exact demo_distinct.
  - exact demo_fresh.
  - eexists. split; reflexivity.
  - reflexivity.
  - vm_compute. reflexivity.
  - reflexivity.
  - vm_compute. reflexivity.
  - eexists. split; reflexivity.
Defined.

(** With durable delivery the rewriting also hits the switch of the [[delivery]]
    section, whose value becomes the list. *)
Definition durable_config : WriteConfig :=
  MkWriteConfig "127.0.0.1:1" "127.0.0.1:2" "127.0.0.1:3" "/t/ctl.sock" "/t/tokens.toml" ["alpha"]
    "/t/secrets.toml" EmptyString EmptyString (Some (delivery_section "/t/delivery.redb" EmptyString)).

Lemma set_enabled_overwrites_the_delivery_switch :
  contains_str ("[delivery]" +:+ line_feed +:+ "enabled = true") (write_config durable_config) = true ∧
  contains_str ("[delivery]" +:+ line_feed +:+ enabled_line ["beta"])
    (set_enabled ["beta"] (write_config durable_config)) = true.
Proof. vm_compute. split; reflexivity. Qed.

(** A plain body that mentions the header is decoded as if it were chunked, and
    lost. *)
Lemma body_that_mentions_chunking_is_lost :
  let body := "see transfer-encoding: chunked" in
  http_request (λ s, s)
    (Ok (λ _, Ok (head_text ["HTTP/1.1 200 OK"; "Content-Length: 30"] +:+ crlf +:+ body)))
    "POST" "/alpha" EmptyString = Some (Ok (200, EmptyString)).
Proof. vm_compute. reflexivity. Qed.

(** A chunk size that cuts a character of the body panics. *)
Lemma chunk_that_cuts_a_character_panics :
  decode_chunks 10 EmptyString ("1" +:+ crlf +:+ of_bytes [195; 169]%nat +:+ crlf) = None.
Proof. vm_compute. reflexivity. Qed.

(** [expect_silence] takes a closed connection, or a frame that is no JSON, for
    silence. *)
Lemma closed_connection_is_silence `{Wire Value} display send_error rest k :
  expect_silence display send_error (NextClosed :: rest) k = Some (Ok ()).
Proof. reflexivity. Qed.
End witnesses.
