(* ===== verification/Revocation.v ===== *)
(** * Revocation: from [whdr token revoke] to the subscriber's program

    The command line on the control socket (ControlPlane.v), the connection task
    that sees the close signal (SubscriberWs.v), the client that reads what it
    sends, and the client that connects again (SubKit.v, Client.v). *)

From S2P Require Import Prelude.
From S2P Require Import Text.
From S2P Require Import Messages.
From S2P Require Import WireCodecs.
From S2P Require Import DeliveryLog.
From S2P Require Import Subscribers.
From S2P Require Import SubscriberWs.
From S2P Require Import SubKit.
From S2P Require Import Float64.
From S2P Require Import Backoff.
From S2P Require Import Client.
From S2P Require Import TokenStore.
From S2P Require Import Cli.
From S2P Require Import ControlPlane.

Local Open Scope Z_scope.

(** ** Definitions *)

(** A step of a connection's task after which it has stopped, [closing] with the
    reason being the last message on its socket. *)
Definition closes_with {Db : Type} {M : Wire SubServerMsg} (reason : ClosingReason)
    (out : list Message) (step : bool * WsState) : Prop :=
  step.1 = true ∧ sent (ws_sink (Db := Db) step.2) = out ++ [MText (encode (Sub_Closing reason))].

(** ** Lemmas *)

(** A connection whose task sees that its name was closed. *)
Lemma closed_connection_stops {Db Table : Type} {R : Redb Db Table} {WD : Wire StoredEvent}
    {M : Wire SubServerMsg} {C : Wire SubClientMsg} {O : HashOrder}
    reason (r : Registry Db) h k sub v out awaiting to_head to_read :
  codec_total → subs r !! k = Some sub → watches h !! sub_close_tx sub = Some v →
  closes_with reason out
    (ws_step k (sub_queue sub) (sub_close_tx sub) to_head to_read (EvCloseChanged true)
      (MkWsState r (close_named (sub_name sub) reason r h) (MkSink true out) awaiting)).
Proof.
  intros Htot Hsub Hw. unfold closes_with. cbn [ws_step ws_heap ws_sink].
  destruct (close_named_spec (sub_name sub) reason r h (sub_close_tx sub)) as [-> _];
    [|by exists k, sub]. rewrite Hw. cbn. unfold encode. specialize (Htot (Sub_Closing reason)).
  by destruct (to_string (Sub_Closing reason)).
Qed.

(** What a connected client reads after [frames] ends its loop. *)
Lemma revoked_client_stops {M : Wire SubServerMsg} {ML : WireLaws SubServerMsg} {C : Wire SubClientMsg}
    into_client_request parse_header to_str powi {H} (handler : Handler H) (cl : Client)
    authenticate name frames r v cursor sample rounds h st1 :
  (∀ v w, parse_header v = Some w → to_str w = Some v) → codec_total →
  into_client_request (cl_url cl) = Ok r → parse_header ("Bearer " +:+ cl_token cl) = Some v →
  load (ds_ops (cl_cursor_store cl)) (ds_now (cl_cursor_store cl)) = Ok cursor →
  authenticate (cl_token cl) = Some name →
  process handler (ds_ops (cl_cursor_store cl)) frames
    (MkClientState h (ResumeState_new cursor (cl_dedup_capacity cl)) (ds_now (cl_cursor_store cl)) 0)
    = (None, st1) →
  Client_run into_client_request parse_header powi handler cl
      ((server_answer to_str authenticate (frames ++ [Sub_Closing ReasonRevoked]) (MkSink true []), sample)
         :: rounds) h = Some (Returned ERevoked, [], st1).
Proof.
  intros Hrt Htot Hurl Htok Hload Hauth Hp. unfold Client_run. rewrite Hload. cbn [run_rounds].
  unfold client_session. rewrite (build_request_Ok _ _ cl r v) by done.
  rewrite (server_answer_to parse_header to_str Hrt cl r v Htok). rewrite Hauth, run_session_frames by done.
  cbn [st_handler st_resume st_store]. by rewrite process_app, Hp.
Qed.

(** ** Theorems *)

(** C10: a revocation reported [ok] is complete.  Every connection of the name sends
    [closing] as its last message and stops when its task next looks; the client
    that reads it, whatever frames it handled before, returns as revoked and
    does not reconnect; with the same token [Client::run] is refused at once;
    and the tokens and connections of other names are untouched. *)
Theorem revoked_subscribers_are_stopped
    {RQ : Wire ControlRequest} {RS : Wire ControlResponse}
    {RQL : WireLaws ControlRequest} {RSL : WireLaws ControlResponse}
    {Db Table : Type} {R : Redb Db Table} {WD : Wire StoredEvent}
    {M : Wire SubServerMsg} {ML : WireLaws SubServerMsg} {C : Wire SubClientMsg} {O : HashOrder}
    sha256_hex base64_url toml_to_string toml_from_str status display to_string_pretty debug
    into_client_request parse_header to_str powi {H} (handler : Handler H) (cl : Client) r v cursor
    name env random now (c c' : Control Db) lines to_head to_read :
  (∀ r : ControlRequest, is_ok (to_string r) = true) →
  (∀ r : ControlResponse, is_ok (to_string r) = true) → codec_total →
  toml_laws toml_to_string toml_from_str → is_file_path (ts_path (tc_store c)) →
  distinct_hashes (tc_store c) →
  (∀ v w, parse_header v = Some w → to_str w = Some v) →
  into_client_request (cl_url cl) = Ok r → parse_header ("Bearer " +:+ cl_token cl) = Some v →
  load (ds_ops (cl_cursor_store cl)) (ds_now (cl_cursor_store cl)) = Ok cursor →
  let auth := λ c, authenticate sha256_hex (tc_store c) in
  auth c (cl_token cl) = Some name →
  whdr sha256_hex base64_url toml_to_string status display to_string_pretty debug
    (CmdToken (CmdRevoke name)) (env, random, now) c = (Printed lines, c') →
  let client_run := Client_run into_client_request parse_header powi handler cl in
  lines = ["ok"]%string ∧
  (∀ k sub w out awaiting, subs (tc_subs c) !! k = Some sub → sub_name sub = name →
     watches (tc_heap c) !! sub_close_tx sub = Some w →
     closes_with ReasonRevoked out
       (ws_step k (sub_queue sub) (sub_close_tx sub) to_head to_read (EvCloseChanged true)
         (MkWsState (tc_subs c') (tc_heap c') (MkSink true out) awaiting))) ∧
  (∀ frames sample rounds h st1,
     process handler (ds_ops (cl_cursor_store cl)) frames
       (MkClientState h (ResumeState_new cursor (cl_dedup_capacity cl)) (ds_now (cl_cursor_store cl)) 0)
       = (None, st1) →
     client_run ((server_answer to_str (auth c) (frames ++ [Sub_Closing ReasonRevoked]) (MkSink true []),
                  sample) :: rounds) h = Some (Returned ERevoked, [], st1)) ∧
  (∀ frames k sample rounds h, ∃ st,
     client_run ((server_answer to_str (auth c') frames k, sample) :: rounds) h =
       Some (Returned EAuth, [], st)) ∧
  (∀ t, auth c t ≠ Some name → auth c' t = auth c t) ∧
  (∀ w, ¬ named_watch (tc_subs c) name w → watches (tc_heap c') !! w = watches (tc_heap c) !! w).
Proof.
  intros Hrq Hrs Htot Htoml Hpath Hd Hrt Hurl Htok Hload. cbv zeta. intros Hauth Hrun.
  apply (revoked_by_command _ _ _ toml_from_str) in Hrun as (-> & Hsubs & Hheap & Hnone & Hothers & _);
    [|done..].
  split_and!; [done| | | | |].
  - intros k sub w out awaiting Hsub <- Hw. rewrite Hsubs, Hheap. by eapply closed_connection_stops.
  - intros frames sample rounds h st1 Hp. by eapply revoked_client_stops.
  - intros frames k sample rounds h. eapply refused_client_stops; [done..|].
    rewrite Hothers. by rewrite decide_True.
  - intros t Ht. rewrite Hothers. by rewrite decide_False.
  - intros w Hw. rewrite Hheap. by apply close_named_spec.
Qed.

(** ** Witness *)

(** [whdr token revoke alice] on the daemon of TokenStore.v, and the client of
    Client.v that holds her token. *)
Section witnesses.
#[local] Existing Instance BitCodec.wire.
#[local] Existing Instance BitCodec.wire_laws.
#[local] Existing Instance MemDb.mem_redb.
#[local] Existing Instance some_order.

Lemma revoked_subscribers_are_stopped_witness :
  let '(outcome, c') := whdr (λ t, t) (λ t, t) DemoToml.print (λ _, Null) (λ _, EmptyString)
    (λ _, Err EmptyString) (λ _, EmptyString) (CmdToken (CmdRevoke "alice")) (all_succeed, "r", "t1")
    demo_control in
  outcome = Printed ["ok"] ∧
  (ws_step 1 10 20 Datatypes.id Datatypes.id (EvCloseChanged true)
     (MkWsState (tc_subs c') (tc_heap c') (MkSink true []) false)).1 = true ∧
  ∃ st, Client_run (λ url, Ok (MkClientRequest url ∅)) Some (λ _, two_to) quiet_handler demo_client
    [(server_answer Some (authenticate (λ t, t) (tc_store demo_control)) [Sub_Pong; Sub_Closing ReasonRevoked]
        (MkSink true []), Fin (sample_of 0))] () = Some (Returned ERevoked, [], st).
Proof.
  destruct (whdr (λ t, t) (λ t, t) DemoToml.print (λ _, Null) (λ _, EmptyString)
    (λ _, Err EmptyString) (λ _, EmptyString) (CmdToken (CmdRevoke "alice")) (all_succeed, "r", "t1")
    demo_control) as [outcome c'] eqn:Hrun.
  assert (outcome = Printed ["ok"]) as ->
    by (change outcome with (outcome, c').1; rewrite <- Hrun; vm_compute; reflexivity).
  assert (codec_total) as Htot by (intros m; reflexivity).
  assert (∀ r : ControlRequest, is_ok (to_string r) = true) as Hrq by (intros; reflexivity).
  assert (∀ r : ControlResponse, is_ok (to_string r) = true) as Hrs by (intros; reflexivity).
  assert (∀ v w : string, Some v = Some w → Some w = Some v) as Hrt by congruence.
  destruct (revoked_subscribers_are_stopped (λ t, t) (λ t, t) DemoToml.print DemoToml.parse (λ _, Null)
    (λ _, EmptyString) (λ _, Err EmptyString) (λ _, EmptyString) (λ url, Ok (MkClientRequest url ∅)) Some Some
    (λ _, two_to) quiet_handler demo_client (MkClientRequest "ws://127.0.0.1/subscribe" ∅) "Bearer tok_a" 4
    "alice" all_succeed "r" "t1" demo_control c' ["ok"] Datatypes.id Datatypes.id
    Hrq Hrs Htot DemoToml.laws demo_path demo_distinct Hrt
    eq_refl eq_refl eq_refl ltac:(vm_compute; reflexivity) Hrun)
    as (_ & Hstop & Hclient & _).
  split; [reflexivity|]. split.
  - apply (Hstop 1 sub_a None [] false); vm_compute; reflexivity.
  - eexists. apply (Hclient [Sub_Pong] (Fin (sample_of 0)) [] ()). vm_compute. reflexivity.
Defined.
End witnesses.
