(* ===== verification/Pipeline.v ===== *)
(** * Pipeline: a webhook on its way from the provider to the subscribers

    The composition of the request side: the HTTP handler looks the route up,
    [ExtHandle::dispatch] sends the request to the extension, the HMAC extension
    answers it, the reader task matches the answer to the waiting call, the call
    hands the events to the fan-out, which queues them for the subscribers, and
    the reply goes back as the response. *)

From S2P Require Import Prelude.
From S2P Require Import Text.
From S2P Require Import Channel.
From S2P Require Import Messages.
From S2P Require Import OutboundQueue.
From S2P Require Import Config.
From S2P Require Import DeliveryLog.
From S2P Require Import ChannelClaims.
From S2P Require Import Subscribers.
From S2P Require Import DispatchWindow.
From S2P Require Import AppState.
From S2P Require Import Dispatch.
From S2P Require Import Ingest.
From S2P Require Import ExtKit.
From S2P Require Import ExtHmac.

Local Open Scope Z_scope.

(** ** The composition *)

(** The daemon's side of one call: the message of the request, the extension's
    handler on it, the reader's handling of the result line, the end of the
    call. *)
Definition call_extension (b64 : string → string) (handler : SrvMsg → result string (HttpReply * list Event))
    (cfg : Config) (handle : ExtHandle) (req_id : Uuid) (r : Request) (now : Z) (rd : Reader)
    (mailbox : list SupervisorCommand) : option (Finished * Reader) :=
  match handler (dispatch_msg b64 cfg handle req_id r) with
  | Err _ => None
  | Ok (http, events) =>
      let rd' := handle_result handle req_id http events rd in
      let kept := (filter_handle handle events (rd_counters rd)).1 in
      Some (dispatch_finish cfg handle now (DispatchWindow.Result (MkExtResult http kept))
              (rd_counters rd') mailbox, rd')
  end.

(** The request as it arrived. *)
Record Webhook : Type := MkWebhook {
  wh_path : string;
  wh_query : option string;
  wh_method : string;
  wh_headers : list (string * string);
  wh_body : string
}.

Section webhook.
Context {Db Table : Type} {R : Redb Db Table} {WD : Wire StoredEvent}.
Context {M : Wire SubServerMsg} {O : HashOrder}.
(** The checks of the [http] crate, as in Ingest.v, and the extension. *)
Context (to_str : string → option string) (from_u16 : Z → option Z).
Context (header_name header_value : string → option string) (text_headers : gmap string string).
Context (b64 : string → string) (handler : SrvMsg → result string (HttpReply * list Event)).

(** [ExtHandle::dispatch] under a request id; a handler that fails ends the
    extension's process, and the call with it. *)
Definition call_result (st : Inner Db) (req_id : Uuid) (now : Z) (rd : Reader)
    (mailbox : list SupervisorCommand) (handle : ExtHandle) (r : Request)
    : result DispatchError ExtResult :=
  match call_extension b64 handler (i_config st) handle req_id r now rd mailbox with
  | Some (f, _) => f_answer f
  | None => Err Dead
  end.

(** The events [ExtHandle::dispatch] fans out before it returns: those of its
    result. *)
Definition webhook_events (call : ExtHandle → Request → result DispatchError ExtResult)
    (st : Inner Db) (w : Webhook) : list Event :=
  if max_body_bytes (limits (i_config st)) <? slen (wh_body w) then [] else
  match route_key_from_path (wh_path w) with
  | None => []
  | Some key =>
      match app_dispatch call st key
              (MkRequest (wh_method w) (wh_path w) (wh_query w)
                 (header_map_to_btree to_str (wh_headers w)) (wh_body w)) with
      | Ok r => er_events r
      | Err _ => []
      end
  end.

(** The handler with the effect of its call: the response, and the registry
    and the queues after the fan-out. *)
Definition receive_webhook (st : Inner Db) (heap : Heap) (req_id : Uuid) (now : Z) (rd : Reader)
    (mailbox : list SupervisorCommand) (ts : Z) (new_v4 : nat → Uuid) (w : Webhook)
    : Response * (Registry Db * Heap) :=
  let call := call_result st req_id now rd mailbox in
  (ingest_handler to_str from_u16 header_name header_value text_headers call st
     (wh_path w) (wh_query w) (wh_method w) (wh_headers w) (wh_body w),
   fanout (webhook_events call st w) ts new_v4 (i_subscribers st) heap).

(** *** Lemmas *)

(** A request that passes the guards is answered by its extension. *)
Lemma receive_webhook_passes (st : Inner Db) heap req_id now rd mailbox ts new_v4 w key handle r :
  slen (wh_body w) ≤ max_body_bytes (limits (i_config st)) →
  route_key_from_path (wh_path w) = Some key → dispatch_lookup key st = Ok handle →
  call_result st req_id now rd mailbox handle
    (MkRequest (wh_method w) (wh_path w) (wh_query w)
       (header_map_to_btree to_str (wh_headers w)) (wh_body w)) = Ok r →
  receive_webhook st heap req_id now rd mailbox ts new_v4 w =
    (http_reply_to_response from_u16 header_name header_value text_headers (er_http r),
     fanout (er_events r) ts new_v4 (i_subscribers st) heap).
Proof.
  intros Hsize Hkey Hroute Hcall. unfold receive_webhook, ingest_handler, webhook_events, app_dispatch.
  rewrite (proj2 (Z.ltb_ge _ _)) by lia. rewrite Hkey, Hroute. cbn [mbind result_bind].
  by rewrite Hcall.
Qed.

(** One event fanned out: one frame, queued where a pattern matches. *)
Lemma fanout_one (ev : Event) ts new_v4 (r : Registry Db) heap :
  distinct_queues r → (∀ f, is_ok (to_string (event_msg f)) = true) →
  ∃ frame text, frame_carries ts ev frame ∧ to_string (event_msg frame) = Ok text ∧
    ∀ k s, subs r !! k = Some s →
      queues (fanout [ev] ts new_v4 r heap).2 !! sub_queue s =
        (if any_matches (sub_patterns s) (channel ev) then push_event text else Datatypes.id) <$>
          queues heap !! sub_queue s.
Proof.
  intros Hdist Htot. destruct (fanout_stamp_carries [ev] ts new_v4 r) as [Hcar Hsubs].
  cbn [fanout]. destruct (fanout_stamp [ev] ts new_v4 r) as [frames r']. cbn [fst snd] in *.
  apply Forall2_cons_inv_l in Hcar as (frame & rest & Hcar & Hrest & ->).
  apply Forall2_nil_inv_l in Hrest as ->. specialize (Htot frame).
  destruct (to_string (event_msg frame)) as [text|] eqn:Htext; [|done].
  exists frame, text. split; [done|]. split; [done|]. intros k s Hs.
  assert (distinct_queues r') as Hdist' by (unfold distinct_queues; by rewrite Hsubs).
  rewrite (fanout_deliver_own _ _ _ k s Hdist') by by rewrite Hsubs.
  unfold texts_for. cbn [omap list_omap]. destruct Hcar as (-> & _ & _).
  destruct (any_matches _ _); [rewrite Htext|]; done.
Qed.
End webhook.

(** ** Lemmas *)

Lemma finish_of_result handle req_id http events rd cfg now mailbox c0 :
  counters_ok (rd_counters rd) → pending (rd_window rd) !! req_id = Some c0 →
  let kept := filter (λ ev, owned (h_paths handle) (h_channels handle) ev) events in
  (filter_handle handle events (rd_counters rd)).1 = kept ∧
  let f := dispatch_finish cfg handle now (DispatchWindow.Result (MkExtResult http kept))
    (rd_counters (handle_result handle req_id http events rd)) mailbox in
  f_answer f = Ok (MkExtResult http kept) ∧ f_fanout f = kept.
Proof.
  intros [Hv _] Hp. cbv zeta. rewrite filter_handle_spec by done. split; [done|].
  unfold handle_result. rewrite Hp, filter_handle_spec by done. cbn [dispatch_finish rd_counters].
  rewrite filter_handle_spec by apply wrap64_range. cbn [f_answer f_fanout er_events er_http].
  by rewrite filter_kept.
Qed.

(** ** Theorems *)

(** One call, end to end on the request side, with the secret the daemon holds for the
    HMAC extension: a request whose header signs its body is answered 200 and
    its body, byte for byte, is published once under a channel at or below the
    extension's prefix; a request that does not is answered 401 and nothing is
    published. *)
Theorem signed_webhooks_are_published `{CodecLaws} mac config cfg handle req_id r now rd mailbox c0 s :
  counters_ok (rd_counters rd) → pending (rd_window rd) !! req_id = Some c0 →
  secrets cfg !! h_id handle = Some s →
  channel_prefix config ∈ h_channels handle → channel_grammar (channel_prefix config) →
  let run := call_extension b64_encode (handle_hmac_dispatch mac config) cfg handle req_id r now
               rd mailbox in
  (signed mac config (rq_headers r) s (rq_body r) →
   ∃ f rd' ch, run = Some (f, rd') ∧ f_answer f = Ok (MkExtResult (text_reply 200 "ok") (f_fanout f)) ∧
     f_fanout f = [MkEvent ch (b64_encode (rq_body r))] ∧
     tokens (channel_prefix config) `prefix_of` tokens ch) ∧
  (¬ signed mac config (rq_headers r) s (rq_body r) →
   ∃ f rd' reply, run = Some (f, rd') ∧ f_answer f = Ok (MkExtResult reply []) ∧
     status reply = 401 ∧ f_fanout f = []).
Proof.
  intros Hok Hp Hs Hin Hg. cbv zeta. unfold call_extension, dispatch_msg. rewrite Hs. split.
  - intros Hsig. rewrite handle_hmac_signed by done.
    destruct (derive_channel_extends (channel_prefix config) (rq_path r) Hg) as [Hcg Hpre].
    set (ev := MkEvent (derive_channel (channel_prefix config) (rq_path r)) (b64_encode (rq_body r))).
    destruct (finish_of_result handle req_id (text_reply 200 "ok") [ev] rd cfg now mailbox c0 Hok Hp)
      as (-> & Hans & Hfan).
    assert (filter (λ ev, owned (h_paths handle) (h_channels handle) ev) [ev] = [ev]) as Hkept.
    { apply filter_all. constructor; [|done]. unfold owned. apply Is_true_true, is_ok_Ok.
      apply validate_emitted_Ok. split; [done|]. right. by exists (channel_prefix config). }
    rewrite Hkept in *. eexists _, _, _. split; [done|]. rewrite Hans, Hfan. done.
  - intros Hno.
    destruct (handle_hmac_unsigned mac config req_id (rq_method r) (rq_path r) (rq_query r)
      (rq_headers r) (rq_body r) (Some s)) as (reply & -> & Hst).
    { by intros (s' & [= <-] & Hsig). }
    destruct (finish_of_result handle req_id reply [] rd cfg now mailbox c0 Hok Hp)
      as (-> & Hans & Hfan).
    eexists _, _, reply. split; [done|]. rewrite Hans, Hfan. done.
Qed.

(** The whole program on one webhook, from the HTTP request to the queues of
    the subscribers: a request for the HMAC extension's route whose header signs
    its body is answered 200, and its body, byte for byte, is queued once for
    each connection one of whose patterns matches the derived channel, which is
    at or below the extension's prefix, and for no other; a request that does
    not sign its body is answered 401 and changes nothing. *)
Theorem webhooks_reach_subscribers `{CodecLaws} {Db Table : Type} {R : Redb Db Table}
    {WD : Wire StoredEvent} {M : Wire SubServerMsg} {O : HashOrder}
    to_str from_u16 header_name header_value text_headers mac config (st : Inner Db) heap req_id now
    rd mailbox c0 ts new_v4 w key handle s :
  counters_ok (rd_counters rd) → pending (rd_window rd) !! req_id = Some c0 →
  route_key_from_path (wh_path w) = Some key → dispatch_lookup key st = Ok handle →
  slen (wh_body w) ≤ max_body_bytes (limits (i_config st)) →
  secrets (i_config st) !! h_id handle = Some s →
  channel_prefix config ∈ h_channels handle → channel_grammar (channel_prefix config) →
  from_u16 200 = Some 200 → from_u16 401 = Some 401 →
  distinct_queues (i_subscribers st) → (∀ f, is_ok (to_string (event_msg f)) = true) →
  let sent := receive_webhook to_str from_u16 header_name header_value text_headers b64_encode
                (handle_hmac_dispatch mac config) st heap req_id now rd mailbox ts new_v4 w in
  let is_signed := signed mac config (header_map_to_btree to_str (wh_headers w)) s (wh_body w) in
  (is_signed → rs_status sent.1 = 200 ∧
   ∃ frame text, tokens (channel_prefix config) `prefix_of` tokens (sf_channel frame) ∧
     sf_payload_b64 frame = b64_encode (wh_body w) ∧ to_string (event_msg frame) = Ok text ∧
     ∀ k sub, subs (i_subscribers st) !! k = Some sub →
       queues sent.2.2 !! sub_queue sub =
         (if any_matches (sub_patterns sub) (sf_channel frame) then push_event text
          else Datatypes.id) <$> queues heap !! sub_queue sub) ∧
  (¬ is_signed → rs_status sent.1 = 401 ∧ sent.2 = (i_subscribers st, heap)).
Proof.
  intros Hok Hp Hkey Hroute Hsize Hs Hin Hg H200 H401 Hdist Htot. cbv zeta.
  destruct (signed_webhooks_are_published mac config (i_config st) handle req_id
    (MkRequest (wh_method w) (wh_path w) (wh_query w) (header_map_to_btree to_str (wh_headers w))
       (wh_body w)) now rd mailbox c0 s Hok Hp Hs Hin Hg) as [Hyes Hno].
  cbn [rq_headers rq_body] in Hyes, Hno. split.
  - intros Hsig. destruct (Hyes Hsig) as (f & rd' & ch & Hrun & Hans & Hfan & Hpre).
    erewrite receive_webhook_passes; [|done..|unfold call_result; by rewrite Hrun].
    cbn [fst snd er_http er_events]. split; [simpl; by rewrite H200|]. rewrite Hfan.
    destruct (fanout_one (MkEvent ch (b64_encode (wh_body w))) ts new_v4 (i_subscribers st) heap)
      as (frame & text & (Hch & Hpay & _) & Htext & Hq); [done..|].
    exists frame, text. rewrite Hch. done.
  - intros Hns. destruct (Hno Hns) as (f & rd' & reply & Hrun & Hans & Hst & Hfan).
    erewrite receive_webhook_passes; [|done..|unfold call_result; by rewrite Hrun].
    cbn [fst snd er_http er_events]. split; [simpl; by rewrite Hst, H401|done].
Qed.

(** ** Witnesses *)

Definition hmac_handle : ExtHandle :=
  MkExtHandle "hmac" "hmac" 3 "/bin/whdr-ext-hmac" ["hmac"] ["hmac"] None.
Definition hmac_config_file : Config :=
  MkConfig ServerConfig_default SubscribersConfig_default ExtensionsConfig_default
    LimitsConfig_default TimeoutsConfig_default DeliveryConfig_default None {[ "hmac" := "k" ]}.
Definition signed_request : Request :=
  MkRequest "POST" "/hmac/Stripe" None
    {[ "x-signature" := sign (H := HexCodec.codec) (λ _, demo_mac) HmacConfig_default "k" "{}" ]} "{}".

Lemma signed_webhooks_are_published_witness :
  ∃ f rd' ch, call_extension HexCodec.to_hex
      (handle_hmac_dispatch (H := HexCodec.codec) (λ _, demo_mac) HmacConfig_default)
      hmac_config_file hmac_handle 5 signed_request 9 waiting_reader [] = Some (f, rd') ∧
    f_fanout f = [MkEvent ch (HexCodec.to_hex "{}")] ∧ tokens "hmac" `prefix_of` tokens ch.
Proof.
  assert (counters_ok (rd_counters waiting_reader)) as Hok by (repeat split; vm_compute; congruence).
  assert (pending (rd_window waiting_reader) !! 5 = Some 0%nat) as Hp by (vm_compute; reflexivity).
  assert (secrets hmac_config_file !! h_id hmac_handle = Some "k"%string) as Hs
    by (vm_compute; reflexivity).
  assert (channel_grammar "hmac") as Hg by (apply cg_last; vm_compute; reflexivity).
  destruct (@signed_webhooks_are_published HexCodec.codec HexCodec.laws (λ _, demo_mac)
    HmacConfig_default hmac_config_file hmac_handle 5 signed_request 9 waiting_reader [] 0%nat "k"
    Hok Hp Hs ltac:(left) Hg) as [Hsigned _].
  destruct Hsigned as (f & rd' & ch & Hrun & _ & Hfan & Hpre).
  - apply (@sign_signed HexCodec.codec (λ _, demo_mac) HexCodec.laws). vm_compute. reflexivity.
  - exists f, rd', ch. split; [exact Hrun|]. split; [exact Hfan|exact Hpre].
Defined.

(** A daemon with the HMAC extension and two connections, one of them interested
    in its channels. *)
#[local] Existing Instance MemDb.mem_redb.
#[local] Existing Instance BitCodec.wire.
#[local] Existing Instance some_order.

Definition hmac_subs : Registry (list (Z * string)) :=
  MkRegistry (<[1 := MkSubscriber "alice" None [MkPattern "hmac.>"] 10 20]> (<[2 := sub_b]> ∅))
    3 0 None 0.
Definition hmac_state : Inner (list (Z * string)) :=
  let blank := MkInner hmac_config_file (i_token_store blank_state) ∅ ∅ ∅ ∅ ∅ ∅ hmac_subs ∅ false 0 in
  unwrap_or blank (register_extension hmac_handle blank).
Definition stripe_webhook : Webhook :=
  MkWebhook "/hmac/Stripe" None "POST"
    [("X-Signature", sign (H := HexCodec.codec) (λ _, demo_mac) HmacConfig_default "k" "{}")] "{}".

Lemma hmac_subs_distinct : distinct_queues hmac_subs.
Proof.
  intros i j s t. cbn [hmac_subs subs]. rewrite !lookup_insert_Some, lookup_empty.
  intros [[<- <-]|[_ [[<- <-]|[_ ?]]]] [[<- <-]|[_ [[<- <-]|[_ ?]]]]; done.
Qed.

Lemma webhooks_reach_subscribers_witness :
  let sent := receive_webhook Some Some Some Some ∅ HexCodec.to_hex
    (handle_hmac_dispatch (H := HexCodec.codec) (λ _, demo_mac) HmacConfig_default)
    hmac_state two_queues 5 9 waiting_reader [] 1000 (λ _, 77) stripe_webhook in
  rs_status sent.1 = 200 ∧
  ∃ frame text, sf_payload_b64 frame = HexCodec.to_hex "{}" ∧
    queues sent.2.2 !! 10 =
      Some ((if any_matches [MkPattern "hmac.>"] (sf_channel frame) then push_event text
             else Datatypes.id) (OutboundQueue_new 4 4000)).
Proof.
  assert (counters_ok (rd_counters waiting_reader)) as Hok by (repeat split; vm_compute; congruence).
  assert (pending (rd_window waiting_reader) !! 5 = Some 0%nat) as Hp by (vm_compute; reflexivity).
  assert (route_key_from_path (wh_path stripe_webhook) = Some "hmac"%string) as Hkey
    by (vm_compute; reflexivity).
  assert (dispatch_lookup "hmac" hmac_state = Ok hmac_handle) as Hroute by (vm_compute; reflexivity).
  assert (slen (wh_body stripe_webhook) ≤ max_body_bytes (limits (i_config hmac_state))) as Hsize
    by (vm_compute; discriminate).
  assert (secrets (i_config hmac_state) !! h_id hmac_handle = Some "k"%string) as Hs
    by (vm_compute; reflexivity).
  assert (channel_grammar "hmac") as Hg by (apply cg_last; vm_compute; reflexivity).
  assert (i_subscribers hmac_state = hmac_subs) as Hsubs by (vm_compute; reflexivity).
  assert (distinct_queues (i_subscribers hmac_state)) as Hdist
    by (rewrite Hsubs; exact hmac_subs_distinct).
  destruct (@webhooks_reach_subscribers HexCodec.codec HexCodec.laws _ _ MemDb.mem_redb
    BitCodec.wire BitCodec.wire some_order Some Some Some Some ∅ (λ _, demo_mac) HmacConfig_default
    hmac_state two_queues 5 9 waiting_reader [] 0%nat 1000 (λ _, 77) stripe_webhook "hmac" hmac_handle
    "k" Hok Hp Hkey Hroute Hsize Hs ltac:(left) Hg eq_refl eq_refl Hdist ltac:(intros f; reflexivity))
    as [Hsigned _].
  destruct Hsigned as (Hst & frame & text & _ & Hpay & _ & Hq).
  - apply (@sign_signed HexCodec.codec (λ _, demo_mac) HexCodec.laws). vm_compute. reflexivity.
  - cbv zeta. split; [exact Hst|]. rewrite Hsubs in Hq. exists frame, text. split; [assumption|].
    exact (Hq 1 (MkSubscriber "alice" None [MkPattern "hmac.>"] 10 20) eq_refl).
Defined.
