(* ===== verification/Delivery.v ===== *)
(** * Delivery: a webhook on its way to the handler of a client

    Pipeline.v up to the queues of the subscribers, then the connection task of
    SubscriberWs.v that takes the frame from the queue to the socket, then the
    client of SubKit.v that reads it and calls its handler. *)

From S2P Require Import Prelude.
From S2P Require Import Text.
From S2P Require Import Channel.
From S2P Require Import Messages.
From S2P Require Import WireCodecs.
From S2P Require Import OutboundQueue.
From S2P Require Import Config.
From S2P Require Import DeliveryLog.
From S2P Require Import ChannelClaims.
From S2P Require Import Subscribers.
From S2P Require Import SubscriberWs.
From S2P Require Import SubKit.
From S2P Require Import EndToEnd.
From S2P Require Import DispatchWindow.
From S2P Require Import AppState.
From S2P Require Import Dispatch.
From S2P Require Import Ingest.
From S2P Require Import ExtKit.
From S2P Require Import ExtHmac.
From S2P Require Import Pipeline.

Local Open Scope Z_scope.

(** ** Definitions *)

(** [DeliveredEvent::payload]. *)
Definition payload (b64_decode : string → option string) (e : DeliveredEvent) : option string :=
  b64_decode (de_payload_b64 e).

(** A frame as the client sees it. *)
Definition event_of (f : StampedFrame) : DeliveredEvent :=
  MkDeliveredEvent (sf_id f) (sf_seq f) (sf_ts_ms f) (sf_channel f) (sf_payload_b64 f).

(** Nothing waits in the queue and no loss is to be reported. *)
Definition idle (q : OutboundQueue) : Prop := inner q = [] ∧ lag_pending q = 0.

(** ** Lemmas *)

Section connection.
Context {Db Table : Type} {R : Redb Db Table} {WD : Wire StoredEvent}.
Context {M : Wire SubServerMsg} {C : Wire SubClientMsg} {O : HashOrder}.

(** The task of an idle connection, after an event was pushed or not. *)
Lemma idle_connection_sends (r : Registry Db) h k qr w to_head to_read awaiting alive out q t :
  idle q → slen t ≤ max_event_bytes q → alive = true →
  queues h !! qr = Some (push_event t q) →
  let step := ws_step k qr w to_head to_read (EvPop Datatypes.id)
                (MkWsState r h (MkSink alive out) awaiting) in
  step.1 = false ∧ ws_sink step.2 = MkSink true (out ++ [MText t]).
Proof.
  intros [Hin Hlag] Ht -> Hq. cbn [ws_step ws_heap]. rewrite Hq. unfold push_event.
  rewrite (proj2 (Z.ltb_ge _ _)) by done. rewrite Hin. cbn [length evict set_inner inner pop app is_event].
  rewrite Hin. cbn [app pop inner set_inner is_event]. unfold send_frame. cbn.
  rewrite lookup_alter_eq, Hq. cbn. by rewrite Hlag.
Qed.

Lemma idle_connection_waits (r : Registry Db) h k qr w to_head to_read awaiting sink q :
  inner q = [] → queues h !! qr = Some q →
  ws_sink (ws_step k qr w to_head to_read (EvPop Datatypes.id) (MkWsState r h sink awaiting)).2 = sink.
Proof. intros Hin Hq. cbn [ws_step ws_heap]. rewrite Hq. unfold pop. by rewrite Hin. Qed.
End connection.

(** The client, on a frame past its cursor that it has not seen. *)
Lemma client_handles {H St : Type} {M : Wire SubServerMsg} {ML : WireLaws SubServerMsg}
    {C : Wire SubClientMsg} (hd : Handler H) (store : CursorStore St) k name
    (st : ClientState (H * list DeliveredEvent) St) f :
  accepting hd store → codec_total → cursor (st_resume st) < sf_seq f →
  sf_id f ∉ seen (st_resume st) →
  ∃ st', session_loop (logged hd) store 1
      (MkConnection [Ok (MText (encode (event_msg f)))] k name) st =
      Some (Err EConnectionClosed, st') ∧
    (st_handler st').2 = (st_handler st).2 ++ [event_of f] ∧ cursor (st_resume st') = sf_seq f.
Proof.
  intros Hok Htot Hcur Hid.
  destruct (process_events hd store Hok [event_of f] st) as (st' & Hp & Hlog & Hc & _).
  { split; [by repeat constructor|]. split; [apply NoDup_singleton|].
    by intros e ->%list_elem_of_singleton. }
  exists st'. rewrite filter_cons_True, filter_nil in Hlog, Hc by done. split; [|done].
  pose proof (session_loop_frames (logged hd) store 1 [ev_msg (event_of f)] k name st Htot
    (Nat.le_refl 1)) as Hs. cbn [fmap list_fmap] in Hp. rewrite Hp in Hs. exact Hs.
Qed.

(** ** Theorems *)


(** ** Witness *)

(** [alice] of Pipeline.v is idle; her client has handled nothing yet. *)
Section witnesses.
#[local] Existing Instance MemDb.mem_redb.
#[local] Existing Instance BitCodec.wire.
#[local] Existing Instance BitCodec.wire_laws.
#[local] Existing Instance some_order.
#[local] Existing Instance HexCodec.codec.
#[local] Existing Instance HexCodec.laws.

Definition alice_sub : Subscriber := MkSubscriber "alice" None [MkPattern "hmac.>"] 10 20.
Definition stripe_outcome : Response * (Registry (list (Z * string)) * Heap) :=
  receive_webhook Some Some Some Some ∅ b64_encode
    (handle_hmac_dispatch (λ _, demo_mac) HmacConfig_default)
    hmac_state two_queues 5 9 waiting_reader [] 1000 (λ _, 77) stripe_webhook.

End witnesses.
